(** * The thread-coordination layer of the embeddable V8: v8threads.cc

    A shallow embedding of [src/v8threads.cc] (the big lock, thread ids,
    the lazy archive/restore protocol of [ThreadManager], the [Locker] and
    [Unlocker] guards, the [ContextSwitcher], the walks over the archived
    states), of the archive pair of [src/regexp-stack.cc] and of the binding
    of the execution context in [src/v8-global-context.cc], followed by the
    properties of the design document that are stated about them.

    For the thread manager one execution context ([V8Context]) is modelled;
    every operation takes the calling OS thread and the context it resolves
    with [v8_context()] explicitly and returns the context it leaves behind.
    The binding is modelled apart, on the state of the process. *)

From Stdlib Require Import ZArith Lia.
From coqutil Require Import Byte Word.LittleEndianList.
From stdpp Require Import base tactics option gmap functions list.

Local Open Scope Z_scope.

(** ** Outcomes

    A call returns ([Ok]), waits on the big lock held by someone else
    ([Blocked]), dies ([Fatal]: a failed [ASSERT] of a debug build, a
    dereference of [NULL] or of a pointer to no object, a write past the end
    of a buffer), or is cut off by the bound put on a loop ([OutOfFuel]). *)

Inductive Result (A : Type) : Type :=
  | Ok (a : A)
  | Blocked
  | Fatal
  | OutOfFuel.
Arguments Ok {A} a.
Arguments Blocked {A}.
Arguments Fatal {A}.
Arguments OutOfFuel {A}.

#[global] Instance Result_ret : MRet Result := fun A a => Ok a.
#[global] Instance Result_bind : MBind Result := fun A B f m =>
  match m with
  | Ok a => f a
  | Blocked => Blocked
  | Fatal => Fatal
  | OutOfFuel => OutOfFuel
  end.

Definition is_Ok {A} (r : Result A) : bool :=
  match r with Ok _ => true | _ => false end.

(** ** Threads, handles, pointers *)

(** An OS thread is named by a number. *)
Abbreviation Thread := nat (only parsing).

(** Modelled from the spec: [ThreadHandle] is platform code that is not part
    of this unit.  "An opaque identity value with three states: invalid,
    self, or a concrete identity; comparable for equality".
    [Initialize(SELF)] run by thread [t] stores the identity of [t]. *)
Inductive ThreadHandle : Type :=
  | INVALID
  | Identity (t : Thread).

#[global] Instance ThreadHandle_eq_dec : EqDecision ThreadHandle.
Proof. solve_decision. Defined.

Inductive ThreadHandleKind := kINVALID | kSELF.

Definition ThreadHandle_Initialize (self : Thread) (k : ThreadHandleKind)
  : ThreadHandle :=
  match k with
  | kINVALID => INVALID
  | kSELF => Identity self
  end.

Definition IsSelf (self : Thread) (h : ThreadHandle) : bool :=
  bool_decide (h = Identity self).

Definition IsValid (h : ThreadHandle) : bool :=
  bool_decide (h ≠ INVALID).

(** A [ThreadState*] that is not [NULL] is an index into the store of
    allocated [ThreadState] objects; a nullable pointer is an [option]. *)
Abbreviation ptr := nat (only parsing).

Definition kInvalidId : Z := 0.

(** ** ThreadState *)

Record ThreadState : Type := mkThreadState {
  id_ : Z;
  terminate_on_restore_ : bool;
  data_ : list Byte.byte;
  next_ : ptr;
  previous_ : ptr;
}.

Definition set_id (v : Z) (s : ThreadState) : ThreadState :=
  mkThreadState v (terminate_on_restore_ s) (data_ s) (next_ s) (previous_ s).
Definition set_terminate_on_restore (v : bool) (s : ThreadState) : ThreadState :=
  mkThreadState (id_ s) v (data_ s) (next_ s) (previous_ s).
Definition set_data (v : list Byte.byte) (s : ThreadState) : ThreadState :=
  mkThreadState (id_ s) (terminate_on_restore_ s) v (next_ s) (previous_ s).
Definition set_next (v : ptr) (s : ThreadState) : ThreadState :=
  mkThreadState (id_ s) (terminate_on_restore_ s) (data_ s) v (previous_ s).
Definition set_previous (v : ptr) (s : ThreadState) : ThreadState :=
  mkThreadState (id_ s) (terminate_on_restore_ s) (data_ s) (next_ s) v.

(** The store of [ThreadState] objects: [new ThreadState()] appends, and
    nothing is ever deleted. *)
Abbreviation Store := (list ThreadState) (only parsing).


(** ** The archivable subsystems *)

Inductive Subsystem : Type :=
  | HandleScopeImplementer
  | Top
  | Relocatable
  | Debug
  | StackGuard
  | RegExpStack
  | Bootstrapper.

#[global] Instance Subsystem_eq_dec : EqDecision Subsystem.
Proof. solve_decision. Defined.

(** Modelled from the spec: of the seven subsystems only [RegExpStack] has
    its archive functions in this unit.  The others are taken through the
    contract of the design document: [Archive] writes the thread's live
    state at the cursor and returns the position just after the written
    bytes, leaving some live state behind; [Restore] reads the footprint
    back into the live state; [FreeThreadResources] releases it. *)
Record Archivable (T : Type) : Type := mkArchivable {
  ArchiveSpacePerThread : nat;
  Archive : T → list byte * T;
  Restore : list byte → T → T;
  FreeThreadResources : T → T;
}.
Arguments ArchiveSpacePerThread {T} _.
Arguments Archive {T} _ _.
Arguments Restore {T} _ _ _.
Arguments FreeThreadResources {T} _ _.

(** The thread-local record of the regexp backtrack stack
    ([RegExpStackData::ThreadLocal]): two addresses and a size. *)
Record ThreadLocal : Type := mkThreadLocal {
  memory_ : Z;
  memory_size_ : Z;
  limit_ : Z;
}.

(** The calls into [StackGuard] made by this unit. *)
Inductive StackGuardCall : Type :=
  | InitThread
  | ClearThread
  | TerminateExecution
  | Preempt.

#[global] Instance StackGuardCall_eq_dec : EqDecision StackGuardCall.
Proof. solve_decision. Defined.

(** What the unit leaves open: build flags, the word size, and the code of
    the collaborators it calls. *)
Class Build : Type := {
  (** [ASSERT] is checked *)
  DEBUG : bool;
  ENABLE_DEBUGGER_SUPPORT : bool;
  (** bytes in a pointer and in a [size_t] *)
  kPointerSize : nat;
  (** the value built by [RegExpStackData::ThreadLocal()] *)
  ThreadLocal_new : ThreadLocal;
  (** the live per-thread state of a subsystem other than [RegExpStack] *)
  ExtState : Type;
  ext : Subsystem → Archivable ExtState;
  ext_new : Subsystem → ExtState;
  (** [Top::set_thread_id], on the live state of [Top] *)
  Top_set_thread_id : Z → ExtState → ExtState;
  (** the effect of a [StackGuard] call on the live state of [StackGuard] *)
  StackGuard_effect : StackGuardCall → ExtState → ExtState;
}.

(** What the calls into other units leave in the trace. *)
Inductive Event : Type :=
  | EvArchive (s : Subsystem)
  | EvRestore (s : Subsystem)
  | EvFreeThreadResources (s : Subsystem)
  | EvStackGuard (c : StackGuardCall)
  | EvV8Initialize.

#[global] Instance Event_eq_dec : EqDecision Event.
Proof. solve_decision. Defined.

(** ** ThreadManagerData and the context *)

Record ThreadManagerData : Type := mkThreadManagerData {
  last_id_ : Z;
  (** the OS mutex: the thread that is inside it *)
  mutex_ : option Thread;
  mutex_owner_ : ThreadHandle;
  lazily_archived_thread_ : ThreadHandle;
  lazily_archived_thread_state_ : option ptr;
  free_anchor_ : ptr;
  in_use_anchor_ : ptr;
  (** the thread-local slot of each thread under the two keys; a slot that
      holds [NULL] is absent from the first map, an absent slot of the second
      reads 0 *)
  thread_state_key_ : gmap Thread ptr;
  thread_id_key_ : gmap Thread Z;
}.

Definition set_last_id (v : Z) (d : ThreadManagerData) :=
  mkThreadManagerData v (mutex_ d) (mutex_owner_ d)
    (lazily_archived_thread_ d) (lazily_archived_thread_state_ d)
    (free_anchor_ d) (in_use_anchor_ d) (thread_state_key_ d) (thread_id_key_ d).
Definition set_mutex (v : option Thread) (d : ThreadManagerData) :=
  mkThreadManagerData (last_id_ d) v (mutex_owner_ d)
    (lazily_archived_thread_ d) (lazily_archived_thread_state_ d)
    (free_anchor_ d) (in_use_anchor_ d) (thread_state_key_ d) (thread_id_key_ d).
Definition set_mutex_owner (v : ThreadHandle) (d : ThreadManagerData) :=
  mkThreadManagerData (last_id_ d) (mutex_ d) v
    (lazily_archived_thread_ d) (lazily_archived_thread_state_ d)
    (free_anchor_ d) (in_use_anchor_ d) (thread_state_key_ d) (thread_id_key_ d).
Definition set_lazily_archived_thread (v : ThreadHandle) (d : ThreadManagerData) :=
  mkThreadManagerData (last_id_ d) (mutex_ d) (mutex_owner_ d)
    v (lazily_archived_thread_state_ d)
    (free_anchor_ d) (in_use_anchor_ d) (thread_state_key_ d) (thread_id_key_ d).
Definition set_lazily_archived_thread_state (v : option ptr) (d : ThreadManagerData) :=
  mkThreadManagerData (last_id_ d) (mutex_ d) (mutex_owner_ d)
    (lazily_archived_thread_ d) v
    (free_anchor_ d) (in_use_anchor_ d) (thread_state_key_ d) (thread_id_key_ d).
Definition set_thread_state_key (v : gmap Thread ptr) (d : ThreadManagerData) :=
  mkThreadManagerData (last_id_ d) (mutex_ d) (mutex_owner_ d)
    (lazily_archived_thread_ d) (lazily_archived_thread_state_ d)
    (free_anchor_ d) (in_use_anchor_ d) v (thread_id_key_ d).
Definition set_thread_id_key (v : gmap Thread Z) (d : ThreadManagerData) :=
  mkThreadManagerData (last_id_ d) (mutex_ d) (mutex_owner_ d)
    (lazily_archived_thread_ d) (lazily_archived_thread_state_ d)
    (free_anchor_ d) (in_use_anchor_ d) (thread_state_key_ d) v.

Section Context_.
Context `{B : Build}.

(** The live (not archived) per-thread state of the seven subsystems. *)
Record Live : Type := mkLive {
  ext_live : Subsystem → ExtState;
  thread_local_ : ThreadLocal;
}.

(** The part of [V8Context] this unit works on, the [ThreadState] objects
    it allocates, and the trace of its calls into other units. *)
Record V8Context : Type := mkV8Context {
  thread_manager_data_ : ThreadManagerData;
  thread_states : Store;
  (** [v8_data_.active_] *)
  active_ : bool;
  (** what [V8::IsRunning()] reports *)
  is_running : bool;
  live : Live;
  trace : list Event;
}.

Definition with_tmd (f : ThreadManagerData → ThreadManagerData) (c : V8Context) :=
  mkV8Context (f (thread_manager_data_ c)) (thread_states c) (active_ c)
    (is_running c) (live c) (trace c).
Definition with_thread_states (f : Store → Store) (c : V8Context) :=
  mkV8Context (thread_manager_data_ c) (f (thread_states c)) (active_ c)
    (is_running c) (live c) (trace c).
Definition set_active (v : bool) (c : V8Context) :=
  mkV8Context (thread_manager_data_ c) (thread_states c) v
    (is_running c) (live c) (trace c).
Definition set_is_running (v : bool) (c : V8Context) :=
  mkV8Context (thread_manager_data_ c) (thread_states c) (active_ c)
    v (live c) (trace c).
Definition with_live (f : Live → Live) (c : V8Context) :=
  mkV8Context (thread_manager_data_ c) (thread_states c) (active_ c)
    (is_running c) (f (live c)) (trace c).
Definition with_trace (f : list Event → list Event) (c : V8Context) :=
  mkV8Context (thread_manager_data_ c) (thread_states c) (active_ c)
    (is_running c) (live c) (f (trace c)).

Definition with_ext (s : Subsystem) (f : ExtState → ExtState) (l : Live) : Live :=
  mkLive (<[s := f (ext_live l s)]> (ext_live l)) (thread_local_ l).
Definition set_thread_local (v : ThreadLocal) (l : Live) : Live :=
  mkLive (ext_live l) v.

(** ** The monad of the operations: state and outcome *)

Definition M (A : Type) : Type := V8Context → Result (A * V8Context).

#[global] Instance M_ret : MRet M := fun A a c => Ok (a, c).
#[global] Instance M_bind : MBind M := fun A B f m c =>
  match m c with
  | Ok (a, c') => f a c'
  | Blocked => Blocked
  | Fatal => Fatal
  | OutOfFuel => OutOfFuel
  end.

Definition gets {A} (f : V8Context → A) : M A := fun c => Ok (f c, c).
Definition modify (f : V8Context → V8Context) : M unit := fun c => Ok (tt, f c).
Definition fatal {A} : M A := fun _ => Fatal.
Definition blocked {A} : M A := fun _ => Blocked.
Definition out_of_fuel {A} : M A := fun _ => OutOfFuel.
Definition emit (e : Event) : M unit := modify (with_trace (λ t, t ++ [e])).
Definition tmd {A} (f : ThreadManagerData → A) : M A :=
  gets (λ c, f (thread_manager_data_ c)).

Definition ASSERT (b : bool) : M unit :=
  if DEBUG then (if b then mret tt else fatal) else mret tt.

(** [p->field] *)
Definition load {A} (p : ptr) (field : ThreadState → A) : M A := fun c =>
  match thread_states c !! p with
  | Some s => Ok (field s, c)
  | None => Fatal
  end.

(** [p->field = v], as [upd] on the object *)
Definition store (p : ptr) (upd : ThreadState → ThreadState) : M unit := fun c =>
  match thread_states c !! p with
  | Some s => Ok (tt, with_thread_states (λ h, <[p := upd s]> h) c)
  | None => Fatal
  end.

(** [new ThreadState()]: the constructor links the object to itself. *)
Definition new_ThreadState : M ptr := fun c =>
  let this := length (thread_states c) in
  Ok (this,
      with_thread_states
        (λ h, h ++ [mkThreadState kInvalidId false [] this this]) c).

(** ** Thread-local storage *)

Definition Thread_GetThreadLocal (self : Thread) : M (option ptr) :=
  tmd (λ d, thread_state_key_ d !! self).
Definition Thread_SetThreadLocal (self : Thread) (v : option ptr) : M unit :=
  modify (with_tmd (λ d,
    set_thread_state_key
      (match v with
       | Some p => <[self := p]> (thread_state_key_ d)
       | None => delete self (thread_state_key_ d)
       end) d)).
Definition Thread_GetThreadLocalInt (self : Thread) : M Z :=
  tmd (λ d, default 0 (thread_id_key_ d !! self)).
Definition Thread_SetThreadLocalInt (self : Thread) (v : Z) : M unit :=
  modify (with_tmd (λ d, set_thread_id_key (<[self := v]> (thread_id_key_ d)) d)).

(** ** Buffers

    A [char*] into the buffer of a [ThreadState]: the object and the offset. *)
Definition Cursor : Type := ptr * nat.

Definition advance (c : Cursor) (n : nat) : Cursor := (c.1, (c.2 + n)%nat).

(** [memcpy(to, bytes, length bytes)] *)
Definition memcpy_to (to : Cursor) (bytes : list byte) : M unit :=
  buf ← load to.1 data_;
  if decide (to.2 + length bytes ≤ length buf)%nat
  then store to.1
         (set_data (take to.2 buf ++ bytes ++ drop (to.2 + length bytes) buf))
  else fatal.

(** the [n] bytes read by [memcpy(_, from, n)] *)
Definition memcpy_from (from : Cursor) (n : nat) : M (list byte) :=
  buf ← load from.1 data_;
  if decide (from.2 + n ≤ length buf)%nat
  then mret (take n (drop from.2 buf))
  else fatal.

(** ** regexp-stack.cc: the archive pair of [RegExpStack] *)

Definition sizeof_ThreadLocal : nat := (3 * kPointerSize)%nat.

(** The bytes [memcpy] sees in a [ThreadLocal]: its three fields in
    declaration order, each of pointer size, least significant byte first. *)
Definition object_representation (x : ThreadLocal) : list byte :=
  le_split kPointerSize (memory_ x) ++
  le_split kPointerSize (memory_size_ x) ++
  le_split kPointerSize (limit_ x).

Definition object_of_representation (bs : list byte) : ThreadLocal :=
  mkThreadLocal
    (le_combine (take kPointerSize bs))
    (le_combine (take kPointerSize (drop kPointerSize bs)))
    (le_combine (take kPointerSize (drop (2 * kPointerSize) bs))).

Definition RegExpStack_ArchiveStack (to : Cursor) : M Cursor :=
  thread_local ← gets (λ c, thread_local_ (live c));
  let size := sizeof_ThreadLocal in
  memcpy_to to (object_representation thread_local);;
  modify (with_live (set_thread_local ThreadLocal_new));;
  emit (EvArchive RegExpStack);;
  mret (advance to size).

Definition RegExpStack_RestoreStack (from : Cursor) : M Cursor :=
  let size := sizeof_ThreadLocal in
  bytes ← memcpy_from from size;
  modify (with_live (set_thread_local (object_of_representation bytes)));;
  emit (EvRestore RegExpStack);;
  mret (advance from size).

(** [RegExpStackData::ThreadLocal::Free]; the array it deletes is not
    modelled. *)
Definition ThreadLocal_Free : M unit :=
  thread_local ← gets (λ c, thread_local_ (live c));
  if bool_decide (memory_size_ thread_local > 0)
  then modify (with_live (set_thread_local ThreadLocal_new))
  else mret tt.

Definition RegExpStack_FreeThreadResources : M unit :=
  ThreadLocal_Free;;
  emit (EvFreeThreadResources RegExpStack).

(** ** The other subsystems, through their contract *)

Definition ext_Archive (s : Subsystem) (to : Cursor) : M Cursor :=
  l ← gets live;
  let '(bytes, rest) := Archive (ext s) (ext_live l s) in
  memcpy_to to bytes;;
  modify (with_live (with_ext s (λ _, rest)));;
  emit (EvArchive s);;
  mret (advance to (length bytes)).

Definition ext_Restore (s : Subsystem) (from : Cursor) : M Cursor :=
  let size := ArchiveSpacePerThread (ext s) in
  bytes ← memcpy_from from size;
  modify (with_live (with_ext s (Restore (ext s) bytes)));;
  emit (EvRestore s);;
  mret (advance from size).

Definition ext_FreeThreadResources (s : Subsystem) : M unit :=
  modify (with_live (with_ext s (FreeThreadResources (ext s))));;
  emit (EvFreeThreadResources s).

Definition StackGuard_call (k : StackGuardCall) : M unit :=
  modify (with_live (with_ext StackGuard (StackGuard_effect k)));;
  emit (EvStackGuard k).

(** Modelled from the spec: [V8::IsRunning] and [V8::Initialize] are not in
    this unit; initializing makes the runtime running. *)
Definition V8_IsRunning : M bool := gets is_running.
Definition V8_Initialize : M unit :=
  modify (set_is_running true);;
  emit EvV8Initialize.

(** ** ThreadState *)

Inductive List : Type := FREE_LIST | IN_USE_LIST.

Definition ArchiveSpacePerThread_ : nat :=
  (ArchiveSpacePerThread (ext HandleScopeImplementer) +
   ArchiveSpacePerThread (ext Top) +
   (if ENABLE_DEBUGGER_SUPPORT then ArchiveSpacePerThread (ext Debug) else 0) +
   ArchiveSpacePerThread (ext StackGuard) +
   sizeof_ThreadLocal +
   ArchiveSpacePerThread (ext Bootstrapper) +
   ArchiveSpacePerThread (ext Relocatable))%nat.

(** [NewArray<char>] hands out bytes of no particular value; zeroes here. *)
Definition ThreadState_AllocateSpace (this : ptr) : M unit :=
  store this (set_data (replicate ArchiveSpacePerThread_ Byte.x00)).

Definition ThreadState_Unlink (this : ptr) : M unit :=
  (* next_->previous_ = previous_; *)
  n ← load this next_;
  pv ← load this previous_;
  store n (set_previous pv);;
  (* previous_->next_ = next_; *)
  pv ← load this previous_;
  n ← load this next_;
  store pv (set_next n).

Definition ThreadState_LinkInto (this : ptr) (list : List) : M unit :=
  flying_anchor ← tmd (match list with
                       | FREE_LIST => free_anchor_
                       | IN_USE_LIST => in_use_anchor_
                       end);
  (* next_ = flying_anchor->next_; *)
  n ← load flying_anchor next_;
  store this (set_next n);;
  (* previous_ = flying_anchor; *)
  store this (set_previous flying_anchor);;
  (* flying_anchor->next_ = this; *)
  store flying_anchor (set_next this);;
  (* next_->previous_ = this; *)
  n ← load this next_;
  store n (set_previous this).

Definition ThreadState_GetFree : M ptr :=
  free_anchor ← tmd free_anchor_;
  gotten ← load free_anchor next_;
  if bool_decide (gotten = free_anchor) then
    new_thread_state ← new_ThreadState;
    ThreadState_AllocateSpace new_thread_state;;
    mret new_thread_state
  else mret gotten.

(** [NULL] at the end of the in-use list *)
Definition ThreadState_Next (this : ptr) : M (option ptr) :=
  n ← load this next_;
  in_use_anchor ← tmd in_use_anchor_;
  if bool_decide (n = in_use_anchor) then mret None else mret (Some n).

Definition ThreadState_FirstInUse : M (option ptr) :=
  in_use_anchor ← tmd in_use_anchor_;
  ThreadState_Next in_use_anchor.

(** [ThreadManagerData::ThreadManagerData], in a context whose subsystems
    are freshly constructed: the two anchors are the first two objects. *)
Definition new_ThreadManagerData : ThreadManagerData :=
  mkThreadManagerData 0 None INVALID INVALID None 0%nat 1%nat ∅ ∅.

Definition new_V8Context : V8Context :=
  mkV8Context new_ThreadManagerData
    [mkThreadState kInvalidId false [] 0%nat 0%nat;
     mkThreadState kInvalidId false [] 1%nat 1%nat]
    false false (mkLive ext_new ThreadLocal_new) [].

(** ** ThreadManager *)

(** Modelled from the spec: [Mutex] is platform code.  "Blocking, unbounded
    wait": a thread that asks for a mutex someone is inside of waits; only
    the thread inside can leave it. *)
Definition Mutex_Lock (self : Thread) : M unit :=
  m ← tmd mutex_;
  match m with
  | None => modify (with_tmd (set_mutex (Some self)))
  | Some _ => blocked
  end.

Definition Mutex_Unlock (self : Thread) : M unit :=
  m ← tmd mutex_;
  if bool_decide (m = Some self)
  then modify (with_tmd (set_mutex None))
  else fatal.

(** Modelled from the spec: declared in v8threads.h, which is not in this
    unit.  "True iff the lock owner record equals the calling thread's
    identity". *)
Definition ThreadManager_IsLockedByCurrentThread (self : Thread) : M bool :=
  tmd (λ d, IsSelf self (mutex_owner_ d)).

Definition ThreadManager_Lock (self : Thread) : M unit :=
  Mutex_Lock self;;
  modify (with_tmd (set_mutex_owner (ThreadHandle_Initialize self kSELF)));;
  locked ← ThreadManager_IsLockedByCurrentThread self;
  ASSERT locked.

Definition ThreadManager_Unlock (self : Thread) : M unit :=
  modify (with_tmd (set_mutex_owner (ThreadHandle_Initialize self kINVALID)));;
  Mutex_Unlock self.

Definition Locker_IsLocked (self : Thread) : M bool :=
  ThreadManager_IsLockedByCurrentThread self.

Definition Locker_IsActive : M bool := gets active_.

(** [Thread::HasThreadLocal(key)] is [GetThreadLocal(key) != NULL]. *)
Definition ThreadManager_IsArchived (self : Thread) : M bool :=
  v ← Thread_GetThreadLocal self;
  mret (bool_decide (v ≠ None)).

Definition ThreadManager_HasId (self : Thread) : M bool :=
  v ← Thread_GetThreadLocalInt self;
  mret (bool_decide (v ≠ 0)).

Definition ThreadManager_CurrentId (self : Thread) : M Z :=
  Thread_GetThreadLocalInt self.

(** [++] on an [int]: 32 bits, two's complement. *)
Definition int_wrap (z : Z) : Z := (z + 2 ^ 31) mod 2 ^ 32 - 2 ^ 31.

Definition ThreadManager_AssignId (self : Thread) : M unit :=
  has_id ← ThreadManager_HasId self;
  if negb has_id then
    locked ← Locker_IsLocked self;
    ASSERT locked;;
    last_id ← tmd last_id_;
    let thread_id := int_wrap (last_id + 1) in
    modify (with_tmd (set_last_id thread_id));;
    ASSERT (bool_decide (thread_id > 0));;
    Thread_SetThreadLocalInt self thread_id;;
    modify (with_live (with_ext Top (Top_set_thread_id thread_id)))
  else mret tt.

(** dereferencing a [ThreadState*] that may be [NULL] *)
Definition deref (p : option ptr) : M ptr :=
  match p with
  | Some q => mret q
  | None => fatal
  end.

Definition ThreadManager_ArchiveThread (self : Thread) : M unit :=
  lazy ← tmd lazily_archived_thread_;
  ASSERT (negb (IsValid lazy));;
  archived ← ThreadManager_IsArchived self;
  ASSERT (negb archived);;
  state ← ThreadState_GetFree;
  ThreadState_Unlink state;;
  Thread_SetThreadLocal self (Some state);;
  modify (with_tmd (set_lazily_archived_thread (ThreadHandle_Initialize self kSELF)));;
  modify (with_tmd (set_lazily_archived_thread_state (Some state)));;
  id ← load state id_;
  ASSERT (bool_decide (id = kInvalidId));;
  current ← ThreadManager_CurrentId self;
  store state (set_id current);;
  id ← load state id_;
  ASSERT (bool_decide (id ≠ kInvalidId)).

Definition ThreadManager_EagerlyArchiveThread (self : Thread) : M unit :=
  state ← tmd lazily_archived_thread_state_;
  state ← deref state;
  ThreadState_LinkInto state IN_USE_LIST;;
  let to : Cursor := (state, 0%nat) in
  to ← ext_Archive HandleScopeImplementer to;
  to ← ext_Archive Top to;
  to ← ext_Archive Relocatable to;
  to ← (if ENABLE_DEBUGGER_SUPPORT then ext_Archive Debug to else mret to);
  to ← ext_Archive StackGuard to;
  to ← RegExpStack_ArchiveStack to;
  to ← ext_Archive Bootstrapper to;
  modify (with_tmd (set_lazily_archived_thread (ThreadHandle_Initialize self kINVALID)));;
  modify (with_tmd (set_lazily_archived_thread_state None)).

(** The [ExecutionAccess] object of the second half only keeps the
    preemption thread away from the stack guard; it takes no part here. *)
Definition ThreadManager_RestoreThread (self : Thread) : M bool :=
  lazy ← tmd lazily_archived_thread_;
  if IsSelf self lazy then
    modify (with_tmd (set_lazily_archived_thread (ThreadHandle_Initialize self kINVALID)));;
    tls ← Thread_GetThreadLocal self;
    lazy_state ← tmd lazily_archived_thread_state_;
    ASSERT (bool_decide (tls = lazy_state));;
    state ← deref lazy_state;
    store state (set_id kInvalidId);;
    ThreadState_LinkInto state FREE_LIST;;
    modify (with_tmd (set_lazily_archived_thread_state None));;
    Thread_SetThreadLocal self None;;
    mret true
  else
    lazy ← tmd lazily_archived_thread_;
    (if IsValid lazy then ThreadManager_EagerlyArchiveThread self else mret tt);;
    state ← Thread_GetThreadLocal self;
    match state with
    | None =>
        StackGuard_call InitThread;;
        mret false
    | Some state =>
        let from : Cursor := (state, 0%nat) in
        from ← ext_Restore HandleScopeImplementer from;
        from ← ext_Restore Top from;
        from ← ext_Restore Relocatable from;
        from ← (if ENABLE_DEBUGGER_SUPPORT then ext_Restore Debug from else mret from);
        from ← ext_Restore StackGuard from;
        from ← RegExpStack_RestoreStack from;
        from ← ext_Restore Bootstrapper from;
        Thread_SetThreadLocal self None;;
        terminate ← load state terminate_on_restore_;
        (if terminate : bool then
           StackGuard_call TerminateExecution;;
           store state (set_terminate_on_restore false)
         else mret tt);;
        store state (set_id kInvalidId);;
        ThreadState_Unlink state;;
        ThreadState_LinkInto state FREE_LIST;;
        mret true
    end.

Definition ThreadManager_FreeThreadResources : M unit :=
  ext_FreeThreadResources HandleScopeImplementer;;
  ext_FreeThreadResources Top;;
  (if ENABLE_DEBUGGER_SUPPORT then ext_FreeThreadResources Debug else mret tt);;
  ext_FreeThreadResources StackGuard;;
  RegExpStack_FreeThreadResources;;
  ext_FreeThreadResources Bootstrapper.

(** The loop of [TerminateExecution] from [state] on; [fuel] bounds the
    number of iterations. *)
Fixpoint TerminateExecution_from (fuel : nat) (thread_id : Z)
    (state : option ptr) : M unit :=
  match state with
  | None => mret tt
  | Some st =>
      match fuel with
      | O => out_of_fuel
      | S fuel =>
          id ← load st id_;
          (if bool_decide (thread_id = id)
           then store st (set_terminate_on_restore true)
           else mret tt);;
          next ← ThreadState_Next st;
          TerminateExecution_from fuel thread_id next
      end
  end.

(** A list that closes on its anchor has fewer entries than there are
    objects; that many iterations are allowed. *)
Definition ThreadManager_TerminateExecution (thread_id : Z) : M unit :=
  first ← ThreadState_FirstInUse;
  fuel ← gets (λ c, length (thread_states c));
  TerminateExecution_from fuel thread_id first.

(** ** Locker and Unlocker *)

Record Locker : Type := mkLocker {
  has_lock_ : bool;
  top_level_ : bool;
}.

Definition Locker_Locker (self : Thread) : M Locker :=
  (* has_lock_(false), top_level_(true) *)
  let this := mkLocker false true in
  modify (set_active true);;
  locked ← ThreadManager_IsLockedByCurrentThread self;
  this ← (if negb locked then
            ThreadManager_Lock self;;
            let this := mkLocker true (top_level_ this) in
            running ← V8_IsRunning;
            (if negb running then V8_Initialize else mret tt);;
            restored ← ThreadManager_RestoreThread self;
            if restored : bool then mret (mkLocker (has_lock_ this) false)
            else
              StackGuard_call ClearThread;;
              StackGuard_call InitThread;;
              mret this
          else mret this) : M Locker;
  locked ← ThreadManager_IsLockedByCurrentThread self;
  ASSERT locked;;
  ThreadManager_AssignId self;;
  mret this.

Definition Locker_destroy (self : Thread) (this : Locker) : M unit :=
  locked ← ThreadManager_IsLockedByCurrentThread self;
  ASSERT locked;;
  if has_lock_ this then
    (if top_level_ this then ThreadManager_FreeThreadResources
     else ThreadManager_ArchiveThread self);;
    ThreadManager_Unlock self
  else mret tt.

Definition Unlocker_Unlocker (self : Thread) : M unit :=
  locked ← ThreadManager_IsLockedByCurrentThread self;
  ASSERT locked;;
  ThreadManager_ArchiveThread self;;
  ThreadManager_Unlock self.

Definition Unlocker_destroy (self : Thread) : M unit :=
  locked ← ThreadManager_IsLockedByCurrentThread self;
  ASSERT (negb locked);;
  ThreadManager_Lock self;;
  _ ← ThreadManager_RestoreThread self;
  mret tt.

End Context_.

(** ** Interleavings of Lock and Unlock

    [ThreadManager::Lock] and [ThreadManager::Unlock] are two statements
    each, and threads interleave between them.  A thread is outside both,
    past [mutex_->Lock()] and before the owner record is written, or past
    the reset of the owner record and before [mutex_->Unlock()]. *)

Inductive LockPc : Type :=
  | Outside
  | InLock
  | InUnlock.

Section Interleaving.
Context `{B : Build}.

Definition LockWorld : Type := (Thread → LockPc) * V8Context.

Definition same_lock (c c' : V8Context) : Prop :=
  mutex_ (thread_manager_data_ c') = mutex_ (thread_manager_data_ c) ∧
  mutex_owner_ (thread_manager_data_ c') = mutex_owner_ (thread_manager_data_ c).

Inductive lock_step : LockWorld → LockWorld → Prop :=
  (* Lock(), first statement: mutex_->Lock() returns *)
  | step_Lock_mutex pcs c t c' :
      pcs t = Outside →
      Mutex_Lock t c = Ok (tt, c') →
      lock_step (pcs, c) (<[t := InLock]> pcs, c')
  (* Lock(), second statement: mutex_owner_.Initialize(SELF) *)
  | step_Lock_owner pcs c t :
      pcs t = InLock →
      lock_step (pcs, c)
        (<[t := Outside]> pcs,
         with_tmd (set_mutex_owner (ThreadHandle_Initialize t kSELF)) c)
  (* Unlock(), first statement: mutex_owner_.Initialize(INVALID) *)
  | step_Unlock_owner pcs c t :
      pcs t = Outside →
      lock_step (pcs, c)
        (<[t := InUnlock]> pcs,
         with_tmd (set_mutex_owner (ThreadHandle_Initialize t kINVALID)) c)
  (* Unlock(), second statement: mutex_->Unlock() returns *)
  | step_Unlock_mutex pcs c t c' :
      pcs t = InUnlock →
      Mutex_Unlock t c = Ok (tt, c') →
      lock_step (pcs, c) (<[t := Outside]> pcs, c')
  (* the rest of a Locker or Unlocker: anything that leaves the mutex and
     the owner record alone *)
  | step_other pcs c c' :
      same_lock c c' →
      lock_step (pcs, c) (pcs, c').

Definition lock_start : LockWorld := (λ _, Outside, new_V8Context).

Definition lock_reachable : LockWorld → Prop := rtc lock_step lock_start.

(** What thread [t] would read from [IsLockedByCurrentThread()]. *)
Definition observes_locked (t : Thread) (c : V8Context) : bool :=
  IsSelf t (mutex_owner_ (thread_manager_data_ c)).

End Interleaving.

(** ** ContextSwitcher

    Modelled from the spec: [Thread::Start] and [Thread::Join] are platform
    code.  [Start] sets a new OS thread to run [Run()]; [Join] returns once
    [Run()] has returned.  The worker is followed through [Run()] by where
    it stands: at the loop test, past [OS::Sleep], or returned. *)

Record ContextSwitcher : Type := mkContextSwitcher {
  keep_going_ : bool;
  sleep_ms_ : Z;
}.

Inductive RunPc : Type :=
  | AtLoopTest
  | AfterSleep
  | Returned.

Inductive SwitchEvent : Type :=
  (* StackGuard::Preempt() called by the worker of this switcher *)
  | EvPreempt (w : nat)
  (* StopPreemption() returns, having stopped this switcher if any *)
  | EvStopReturns (w : option nat).

#[global] Instance SwitchEvent_eq_dec : EqDecision SwitchEvent.
Proof. solve_decision. Defined.

Record Preemption : Type := mkPreemption {
  (** [thread_manager_data_.singleton_] *)
  singleton_ : option nat;
  (** the ContextSwitcher objects that exist, each with its worker *)
  switchers : gmap nat (ContextSwitcher * RunPc);
  (** how many were ever made *)
  made : nat;
  (** the lock holder waits in [singleton->Join()] *)
  joining : option nat;
  switch_trace : list SwitchEvent;
}.

Definition new_Preemption : Preemption := mkPreemption None ∅ 0 None [].

(** [ContextSwitcher::ContextSwitcher] *)
Definition ContextSwitcher_ContextSwitcher (every_n_ms : Z) : ContextSwitcher :=
  mkContextSwitcher true every_n_ms.

Definition ContextSwitcher_StartPreemption (every_n_ms : Z) (s : Preemption)
  : Preemption :=
  match singleton_ s with
  | None =>
      let w := made s in
      mkPreemption (Some w)
        (<[w := (ContextSwitcher_ContextSwitcher every_n_ms, AtLoopTest)]> (switchers s))
        (S (made s)) (joining s) (switch_trace s)
  | Some w =>
      mkPreemption (singleton_ s)
        (alter (λ x, (mkContextSwitcher (keep_going_ x.1) every_n_ms, x.2)) w
           (switchers s))
        (made s) (joining s) (switch_trace s)
  end.

(** [StopPreemption] up to the call of [Join] *)
Definition ContextSwitcher_StopPreemption_enter (s : Preemption) : Preemption :=
  match singleton_ s with
  | Some w =>
      mkPreemption (singleton_ s)
        (alter (λ x, (mkContextSwitcher false (sleep_ms_ x.1), x.2)) w (switchers s))
        (made s) (Some w) (switch_trace s)
  | None =>
      mkPreemption (singleton_ s) (switchers s) (made s) (joining s)
        (switch_trace s ++ [EvStopReturns None])
  end.

(** [StopPreemption] from the return of [Join] on *)
Definition ContextSwitcher_StopPreemption_leave (w : nat) (s : Preemption)
  : Preemption :=
  mkPreemption None (delete w (switchers s)) (made s) None
    (switch_trace s ++ [EvStopReturns (Some w)]).

(** One move of the worker of [w] through [Run()] *)
Definition ContextSwitcher_Run_step (w : nat) (x : ContextSwitcher * RunPc)
    (s : Preemption) : Preemption :=
  match x.2 with
  | AtLoopTest =>
      mkPreemption (singleton_ s)
        (<[w := (x.1, if keep_going_ x.1 then AfterSleep else Returned)]> (switchers s))
        (made s) (joining s) (switch_trace s)
  | AfterSleep =>
      mkPreemption (singleton_ s)
        (<[w := (x.1, AtLoopTest)]> (switchers s))
        (made s) (joining s) (switch_trace s ++ [EvPreempt w])
  | Returned => s
  end.

(** The calls of [StartPreemption] and [StopPreemption] are made by the
    holder of the big lock, one at a time; the workers move on their own. *)
Inductive switch_step : Preemption → Preemption → Prop :=
  | step_Start s every_n_ms :
      joining s = None →
      switch_step s (ContextSwitcher_StartPreemption every_n_ms s)
  | step_Stop_enter s :
      joining s = None →
      switch_step s (ContextSwitcher_StopPreemption_enter s)
  | step_Stop_leave s w x :
      joining s = Some w →
      switchers s !! w = Some (x, Returned) →
      switch_step s (ContextSwitcher_StopPreemption_leave w s)
  | step_Run s w x :
      switchers s !! w = Some x →
      switch_step s (ContextSwitcher_Run_step w x s).

Definition switch_reachable : Preemption → Prop := rtc switch_step new_Preemption.

(** ** The two lists, read off the store

    The entries met by following [next_] from an anchor until the anchor
    comes back; the anchor itself is no entry. *)

Fixpoint entries_from (h : Store) (anchor : ptr) (fuel : nat) (p : ptr)
  : list ptr :=
  match fuel with
  | O => []
  | S fuel =>
      match h !! p with
      | None => []
      | Some s =>
          if bool_decide (next_ s = anchor) then []
          else next_ s :: entries_from h anchor fuel (next_ s)
      end
  end.

Definition list_entries (h : Store) (anchor : ptr) : list ptr :=
  entries_from h anchor (length h) anchor.

(** [x], then the entries [l], then [y], joined by [next_] one way and by
    [previous_] the other. *)
Fixpoint linked (h : Store) (x : ptr) (l : list ptr) (y : ptr) : Prop :=
  match l with
  | [] => next_ <$> h !! x = Some y ∧ previous_ <$> h !! y = Some x
  | z :: l => next_ <$> h !! x = Some z ∧ previous_ <$> h !! z = Some x ∧
              linked h z l y
  end.

(** A circular doubly linked list on its anchor. *)
Definition ring (h : Store) (anchor : ptr) (l : list ptr) : Prop :=
  linked h anchor l anchor.

Section Reachable.
Context `{B : Build}.

Definition free_list (c : V8Context) : list ptr :=
  list_entries (thread_states c) (free_anchor_ (thread_manager_data_ c)).

Definition in_use_list (c : V8Context) : list ptr :=
  list_entries (thread_states c) (in_use_anchor_ (thread_manager_data_ c)).

Definition is_anchor (c : V8Context) (p : ptr) : bool :=
  bool_decide (p = free_anchor_ (thread_manager_data_ c)) ||
  bool_decide (p = in_use_anchor_ (thread_manager_data_ c)).

Definition anchor_of (c : V8Context) (list : List) : ptr :=
  match list with
  | FREE_LIST => free_anchor_ (thread_manager_data_ c)
  | IN_USE_LIST => in_use_anchor_ (thread_manager_data_ c)
  end.

(** The places a ThreadState can be in: how many of them hold [p]. *)
Definition in_both_lists (c : V8Context) (p : ptr) : nat :=
  (Nat.b2n (bool_decide (p ∈ free_list c)) +
   Nat.b2n (bool_decide (p ∈ in_use_list c)))%nat.

Definition is_lazy_candidate (c : V8Context) (p : ptr) : bool :=
  bool_decide (lazily_archived_thread_state_ (thread_manager_data_ c) = Some p).

(** The id thread [t] reads back with [CurrentId()]. *)
Definition id_of (c : V8Context) (t : Thread) : Z :=
  default 0 (thread_id_key_ (thread_manager_data_ c) !! t).

(** The calls a thread can make on the context. *)
Inductive Call : Type :=
  | CallLock (self : Thread)
  | CallUnlock (self : Thread)
  | CallAssignId (self : Thread)
  | CallArchiveThread (self : Thread)
  | CallEagerlyArchiveThread (self : Thread)
  | CallRestoreThread (self : Thread)
  | CallFreeThreadResources
  | CallTerminateExecution (thread_id : Z)
  | CallLocker (self : Thread)
  | CallLockerDestroy (self : Thread) (this : Locker)
  | CallUnlocker (self : Thread)
  | CallUnlockerDestroy (self : Thread).

Definition call (k : Call) : M unit :=
  match k with
  | CallLock self => ThreadManager_Lock self
  | CallUnlock self => ThreadManager_Unlock self
  | CallAssignId self => ThreadManager_AssignId self
  | CallArchiveThread self => ThreadManager_ArchiveThread self
  | CallEagerlyArchiveThread self => ThreadManager_EagerlyArchiveThread self
  | CallRestoreThread self => _ ← ThreadManager_RestoreThread self; mret tt
  | CallFreeThreadResources => ThreadManager_FreeThreadResources
  | CallTerminateExecution thread_id => ThreadManager_TerminateExecution thread_id
  | CallLocker self => _ ← Locker_Locker self; mret tt
  | CallLockerDestroy self this => Locker_destroy self this
  | CallUnlocker self => Unlocker_Unlocker self
  | CallUnlockerDestroy self => Unlocker_destroy self
  end.

(** A call that returns takes the context from [c] to [c']. *)
Definition returns (c c' : V8Context) : Prop :=
  ∃ k, call k c = Ok (tt, c').

(** The contexts met from a fresh one, between calls that return. *)
Definition reachable : V8Context → Prop := rtc returns new_V8Context.

(** The context left by a run of calls, when all of them return. *)
Fixpoint after (ks : list Call) (c : V8Context) : Result V8Context :=
  match ks with
  | [] => Ok c
  | k :: ks =>
      match call k c with
      | Ok (_, c') => after ks c'
      | Blocked => Blocked
      | Fatal => Fatal
      | OutOfFuel => OutOfFuel
      end
  end.

End Reachable.

(** ** The archive sequence

    [EagerlyArchiveThread] and [RestoreThread] walk the buffer of a
    ThreadState with a cursor, one subsystem after the other.  What follows
    names the steps of that walk, so that the two functions can be compared:
    the order of the calls, the bytes each call writes or reads, and the
    live state each call leaves. *)

Section Archive_sequence.
Context `{B : Build}.

(** The subsystems in the order of the calls. *)
Definition subsystem_order : list Subsystem :=
  [HandleScopeImplementer; Top; Relocatable] ++
  (if ENABLE_DEBUGGER_SUPPORT then [Debug] else []) ++
  [StackGuard; RegExpStack; Bootstrapper].

(** The archive call and the restore call of a subsystem. *)
Definition Archive_at (s : Subsystem) (to : Cursor) : M Cursor :=
  match s with
  | RegExpStack => RegExpStack_ArchiveStack to
  | _ => ext_Archive s to
  end.

Definition Restore_at (s : Subsystem) (from : Cursor) : M Cursor :=
  match s with
  | RegExpStack => RegExpStack_RestoreStack from
  | _ => ext_Restore s from
  end.

(** The calls for [order] one after the other, each at the cursor the one
    before returned, and then [k] at the last cursor. *)
Fixpoint Archive_all {A} (order : list Subsystem) (to : Cursor)
    (k : Cursor → M A) : M A :=
  match order with
  | [] => k to
  | s :: order => to ← Archive_at s to; Archive_all order to k
  end.

Fixpoint Restore_all {A} (order : list Subsystem) (from : Cursor)
    (k : Cursor → M A) : M A :=
  match order with
  | [] => k from
  | s :: order => from ← Restore_at s from; Restore_all order from k
  end.

(** The number of bytes a subsystem is given in the buffer. *)
Definition footprint (s : Subsystem) : nat :=
  match s with
  | RegExpStack => sizeof_ThreadLocal
  | _ => ArchiveSpacePerThread (ext s)
  end.

Definition total_footprint (order : list Subsystem) : nat :=
  sum_list (footprint <$> order).

(** The bytes the archive call of [s] writes on live state [l], the live
    state it leaves, and the live state its restore call makes of [bytes]. *)
Definition Archive_bytes (s : Subsystem) (l : Live) : list byte :=
  match s with
  | RegExpStack => object_representation (thread_local_ l)
  | _ => (Archive (ext s) (ext_live l s)).1
  end.

Definition Archive_live (s : Subsystem) (l : Live) : Live :=
  match s with
  | RegExpStack => set_thread_local ThreadLocal_new l
  | _ => with_ext s (λ _, (Archive (ext s) (ext_live l s)).2) l
  end.

Definition Restore_live (s : Subsystem) (bytes : list byte) (l : Live) : Live :=
  match s with
  | RegExpStack => set_thread_local (object_of_representation bytes) l
  | _ => with_ext s (Restore (ext s) bytes) l
  end.

Fixpoint archive_seq (order : list Subsystem) (l : Live) : list byte * Live :=
  match order with
  | [] => ([], l)
  | s :: order =>
      let r := archive_seq order (Archive_live s l) in
      (Archive_bytes s l ++ r.1, r.2)
  end.

Fixpoint restore_seq (order : list Subsystem) (bytes : list byte) (l : Live)
  : Live :=
  match order with
  | [] => l
  | s :: order =>
      restore_seq order (drop (footprint s) bytes)
        (Restore_live s (take (footprint s) bytes) l)
  end.

(** The context after the archive calls for [order] from offset [off] of
    the buffer of [p], which held [st]; and after the restore calls for
    [order] on the bytes [bytes]. *)
Definition archived (order : list Subsystem) (p : ptr) (off : nat)
    (st : ThreadState) (c : V8Context) : V8Context :=
  mkV8Context (thread_manager_data_ c)
    (<[p := set_data (take off (data_ st) ++
                      (archive_seq order (live c)).1 ++
                      drop (off + total_footprint order) (data_ st)) st]>
       (thread_states c))
    (active_ c) (is_running c)
    (archive_seq order (live c)).2
    (trace c ++ (EvArchive <$> order)).

Definition restored (order : list Subsystem) (bytes : list byte)
    (c : V8Context) : V8Context :=
  mkV8Context (thread_manager_data_ c) (thread_states c)
    (active_ c) (is_running c)
    (restore_seq order bytes (live c))
    (trace c ++ (EvRestore <$> order)).

(** The contract of the design document on the archive functions of a
    collaborator: [Archive] fills the footprint, and [Restore] makes of the
    bytes of [Archive] the state that was archived. *)
Definition Archive_fills (s : Subsystem) : Prop :=
  ∀ x, length (Archive (ext s) x).1 = ArchiveSpacePerThread (ext s).

Definition Restore_inverts (s : Subsystem) : Prop :=
  ∀ x y, Restore (ext s) (Archive (ext s) x).1 y = x.

(** The fields of a [ThreadLocal] are an address, a [size_t] and an
    address: each fits a word. *)
Definition fits_word (z : Z) : Prop := 0 ≤ z < 2 ^ (Z.of_nat kPointerSize * 8).

Definition ThreadLocal_fits (x : ThreadLocal) : Prop :=
  fits_word (memory_ x) ∧ fits_word (memory_size_ x) ∧ fits_word (limit_ x).

(** The state a subsystem keeps for the running thread. *)
Definition same_live_at (s : Subsystem) (l l' : Live) : Prop :=
  match s with
  | RegExpStack => thread_local_ l' = thread_local_ l
  | _ => ext_live l' s = ext_live l s
  end.

End Archive_sequence.


(** ** Calls as runs of the interleaving *)

(** The thread that makes a call, for the calls that name one. *)
Definition caller (k : Call) : option Thread :=
  match k with
  | CallLock self | CallUnlock self | CallAssignId self
  | CallArchiveThread self | CallEagerlyArchiveThread self
  | CallRestoreThread self | CallLocker self | CallLockerDestroy self _
  | CallUnlocker self | CallUnlockerDestroy self => Some self
  | CallFreeThreadResources | CallTerminateExecution _ => None
  end.

Section Lock_runs.
Context `{B : Build}.

(** A run of the interleaving from [c] to [c'] that leaves every thread
    where it was in [pcs]. *)
Definition lock_run (pcs : Thread → LockPc) (c c' : V8Context) : Prop :=
  ∃ pcs', (∀ u, pcs' u = pcs u) ∧ rtc lock_step (pcs, c) (pcs', c').

(** What the interleaving keeps: the thread the owner record names is
    inside the mutex and outside [Lock] and [Unlock], and so is in the mutex
    a thread that is between the two statements of [Lock]. *)
Definition lock_inv (w : LockWorld) : Prop :=
  (∀ u, mutex_owner_ (thread_manager_data_ w.2) = Identity u →
        mutex_ (thread_manager_data_ w.2) = Some u ∧ w.1 u = Outside) ∧
  (∀ t, w.1 t = InLock → mutex_ (thread_manager_data_ w.2) = Some t).

End Lock_runs.


(** ** What the moves of the ContextSwitcher keep

    The switcher [singleton_] points to is the only one there is; the
    numbers of the switchers made so far are below [made]; a switcher whose
    [StopPreemption] has returned is gone for good; the lock holder waits in
    [Join] only for the current switcher, which has been told to stop; and
    no worker has asked for preemption after its [StopPreemption]
    returned. *)
Definition switch_inv (s : Preemption) : Prop :=
  (∀ w, is_Some (switchers s !! w) ↔ singleton_ s = Some w) ∧
  (∀ w, singleton_ s = Some w → (w < made s)%nat) ∧
  (∀ w, EvStopReturns (Some w) ∈ switch_trace s →
        (w < made s)%nat ∧ singleton_ s ≠ Some w) ∧
  (∀ w, joining s = Some w →
        singleton_ s = Some w ∧
        ∀ x, switchers s !! w = Some x → keep_going_ x.1 = false) ∧
  (∀ w i j, switch_trace s !! i = Some (EvStopReturns (Some w)) →
            switch_trace s !! j = Some (EvPreempt w) → (j < i)%nat).


(** ** What archiving leaves alone

    The lock, the ids, the [active_] flag and the running flag. *)
Definition control_view `{B : Build} (c : V8Context) :=
  (mutex_ (thread_manager_data_ c), mutex_owner_ (thread_manager_data_ c),
   last_id_ (thread_manager_data_ c), thread_id_key_ (thread_manager_data_ c),
   active_ c, is_running c).


(** ** Calls as runs of whole steps

    A call is a run of steps that take the lock, release it, give an id,
    set [active_], initialize the runtime, or leave all of that alone. *)
Section Atomic_runs.
Context `{B : Build}.

Inductive atomic_step : V8Context → V8Context → Prop :=
  | atomic_Lock self c r c' :
      ThreadManager_Lock self c = Ok (r, c') → atomic_step c c'
  | atomic_Unlock self c r c' :
      ThreadManager_Unlock self c = Ok (r, c') → atomic_step c c'
  | atomic_AssignId self c r c' :
      ThreadManager_AssignId self c = Ok (r, c') → atomic_step c c'
  | atomic_active c :
      atomic_step c (set_active true c)
  | atomic_Initialize c r c' :
      V8_Initialize c = Ok (r, c') → atomic_step c c'
  | atomic_archiving c c' :
      control_view c' = control_view c → atomic_step c c'.

(** The owner record names the thread inside the mutex, and is invalid
    when nobody is. *)
Definition lock_consistent (c : V8Context) : Prop :=
  mutex_owner_ (thread_manager_data_ c) =
  match mutex_ (thread_manager_data_ c) with
  | Some t => Identity t
  | None => INVALID
  end.

End Atomic_runs.


(** ** Walks over the archived states

    [Iterate], [MarkCompactPrologue] and [MarkCompactEpilogue] call
    collaborators on the buffers of the states of the in-use list.  The
    calls are what they do; the model returns them, in order. *)

Section Walks.
Context `{B : Build}.

(** A [char*] into the buffer of a ThreadState: the state and an offset. *)
Definition DataPointer : Type := ptr * nat.

Inductive Visit : Type :=
  | VisitIterate (s : Subsystem) (data : DataPointer)
  | VisitMarkCompactPrologue (is_compacting : bool) (data : DataPointer)
  | VisitMarkCompactEpilogue (is_compacting : bool) (data : DataPointer).

(** [for (state = ...; state != NULL; state = state->Next()) body], from
    [state] on; [fuel] bounds the number of iterations. *)
Fixpoint for_each_in_use (fuel : nat) (body : ptr → list Visit)
    (state : option ptr) : M (list Visit) :=
  match state with
  | None => mret []
  | Some st =>
      match fuel with
      | O => out_of_fuel
      | S fuel =>
          let visits := body st in
          next ← ThreadState_Next st;
          rest ← for_each_in_use fuel body next;
          mret (visits ++ rest)
      end
  end.

(** [Iterate_ s data] is the pointer the [Iterate] of subsystem [s] returns
    when called on [data]; the visitor is handed on as it is. *)
Definition ThreadManager_Iterate
    (Iterate_ : Subsystem → DataPointer → DataPointer) : M (list Visit) :=
  first ← ThreadState_FirstInUse;
  fuel ← gets (λ c, length (thread_states c));
  for_each_in_use fuel
    (λ state,
       let data := (state, 0%nat) in
       let data1 := Iterate_ HandleScopeImplementer data in
       let data2 := Iterate_ Top data1 in
       [VisitIterate HandleScopeImplementer data;
        VisitIterate Top data1;
        VisitIterate Relocatable data2])
    first.

Definition ThreadManager_MarkCompactPrologue (is_compacting : bool)
  : M (list Visit) :=
  first ← ThreadState_FirstInUse;
  fuel ← gets (λ c, length (thread_states c));
  for_each_in_use fuel
    (λ state,
       let data := (state, 0%nat) in
       let data :=
         (data.1,
          (data.2 + ArchiveSpacePerThread (ext HandleScopeImplementer))%nat) in
       [VisitMarkCompactPrologue is_compacting data])
    first.

Definition ThreadManager_MarkCompactEpilogue (is_compacting : bool)
  : M (list Visit) :=
  first ← ThreadState_FirstInUse;
  fuel ← gets (λ c, length (thread_states c));
  for_each_in_use fuel
    (λ state,
       let data := (state, 0%nat) in
       let data :=
         (data.1,
          (data.2 + ArchiveSpacePerThread (ext HandleScopeImplementer))%nat) in
       [VisitMarkCompactEpilogue is_compacting data])
    first.

(** The bytes of thread state [st] a collaborator called at offset [off]
    reads when it reads its footprint. *)
Definition block_at (s : Subsystem) (off : nat) (st : ThreadState)
  : list byte :=
  take (footprint s) (drop off (data_ st)).

End Walks.


(** ** The execution context and its binding: v8-global-context.cc

    Which [V8Context] a thread resolves with [v8_context()] is the state of
    the process: the default context, the binding mode, and the slot each
    thread has under [context_key].  The functions a context runs on
    construction and destruction are static and find their data through
    [v8_context()]; the model records for each the context that was current
    when it ran. *)

(** The address of a [V8Context]; [None] is [NULL]. *)
Definition ContextPtr : Type := nat.

Inductive Hook : Type :=
  | StackGuard_PostConstruct
  | Top_PostConstruct
  | Runtime_PostConstruct
  | Assembler_PostConstruct
  | Disassembler_PostConstruct
  | ThreadManager_FreeThreadResources_
  | Top_PreDestroy
  | StackGuard_PreDestroy
  | Runtime_PreDestroy
  | Assembler_PreDestroy
  | Disassembler_PreDestroy.

Inductive Effect : Type :=
  | EffHook (h : Hook) (current : option ContextPtr)
  | EffLock (lock : nat)
  | EffUnlock (lock : nat).

Record Process : Type := mkProcess {
  default_context : option ContextPtr;
  using_one_v8_instance : bool;
  (** the slots of the threads under [context_key] *)
  context_key : gmap Thread ContextPtr;
  effects : list Effect;
}.

Definition set_default_context (v : option ContextPtr) (p : Process) : Process :=
  mkProcess v (using_one_v8_instance p) (context_key p) (effects p).
Definition set_using_one_v8_instance (v : bool) (p : Process) : Process :=
  mkProcess (default_context p) v (context_key p) (effects p).
Definition with_context_key
    (f : gmap Thread ContextPtr → gmap Thread ContextPtr) (p : Process)
  : Process :=
  mkProcess (default_context p) (using_one_v8_instance p) (f (context_key p))
    (effects p).
Definition with_effects (f : list Effect → list Effect) (p : Process)
  : Process :=
  mkProcess (default_context p) (using_one_v8_instance p) (context_key p)
    (f (effects p)).

Definition P (A : Type) : Type := Process → Result (A * Process).

#[global] Instance P_ret : MRet P := fun A a p => Ok (a, p).
#[global] Instance P_bind : MBind P := fun A C f m p =>
  match m p with
  | Ok (a, p') => f a p'
  | Blocked => Blocked
  | Fatal => Fatal
  | OutOfFuel => OutOfFuel
  end.

Definition P_gets {A} (f : Process → A) : P A := fun p => Ok (f p, p).
Definition P_modify (f : Process → Process) : P unit := fun p => Ok (tt, f p).
Definition P_emit (e : Effect) : P unit :=
  P_modify (with_effects (λ l, l ++ [e])).

Record V8ContextBinder : Type := mkV8ContextBinder {
  v8context_ : option ContextPtr;
  bound_default_ : bool;
}.

Record V8ResourceLocker : Type := mkV8ResourceLocker {
  lock_ : nat;
  locked_ : bool;
}.

Section Binding.
Context `{B : Build}.
(** [ENABLE_DISASSEMBLER] *)
Variable ENABLE_DISASSEMBLER : bool.

Definition P_ASSERT (b : bool) : P unit :=
  if DEBUG then (if b then mret tt else (λ _, Fatal)) else mret tt.

Definition v8_context (self : Thread) (p : Process) : option ContextPtr :=
  if using_one_v8_instance p then default_context p
  else
    match context_key p !! self with
    | Some v8context => Some v8context
    | None => default_context p
    end.

(** [Thread::SetThreadLocal(context_key, value)] *)
Definition SetThreadLocal (self : Thread) (value : option ContextPtr)
  : P unit :=
  P_modify (with_context_key
              (match value with
               | Some v => <[self := v]>
               | None => delete self
               end)).

Definition AllowSeveralV8InstancesInProcess_new : P unit :=
  P_modify (set_using_one_v8_instance false).

Definition AllowSeveralV8InstancesInProcess_destroy : P unit := mret tt.

Definition BindContext (self : Thread) (context : option ContextPtr)
    (bind_default : bool) : P unit :=
  if bind_default then P_modify (set_default_context context)
  else
    current ← P_gets (v8_context self);
    P_ASSERT (bool_decide (current ≠ context));;
    SetThreadLocal self context.

(** [BindContext(context)]: [bind_default] defaults to
    [using_one_v8_instance], read at the call. *)
Definition BindContext_ (self : Thread) (context : option ContextPtr)
  : P unit :=
  bind_default ← P_gets using_one_v8_instance;
  BindContext self context bind_default.

Definition V8ContextBinder_new (self : Thread)
    (v8context : option ContextPtr) (bind_default : bool)
  : P V8ContextBinder :=
  let this := mkV8ContextBinder v8context bind_default in
  BindContext self (v8context_ this) bind_default;;
  mret this.

Definition V8ContextBinder_destroy (self : Thread) (this : V8ContextBinder)
  : P unit :=
  BindContext self None (bound_default_ this).

(** A static function of a subsystem, run by thread [self]. *)
Definition hook (self : Thread) (h : Hook) : P unit :=
  current ← P_gets (v8_context self);
  P_emit (EffHook h current).

(** [V8Context::V8Context], past the construction of the members. *)
Definition V8Context_new (self : Thread) (this : ContextPtr) : P unit :=
  prev_v8_context ← P_gets (v8_context self);
  BindContext_ self (Some this);;
  hook self StackGuard_PostConstruct;;
  hook self Top_PostConstruct;;
  hook self Runtime_PostConstruct;;
  hook self Assembler_PostConstruct;;
  (if ENABLE_DISASSEMBLER then hook self Disassembler_PostConstruct
   else mret tt);;
  BindContext_ self prev_v8_context.

(** [V8Context::~V8Context]; the members are deleted between the last hook
    and the unbinding. *)
Definition V8Context_destroy (self : Thread) (this : ContextPtr) : P unit :=
  BindContext_ self (Some this);;
  hook self ThreadManager_FreeThreadResources_;;
  hook self Top_PreDestroy;;
  hook self StackGuard_PreDestroy;;
  hook self Runtime_PreDestroy;;
  hook self Assembler_PreDestroy;;
  (if ENABLE_DISASSEMBLER then hook self Disassembler_PreDestroy
   else mret tt);;
  BindContext_ self None.

Definition V8ResourceLocker_new (lock : nat) : P V8ResourceLocker :=
  one ← P_gets using_one_v8_instance;
  if negb one then
    P_emit (EffLock lock);;
    mret (mkV8ResourceLocker lock true)
  else mret (mkV8ResourceLocker lock false).

Definition V8ResourceLocker_destroy (this : V8ResourceLocker) : P unit :=
  if locked_ this then P_emit (EffUnlock (lock_ this)) else mret tt.

(** The functions the construction and the destruction of a context run. *)
Definition PostConstruct_hooks : list Hook :=
  [StackGuard_PostConstruct; Top_PostConstruct; Runtime_PostConstruct;
   Assembler_PostConstruct] ++
  (if ENABLE_DISASSEMBLER then [Disassembler_PostConstruct] else []).

Definition PreDestroy_hooks : list Hook :=
  [ThreadManager_FreeThreadResources_; Top_PreDestroy; StackGuard_PreDestroy;
   Runtime_PreDestroy; Assembler_PreDestroy] ++
  (if ENABLE_DISASSEMBLER then [Disassembler_PreDestroy] else []).

(** The calls a thread can make on the binding. *)
Inductive BindingCall : Type :=
  | CallAllowSeveralV8InstancesInProcess
  | CallBindContext (context : option ContextPtr)
  | CallV8ContextBinder (v8context : option ContextPtr) (bind_default : bool)
  | CallV8ContextBinderDestroy (this : V8ContextBinder)
  | CallV8Context (this : ContextPtr)
  | CallV8ContextDestroy (this : ContextPtr)
  | CallV8ResourceLocker (lock : nat)
  | CallV8ResourceLockerDestroy (this : V8ResourceLocker).

Definition binding_call (self : Thread) (k : BindingCall) : P unit :=
  match k with
  | CallAllowSeveralV8InstancesInProcess =>
      AllowSeveralV8InstancesInProcess_new
  | CallBindContext context => BindContext_ self context
  | CallV8ContextBinder v8context bind_default =>
      V8ContextBinder_new self v8context bind_default;; mret tt
  | CallV8ContextBinderDestroy this => V8ContextBinder_destroy self this
  | CallV8Context this => V8Context_new self this
  | CallV8ContextDestroy this => V8Context_destroy self this
  | CallV8ResourceLocker lock => V8ResourceLocker_new lock;; mret tt
  | CallV8ResourceLockerDestroy this => V8ResourceLocker_destroy this
  end.

(** One call of one thread that returns. *)
Definition binding_step (p p' : Process) : Prop :=
  ∃ self k, binding_call self k p = Ok (tt, p').

End Binding.


(** The ThreadState [p] is committed in [c] with [bytes]: it is in the
    in-use list and its buffer holds [bytes]. *)
Definition committed `{B : Build} (c : V8Context) (p : ptr)
    (bytes : list byte) : Prop :=
  p ∈ in_use_list c ∧ data_ <$> thread_states c !! p = Some bytes.


(** From [c] to [c'] the trace has grown by events that satisfy [P]. *)
Definition appends `{B : Build} (P : Event → Prop) (c c' : V8Context)
  : Prop :=
  ∃ evs, trace c' = trace c ++ evs ∧ Forall P evs.

Definition not_Archive (e : Event) : Prop := ∀ s, e ≠ EvArchive s.


(** ** A build to run the model on

    32-bit words, the debugger compiled in, and six collaborators whose
    live state is one byte, archived as that byte repeated over a footprint
    of a few bytes. *)

Definition sample_space (s : Subsystem) : nat :=
  match s with
  | HandleScopeImplementer => 2
  | Top => 3
  | Relocatable => 1
  | Debug => 2
  | StackGuard => 1
  | RegExpStack => 0
  | Bootstrapper => 1
  end%nat.

Definition sample_ext (s : Subsystem) : Archivable byte :=
  mkArchivable byte (S (sample_space s))
    (λ x, (replicate (S (sample_space s)) x, Byte.x00))
    (λ bs y, hd y bs)
    (λ _, Byte.x00).

Definition sample_build (debug : bool) : Build := {|
  DEBUG := debug;
  ENABLE_DEBUGGER_SUPPORT := true;
  kPointerSize := 4;
  ThreadLocal_new := mkThreadLocal 0 0 (2 ^ 32 - 1);
  ExtState := byte;
  ext := sample_ext;
  ext_new := λ _, Byte.x00;
  Top_set_thread_id := λ id _, byte.of_Z id;
  StackGuard_effect := λ k x,
    match k with
    | TerminateExecution => Byte.xff
    | _ => x
    end;
|}.

(** ** The shape of the store

    What the list operations keep: the free list [fl] and the in-use list
    [ul] are rings on their anchors, the objects outside both are [fs], and
    no object is met twice. *)

Definition nxt (h : Store) (p : ptr) : option ptr := next_ <$> h !! p.
Definition prv (h : Store) (p : ptr) : option ptr := previous_ <$> h !! p.

(** What an object carries besides its links. *)
Definition payload (s : ThreadState) : Z * bool * list byte :=
  (id_ s, terminate_on_restore_ s, data_ s).

(** What an object carries besides its links and the bytes of its buffer. *)
Definition meta (s : ThreadState) : Z * bool * nat :=
  (id_ s, terminate_on_restore_ s, length (data_ s)).

Record Shape (h : Store) (fa ia : ptr) (fl ul fs : list ptr) : Prop := mkShape {
  shape_nodup : NoDup (fa :: ia :: fl ++ ul ++ fs);
  shape_free : ring h fa fl;
  shape_use : ring h ia ul;
  shape_all : ∀ p, (p < length h)%nat ↔ p ∈ fa :: ia :: fl ++ ul ++ fs;
}.

Definition lazy_list (d : ThreadManagerData) : list ptr :=
  match lazily_archived_thread_state_ d with
  | Some p => [p]
  | None => []
  end.

(** The lazy-archive slot is filled or empty as a whole, and a filled slot
    holds the state its thread has in thread-local storage. *)
Definition lazy_slot_ok (d : ThreadManagerData) : Prop :=
  match lazily_archived_thread_ d, lazily_archived_thread_state_ d with
  | INVALID, None => True
  | Identity t, Some p => thread_state_key_ d !! t = Some p
  | _, _ => False
  end.

Section Invariant.
Context `{B : Build}.

Record Inv (c : V8Context) (fl ul : list ptr) : Prop := mkInv {
  inv_shape :
    Shape (thread_states c)
      (free_anchor_ (thread_manager_data_ c))
      (in_use_anchor_ (thread_manager_data_ c))
      fl ul (lazy_list (thread_manager_data_ c));
  inv_lazy : lazy_slot_ok (thread_manager_data_ c);
  (** a state held in thread-local storage is archived in the in-use list,
      or is the lazy candidate of that very thread *)
  inv_tls : ∀ t p,
    thread_state_key_ (thread_manager_data_ c) !! t = Some p →
    p ∈ ul ∨
    (lazily_archived_thread_ (thread_manager_data_ c) = Identity t ∧
     lazily_archived_thread_state_ (thread_manager_data_ c) = Some p);
  inv_tls_inj : ∀ t1 t2 p,
    thread_state_key_ (thread_manager_data_ c) !! t1 = Some p →
    thread_state_key_ (thread_manager_data_ c) !! t2 = Some p →
    t1 = t2;
  (** a free state has no id, no pending termination, and a full buffer *)
  inv_free_meta : ∀ p, p ∈ fl →
    meta <$> thread_states c !! p =
    Some (kInvalidId, false, ArchiveSpacePerThread_);
  (** an archived state carries the id of the thread that holds it *)
  inv_use_meta : ∀ p, p ∈ ul →
    ∃ t f,
      thread_state_key_ (thread_manager_data_ c) !! t = Some p ∧
      meta <$> thread_states c !! p =
      Some (id_of c t, f, ArchiveSpacePerThread_) ∧
      id_of c t ≠ 0;
  (** so does the lazy candidate, which has no pending termination *)
  inv_lazy_meta : ∀ t p,
    lazily_archived_thread_ (thread_manager_data_ c) = Identity t →
    lazily_archived_thread_state_ (thread_manager_data_ c) = Some p →
    meta <$> thread_states c !! p =
    Some (id_of c t, false, ArchiveSpacePerThread_) ∧
    id_of c t ≠ 0;
  (** ids handed out so far are positive, at most [last_id_], and differ
      from thread to thread *)
  inv_ids : ∀ t,
    0 ≤ id_of c t ≤ last_id_ (thread_manager_data_ c) ∧
    last_id_ (thread_manager_data_ c) < 2 ^ 31;
  inv_ids_inj : ∀ t1 t2,
    id_of c t1 = id_of c t2 → id_of c t1 ≠ 0 → t1 = t2;
}.

End Invariant.

(** What the archive protocol reads in the thread-manager record, and
    what the id protocol reads. *)
Definition archive_view (d : ThreadManagerData) :=
  (free_anchor_ d, in_use_anchor_ d, lazily_archived_thread_ d,
   lazily_archived_thread_state_ d, thread_state_key_ d).

Definition id_view (d : ThreadManagerData) := (last_id_ d, thread_id_key_ d).

(** Two contexts that differ in nothing the two protocols depend on: not
    in the views, not in the links, not in the ids, flags and buffer sizes
    of the objects. *)
Definition same_links `{B : Build} (c c' : V8Context) : Prop :=
  archive_view (thread_manager_data_ c') = archive_view (thread_manager_data_ c) ∧
  id_view (thread_manager_data_ c') = id_view (thread_manager_data_ c) ∧
  length (thread_states c') = length (thread_states c) ∧
  (∀ q, nxt (thread_states c') q = nxt (thread_states c) q) ∧
  (∀ q, prv (thread_states c') q = prv (thread_states c) q) ∧
  (∀ q, meta <$> thread_states c' !! q = meta <$> thread_states c !! q).

(** The same, but for the id, flag and buffer size of the one object [p]. *)
Definition same_links_except `{B : Build} (p : ptr) (c c' : V8Context) : Prop :=
  archive_view (thread_manager_data_ c') = archive_view (thread_manager_data_ c) ∧
  id_view (thread_manager_data_ c') = id_view (thread_manager_data_ c) ∧
  length (thread_states c') = length (thread_states c) ∧
  (∀ q, nxt (thread_states c') q = nxt (thread_states c) q) ∧
  (∀ q, prv (thread_states c') q = prv (thread_states c) q) ∧
  (∀ q, q ≠ p → meta <$> thread_states c' !! q = meta <$> thread_states c !! q).

(** What [TerminateExecution(thread_id)] does to one archived state. *)
Definition mark_terminate (thread_id : Z) (s : ThreadState) : ThreadState :=
  if bool_decide (thread_id = id_ s) then set_terminate_on_restore true s else s.

(** The context a run of calls leaves on a fresh context of the sample
    build, or the fresh context when a call does not return. *)
Definition sample_after (debug : bool) (ks : list Call)
  : @V8Context (sample_build debug) :=
  match after ks new_V8Context with
  | Ok c => c
  | _ => new_V8Context
  end.

(** Thread 1 has taken the lock, got its id and archived itself lazily. *)
Definition sample_lazy : @V8Context (sample_build true) :=
  sample_after true [CallLock 1%nat; CallAssignId 1%nat; CallArchiveThread 1%nat].

(** Thread 1 has constructed a [Locker] on a fresh context. *)
Definition sample_locked : @V8Context (sample_build true) :=
  sample_after true [CallLocker 1%nat].

(** * Properties *)

(** ** Reading a run of the monad backwards *)

Section Monad_lemmas.
Context `{B : Build}.

Lemma bind_Ok {A C} (m : M A) (k : A → M C) c r c' :
  (m ≫= k) c = Ok (r, c') ↔ ∃ a c1, m c = Ok (a, c1) ∧ k a c1 = Ok (r, c').
Proof.
  unfold mbind, M_bind. split.
  - destruct (m c) as [[a c1]| | |]; try discriminate. eauto.
  - intros (a & c1 & -> & Hk). exact Hk.
Qed.

Lemma bind_run {A C} (m : M A) (k : A → M C) c a c1 :
  m c = Ok (a, c1) → (m ≫= k) c = k a c1.
Proof. unfold mbind, M_bind. by intros ->. Qed.

Lemma ret_Ok {A} (a r : A) c c' :
  (mret a : M A) c = Ok (r, c') ↔ r = a ∧ c' = c.
Proof. unfold mret, M_ret. naive_solver. Qed.

Lemma gets_Ok {A} (f : V8Context → A) c r c' :
  gets f c = Ok (r, c') ↔ r = f c ∧ c' = c.
Proof. unfold gets. naive_solver. Qed.

Lemma tmd_Ok {A} (f : ThreadManagerData → A) c r c' :
  tmd f c = Ok (r, c') ↔ r = f (thread_manager_data_ c) ∧ c' = c.
Proof. unfold tmd. by rewrite gets_Ok. Qed.

Lemma modify_Ok f c r c' :
  modify f c = Ok (r, c') ↔ c' = f c.
Proof. unfold modify. destruct r. naive_solver. Qed.

Lemma emit_Ok e c r c' :
  emit e c = Ok (r, c') ↔ c' = with_trace (λ t, t ++ [e]) c.
Proof. unfold emit. by rewrite modify_Ok. Qed.

Lemma ASSERT_Ok b c r c' :
  ASSERT b c = Ok (r, c') ↔ c' = c ∧ (DEBUG = true → b = true).
Proof.
  unfold ASSERT, fatal, mret, M_ret. destruct r, DEBUG, b; naive_solver.
Qed.

Lemma ASSERT_true b c : b = true → ASSERT b c = Ok (tt, c).
Proof. intros ->. unfold ASSERT. by destruct DEBUG. Qed.

Lemma load_Ok {A} p (field : ThreadState → A) c r c' :
  load p field c = Ok (r, c') ↔
  ∃ s, thread_states c !! p = Some s ∧ r = field s ∧ c' = c.
Proof. unfold load. destruct (thread_states c !! p); naive_solver. Qed.

Lemma store_Ok p upd c r c' :
  store p upd c = Ok (r, c') ↔
  ∃ s, thread_states c !! p = Some s ∧
       c' = with_thread_states (λ h, <[p := upd s]> h) c.
Proof. unfold store. destruct r, (thread_states c !! p); naive_solver. Qed.

Lemma deref_Ok p c r c' :
  deref p c = Ok (r, c') ↔ p = Some r ∧ c' = c.
Proof. unfold deref, fatal. destruct p; [rewrite ret_Ok|]; naive_solver. Qed.

End Monad_lemmas.

(** Take a returning run apart, statement by statement. *)
Ltac run_inv H :=
  lazymatch type of H with
  | (_ ≫= _) _ = Ok _ =>
      let a := fresh "a" in let c := fresh "c" in
      let H1 := fresh H in
      apply bind_Ok in H as (a & c & H1 & H);
      run_inv H1; run_inv H
  | mret _ _ = Ok _ => apply ret_Ok in H as [? ?]; subst
  | gets _ _ = Ok _ => apply gets_Ok in H as [? ?]; subst
  | tmd _ _ = Ok _ => apply tmd_Ok in H as [? ?]; subst
  | modify _ _ = Ok _ => apply modify_Ok in H; subst
  | emit _ _ = Ok _ => apply emit_Ok in H; subst
  | deref _ _ = Ok _ => apply deref_Ok in H as [? ?]; subst
  | ASSERT _ _ = Ok _ => apply ASSERT_Ok in H as [? ?]; subst
  | load _ _ _ = Ok _ => apply load_Ok in H as (? & ? & ? & ?); subst
  | Thread_GetThreadLocal _ _ = Ok _ =>
      unfold Thread_GetThreadLocal in H; run_inv H
  | Thread_SetThreadLocal _ _ _ = Ok _ =>
      unfold Thread_SetThreadLocal in H; run_inv H
  | Thread_GetThreadLocalInt _ _ = Ok _ =>
      unfold Thread_GetThreadLocalInt in H; run_inv H
  | Thread_SetThreadLocalInt _ _ _ = Ok _ =>
      unfold Thread_SetThreadLocalInt in H; run_inv H
  | ThreadManager_IsLockedByCurrentThread _ _ = Ok _ =>
      unfold ThreadManager_IsLockedByCurrentThread in H; run_inv H
  | Locker_IsLocked _ _ = Ok _ =>
      unfold Locker_IsLocked in H; run_inv H
  | ThreadManager_HasId _ _ = Ok _ =>
      unfold ThreadManager_HasId in H; run_inv H
  | ThreadManager_IsArchived _ _ = Ok _ =>
      unfold ThreadManager_IsArchived in H; run_inv H
  | ThreadManager_CurrentId _ _ = Ok _ =>
      unfold ThreadManager_CurrentId in H; run_inv H
  | _ => idtac
  end.

(** Run the plain statements of an operation. *)
Ltac run_unfold :=
  cbv [mbind M_bind mret M_ret gets tmd modify emit fatal blocked out_of_fuel
       deref Thread_GetThreadLocal Thread_SetThreadLocal
       Thread_GetThreadLocalInt Thread_SetThreadLocalInt
       ThreadManager_HasId ThreadManager_IsArchived ThreadManager_CurrentId
       ThreadManager_IsLockedByCurrentThread Locker_IsLocked].

(** ** Thread ids *)

Section AssignId.
Context `{B : Build}.

Lemma int_wrap_small z : - 2 ^ 31 ≤ z < 2 ^ 31 → int_wrap z = z.
Proof. intros Hz. unfold int_wrap. rewrite Z.mod_small; lia. Qed.

Lemma AssignId_has_id c self :
  id_of c self ≠ 0 → ThreadManager_AssignId self c = Ok (tt, c).
Proof.
  intros Hid. unfold ThreadManager_AssignId. run_unfold.
  fold (id_of c self). by rewrite bool_decide_true.
Qed.

Lemma AssignId_fresh c self :
  id_of c self = 0 →
  observes_locked self c = true →
  0 ≤ last_id_ (thread_manager_data_ c) < 2 ^ 31 - 1 →
  ∃ c', ThreadManager_AssignId self c = Ok (tt, c') ∧
        id_of c' self = last_id_ (thread_manager_data_ c) + 1 ∧
        last_id_ (thread_manager_data_ c') = last_id_ (thread_manager_data_ c) + 1 ∧
        (∀ t, t ≠ self → id_of c' t = id_of c t) ∧
        thread_states c' = thread_states c ∧
        mutex_owner_ (thread_manager_data_ c') = mutex_owner_ (thread_manager_data_ c) ∧
        mutex_ (thread_manager_data_ c') = mutex_ (thread_manager_data_ c).
Proof.
  intros Hid Hlock Hlast. unfold ThreadManager_AssignId. run_unfold.
  fold (id_of c self). rewrite Hid.
  change (negb (bool_decide (0 ≠ 0))) with true. cbv iota beta.
  unfold observes_locked in Hlock. rewrite Hlock.
  rewrite ASSERT_true by done.
  rewrite int_wrap_small by lia.
  rewrite ASSERT_true by (apply bool_decide_eq_true; lia).
  eexists. split; [reflexivity|]. unfold id_of. simpl.
  rewrite lookup_insert_eq. repeat split; try done.
  intros t Ht. by rewrite lookup_insert_ne.
Qed.

End AssignId.

(** ** The store under single writes *)

Section Store_lemmas.
Context `{B : Build}.
Implicit Types (h : list ThreadState) (p q : nat).

Lemma nxt_insert h p s q :
  (p < length h)%nat →
  nxt (<[p := s]> h) q = if decide (q = p) then Some (next_ s) else nxt h q.
Proof.
  intros Hp. unfold nxt. destruct (decide (q = p)) as [->|Hne].
  - by rewrite list_lookup_insert_eq.
  - by rewrite list_lookup_insert_ne.
Qed.

Lemma prv_insert h p s q :
  (p < length h)%nat →
  prv (<[p := s]> h) q = if decide (q = p) then Some (previous_ s) else prv h q.
Proof.
  intros Hp. unfold prv. destruct (decide (q = p)) as [->|Hne].
  - by rewrite list_lookup_insert_eq.
  - by rewrite list_lookup_insert_ne.
Qed.

Lemma payload_insert h p s q :
  (p < length h)%nat →
  payload <$> <[p := s]> h !! q =
  if decide (q = p) then Some (payload s) else payload <$> h !! q.
Proof.
  intros Hp. destruct (decide (q = p)) as [->|Hne].
  - by rewrite list_lookup_insert_eq.
  - by rewrite list_lookup_insert_ne.
Qed.

Lemma nxt_Some h p n : nxt h p = Some n → ∃ s, h !! p = Some s ∧ next_ s = n.
Proof. unfold nxt. destruct (h !! p); naive_solver. Qed.

Lemma prv_Some h p n : prv h p = Some n → ∃ s, h !! p = Some s ∧ previous_ s = n.
Proof. unfold prv. destruct (h !! p); naive_solver. Qed.

Lemma nxt_lookup h p s : h !! p = Some s → nxt h p = Some (next_ s).
Proof. unfold nxt. by intros ->. Qed.

Lemma prv_lookup h p s : h !! p = Some s → prv h p = Some (previous_ s).
Proof. unfold prv. by intros ->. Qed.

(** A path only depends on the links of the objects on it. *)
Lemma linked_frame h h' x l y :
  (∀ q, q ∈ x :: l → nxt h' q = nxt h q) →
  (∀ q, q ∈ l ++ [y] → prv h' q = prv h q) →
  linked h x l y → linked h' x l y.
Proof.
  revert x. induction l as [|z l IH]; intros x Hn Hp; simpl.
  - fold (nxt h x) (prv h y) (nxt h' x) (prv h' y).
    rewrite Hn, Hp by set_solver. done.
  - fold (nxt h x) (prv h z) (nxt h' x) (prv h' z).
    rewrite Hn, Hp by set_solver. intros (? & ? & Hl). repeat split; try done.
    apply IH; [| |done]; intros q Hq; [apply Hn|apply Hp]; set_solver.
Qed.

Lemma linked_app h x l1 z l2 y :
  linked h x (l1 ++ z :: l2) y ↔ linked h x l1 z ∧ linked h z l2 y.
Proof.
  revert x. induction l1 as [|u l1 IH]; intros x; simpl; [naive_solver|].
  rewrite IH. naive_solver.
Qed.

(** The objects on a path exist. *)
Lemma linked_valid h x l y q :
  linked h x l y → q ∈ x :: l ++ [y] → (q < length h)%nat.
Proof.
  revert x. induction l as [|z l IH]; intros x; simpl.
  - fold (nxt h x) (prv h y). intros [Hn Hp] Hq.
    apply nxt_Some in Hn as (? & Hn & _). apply prv_Some in Hp as (? & Hp & _).
    apply lookup_lt_Some in Hn, Hp. set_solver.
  - fold (nxt h x) (prv h z). intros (Hn & Hp & Hl) Hq.
    apply nxt_Some in Hn as (? & Hn & _). apply lookup_lt_Some in Hn.
    apply elem_of_cons in Hq as [->|Hq]; [done|]. by apply (IH z).
Qed.

Lemma last_cons_default (l : list nat) z x :
  List.last (z :: l) x = List.last l z.
Proof.
  revert z x. induction l as [|u l IH]; intros z x; [done|].
  change (List.last (z :: u :: l) x) with (List.last (u :: l) x).
  by rewrite !IH.
Qed.

Lemma last_default_elem (l : list nat) z : List.last l z ∈ z :: l.
Proof.
  revert z. induction l as [|u l IH]; intros z; [set_solver|].
  rewrite last_cons_default. specialize (IH u). set_solver.
Qed.

(** Taking [p] out of a path: its neighbours are joined. *)
Lemma linked_unlink h h' x l1 p l2 y :
  linked h x (l1 ++ p :: l2) y →
  NoDup (x :: l1 ++ p :: l2) →
  y ∉ l1 ++ p :: l2 →
  (∀ q, nxt h' q = if decide (q = List.last l1 x) then Some (hd y l2) else nxt h q) →
  (∀ q, prv h' q = if decide (q = hd y l2) then Some (List.last l1 x) else prv h q) →
  linked h' x (l1 ++ l2) y.
Proof.
  revert x. induction l1 as [|z l1 IH]; intros x Hl Hnd Hy Hn Hp.
  - simpl in *. fold (nxt h x) (prv h p) in Hl. destruct Hl as (Hxp & Hpx & Hl).
    apply list.NoDup_cons in Hnd as [Hx Hnd]. apply list.NoDup_cons in Hnd as [Hpl2 Hnd].
    destruct l2 as [|n l2]; simpl in *.
    + fold (nxt h' x) (prv h' y). rewrite Hn, Hp. by rewrite !decide_True.
    + fold (nxt h' x) (prv h' n). rewrite Hn, Hp. rewrite !decide_True by done.
      repeat split; try done. destruct Hl as (_ & _ & Hl).
      apply list.NoDup_cons in Hnd as [Hnl2 Hnd].
      apply (linked_frame h); [| |done].
      * intros q Hq. rewrite Hn. rewrite decide_False; [done|]. set_solver.
      * intros q Hq. rewrite Hp. rewrite decide_False; [done|]. set_solver.
  - simpl in Hl. fold (nxt h x) (prv h z) in Hl. destruct Hl as (Hxz & Hzx & Hl).
    rewrite last_cons_default in Hn, Hp.
    pose proof (last_default_elem l1 z) as Hin.
    assert (Hhd : hd y l2 ∈ y :: l2) by (destruct l2; set_solver).
    apply list.NoDup_cons in Hnd as [Hx Hnd].
    simpl. fold (nxt h' x) (prv h' z). rewrite Hn, Hp.
    rewrite decide_False by set_solver.
    rewrite decide_False.
    2:{ intros ->. apply list.NoDup_cons in Hnd as [Hz _].
        apply elem_of_cons in Hhd as [Heq|Hhd]; [|set_solver].
        apply Hy. rewrite <- Heq. set_solver. }
    repeat split; try done. apply IH; try done. set_solver.
Qed.

(** Putting [p] in front of a path. *)
Lemma linked_link h h' a l p :
  ring h a l →
  NoDup (a :: l) → p ∉ a :: l →
  (∀ q, nxt h' q = if decide (q = a) then Some p
                   else if decide (q = p) then Some (hd a l) else nxt h q) →
  (∀ q, prv h' q = if decide (q = hd a l) then Some p
                   else if decide (q = p) then Some a else prv h q) →
  ring h' a (p :: l).
Proof.
  unfold ring. intros Hl Hnd Hp Hn Hv.
  apply list.NoDup_cons in Hnd as [Ha Hnd].
  assert (Hhd : hd a l ≠ p) by (destruct l; set_solver).
  simpl. fold (nxt h' a) (prv h' p). rewrite Hn, Hv.
  rewrite decide_True by done. rewrite decide_False by done.
  rewrite decide_True by done. repeat split; try done.
  destruct l as [|z l]; simpl in *.
  - fold (nxt h' p) (prv h' a). rewrite Hn, Hv.
    rewrite decide_False by set_solver. by rewrite !decide_True.
  - fold (nxt h' p) (prv h' z). rewrite Hn, Hv.
    rewrite decide_False by set_solver. rewrite !decide_True by done.
    repeat split; try done. destruct Hl as (_ & _ & Hl).
    apply list.NoDup_cons in Hnd as [Hz Hnd].
    apply (linked_frame h); [| |done].
    + intros q Hq. rewrite Hn. rewrite !decide_False; set_solver.
    + intros q Hq. rewrite Hv. rewrite !decide_False; set_solver.
Qed.

(** Reading a ring off the store gives back its entries. *)
Lemma entries_from_linked h a l x fuel :
  linked h x l a → a ∉ l → (length l < fuel)%nat →
  entries_from h a fuel x = l.
Proof.
  revert x fuel. induction l as [|z l IH]; intros x fuel Hl Ha Hf.
  - destruct fuel; [simpl in Hf; lia|]. simpl in *.
    fold (nxt h x) in Hl. destruct Hl as [Hn _].
    apply nxt_Some in Hn as (s & -> & Hs). by rewrite bool_decide_true.
  - destruct fuel; [simpl in Hf; lia|]. simpl in *.
    fold (nxt h x) in Hl. destruct Hl as (Hn & _ & Hl).
    apply nxt_Some in Hn as (s & -> & Hs). rewrite bool_decide_false by set_solver.
    rewrite Hs. f_equal. apply IH; [done|set_solver|lia].
Qed.

Lemma NoDup_bounded_length (l : list nat) n :
  NoDup l → (∀ x, x ∈ l → (x < n)%nat) → (length l ≤ n)%nat.
Proof.
  intros Hnd Hb. trans (length (seq 0 n)); [|by rewrite length_seq].
  apply submseteq_length, NoDup_submseteq; [done|].
  intros x Hx. apply elem_of_seq. specialize (Hb x Hx). lia.
Qed.

Lemma Shape_free_entries h fa ia fl ul fs :
  Shape h fa ia fl ul fs → list_entries h fa = fl.
Proof.
  intros [Hnd Hf Hu Hall]. apply entries_from_linked; [done| |].
  - apply list.NoDup_cons in Hnd as [Hfa _]. set_solver.
  - assert (length (fa :: ia :: fl ++ ul ++ fs) ≤ length h)%nat.
    { apply NoDup_bounded_length; [done|]. intros x. by rewrite Hall. }
    simpl in *. rewrite !length_app in *. lia.
Qed.

Lemma Shape_use_entries h fa ia fl ul fs :
  Shape h fa ia fl ul fs → list_entries h ia = ul.
Proof.
  intros [Hnd Hf Hu Hall]. apply entries_from_linked; [done| |].
  - apply list.NoDup_cons in Hnd as [_ Hnd]. apply list.NoDup_cons in Hnd as [Hia _]. set_solver.
  - assert (length (fa :: ia :: fl ++ ul ++ fs) ≤ length h)%nat.
    { apply NoDup_bounded_length; [done|]. intros x. by rewrite Hall. }
    simpl in *. rewrite !length_app in *. lia.
Qed.

End Store_lemmas.

(** ** The list operations on the store *)

Section List_operations.
Context `{B : Build}.
Implicit Types (c : V8Context) (p q : nat).

Lemma load_run {A} c p s (field : ThreadState → A) :
  thread_states c !! p = Some s → load p field c = Ok (field s, c).
Proof. unfold load. by intros ->. Qed.

Lemma store_run c p s upd :
  thread_states c !! p = Some s →
  store p upd c = Ok (tt, with_thread_states (λ _, <[p := upd s]> (thread_states c)) c).
Proof. unfold store. by intros ->. Qed.

Lemma lookup_nxt_prv (h : list ThreadState) p n pv :
  nxt h p = Some n → prv h p = Some pv →
  ∃ s, h !! p = Some s ∧ next_ s = n ∧ previous_ s = pv.
Proof.
  intros Hn Hp. apply nxt_Some in Hn as (s & Hs & Hn).
  apply prv_Some in Hp as (s' & Hs' & Hp). naive_solver.
Qed.

Lemma payload_insert_same (h : list ThreadState) p s s' :
  h !! p = Some s → payload s' = payload s →
  ∀ q, payload <$> <[p := s']> h !! q = payload <$> h !! q.
Proof.
  intros Hs Hpay q. rewrite payload_insert by by eapply lookup_lt_Some.
  case_decide; [|done]. subst. by rewrite Hs, Hpay.
Qed.

Lemma nxt_insert_same (h : list ThreadState) p s s' :
  h !! p = Some s → next_ s' = next_ s →
  ∀ q, nxt (<[p := s']> h) q = nxt h q.
Proof.
  intros Hs Hpay q. rewrite nxt_insert by by eapply lookup_lt_Some.
  case_decide; [|done]. subst. by rewrite (nxt_lookup _ _ _ Hs), Hpay.
Qed.

Lemma prv_insert_same (h : list ThreadState) p s s' :
  h !! p = Some s → previous_ s' = previous_ s →
  ∀ q, prv (<[p := s']> h) q = prv h q.
Proof.
  intros Hs Hpay q. rewrite prv_insert by by eapply lookup_lt_Some.
  case_decide; [|done]. subst. by rewrite (prv_lookup _ _ _ Hs), Hpay.
Qed.

Lemma Unlink_run c p n pv :
  let h := thread_states c in
  nxt h p = Some n → prv h p = Some pv →
  (n < length h)%nat → (pv < length h)%nat →
  ∃ h', ThreadState_Unlink p c = Ok (tt, with_thread_states (λ _, h') c) ∧
    length h' = length h ∧
    (∀ q, payload <$> h' !! q = payload <$> h !! q) ∧
    (∀ q, nxt h' q = if decide (q = pv) then Some n else nxt h q) ∧
    (∀ q, prv h' q = if decide (q = n) then Some pv else prv h q).
Proof.
  intros h Hn Hp Hnv Hpv.
  destruct (lookup_nxt_prv _ _ _ _ Hn Hp) as (s & Hs & Hsn & Hsp).
  destruct (lookup_lt_is_Some_2 h n Hnv) as [sn Hsn'].
  set (h1 := <[n := set_previous pv sn]> h).
  assert (Hlen1 : length h1 = length h) by apply length_insert.
  assert (Hp1 : prv h1 p = Some pv).
  { unfold h1. rewrite prv_insert by done. case_decide; [done|]. done. }
  assert (Hn1 : nxt h1 p = Some n).
  { unfold h1. rewrite nxt_insert by done. case_decide; [|done].
    subst. simpl. unfold h in *. rewrite Hs in Hsn'. by simplify_eq. }
  destruct (lookup_nxt_prv _ _ _ _ Hn1 Hp1) as (s1 & Hs1 & Hs1n & Hs1p).
  destruct (lookup_lt_is_Some_2 h1 pv) as [spv Hspv]; [lia|].
  exists (<[pv := set_next n spv]> h1). split; [|split; [|split; [|split]]].
  - unfold ThreadState_Unlink.
    rewrite (bind_run _ _ _ _ _ (load_run c p s next_ Hs)).
    rewrite (bind_run _ _ _ _ _ (load_run c p s previous_ Hs)).
    rewrite Hsn, Hsp.
    rewrite (bind_run _ _ _ _ _ (store_run c n sn _ Hsn')).
    fold h h1.
    set (c1 := with_thread_states (λ _, h1) c).
    rewrite (bind_run _ _ _ _ _ (load_run c1 p s1 previous_ Hs1)).
    rewrite (bind_run _ _ _ _ _ (load_run c1 p s1 next_ Hs1)).
    rewrite Hs1n, Hs1p.
    rewrite (store_run c1 pv spv _ Hspv). done.
  - by rewrite length_insert.
  - intros q. rewrite (payload_insert_same h1 pv spv) by done.
    unfold h1. by rewrite (payload_insert_same h n sn).
  - intros q. rewrite nxt_insert by lia. case_decide; [done|].
    unfold h1. by rewrite (nxt_insert_same h n sn).
  - intros q. rewrite (prv_insert_same h1 pv spv) by done.
    unfold h1. by rewrite prv_insert.
Qed.

Lemma LinkInto_run c p list z :
  let h := thread_states c in
  let a := anchor_of c list in
  nxt h a = Some z →
  (p < length h)%nat → (z < length h)%nat → p ≠ a →
  ∃ h', ThreadState_LinkInto p list c = Ok (tt, with_thread_states (λ _, h') c) ∧
    length h' = length h ∧
    (∀ q, payload <$> h' !! q = payload <$> h !! q) ∧
    (∀ q, nxt h' q = if decide (q = a) then Some p
                     else if decide (q = p) then Some z else nxt h q) ∧
    (∀ q, prv h' q = if decide (q = z) then Some p
                     else if decide (q = p) then Some a else prv h q).
Proof.
  intros h a Ha Hp Hz Hpa.
  apply nxt_Some in Ha as (sa & Hsa & <-).
  destruct (lookup_lt_is_Some_2 h p Hp) as [sp Hsp].
  set (z := next_ sa) in *.
  set (h1 := <[p := set_next z sp]> h).
  assert (Hsp1 : h1 !! p = Some (set_next z sp)) by by apply list_lookup_insert_eq.
  set (h2 := <[p := set_previous a (set_next z sp)]> h1).
  assert (Hsa2 : h2 !! a = Some sa).
  { unfold h2, h1. by rewrite !list_lookup_insert_ne. }
  set (h3 := <[a := set_next p sa]> h2).
  assert (Hlen3 : length h3 = length h).
  { unfold h3, h2, h1. by rewrite !length_insert. }
  assert (Hsp3 : h3 !! p = Some (set_previous a (set_next z sp))).
  { unfold h3. rewrite list_lookup_insert_ne by done. unfold h2.
    apply list_lookup_insert_eq. unfold h1. by rewrite length_insert. }
  destruct (lookup_lt_is_Some_2 h3 z) as [sz Hsz]; [lia|].
  exists (<[z := set_previous p sz]> h3). split; [|split; [|split; [|split]]].
  - unfold ThreadState_LinkInto.
    assert (Htmd : tmd (match list with
                        | FREE_LIST => free_anchor_
                        | IN_USE_LIST => in_use_anchor_
                        end) c = Ok (a, c)) by by destruct list.
    rewrite (bind_run _ _ _ _ _ Htmd).
    rewrite (bind_run _ _ _ _ _ (load_run c a sa next_ Hsa)).
    rewrite (bind_run _ _ _ _ _ (store_run c p sp _ Hsp)). fold h h1.
    set (c1 := with_thread_states (λ _, h1) c).
    rewrite (bind_run _ _ _ _ _ (store_run c1 p _ _ Hsp1)).
    set (c2 := with_thread_states (λ _, h2) c).
    rewrite (bind_run _ _ _ _ _ (store_run c2 a sa _ Hsa2)).
    set (c3 := with_thread_states (λ _, h3) c).
    rewrite (bind_run _ _ _ _ _ (load_run c3 p _ next_ Hsp3)).
    simpl next_.
    by rewrite (store_run c3 _ sz _ Hsz).
  - by rewrite length_insert.
  - intros q. rewrite (payload_insert_same h3 z sz) by done.
    unfold h3. rewrite (payload_insert_same h2 a sa) by done.
    unfold h2. rewrite (payload_insert_same h1 p (set_next z sp)) by done.
    unfold h1. by rewrite (payload_insert_same h p sp).
  - intros q. rewrite (nxt_insert_same h3 z sz) by done.
    unfold h3. rewrite nxt_insert by (unfold h2, h1; rewrite !length_insert;
      by eapply lookup_lt_Some). case_decide; [done|].
    unfold h2. rewrite (nxt_insert_same h1 p (set_next z sp)) by done.
    unfold h1. by rewrite nxt_insert.
  - intros q. rewrite prv_insert by lia. case_decide; [done|].
    unfold h3. rewrite (prv_insert_same h2 a sa) by done.
    unfold h2. rewrite prv_insert by (unfold h1; by rewrite length_insert).
    case_decide; [done|].
    unfold h1. by rewrite (prv_insert_same h p sp).
Qed.

Lemma GetFree_run_head c g :
  let h := thread_states c in
  let fa := free_anchor_ (thread_manager_data_ c) in
  nxt h fa = Some g → g ≠ fa →
  ThreadState_GetFree c = Ok (g, c).
Proof.
  intros h fa Hg Hne. apply nxt_Some in Hg as (sa & Hsa & Hsag).
  unfold ThreadState_GetFree.
  assert (Htmd : tmd free_anchor_ c = Ok (fa, c)) by done.
  rewrite (bind_run _ _ _ _ _ Htmd).
  rewrite (bind_run _ _ _ _ _ (load_run c fa sa next_ Hsa)).
  rewrite Hsag. by rewrite bool_decide_false.
Qed.

Lemma GetFree_run_new c :
  let h := thread_states c in
  let fa := free_anchor_ (thread_manager_data_ c) in
  let this := length h in
  nxt h fa = Some fa →
  ThreadState_GetFree c =
  Ok (this, with_thread_states (λ _,
        h ++ [mkThreadState kInvalidId false
                (replicate ArchiveSpacePerThread_ Byte.x00) this this]) c).
Proof.
  intros h fa this Hg. apply nxt_Some in Hg as (sa & Hsa & Hsag).
  unfold ThreadState_GetFree.
  assert (Htmd : tmd free_anchor_ c = Ok (fa, c)) by done.
  rewrite (bind_run _ _ _ _ _ Htmd).
  rewrite (bind_run _ _ _ _ _ (load_run c fa sa next_ Hsa)).
  rewrite Hsag. rewrite bool_decide_true by done.
  assert (Hnew : new_ThreadState c =
    Ok (this, with_thread_states (λ _,
          h ++ [mkThreadState kInvalidId false [] this this]) c)) by done.
  rewrite (bind_run _ _ _ _ _ Hnew).
  unfold ThreadState_AllocateSpace.
  set (c1 := with_thread_states _ c).
  assert (Hthis : thread_states c1 !! this =
                  Some (mkThreadState kInvalidId false [] this this)).
  { simpl. by apply list_lookup_middle. }
  rewrite (bind_run _ _ _ _ _ (store_run c1 this _ _ Hthis)).
  unfold mret, M_ret. do 2 f_equal.
  unfold with_thread_states, c1. simpl. f_equal.
  rewrite insert_app_r_alt by done. fold h this. by rewrite Nat.sub_diag.
Qed.

End List_operations.

(** ** The shape under the list operations *)

Section Shape_lemmas.
Context `{B : Build}.
Implicit Types (h : list ThreadState) (p q : nat) (c : V8Context).

Lemma ring_ext h h' a l :
  (∀ q, nxt h' q = nxt h q) → (∀ q, prv h' q = prv h q) →
  ring h a l → ring h' a l.
Proof. intros Hn Hp. apply linked_frame; auto. Qed.

Lemma Shape_ext h h' fa ia fl ul fs :
  length h' = length h →
  (∀ q, nxt h' q = nxt h q) → (∀ q, prv h' q = prv h q) →
  Shape h fa ia fl ul fs → Shape h' fa ia fl ul fs.
Proof.
  intros Hlen Hn Hp [Hnd Hf Hu Hall]. split; [done| | |].
  - by apply (ring_ext h).
  - by apply (ring_ext h).
  - intros p. by rewrite Hlen.
Qed.

Lemma Shape_perm h fa ia fl ul fs fl' ul' fs' :
  fl' ++ ul' ++ fs' ≡ₚ fl ++ ul ++ fs →
  ring h fa fl' → ring h ia ul' →
  Shape h fa ia fl ul fs → Shape h fa ia fl' ul' fs'.
Proof.
  intros Hperm Hf' Hu' [Hnd Hf Hu Hall]. split; [|done|done|].
  - by rewrite Hperm.
  - intros p. rewrite Hall. by rewrite Hperm.
Qed.

Lemma perm_move_out (l1 l2 ul fs : list nat) p :
  (l1 ++ l2) ++ ul ++ p :: fs ≡ₚ (l1 ++ p :: l2) ++ ul ++ fs.
Proof.
  rewrite (assoc (++) (l1 ++ l2)), <- (Permutation_middle _ fs p).
  rewrite <- (assoc (++) l1 (p :: l2)). simpl.
  rewrite <- (Permutation_middle l1 _ p).
  by rewrite <- !(assoc (++)).
Qed.

(** The first entry of a ring, or the anchor when there is none. *)
Lemma ring_nxt_anchor h a l : ring h a l → nxt h a = Some (hd a l).
Proof. unfold ring. destruct l; simpl; naive_solver. Qed.

Lemma Shape_unlink_free h h' fa ia l1 p l2 ul fs :
  Shape h fa ia (l1 ++ p :: l2) ul fs →
  length h' = length h →
  (∀ q, nxt h' q = if decide (q = List.last l1 fa) then Some (hd fa l2) else nxt h q) →
  (∀ q, prv h' q = if decide (q = hd fa l2) then Some (List.last l1 fa) else prv h q) →
  Shape h' fa ia (l1 ++ l2) ul (p :: fs).
Proof.
  intros [Hnd Hf Hu Hall] Hlen Hn Hp.
  assert (Hl1 : List.last l1 fa ∈ fa :: l1) by apply last_default_elem.
  assert (Hl2 : hd fa l2 ∈ fa :: l2) by (destruct l2; set_solver).
  assert (Hdisj : ∀ x, x ∈ fa :: l1 ++ p :: l2 → x ∈ ia :: ul → False).
  { intros x Hx Hx'. apply list.NoDup_cons in Hnd as [Hfa Hnd].
    apply list.NoDup_cons in Hnd as [Hia Hnd].
    apply NoDup_app in Hnd as (_ & Hd & _). specialize (Hd x). set_solver. }
  assert (Hndf : NoDup (fa :: l1 ++ p :: l2)).
  { apply list.NoDup_cons in Hnd as [Hfa Hnd'].
    apply list.NoDup_cons in Hnd' as [Hia Hnd'].
    apply NoDup_app in Hnd' as (? & _ & _).
    apply list.NoDup_cons. set_solver. }
  split.
  - by rewrite perm_move_out.
  - unfold ring. eapply linked_unlink; [done|done| |done|done].
    apply list.NoDup_cons in Hndf. tauto.
  - revert Hu. unfold ring. apply linked_frame.
    + intros q Hq. rewrite Hn, decide_False; [done|]. intros ->.
      apply (Hdisj (List.last l1 fa)); set_solver.
    + intros q Hq. rewrite Hp, decide_False; [done|]. intros ->.
      apply (Hdisj (hd fa l2)); set_solver.
  - intros q. rewrite Hlen, Hall. by rewrite perm_move_out.
Qed.

Lemma Shape_swap h fa ia fl ul fs :
  Shape h fa ia fl ul fs ↔ Shape h ia fa ul fl fs.
Proof.
  assert (Hperm : ∀ (x y : nat) (l1 l2 l3 : list nat),
    x :: y :: l1 ++ l2 ++ l3 ≡ₚ y :: x :: l2 ++ l1 ++ l3).
  { intros. rewrite (Permutation_swap x y). do 2 f_equiv.
    rewrite !(assoc (++)). f_equiv. apply Permutation_app_comm. }
  split; intros [Hnd Hf Hu Hall]; split; try done.
  - by rewrite Hperm.
  - intros q. by rewrite Hall, Hperm.
  - by rewrite Hperm.
  - intros q. by rewrite Hall, Hperm.
Qed.

Lemma Shape_unlink_use h h' fa ia fl l1 p l2 fs :
  Shape h fa ia fl (l1 ++ p :: l2) fs →
  length h' = length h →
  (∀ q, nxt h' q = if decide (q = List.last l1 ia) then Some (hd ia l2) else nxt h q) →
  (∀ q, prv h' q = if decide (q = hd ia l2) then Some (List.last l1 ia) else prv h q) →
  Shape h' fa ia fl (l1 ++ l2) (p :: fs).
Proof.
  intros Hs Hlen Hn Hp. apply Shape_swap. apply Shape_swap in Hs.
  by eapply Shape_unlink_free.
Qed.

Lemma Shape_link_free h h' fa ia fl ul p fs :
  Shape h fa ia fl ul (p :: fs) →
  length h' = length h →
  (∀ q, nxt h' q = if decide (q = fa) then Some p
                   else if decide (q = p) then Some (hd fa fl) else nxt h q) →
  (∀ q, prv h' q = if decide (q = hd fa fl) then Some p
                   else if decide (q = p) then Some fa else prv h q) →
  Shape h' fa ia (p :: fl) ul fs.
Proof.
  intros [Hnd Hf Hu Hall] Hlen Hn Hp.
  assert (Hperm : (p :: fl) ++ ul ++ fs ≡ₚ fl ++ ul ++ p :: fs).
  { simpl. rewrite (assoc (++) fl ul (p :: fs)), <- Permutation_middle.
    by rewrite <- (assoc (++)). }
  assert (Hhd : hd fa fl ∈ fa :: fl) by (destruct fl; set_solver).
  rewrite <- Hperm in Hnd.
  apply list.NoDup_cons in Hnd as Hnd'. destruct Hnd' as [Hfa Hnd'].
  apply list.NoDup_cons in Hnd' as [Hia Hnd']. simpl in Hnd'.
  apply list.NoDup_cons in Hnd' as [Hpn Hnd'].
  apply NoDup_app in Hnd' as (Hndf & Hdisj & Hndr).
  split.
  - done.
  - eapply linked_link; [done| | |done|done].
    + apply list.NoDup_cons. set_solver.
    + set_solver.
  - revert Hu. unfold ring. apply linked_frame.
    + intros q Hq. rewrite Hn, !decide_False; [done| |]; set_solver.
    + intros q Hq. rewrite Hp, !decide_False; [done| |].
      * set_solver.
      * intros ->. apply elem_of_cons in Hhd as [Heq|Hhd].
        { rewrite Heq in Hq. clear Heq. set_solver. }
        apply (Hdisj (hd fa fl)); [done|]. set_solver.
  - intros q. rewrite Hlen, Hall. by rewrite Hperm.
Qed.

Lemma Shape_link_use h h' fa ia fl ul p fs :
  Shape h fa ia fl ul (p :: fs) →
  length h' = length h →
  (∀ q, nxt h' q = if decide (q = ia) then Some p
                   else if decide (q = p) then Some (hd ia ul) else nxt h q) →
  (∀ q, prv h' q = if decide (q = hd ia ul) then Some p
                   else if decide (q = p) then Some ia else prv h q) →
  Shape h' fa ia fl (p :: ul) fs.
Proof.
  intros Hs Hlen Hn Hp. apply Shape_swap. apply Shape_swap in Hs.
  by eapply Shape_link_free.
Qed.

Lemma perm_new (fa ia n : nat) (fl ul fs : list nat) :
  fa :: ia :: fl ++ ul ++ n :: fs ≡ₚ n :: fa :: ia :: fl ++ ul ++ fs.
Proof.
  change (fa :: ia :: fl ++ ul ++ n :: fs) with ([fa; ia] ++ fl ++ ul ++ n :: fs).
  rewrite !(assoc (++)), <- Permutation_middle. by rewrite <- !(assoc (++)).
Qed.

(** A new object, linked to itself, is outside both lists. *)
Lemma Shape_new h s fa ia fl ul fs :
  Shape h fa ia fl ul fs →
  Shape (h ++ [s]) fa ia fl ul (length h :: fs).
Proof.
  intros [Hnd Hf Hu Hall].
  assert (Hold : ∀ q, q ∈ fa :: ia :: fl ++ ul ++ fs →
                      (h ++ [s]) !! q = h !! q).
  { intros q Hq. apply Hall in Hq. by rewrite lookup_app_l. }
  split.
  - rewrite perm_new.
    apply list.NoDup_cons. split; [|done]. intros Hin. apply Hall in Hin. lia.
  - revert Hf. apply linked_frame; intros q Hq; unfold nxt, prv;
      rewrite Hold; set_solver.
  - revert Hu. apply linked_frame; intros q Hq; unfold nxt, prv;
      rewrite Hold; set_solver.
  - intros q. rewrite perm_new.
    rewrite length_app, elem_of_cons, <- Hall. simpl. lia.
Qed.

End Shape_lemmas.

(** ** The list operations on a well-shaped store *)

Section Shape_operations.
Context `{B : Build}.
Implicit Types (h : list ThreadState) (p q : nat) (c : V8Context).

Lemma linked_nxt_first h x l y : linked h x l y → nxt h x = Some (hd y l).
Proof. destruct l; simpl; naive_solver. Qed.

Lemma linked_prv_last h x l y : linked h x l y → prv h y = Some (List.last l x).
Proof.
  revert x. induction l as [|z l IH]; intros x; simpl; [naive_solver|].
  intros (_ & _ & Hl). rewrite (IH z Hl). f_equal. symmetry.
  apply last_cons_default.
Qed.

Lemma Shape_valid h fa ia fl ul fs q :
  Shape h fa ia fl ul fs → q ∈ fa :: ia :: fl ++ ul ++ fs → (q < length h)%nat.
Proof. intros [_ _ _ Hall] Hq. by apply Hall. Qed.

Lemma Unlink_Shape_free c fa ia l1 p l2 ul fs :
  let h := thread_states c in
  Shape h fa ia (l1 ++ p :: l2) ul fs →
  ∃ h', ThreadState_Unlink p c = Ok (tt, with_thread_states (λ _, h') c) ∧
    length h' = length h ∧
    (∀ q, payload <$> h' !! q = payload <$> h !! q) ∧
    Shape h' fa ia (l1 ++ l2) ul (p :: fs).
Proof.
  intros h Hs. pose proof Hs as [Hnd Hf Hu Hall].
  apply linked_app in Hf as [Hf1 Hf2].
  apply linked_nxt_first in Hf2. apply linked_prv_last in Hf1.
  assert (Hl1 : List.last l1 fa ∈ fa :: l1) by apply last_default_elem.
  assert (Hl2 : hd fa l2 ∈ fa :: l2) by (destruct l2; set_solver).
  destruct (Unlink_run c p _ _ Hf2 Hf1) as (h' & Hrun & Hlen & Hpay & Hn & Hp).
  { apply Hall. set_solver. }
  { apply Hall. set_solver. }
  exists h'. split_and!; try done. by eapply Shape_unlink_free.
Qed.

Lemma Unlink_Shape_use c fa ia fl l1 p l2 fs :
  let h := thread_states c in
  Shape h fa ia fl (l1 ++ p :: l2) fs →
  ∃ h', ThreadState_Unlink p c = Ok (tt, with_thread_states (λ _, h') c) ∧
    length h' = length h ∧
    (∀ q, payload <$> h' !! q = payload <$> h !! q) ∧
    Shape h' fa ia fl (l1 ++ l2) (p :: fs).
Proof.
  intros h Hs. apply Shape_swap in Hs.
  destruct (Unlink_Shape_free c _ _ _ _ _ _ _ Hs) as (h' & ? & ? & ? & Hs').
  exists h'. split_and!; try done. by apply Shape_swap.
Qed.

(** Unlinking an object that is linked to itself changes no link. *)
Lemma Unlink_self c p :
  let h := thread_states c in
  nxt h p = Some p → prv h p = Some p →
  ∃ h', ThreadState_Unlink p c = Ok (tt, with_thread_states (λ _, h') c) ∧
    length h' = length h ∧
    (∀ q, payload <$> h' !! q = payload <$> h !! q) ∧
    (∀ q, nxt h' q = nxt h q) ∧ (∀ q, prv h' q = prv h q).
Proof.
  intros h Hn Hp.
  assert (Hlt : (p < length h)%nat).
  { apply nxt_Some in Hn as (? & Hs & _). by eapply lookup_lt_Some. }
  destruct (Unlink_run c p _ _ Hn Hp Hlt Hlt) as (h' & Hrun & Hlen & Hpay & Hn' & Hp').
  exists h'. split_and!; try done.
  - intros q. rewrite Hn'. case_decide; by subst.
  - intros q. rewrite Hp'. case_decide; by subst.
Qed.

Lemma LinkInto_Shape c list fl ul p fs :
  let h := thread_states c in
  let fa := free_anchor_ (thread_manager_data_ c) in
  let ia := in_use_anchor_ (thread_manager_data_ c) in
  Shape h fa ia fl ul (p :: fs) →
  ∃ h', ThreadState_LinkInto p list c = Ok (tt, with_thread_states (λ _, h') c) ∧
    length h' = length h ∧
    (∀ q, payload <$> h' !! q = payload <$> h !! q) ∧
    Shape h' fa ia
      (match list with FREE_LIST => p :: fl | IN_USE_LIST => fl end)
      (match list with FREE_LIST => ul | IN_USE_LIST => p :: ul end) fs.
Proof.
  intros h fa ia Hs. pose proof Hs as [Hnd Hf Hu Hall].
  assert (Ha : nxt h (anchor_of c list) =
               Some (hd (anchor_of c list)
                       (match list with FREE_LIST => fl | IN_USE_LIST => ul end))).
  { destruct list; simpl; by apply linked_nxt_first. }
  destruct (LinkInto_run c p list _ Ha) as (h' & Hrun & Hlen & Hpay & Hn & Hp).
  { apply Hall. set_solver. }
  { apply Hall. destruct list; simpl; [destruct fl|destruct ul]; set_solver. }
  { apply list.NoDup_cons in Hnd as [Hfa Hnd].
    apply list.NoDup_cons in Hnd as [Hia Hnd].
    destruct list; simpl; set_solver. }
  exists h'. split_and!; try done.
  destruct list; simpl in *.
  - by eapply Shape_link_free.
  - by eapply Shape_link_use.
Qed.

Lemma payload_meta h h' q :
  payload <$> h' !! q = payload <$> h !! q →
  meta <$> h' !! q = meta <$> h !! q.
Proof.
  destruct (h' !! q) as [s'|], (h !! q) as [s|]; simpl; try done.
  unfold payload, meta. intros [= -> -> ->]. done.
Qed.

Lemma meta_insert h p s q :
  (p < length h)%nat →
  meta <$> <[p := s]> h !! q =
  if decide (q = p) then Some (meta s) else meta <$> h !! q.
Proof.
  intros Hp. destruct (decide (q = p)) as [->|Hne].
  - by rewrite list_lookup_insert_eq.
  - by rewrite list_lookup_insert_ne.
Qed.

Lemma meta_insert_same h p s s' :
  h !! p = Some s → meta s' = meta s →
  ∀ q, meta <$> <[p := s']> h !! q = meta <$> h !! q.
Proof.
  intros Hs Hm q. rewrite meta_insert by by eapply lookup_lt_Some.
  case_decide; [|done]. subst. by rewrite Hs, Hm.
Qed.

Lemma same_links_refl c : same_links c c.
Proof. done. Qed.

Lemma same_links_trans c1 c2 c3 :
  same_links c1 c2 → same_links c2 c3 → same_links c1 c3.
Proof.
  intros (? & ? & ? & Hn & Hp & Hm) (? & ? & ? & Hn' & Hp' & Hm').
  split_and!; [congruence..| | |].
  - intros q. by rewrite Hn', Hn.
  - intros q. by rewrite Hp', Hp.
  - intros q. by rewrite Hm', Hm.
Qed.

Lemma same_links_id_of c c' t : same_links c c' → id_of c' t = id_of c t.
Proof.
  intros (_ & Hid & _). unfold id_view in Hid. injection Hid as _ Hk.
  unfold id_of. by rewrite Hk.
Qed.

Lemma Inv_same_links c c' fl ul :
  same_links c c' → Inv c fl ul → Inv c' fl ul.
Proof.
  intros Hsame [Hs Hlazy Htls Hinj Hfm Hum Hlm Hids Hidj].
  assert (Hidof : ∀ t, id_of c' t = id_of c t)
    by (intros t; by apply same_links_id_of).
  destruct Hsame as (Hview & Hid & Hlen & Hn & Hp & Hm).
  unfold archive_view in Hview. injection Hview as Hfa Hia Hlt Hls Htk.
  unfold id_view in Hid. injection Hid as Hlast Hkey.
  split; unfold lazy_list, lazy_slot_ok in *;
    rewrite ?Hfa, ?Hia, ?Hlt, ?Hls, ?Htk, ?Hlast; try done.
  - by eapply Shape_ext.
  - intros p Hp'. rewrite Hm. by apply Hfm.
  - intros p Hp'. destruct (Hum p Hp') as (t & f & ? & ? & ?).
    exists t, f. by rewrite Hm, Hidof.
  - intros t p. rewrite Hm, Hidof. apply Hlm.
  - intros t. rewrite Hidof. apply Hids.
  - intros t1 t2. rewrite !Hidof. apply Hidj.
Qed.

Lemma store_same_links c p upd r c' :
  (∀ s, next_ (upd s) = next_ s ∧ previous_ (upd s) = previous_ s ∧
        meta (upd s) = meta s) →
  store p upd c = Ok (r, c') → same_links c c'.
Proof.
  intros Hupd Hrun. apply store_Ok in Hrun as (s & Hs & ->).
  destruct (Hupd s) as (Hn & Hp & Hm). split_and!; simpl.
  - done.
  - done.
  - apply length_insert.
  - intros q. by apply (nxt_insert_same _ _ s).
  - intros q. by apply (prv_insert_same _ _ s).
  - intros q. by apply (meta_insert_same _ _ s).
Qed.

Lemma same_links_live c f : same_links c (with_live f c).
Proof. done. Qed.

Lemma same_links_trace c f : same_links c (with_trace f c).
Proof. done. Qed.

Lemma memcpy_to_same_links c to bytes r c' :
  memcpy_to to bytes c = Ok (r, c') → same_links c c'.
Proof.
  unfold memcpy_to. intros Hrun. run_inv Hrun.
  case_decide; [|by unfold fatal in Hrun].
  apply store_Ok in Hrun as (s & Hs & ->). simplify_eq.
  split_and!; simpl; try done.
  - apply length_insert.
  - intros q. by eapply nxt_insert_same.
  - intros q. by eapply prv_insert_same.
  - intros q. eapply meta_insert_same; [done|].
    unfold meta. simpl. f_equal.
    rewrite !length_app, length_take, length_drop. lia.
Qed.

Lemma memcpy_from_same c from n r c' :
  memcpy_from from n c = Ok (r, c') → c' = c.
Proof.
  unfold memcpy_from. intros Hrun. run_inv Hrun.
  case_decide; [|by unfold fatal in Hrun]. by run_inv Hrun.
Qed.

Lemma ext_Archive_same_links c s to r c' :
  ext_Archive s to c = Ok (r, c') → same_links c c'.
Proof.
  unfold ext_Archive. intros Hrun. run_inv Hrun.
  destruct (Archive _ _) as [bytes rest]. run_inv Hrun.
  match goal with H : memcpy_to _ _ _ = Ok _ |- _ =>
    apply memcpy_to_same_links in H; eapply same_links_trans; [exact H|] end.
  done.
Qed.

Lemma RegExpStack_ArchiveStack_same_links c to r c' :
  RegExpStack_ArchiveStack to c = Ok (r, c') → same_links c c'.
Proof.
  unfold RegExpStack_ArchiveStack. intros Hrun. run_inv Hrun.
  match goal with H : memcpy_to _ _ _ = Ok _ |- _ =>
    apply memcpy_to_same_links in H; eapply same_links_trans; [exact H|] end.
  done.
Qed.

Lemma ext_Restore_same_links c s from r c' :
  ext_Restore s from c = Ok (r, c') → same_links c c'.
Proof.
  unfold ext_Restore. intros Hrun. run_inv Hrun.
  match goal with H : memcpy_from _ _ _ = Ok _ |- _ =>
    apply memcpy_from_same in H as -> end.
  done.
Qed.

Lemma RegExpStack_RestoreStack_same_links c from r c' :
  RegExpStack_RestoreStack from c = Ok (r, c') → same_links c c'.
Proof.
  unfold RegExpStack_RestoreStack. intros Hrun. run_inv Hrun.
  match goal with H : memcpy_from _ _ _ = Ok _ |- _ =>
    apply memcpy_from_same in H as -> end.
  done.
Qed.

Lemma StackGuard_call_same_links c k r c' :
  StackGuard_call k c = Ok (r, c') → same_links c c'.
Proof. unfold StackGuard_call. intros Hrun. by run_inv Hrun. Qed.

End Shape_operations.

(** ** The invariant of the archive protocol *)

Ltac to_links :=
  repeat match goal with
  | H : ext_Archive _ _ _ = Ok _ |- _ => apply ext_Archive_same_links in H
  | H : RegExpStack_ArchiveStack _ _ = Ok _ |- _ =>
      apply RegExpStack_ArchiveStack_same_links in H
  | H : ext_Restore _ _ _ = Ok _ |- _ => apply ext_Restore_same_links in H
  | H : RegExpStack_RestoreStack _ _ = Ok _ |- _ =>
      apply RegExpStack_RestoreStack_same_links in H
  | H : StackGuard_call _ _ = Ok _ |- _ => apply StackGuard_call_same_links in H
  end.

Ltac chain_links :=
  repeat match goal with
  | H1 : same_links ?a ?b, H2 : same_links ?b ?c |- _ =>
      pose proof (same_links_trans _ _ _ H1 H2); clear H1 H2
  end.

(** Open a [same_links] fact into its equations. *)
Ltac open_links H :=
  let Hview := fresh "Hview" in
  let Hid := fresh "Hid" in
  destruct H as (Hview & Hid & ?Hlen & ?Hn & ?Hp & ?Hm);
  unfold archive_view in Hview; simpl in Hview;
  injection Hview as ?Hfa ?Hia ?Hlt ?Hls ?Htk;
  unfold id_view in Hid; simpl in Hid;
  injection Hid as ?Hlast ?Hkey.

Section Invariant_lemmas.
Context `{B : Build}.
Implicit Types (h : list ThreadState) (p q : nat) (c : V8Context).

Lemma Inv_new : Inv new_V8Context [] [].
Proof.
  split; simpl; try done.
  - split; simpl.
    + repeat (apply list.NoDup_cons; split; [set_solver|]). apply NoDup_nil_2.
    + done.
    + done.
    + intros p. rewrite !elem_of_cons, elem_of_nil. lia.
  - intros ? Hin. by apply elem_of_nil in Hin.
  - intros ? Hin. by apply elem_of_nil in Hin.
Qed.

Lemma EagerlyArchiveThread_Inv c self fl ul c' :
  Inv c fl ul →
  ThreadManager_EagerlyArchiveThread self c = Ok (tt, c') →
  ∃ p, lazily_archived_thread_state_ (thread_manager_data_ c) = Some p ∧
       lazily_archived_thread_ (thread_manager_data_ c') = INVALID ∧
       Inv c' fl (p :: ul).
Proof.
  intros Hinv Hrun. unfold ThreadManager_EagerlyArchiveThread in Hrun.
  run_inv Hrun.
  match goal with H : lazily_archived_thread_state_ _ = Some ?q |- _ =>
    rename q into p; rename H into Hlazy end.
  exists p. split; [done|].
  destruct Hinv as [Hs Hl Htls Hinj Hfm Hum Hlm Hids Hidj].
  unfold lazy_list in Hs. rewrite Hlazy in Hs.
  destruct (LinkInto_Shape c IN_USE_LIST _ _ _ _ Hs)
    as (h' & Hlink & Hlen & Hpay & Hs').
  match goal with H : ThreadState_LinkInto _ _ _ = Ok _ |- _ =>
    rewrite Hlink in H; injection H as _ <- end.
  match goal with |- context [with_tmd _ (with_tmd _ ?cF)] =>
    assert (Hd : same_links (with_thread_states (λ _, h') c) cF) end.
  { match goal with H : (if ENABLE_DEBUGGER_SUPPORT then _ else _) _ = Ok _ |- _ =>
      destruct ENABLE_DEBUGGER_SUPPORT; run_inv H end;
      to_links; chain_links; eassumption. }
  open_links Hd.
  assert (HM : ∀ q, meta <$> thread_states c7 !! q = meta <$> thread_states c !! q).
  { intros q. rewrite Hm. simpl. by apply payload_meta. }
  unfold lazy_slot_ok in Hl. rewrite Hlazy in Hl.
  destruct (lazily_archived_thread_ (thread_manager_data_ c)) as [|t0] eqn:Hlt0;
    [done|].
  split; [done|].
  split; simpl; unfold lazy_list, lazy_slot_ok, id_of; simpl;
    rewrite ?Hfa, ?Hia, ?Htk, ?Hlast, ?Hkey; try done.
  - eapply Shape_ext; [done..|exact Hs'].
  - intros t q Hq. left.
    destruct (Htls t q Hq) as [?|[_ ?]]; [set_solver|]. simplify_eq. set_solver.
  - intros q Hq. rewrite HM. by apply Hfm.
  - intros q Hq. rewrite HM. apply elem_of_cons in Hq as [->|Hq].
    + destruct (Hlm t0 p eq_refl Hlazy) as [? ?]. by exists t0, false.
    + by apply Hum.
Qed.

End Invariant_lemmas.

Section Invariant_lemmas2.
Context `{B : Build}.
Implicit Types (h : list ThreadState) (p q : nat) (c : V8Context).

(** [GetFree] and [Unlink], as [ArchiveThread] runs them: the first free
    entry is taken out of the free list, or a new object is made. *)
Lemma GetFree_Unlink c fl ul :
  let h := thread_states c in
  let fa := free_anchor_ (thread_manager_data_ c) in
  let ia := in_use_anchor_ (thread_manager_data_ c) in
  Shape h fa ia fl ul [] →
  ∃ p c1 h' fl',
    ThreadState_GetFree c = Ok (p, c1) ∧
    ThreadState_Unlink p c1 = Ok (tt, with_thread_states (λ _, h') c) ∧
    Shape h' fa ia fl' ul [p] ∧
    (fl = p :: fl' ∧ length h' = length h ∨
     fl = [] ∧ fl' = [] ∧ p = length h ∧ length h' = S (length h) ∧
     meta <$> h' !! p = Some (kInvalidId, false, ArchiveSpacePerThread_)) ∧
    (∀ q, (q < length h)%nat → payload <$> h' !! q = payload <$> h !! q).
Proof.
  intros h fa ia Hs. pose proof Hs as [Hnd Hf Hu Hall].
  destruct fl as [|g fl'].
  - assert (Hfa : nxt h fa = Some fa) by by apply linked_nxt_first in Hf.
    pose proof (GetFree_run_new c Hfa) as Hget.
    set (this := length h) in *. set (c1 := with_thread_states _ c) in Hget.
    pose proof (Shape_new h (mkThreadState kInvalidId false
      (replicate ArchiveSpacePerThread_ Byte.x00) this this) _ _ _ _ _ Hs) as Hs1.
    destruct (Unlink_self c1 this) as (h' & Hun & Hlen & Hpay & Hn & Hp).
    { unfold nxt. simpl. by rewrite list_lookup_middle. }
    { unfold prv. simpl. by rewrite list_lookup_middle. }
    exists this, c1, h', []. split; [done|]. split; [done|]. split; [|split].
    + eapply Shape_ext; [done..|]. exact Hs1.
    + right. split_and!; try done.
      * rewrite Hlen. unfold c1. simpl. rewrite length_app. simpl. fold h. lia.
      * rewrite (payload_meta _ _ _ (Hpay this)). unfold c1. simpl.
        rewrite list_lookup_middle by done. simpl. unfold meta. simpl.
        by rewrite length_replicate.
    + intros q Hq. rewrite Hpay. simpl. by rewrite lookup_app_l.
  - assert (Hfa : nxt h fa = Some g) by by apply linked_nxt_first in Hf.
    assert (Hg : g ≠ fa).
    { apply list.NoDup_cons in Hnd as [Hfa' _]. set_solver. }
    pose proof (GetFree_run_head c g Hfa Hg) as Hget.
    destruct (Unlink_Shape_free c fa ia [] g fl' ul [] Hs)
      as (h' & Hun & Hlen & Hpay & Hs').
    exists g, c, h', fl'. split; [done|]. split; [done|]. split; [done|].
    split; [by left|]. intros q _. apply Hpay.
Qed.

Lemma ArchiveThread_Inv c self fl ul c' :
  DEBUG = true →
  Inv c fl ul →
  ThreadManager_ArchiveThread self c = Ok (tt, c') →
  ∃ p fl',
    Inv c' fl' ul ∧
    (fl = p :: fl' ∨ fl = [] ∧ fl' = [] ∧ p = length (thread_states c)) ∧
    lazily_archived_thread_state_ (thread_manager_data_ c') = Some p ∧
    lazily_archived_thread_ (thread_manager_data_ c') = Identity self ∧
    trace c' = trace c ∧ live c' = live c.
Proof.
  intros Hdebug Hinv Hrun. unfold ThreadManager_ArchiveThread in Hrun.
  run_inv Hrun.
  repeat match goal with H : DEBUG = true → _ |- _ => specialize (H Hdebug) end.
  destruct Hinv as [Hs Hl Htls Hinj Hfm Hum Hlm Hids Hidj].
  match goal with H : negb (IsValid _) = true |- _ =>
    apply negb_true_iff, bool_decide_eq_false in H; rename H into Hlazy end.
  assert (Hlz : lazily_archived_thread_ (thread_manager_data_ c) = INVALID).
  { destruct (lazily_archived_thread_ _); [done|]. by destruct Hlazy. }
  unfold lazy_slot_ok in Hl. rewrite Hlz in Hl.
  destruct (lazily_archived_thread_state_ (thread_manager_data_ c)) eqn:Hls; [done|].
  unfold lazy_list in Hs. rewrite Hls in Hs.
  match goal with H : negb (bool_decide (_ ≠ None)) = true |- _ =>
    apply negb_true_iff, bool_decide_eq_false in H; rename H into Harch end.
  assert (Hself : thread_state_key_ (thread_manager_data_ c) !! self = None).
  { destruct (_ !! self); [|done]. by destruct Harch. }
  match goal with H : ThreadState_GetFree _ = Ok _ |- _ => rename H into Hg end.
  match goal with H : ThreadState_Unlink _ _ = Ok _ |- _ => rename H into Hu end.
  destruct (GetFree_Unlink c fl ul Hs)
    as (p0 & cg & h' & fl' & Hget & Hun & Hs' & Hfl & Hpay).
  rewrite Hget in Hg. simplify_eq. rewrite Hun in Hu. simplify_eq.
  match type of Hs' with Shape _ _ _ _ _ [?q] => rename q into p end.
  match goal with H : store _ _ _ = Ok _ |- _ =>
    apply store_Ok in H as (sp & Hsp & ?); subst end.
  simpl in *.
  match goal with H : bool_decide (_ ≠ kInvalidId) = true |- _ =>
    apply bool_decide_eq_true in H; rename H into Hid end.
  match goal with H : <[p := _]> h' !! p = Some _ |- _ =>
    rewrite list_lookup_insert_eq in H by (by eapply lookup_lt_Some);
    injection H as <-; simpl in Hid end.
  fold (id_of c self) in Hid |- *.
  assert (Hpul : p ∉ ul ∧ p ∉ fl').
  { destruct Hs' as [Hnd _ _ _]. apply list.NoDup_cons in Hnd as [_ Hnd].
    apply list.NoDup_cons in Hnd as [_ Hnd].
    apply NoDup_app in Hnd as (_ & Hd1 & Hnd).
    apply NoDup_app in Hnd as (_ & Hd & _). split.
    - intros Hin. apply (Hd p Hin). set_solver.
    - intros Hin. apply (Hd1 p Hin). set_solver. }
  destruct Hpul as [Hpul Hpfl].
  assert (Hold : ∀ q, q ∈ fl' ++ ul →
            meta <$> h' !! q = meta <$> thread_states c !! q).
  { intros q Hq. apply payload_meta, Hpay.
    destruct Hs as [_ _ _ Hall]. apply Hall.
    destruct Hfl as [[-> _]|(-> & -> & _)]; set_solver. }
  assert (Hmp : meta <$> h' !! p = Some (kInvalidId, false, ArchiveSpacePerThread_)).
  { destruct Hfl as [[-> _]|(_ & _ & _ & _ & Hnew)]; [|done].
    rewrite (payload_meta _ _ _ (Hpay p ltac:(destruct Hs as [_ _ _ Hall];
      apply Hall; set_solver))). apply Hfm. set_solver. }
  rewrite Hsp in Hmp. injection Hmp as Hmid Hmf Hml.
  exists p, fl'. split; [|split; [|split; [|split; [|split]]]]; simpl; try done.
  - split; unfold lazy_list, lazy_slot_ok; simpl.
    + eapply Shape_ext; [| | |exact Hs'].
      * apply length_insert.
      * intros q. by eapply nxt_insert_same.
      * intros q. by eapply prv_insert_same.
    + by rewrite lookup_insert_eq.
    + intros t q. destruct (decide (t = self)) as [->|Hne].
      * rewrite lookup_insert_eq. intros; simplify_eq. by right.
      * rewrite lookup_insert_ne by done. intros Hq.
        destruct (Htls t q Hq) as [?|[? _]]; [by left|congruence].
    + intros t1 t2 q.
      destruct (decide (t1 = self)) as [->|Hne1], (decide (t2 = self)) as [->|Hne2];
        rewrite ?lookup_insert_eq, ?lookup_insert_ne by done; try done.
      * intros ? Hq; simplify_eq.
        destruct (Htls _ _ Hq) as [?|[? _]]; [done|congruence].
      * intros Hq ?; simplify_eq.
        destruct (Htls _ _ Hq) as [?|[? _]]; [done|congruence].
      * apply Hinj.
    + intros q Hq. rewrite list_lookup_insert_ne by (intros ->; done).
      rewrite Hold by set_solver. apply Hfm.
      destruct Hfl as [[-> _]|(-> & -> & _)]; set_solver.
    + intros q Hq. rewrite list_lookup_insert_ne by (intros ->; done).
      rewrite Hold by set_solver. destruct (Hum q Hq) as (t & f & Ht & ? & ?).
      exists t, f. split; [|done].
      rewrite lookup_insert_ne; [done|]. intros ->. congruence.
    + intros t q [= <-] [= <-].
      rewrite list_lookup_insert_eq by (by eapply lookup_lt_Some).
      simpl. unfold meta. simpl. split; [|done]. by rewrite Hmf, Hml.
    + apply Hids.
    + apply Hidj.
  - destruct Hfl as [[-> _]|(-> & -> & -> & _)]; [by left|by right].
Qed.

End Invariant_lemmas2.

Section Invariant_lemmas3.
Context `{B : Build}.
Implicit Types (h : list ThreadState) (p q : nat) (c : V8Context).

Lemma IsSelf_true self (th : ThreadHandle) :
  IsSelf self th = true ↔ th = Identity self.
Proof. unfold IsSelf. apply bool_decide_eq_true. Qed.

Lemma IsValid_false (th : ThreadHandle) : IsValid th = false ↔ th = INVALID.
Proof.
  unfold IsValid. rewrite bool_decide_eq_false. destruct th; naive_solver.
Qed.

Lemma same_links_except_weaken p c c' :
  same_links c c' → same_links_except p c c'.
Proof. intros (? & ? & ? & ? & ? & Hm). split_and!; by auto. Qed.

Lemma same_links_except_trans p c1 c2 c3 :
  same_links_except p c1 c2 → same_links_except p c2 c3 →
  same_links_except p c1 c3.
Proof.
  intros (? & ? & ? & Hn & Hp & Hm) (? & ? & ? & Hn' & Hp' & Hm').
  split_and!; [congruence..| | |].
  - intros q. by rewrite Hn', Hn.
  - intros q. by rewrite Hp', Hp.
  - intros q Hq. by rewrite Hm', Hm.
Qed.

(** A write to the id or the flag of [p]. *)
Lemma store_same_links_except c p upd r c' :
  (∀ s, next_ (upd s) = next_ s ∧ previous_ (upd s) = previous_ s) →
  store p upd c = Ok (r, c') →
  same_links_except p c c' ∧
  ∃ s, thread_states c !! p = Some s ∧ thread_states c' !! p = Some (upd s).
Proof.
  intros Hupd Hrun. apply store_Ok in Hrun as (s & Hs & ->).
  destruct (Hupd s) as (Hn & Hp). split.
  - split_and!; simpl; try done.
    + apply length_insert.
    + intros q. by apply (nxt_insert_same _ _ s).
    + intros q. by apply (prv_insert_same _ _ s).
    + intros q Hq. by rewrite list_lookup_insert_ne.
  - exists s. split; [done|]. simpl. apply list_lookup_insert_eq.
    by eapply lookup_lt_Some.
Qed.

(** The end of [RestoreThread]: the pending termination is honoured and
    cleared, the id is reset. *)
Lemma RestoreThread_reset c p x r1 c1 r2 c2 :
  thread_states c !! p = Some x →
  (if terminate_on_restore_ x
   then (StackGuard_call TerminateExecution;;
         store p (set_terminate_on_restore false))
   else mret tt) c = Ok (r1, c1) →
  store p (set_id kInvalidId) c1 = Ok (r2, c2) →
  same_links_except p c c2 ∧
  meta <$> thread_states c2 !! p = Some (kInvalidId, false, length (data_ x)).
Proof.
  intros Hx Hterm Hid.
  apply store_same_links_except in Hid as (Hl2 & s1 & Hs1 & Hs2); [|done].
  rewrite Hs2. destruct (terminate_on_restore_ x) eqn:Hflag.
  - run_inv Hterm.
    match goal with H : StackGuard_call _ _ = Ok _ |- _ =>
      apply StackGuard_call_same_links in H; rename H into Hsg end.
    apply store_same_links_except in Hterm as (Hl1 & s0 & Hs0 & Hs0'); [|done].
    split.
    + eapply same_links_except_trans; [|exact Hl2].
      eapply same_links_except_trans; [|exact Hl1].
      by apply same_links_except_weaken.
    + destruct Hsg as (_ & _ & _ & _ & _ & Hm). specialize (Hm p).
      rewrite Hs0, Hx in Hm. simpl in Hm. injection Hm as Hi Hf Hlen.
      simplify_eq. simpl. unfold meta. simpl. by rewrite Hlen.
  - run_inv Hterm. split; [done|]. simplify_eq. simpl. unfold meta. simpl.
    by rewrite Hflag.
Qed.

Lemma RestoreThread_Inv c self fl ul r c' :
  Inv c fl ul →
  ThreadManager_RestoreThread self c = Ok (r, c') →
  ∃ fl' ul', Inv c' fl' ul'.
Proof.
  intros Hinv Hrun. unfold ThreadManager_RestoreThread in Hrun.
  run_inv Hrun.
  destruct (IsSelf self _) eqn:Hself.
  - (* the caller is the lazy candidate *)
    apply IsSelf_true in Hself. run_inv Hrun.
    destruct Hinv as [Hs Hl Htls Hinj Hfm Hum Hlm Hids Hidj].
    match goal with H : lazily_archived_thread_state_ _ = Some ?q |- _ =>
      rename q into p; rename H into Hlazy; simpl in Hlazy end.
    unfold lazy_list in Hs. rewrite Hlazy in Hs.
    unfold lazy_slot_ok in Hl. rewrite Hself, Hlazy in Hl.
    destruct (Hlm _ _ Hself Hlazy) as [Hmp _].
    match goal with H : store _ _ _ = Ok _ |- _ =>
      apply store_same_links_except in H as (Hex & sp & Hsp & Hsp'); [|done] end.
    simpl in Hsp. rewrite Hsp in Hmp. injection Hmp as Hmid Hmf Hml.
    destruct Hex as (Hview & Hidv & Hlen & Hn & Hp & Hm).
    unfold archive_view in Hview; simpl in Hview.
    injection Hview as Hfa Hia Hlt Hls Htk.
    unfold id_view in Hidv; simpl in Hidv. injection Hidv as Hlast Hkey.
    match goal with H : ThreadState_LinkInto _ _ ?c1 = Ok _ |- _ =>
      rename H into Hlink;
      destruct (LinkInto_Shape c1 FREE_LIST fl ul p [])
        as (h' & Hlink' & Hlen' & Hpay' & Hs') end.
    { rewrite Hfa, Hia. eapply Shape_ext; [done..|]. exact Hs. }
    rewrite Hlink' in Hlink. simplify_eq.
    assert (Hpn : p ∉ fl ++ ul).
    { destruct Hs as [Hnd _ _ _]. apply list.NoDup_cons in Hnd as [_ Hnd].
      apply list.NoDup_cons in Hnd as [_ Hnd].
      apply NoDup_app in Hnd as (_ & Hd1 & Hnd).
      apply NoDup_app in Hnd as (_ & Hd & _).
      intros [Hin|Hin]%elem_of_app; [apply (Hd1 p Hin)|apply (Hd p Hin)]; set_solver. }
    exists (p :: fl), ul.
    split; unfold lazy_list, lazy_slot_ok, id_of; simpl;
      rewrite ?Hfa, ?Hia, ?Hlt, ?Hls, ?Htk, ?Hlast, ?Hkey.
    + simpl in Hs'. by rewrite Hfa, Hia in Hs'.
    + done.
    + intros t q. destruct (decide (t = self)) as [->|Hne].
      * by rewrite lookup_delete_eq.
      * rewrite lookup_delete_ne by done. intros Hq.
        destruct (Htls t q Hq) as [?|[? _]]; [by left|congruence].
    + intros t1 t2 q.
      destruct (decide (t1 = self)) as [->|Hne1]; [by rewrite lookup_delete_eq|].
      destruct (decide (t2 = self)) as [->|Hne2]; [by rewrite lookup_delete_eq|].
      rewrite !lookup_delete_ne by done. apply Hinj.
    + intros q Hq. rewrite (payload_meta _ _ _ (Hpay' q)).
      apply elem_of_cons in Hq as [->|Hq].
      * rewrite Hsp'. simpl. unfold meta. simpl. by rewrite Hmf, Hml.
      * rewrite Hm by set_solver. by apply Hfm.
    + intros q Hq. rewrite (payload_meta _ _ _ (Hpay' q)).
      rewrite Hm by set_solver.
      destruct (Hum q Hq) as (t & f & Ht & ? & ?). exists t, f.
      split; [|done]. rewrite lookup_delete_ne; [done|]. intros ->.
      rewrite Hl in Ht. set_solver.
    + done.
    + done.
    + done.
  - (* someone else, or nobody, is the lazy candidate *)
    apply bind_Ok in Hrun as (lazy & c1 & H1 & Hrun). run_inv H1.
    apply bind_Ok in Hrun as ([] & c1 & Heager & Hrun).
    assert (∃ ul1, Inv c1 fl ul1 ∧
              lazily_archived_thread_ (thread_manager_data_ c1) = INVALID)
      as (ul1 & Hinv1 & Hlz).
    { destruct (IsValid _) eqn:Hv.
      - destruct (EagerlyArchiveThread_Inv _ _ _ _ _ Hinv Heager)
          as (p0 & _ & Hlz & Hinv1). eauto.
      - run_inv Heager. apply IsValid_false in Hv. eauto. }
    clear Hinv Heager Hself c.
    apply bind_Ok in Hrun as (state & c2 & H2 & Hrun). run_inv H2.
    destruct (thread_state_key_ (thread_manager_data_ c1) !! self)
      as [p|] eqn:Htlsp.
    + (* the caller has an archived state *)
      run_inv Hrun.
      assert (Hpu : p ∈ ul1).
      { destruct Hinv1 as [_ _ Htls _].
        destruct (Htls _ _ Htlsp) as [?|[? _]]; [done|congruence]. }
      assert (Hothers : ∀ t q, t ≠ self →
        thread_state_key_ (thread_manager_data_ c1) !! t = Some q → q ≠ p).
      { intros t q Hne Hq ->. destruct Hinv1 as [_ _ _ Hinj].
        by specialize (Hinj _ _ _ Hq Htlsp). }
      match goal with H : ThreadState_Unlink _ _ = Ok _ |- _ => rename H into Hu end.
      match goal with H : ThreadState_LinkInto _ _ _ = Ok _ |- _ => rename H into Hl end.
      match goal with H : store _ (set_id _) _ = Ok _ |- _ => rename H into Hid end.
      match goal with H : (if ENABLE_DEBUGGER_SUPPORT then _ else _) _ = Ok _ |- _ =>
        rename H into Hdbg end.
      match goal with H : (if terminate_on_restore_ _ then _ else _) _ = Ok _ |- _ =>
        rename H into Hterm end.
      match goal with H : _ !! p = Some ?x |- _ =>
        destruct (RestoreThread_reset _ _ _ _ _ _ _ H Hterm Hid) as [Hl2 Hmp];
        rename H into Hx; rename x into sx end.
      clear Hterm Hid.
      match type of Hl2 with same_links_except _ (with_tmd _ ?c8) _ =>
        assert (Hl1 : same_links c1 c8) end.
      { destruct ENABLE_DEBUGGER_SUPPORT; run_inv Hdbg; to_links; chain_links;
          eassumption. }
      destruct Hl2 as (Hview & Hidv & Hlen & Hn & Hp & Hm).
      unfold archive_view in Hview; simpl in Hview.
      injection Hview as Hfa Hia Hlt Hls Htk.
      unfold id_view in Hidv; simpl in Hidv. injection Hidv as Hlast Hkey.
      simpl in Hx, Hm.
      assert (Hidof : ∀ cx t, thread_id_key_ (thread_manager_data_ cx) =
          thread_id_key_ (thread_manager_data_ c1) → id_of cx t = id_of c1 t).
      { intros cx t Hk. unfold id_of. by rewrite Hk. }
      destruct Hl1 as (Hview1 & Hidv1 & Hlen1 & Hn1 & Hp1 & Hm1).
      unfold archive_view in Hview1. injection Hview1 as Hfa1 Hia1 Hlt1 Hls1 Htk1.
      unfold id_view in Hidv1. injection Hidv1 as Hlast1 Hkey1.
      destruct Hinv1 as [Hs Hlazy Htls Hinj Hfm Hum Hlm Hids Hidj].
      assert (Hlenx : length (data_ sx) = ArchiveSpacePerThread_).
      { destruct (Hum p Hpu) as (t & f & _ & Hmeta & _).
        rewrite <- Hm1, Hx in Hmeta. simpl in Hmeta. by injection Hmeta. }
      rewrite Hlenx in Hmp.
      assert (Hnd := shape_nodup _ _ _ _ _ _ Hs).
      apply list_elem_of_split in Hpu as (l1 & l2 & ->).
      unfold lazy_slot_ok in Hlazy. rewrite Hlz in Hlazy.
      destruct (lazily_archived_thread_state_ (thread_manager_data_ c1)) eqn:Hlst;
        [done|].
      unfold lazy_list in Hs, Hnd. rewrite Hlst in Hs, Hnd.
      assert (Hpn : p ∉ fl ++ l1 ++ l2).
      { apply list.NoDup_cons in Hnd as [_ Hnd].
        apply list.NoDup_cons in Hnd as [_ Hnd].
        apply NoDup_app in Hnd as (_ & Hd1 & Hnd).
        rewrite app_nil_r in Hnd.
        apply NoDup_app in Hnd as (_ & Hd2 & Hnd).
        apply list.NoDup_cons in Hnd as [Hp2 _].
        intros [Hin|[Hin|Hin]%elem_of_app]%elem_of_app.
        - apply (Hd1 p Hin). set_solver.
        - apply (Hd2 p Hin). set_solver.
        - done. }
      match type of Hu with ThreadState_Unlink _ ?c11 = _ =>
        destruct (Unlink_Shape_use c11
          (free_anchor_ (thread_manager_data_ c1))
          (in_use_anchor_ (thread_manager_data_ c1)) fl l1 p l2 [])
          as (h' & Hu' & Hlenu & Hpayu & Hsu) end.
      { eapply Shape_ext; [| | |exact Hs].
        - by rewrite Hlen, <- Hlen1.
        - intros q. by rewrite Hn, <- Hn1.
        - intros q. by rewrite Hp, <- Hp1. }
      rewrite Hu' in Hu. simplify_eq.
      match type of Hl with ThreadState_LinkInto _ _ ?c12 = _ =>
        destruct (LinkInto_Shape c12 FREE_LIST fl (l1 ++ l2) p [])
          as (h'' & Hl' & Hlenl & Hpayl & Hsl) end.
      { simpl. by rewrite Hfa, Hia, Hfa1, Hia1. }
      rewrite Hl' in Hl. simplify_eq.
      assert (HM : ∀ q, q ≠ p →
        meta <$> h'' !! q = meta <$> thread_states c1 !! q).
      { intros q Hq. rewrite (payload_meta _ _ _ (Hpayl q)). simpl.
        rewrite (payload_meta _ _ _ (Hpayu q)). by rewrite Hm, Hm1. }
      exists (p :: fl), (l1 ++ l2).
      split; unfold lazy_list, lazy_slot_ok, id_of; simpl;
        rewrite ?Hfa, ?Hia, ?Hlt, ?Hls, ?Htk, ?Hlast, ?Hkey,
          ?Hfa1, ?Hia1, ?Hlt1, ?Hls1, ?Htk1, ?Hlast1, ?Hkey1, ?Hlz, ?Hlst.
      * simpl in Hsl. by rewrite Hfa, Hia, Hfa1, Hia1 in Hsl.
      * done.
      * intros t q. destruct (decide (t = self)) as [->|Hne].
        { by rewrite lookup_delete_eq. }
        rewrite lookup_delete_ne by done. intros Hq. left.
        specialize (Hothers _ _ Hne Hq).
        destruct (Htls t q Hq) as [?|[? _]]; [set_solver|congruence].
      * intros t1 t2 q.
        destruct (decide (t1 = self)) as [->|Hne1]; [by rewrite lookup_delete_eq|].
        destruct (decide (t2 = self)) as [->|Hne2]; [by rewrite lookup_delete_eq|].
        rewrite !lookup_delete_ne by done. apply Hinj.
      * intros q Hq. apply elem_of_cons in Hq as [->|Hq].
        { rewrite (payload_meta _ _ _ (Hpayl p)). simpl.
          by rewrite (payload_meta _ _ _ (Hpayu p)). }
        rewrite HM by set_solver. by apply Hfm.
      * intros q Hq. rewrite HM by set_solver.
        destruct (Hum q) as (t & f & Ht & ? & ?); [set_solver|].
        exists t, f. split; [|done]. rewrite lookup_delete_ne; [done|].
        intros ->. rewrite Htlsp in Ht. set_solver.
      * done.
      * apply Hids.
      * apply Hidj.
    + (* a new thread *)
      run_inv Hrun. to_links. exists fl, ul1. by eapply Inv_same_links.
Qed.

End Invariant_lemmas3.

Section Invariant_calls.
Context `{B : Build}.
Implicit Types (h : list ThreadState) (p q : nat) (c : V8Context).

Lemma Mutex_Lock_Ok self c r c' :
  Mutex_Lock self c = Ok (r, c') ↔
  mutex_ (thread_manager_data_ c) = None ∧
  c' = with_tmd (set_mutex (Some self)) c.
Proof.
  unfold Mutex_Lock. rewrite bind_Ok. split.
  - intros (m & c1 & Hm & Hrun). run_inv Hm.
    destruct (mutex_ _); [done|]. by run_inv Hrun.
  - intros [Hm ->]. eexists _, _. split; [reflexivity|]. simpl.
    rewrite Hm. by destruct r.
Qed.

Lemma Mutex_Unlock_Ok self c r c' :
  Mutex_Unlock self c = Ok (r, c') ↔
  mutex_ (thread_manager_data_ c) = Some self ∧
  c' = with_tmd (set_mutex None) c.
Proof.
  unfold Mutex_Unlock. rewrite bind_Ok. split.
  - intros (m & c1 & Hm & Hrun). run_inv Hm.
    case_bool_decide; [|done]. by run_inv Hrun.
  - intros [Hm ->]. eexists _, _. split; [reflexivity|]. simpl.
    rewrite bool_decide_true by done. by destruct r.
Qed.

Lemma Lock_same_links self c r c' :
  ThreadManager_Lock self c = Ok (r, c') → same_links c c'.
Proof.
  unfold ThreadManager_Lock. intros Hrun. run_inv Hrun.
  match goal with H : Mutex_Lock _ _ = Ok _ |- _ =>
    apply Mutex_Lock_Ok in H as [_ ->] end.
  done.
Qed.

Lemma Unlock_same_links self c r c' :
  ThreadManager_Unlock self c = Ok (r, c') → same_links c c'.
Proof.
  unfold ThreadManager_Unlock. intros Hrun. run_inv Hrun.
  apply Mutex_Unlock_Ok in Hrun as [_ ->]. done.
Qed.

Lemma AssignId_Inv self c fl ul r c' :
  DEBUG = true →
  Inv c fl ul →
  ThreadManager_AssignId self c = Ok (r, c') →
  Inv c' fl ul.
Proof.
  intros Hdebug Hinv Hrun. unfold ThreadManager_AssignId in Hrun. run_inv Hrun.
  fold (id_of c self) in Hrun.
  case_bool_decide as Hhas; simpl in Hrun; run_inv Hrun; [done|].
  repeat match goal with H : DEBUG = true → _ |- _ => specialize (H Hdebug) end.
  assert (Hno : id_of c self = 0) by (destruct (decide (id_of c self = 0)); done).
  destruct Hinv as [Hs Hl Htls Hinj Hfm Hum Hlm Hids Hidj].
  match goal with H : bool_decide (_ > 0) = true |- _ =>
    apply bool_decide_eq_true in H; rename H into Hpos end.
  set (last := last_id_ (thread_manager_data_ c)) in *.
  assert (Hlast : 0 ≤ last < 2 ^ 31) by (pose proof (Hids self); lia).
  assert (Hlt : last + 1 < 2 ^ 31).
  { destruct (decide (last + 1 < 2 ^ 31)); [done|].
    assert (last + 1 = 2 ^ 31) as Heq by lia. rewrite Heq in Hpos.
    by vm_compute in Hpos. }
  assert (Hwrap : int_wrap (last + 1) = last + 1) by (apply int_wrap_small; lia).
  rewrite Hwrap in *.
  assert (Hidof : ∀ t, id_of (with_live (with_ext Top (Top_set_thread_id (last + 1)))
      (with_tmd (λ d, set_thread_id_key (<[self := last + 1]> (thread_id_key_ d)) d)
         (with_tmd (set_last_id (last + 1)) c))) t =
      if decide (t = self) then last + 1 else id_of c t).
  { intros t. unfold id_of. simpl. case_decide.
    - subst. by rewrite lookup_insert_eq.
    - by rewrite lookup_insert_ne. }
  assert (Hother : ∀ t, id_of c t ≠ 0 → t ≠ self) by (intros t Ht ->; done).
  split; try done.
  - intros p Hp. destruct (Hum p Hp) as (t & f & Ht & Hmeta & Hne).
    exists t, f. rewrite Hidof, decide_False by auto. done.
  - intros t p Hlzt Hlst. destruct (Hlm t p Hlzt Hlst) as [Hmeta Hne].
    rewrite Hidof, decide_False by auto. done.
  - intros t. rewrite Hidof. simpl. pose proof (Hids t) as Ht. fold last in Ht.
    case_decide; lia.
  - intros t1 t2. rewrite !Hidof.
    pose proof (Hids t1) as H1. pose proof (Hids t2) as H2. fold last in H1, H2.
    repeat case_decide; subst; try done; try lia. apply Hidj.
Qed.

Lemma ext_FreeThreadResources_same_links s c r c' :
  ext_FreeThreadResources s c = Ok (r, c') → same_links c c'.
Proof. unfold ext_FreeThreadResources. intros Hrun. by run_inv Hrun. Qed.

Lemma RegExpStack_FreeThreadResources_same_links c r c' :
  RegExpStack_FreeThreadResources c = Ok (r, c') → same_links c c'.
Proof.
  unfold RegExpStack_FreeThreadResources, ThreadLocal_Free. intros Hrun.
  run_inv Hrun.
  match goal with H : (if bool_decide _ then _ else _) _ = Ok _ |- _ =>
    case_bool_decide; run_inv H end; done.
Qed.

Lemma FreeThreadResources_same_links c r c' :
  ThreadManager_FreeThreadResources c = Ok (r, c') → same_links c c'.
Proof.
  unfold ThreadManager_FreeThreadResources. intros Hrun. run_inv Hrun.
  match goal with H : (if ENABLE_DEBUGGER_SUPPORT then _ else _) _ = Ok _ |- _ =>
    destruct ENABLE_DEBUGGER_SUPPORT; run_inv H end;
  repeat match goal with
  | H : ext_FreeThreadResources _ _ = Ok _ |- _ =>
      apply ext_FreeThreadResources_same_links in H
  | H : RegExpStack_FreeThreadResources _ = Ok _ |- _ =>
      apply RegExpStack_FreeThreadResources_same_links in H
  end; chain_links; eassumption.
Qed.

Lemma meta_mark_terminate thread_id s :
  next_ (mark_terminate thread_id s) = next_ s ∧
  previous_ (mark_terminate thread_id s) = previous_ s ∧
  id_ (mark_terminate thread_id s) = id_ s ∧
  data_ (mark_terminate thread_id s) = data_ s.
Proof. unfold mark_terminate. by case_bool_decide. Qed.

Lemma TerminateExecution_from_None fuel thread_id c :
  TerminateExecution_from fuel thread_id None c = Ok (tt, c).
Proof. by destruct fuel. Qed.

Lemma ThreadState_Next_run c st s :
  thread_states c !! st = Some s →
  ThreadState_Next st c =
  Ok (if bool_decide (next_ s = in_use_anchor_ (thread_manager_data_ c))
      then None else Some (next_ s), c).
Proof.
  intros Hs. unfold ThreadState_Next.
  rewrite (bind_run _ _ _ _ _ (load_run c st s next_ Hs)).
  assert (Ht : tmd in_use_anchor_ c =
               Ok (in_use_anchor_ (thread_manager_data_ c), c)) by done.
  rewrite (bind_run _ _ _ _ _ Ht). by case_bool_decide.
Qed.

(** One turn of the loop of [TerminateExecution]. *)
Lemma TerminateExecution_from_step fuel thread_id st c s :
  thread_states c !! st = Some s →
  TerminateExecution_from (S fuel) thread_id (Some st) c =
  TerminateExecution_from fuel thread_id
    (if bool_decide (next_ s = in_use_anchor_ (thread_manager_data_ c))
     then None else Some (next_ s))
    (with_thread_states
       (λ _, <[st := mark_terminate thread_id s]> (thread_states c)) c).
Proof.
  intros Hs. simpl.
  rewrite (bind_run _ _ _ _ _ (load_run c st s id_ Hs)).
  unfold mark_terminate. case_bool_decide.
  - rewrite (bind_run _ _ _ _ _ (store_run c st s _ Hs)).
    set (c1 := with_thread_states _ c).
    assert (Hs1 : thread_states c1 !! st = Some (set_terminate_on_restore true s)).
    { simpl. apply list_lookup_insert_eq. by eapply lookup_lt_Some. }
    by rewrite (bind_run _ _ _ _ _ (ThreadState_Next_run c1 st _ Hs1)).
  - assert (Hr : (mret tt : M unit) c = Ok (tt, c)) by done.
    rewrite (bind_run _ _ _ _ _ Hr).
    rewrite (bind_run _ _ _ _ _ (ThreadState_Next_run c st _ Hs)).
    assert (Hc : with_thread_states (λ _, <[st := s]> (thread_states c)) c = c).
    { destruct c. unfold with_thread_states. simpl in *. f_equal.
      by apply list_insert_id. }
    by rewrite Hc.
Qed.

(** The loop of [TerminateExecution] over the rest of the in-use list. *)
Lemma TerminateExecution_from_run thread_id l : ∀ st c fuel,
  let h := thread_states c in
  let ia := in_use_anchor_ (thread_manager_data_ c) in
  linked h st l ia → NoDup (st :: l) → ia ∉ st :: l →
  (length l < fuel)%nat →
  ∃ h', TerminateExecution_from fuel thread_id (Some st) c =
          Ok (tt, with_thread_states (λ _, h') c) ∧
    length h' = length h ∧
    (∀ q, h' !! q = if decide (q ∈ st :: l)
                    then mark_terminate thread_id <$> h !! q else h !! q).
Proof.
  induction l as [|n l IH]; intros st c fuel h ia Hl Hnd Hia Hfuel;
    (destruct fuel as [|fuel]; [simpl in Hfuel; lia|]).
  - simpl in Hl. fold (nxt h st) in Hl. destruct Hl as [Hn _].
    apply nxt_Some in Hn as (s & Hs & Hsn).
    exists (<[st := mark_terminate thread_id s]> h). split; [|split].
    + rewrite (TerminateExecution_from_step _ _ _ _ _ Hs), Hsn.
      rewrite bool_decide_true by done. apply TerminateExecution_from_None.
    + apply length_insert.
    + intros q. case_decide as Hq.
      * apply list_elem_of_singleton in Hq as ->.
        rewrite list_lookup_insert_eq by (by eapply lookup_lt_Some).
        fold h in Hs. by rewrite Hs.
      * rewrite list_lookup_insert_ne; [done|]. set_solver.
  - simpl in Hl. fold (nxt h st) (prv h n) in Hl. destruct Hl as (Hn & _ & Hl).
    apply nxt_Some in Hn as (s & Hs & Hsn).
    apply list.NoDup_cons in Hnd as [Hst Hnd].
    set (h1 := <[st := mark_terminate thread_id s]> h).
    set (c1 := with_thread_states (λ _, h1) c).
    assert (Hl1 : linked (thread_states c1) n l (in_use_anchor_ (thread_manager_data_ c1))).
    { simpl. revert Hl. apply linked_frame; intros q Hq; unfold h1.
      - eapply nxt_insert_same; [done|]. apply meta_mark_terminate.
      - eapply prv_insert_same; [done|]. apply meta_mark_terminate. }
    destruct (IH n c1 fuel Hl1) as (h' & Hrun & Hlen & Hh'); [done| |simpl in *; lia|].
    { simpl. set_solver. }
    exists h'. split; [|split].
    + rewrite (TerminateExecution_from_step _ _ _ _ _ Hs), Hsn.
      rewrite bool_decide_false by set_solver. exact Hrun.
    + rewrite Hlen. apply length_insert.
    + intros q. rewrite Hh'. simpl. unfold h1.
      destruct (decide (q = st)) as [->|Hne].
      * rewrite decide_False by done. rewrite decide_True by set_solver.
        rewrite list_lookup_insert_eq by (by eapply lookup_lt_Some).
        fold h in Hs. by rewrite Hs.
      * rewrite list_lookup_insert_ne by done.
        destruct (decide (q ∈ n :: l)); [rewrite decide_True|rewrite decide_False];
          set_solver.
Qed.

(** [TerminateExecution] on a well-shaped store: it returns, and it has
    marked the archived states that carry the id, and nothing else. *)
Lemma TerminateExecution_run thread_id c fl ul fs :
  let h := thread_states c in
  Shape h (free_anchor_ (thread_manager_data_ c))
    (in_use_anchor_ (thread_manager_data_ c)) fl ul fs →
  ∃ h', ThreadManager_TerminateExecution thread_id c =
          Ok (tt, with_thread_states (λ _, h') c) ∧
    length h' = length h ∧
    (∀ q, h' !! q = if decide (q ∈ ul)
                    then mark_terminate thread_id <$> h !! q else h !! q).
Proof.
  intros h Hs. pose proof Hs as [Hnd Hf Hu Hall].
  set (ia := in_use_anchor_ (thread_manager_data_ c)) in *.
  assert (Hia : ia ∉ ul ∧ NoDup ul).
  { apply list.NoDup_cons in Hnd as [_ Hnd]. apply list.NoDup_cons in Hnd as [Hia Hnd].
    apply NoDup_app in Hnd as (_ & _ & Hnd). apply NoDup_app in Hnd as (? & _ & _).
    split; [set_solver|done]. }
  destruct Hia as [Hia Hndu].
  assert (Hbound : (length ul < length h)%nat).
  { assert (length (free_anchor_ (thread_manager_data_ c) :: ia :: fl ++ ul ++ fs)
              ≤ length h)%nat as Hb.
    { apply NoDup_bounded_length; [done|]. intros x. by rewrite Hall. }
    simpl in Hb. rewrite !length_app in Hb. lia. }
  unfold ThreadManager_TerminateExecution, ThreadState_FirstInUse.
  assert (Ht : tmd in_use_anchor_ c = Ok (ia, c)) by done.
  pose proof (linked_nxt_first _ _ _ _ Hu) as Hfirst.
  apply nxt_Some in Hfirst as (sa & Hsa & Hsan).
  assert (Hfst : (in_use_anchor ← tmd in_use_anchor_; ThreadState_Next in_use_anchor) c
     = Ok (if bool_decide (hd ia ul = ia) then None else Some (hd ia ul), c)).
  { rewrite (bind_run _ _ _ _ _ Ht).
    by rewrite (ThreadState_Next_run c ia sa Hsa), Hsan. }
  rewrite (bind_run _ _ _ _ _ Hfst).
  assert (Hg : gets (λ c0 : V8Context, length (thread_states c0)) c =
               Ok (length h, c)) by done.
  rewrite (bind_run _ _ _ _ _ Hg).
  destruct ul as [|st l]; simpl hd.
  - rewrite bool_decide_true by done. exists h. split; [|split; [done|]].
    + rewrite TerminateExecution_from_None. do 2 f_equal. by destruct c.
    + intros q. rewrite decide_False; [done|]. set_solver.
  - rewrite bool_decide_false by set_solver.
    destruct (TerminateExecution_from_run thread_id l st c (length h))
      as (h' & Hrun & Hlen & Hh'); try done.
    + unfold ring in Hu. simpl in Hu. tauto.
    + simpl in Hbound. lia.
    + exists h'. split; [|done]. exact Hrun.
Qed.

Lemma TerminateExecution_Inv thread_id c fl ul r c' :
  Inv c fl ul →
  ThreadManager_TerminateExecution thread_id c = Ok (r, c') →
  Inv c' fl ul.
Proof.
  intros Hinv Hrun. pose proof Hinv as [Hs Hl Htls Hinj Hfm Hum Hlm Hids Hidj].
  destruct (TerminateExecution_run thread_id c _ _ _ Hs) as (h' & Hrun' & Hlen & Hh').
  rewrite Hrun' in Hrun. simplify_eq.
  assert (Hnd := shape_nodup _ _ _ _ _ _ Hs).
  apply list.NoDup_cons in Hnd as [_ Hnd]. apply list.NoDup_cons in Hnd as [_ Hnd].
  apply NoDup_app in Hnd as (_ & Hd1 & Hnd). apply NoDup_app in Hnd as (_ & Hd2 & _).
  assert (Hlinks : ∀ q, nxt h' q = nxt (thread_states c) q ∧
                        prv h' q = prv (thread_states c) q).
  { intros q. unfold nxt, prv. rewrite Hh'. case_decide; [|done].
    destruct (thread_states c !! q) as [s|]; [|done]. simpl.
    by destruct (meta_mark_terminate thread_id s) as (-> & -> & _). }
  split; simpl; try done.
  - eapply Shape_ext; [done| | |exact Hs]; intros q; apply Hlinks.
  - intros q Hq. rewrite Hh', decide_False; [by apply Hfm|].
    intros Hin. apply (Hd1 q Hq). set_solver.
  - intros q Hq. destruct (Hum q Hq) as (t & f & Ht & Hmeta & Hne).
    rewrite Hh', decide_True by done.
    destruct (thread_states c !! q) as [s|]; [|done]. simpl in *.
    injection Hmeta as Hi Hf Hlen'.
    exists t, (terminate_on_restore_ (mark_terminate thread_id s)).
    split; [done|]. split; [|done]. unfold meta.
    destruct (meta_mark_terminate thread_id s) as (_ & _ & -> & ->).
    by rewrite Hi, Hlen'.
  - intros t q Hlt Hlst. destruct (Hlm t q Hlt Hlst) as [Hmeta Hne].
    split; [|done]. rewrite Hh', decide_False; [done|].
    intros Hin. apply (Hd2 q Hin). unfold lazy_list. rewrite Hlst. set_solver.
Qed.

End Invariant_calls.

Section Invariant_reachable.
Context `{B : Build}.
Implicit Types (h : list ThreadState) (p q : nat) (c : V8Context).

Lemma V8_Initialize_same_links c r c' :
  V8_Initialize c = Ok (r, c') → same_links c c'.
Proof. unfold V8_Initialize. intros Hrun. by run_inv Hrun. Qed.

Lemma Locker_Locker_Inv self c fl ul r c' :
  DEBUG = true →
  Inv c fl ul →
  Locker_Locker self c = Ok (r, c') →
  ∃ fl' ul', Inv c' fl' ul'.
Proof.
  intros Hdebug Hinv Hrun. unfold Locker_Locker in Hrun.
  apply bind_Ok in Hrun as ([] & cA & H1 & Hrun). run_inv H1.
  apply bind_Ok in Hrun as (locked & cB & H2 & Hrun). run_inv H2.
  apply bind_Ok in Hrun as (this & cC & Hbody & Hrun).
  run_inv Hrun.
  match goal with H : ThreadManager_AssignId _ _ = Ok _ |- _ =>
    rename H into Hassign end.
  assert (Hinv0 : Inv (set_active true c) fl ul).
  { eapply Inv_same_links; [|exact Hinv]. done. }
  assert (∃ fl' ul', Inv cC fl' ul') as (fl' & ul' & Hinv').
  { destruct (negb _).
    - apply bind_Ok in Hbody as ([] & cD & Hlock & Hbody).
      apply Lock_same_links in Hlock.
      apply bind_Ok in Hbody as (running & cE0 & Hr & Hbody).
      unfold V8_IsRunning in Hr. run_inv Hr.
      apply bind_Ok in Hbody as ([] & cE & Hinit & Hbody).
      match type of Hlock with same_links _ ?cd =>
        assert (Hl2 : same_links cd cE) end.
      { destruct (negb (is_running _)).
        - by apply V8_Initialize_same_links in Hinit.
        - run_inv Hinit. apply same_links_refl. }
      apply bind_Ok in Hbody as (restored & cF & Hrestore & Hbody).
      assert (Hinv2 : Inv cE fl ul).
      { eapply Inv_same_links; [exact Hl2|]. by eapply Inv_same_links. }
      destruct (RestoreThread_Inv _ _ _ _ _ _ Hinv2 Hrestore) as (fl3 & ul3 & Hinv3).
      destruct restored; run_inv Hbody; [eauto|].
      repeat match goal with H : StackGuard_call _ _ = Ok _ |- _ =>
        apply StackGuard_call_same_links in H;
        apply (Inv_same_links _ _ _ _ H) in Hinv3; clear H end.
      eauto.
    - run_inv Hbody. eauto. }
  exists fl', ul'. by eapply AssignId_Inv.
Qed.

Lemma Locker_destroy_Inv self this c fl ul r c' :
  DEBUG = true →
  Inv c fl ul →
  Locker_destroy self this c = Ok (r, c') →
  ∃ fl' ul', Inv c' fl' ul'.
Proof.
  intros Hdebug Hinv Hrun. unfold Locker_destroy in Hrun. run_inv Hrun.
  destruct (has_lock_ this); [|run_inv Hrun; eauto].
  apply bind_Ok in Hrun as ([] & cA & Hbody & Hunlock).
  destruct r.
  apply Unlock_same_links in Hunlock.
  destruct (top_level_ this).
  - apply FreeThreadResources_same_links in Hbody.
    exists fl, ul. eapply Inv_same_links; [exact Hunlock|].
    by eapply Inv_same_links.
  - destruct (ArchiveThread_Inv _ _ _ _ _ Hdebug Hinv Hbody) as (p & fl' & Hinv' & _).
    exists fl', ul. by eapply Inv_same_links.
Qed.

Lemma Unlocker_Unlocker_Inv self c fl ul r c' :
  DEBUG = true →
  Inv c fl ul →
  Unlocker_Unlocker self c = Ok (r, c') →
  ∃ fl' ul', Inv c' fl' ul'.
Proof.
  intros Hdebug Hinv Hrun. unfold Unlocker_Unlocker in Hrun. run_inv Hrun.
  repeat match goal with u : () |- _ => destruct u end.
  match goal with H : ThreadManager_ArchiveThread _ _ = Ok _ |- _ =>
    destruct (ArchiveThread_Inv _ _ _ _ _ Hdebug Hinv H) as (p & fl' & Hinv' & _) end.
  apply Unlock_same_links in Hrun.
  exists fl', ul. by eapply Inv_same_links.
Qed.

Lemma Unlocker_destroy_Inv self c fl ul r c' :
  Inv c fl ul →
  Unlocker_destroy self c = Ok (r, c') →
  ∃ fl' ul', Inv c' fl' ul'.
Proof.
  intros Hinv Hrun. unfold Unlocker_destroy in Hrun. run_inv Hrun.
  match goal with H : ThreadManager_Lock _ _ = Ok _ |- _ =>
    apply Lock_same_links in H; apply (Inv_same_links _ _ _ _ H) in Hinv end.
  match goal with H : ThreadManager_RestoreThread _ _ = Ok _ |- _ =>
    by apply (RestoreThread_Inv _ _ _ _ _ _ Hinv) in H end.
Qed.

(** Every call that returns keeps the invariant. *)
Lemma returns_Inv c fl ul c' :
  DEBUG = true →
  Inv c fl ul → returns c c' → ∃ fl' ul', Inv c' fl' ul'.
Proof.
  intros Hdebug Hinv [k Hrun]. destruct k; simpl in Hrun.
  - apply Lock_same_links in Hrun. exists fl, ul. by eapply Inv_same_links.
  - apply Unlock_same_links in Hrun. exists fl, ul. by eapply Inv_same_links.
  - exists fl, ul. by eapply AssignId_Inv.
  - destruct (ArchiveThread_Inv _ _ _ _ _ Hdebug Hinv Hrun) as (p & fl' & ? & _).
    eauto.
  - destruct (EagerlyArchiveThread_Inv _ _ _ _ _ Hinv Hrun) as (p & _ & _ & ?).
    eauto.
  - run_inv Hrun.
    match goal with H : ThreadManager_RestoreThread _ _ = Ok _ |- _ =>
      by apply (RestoreThread_Inv _ _ _ _ _ _ Hinv) in H end.
  - apply FreeThreadResources_same_links in Hrun. exists fl, ul.
    by eapply Inv_same_links.
  - exists fl, ul. by eapply TerminateExecution_Inv.
  - run_inv Hrun.
    match goal with H : Locker_Locker _ _ = Ok _ |- _ =>
      by apply (Locker_Locker_Inv _ _ _ _ _ _ Hdebug Hinv) in H end.
  - by eapply Locker_destroy_Inv.
  - by eapply Unlocker_Unlocker_Inv.
  - by eapply Unlocker_destroy_Inv.
Qed.

Lemma reachable_Inv c :
  DEBUG = true → reachable c → ∃ fl ul, Inv c fl ul.
Proof.
  intros Hdebug Hreach. unfold reachable in Hreach.
  apply rtc_nsteps in Hreach as [n Hreach]. revert c Hreach.
  induction n as [|n IH]; intros c Hreach.
  - inversion Hreach; subst. exists [], []. apply Inv_new.
  - apply nsteps_inv_r in Hreach as (c1 & Hreach & Hstep).
    destruct (IH _ Hreach) as (fl & ul & Hinv). by eapply returns_Inv.
Qed.

End Invariant_reachable.

(** ** Where a ThreadState is *)

Section Places.
Context `{B : Build}.
Implicit Types (h : list ThreadState) (p q : nat) (c : V8Context).

Lemma after_returns ks c c' : after ks c = Ok c' → rtc returns c c'.
Proof.
  revert c. induction ks as [|k ks IH]; intros c Hrun; simpl in Hrun.
  - by simplify_eq.
  - destruct (call k c) as [[[] c1]| | |] eqn:Hk; try done.
    eapply rtc_l; [by exists k|]. by apply IH.
Qed.

Lemma after_reachable ks c : after ks new_V8Context = Ok c → reachable c.
Proof. apply after_returns. Qed.

Lemma Inv_lists c fl ul :
  Inv c fl ul → free_list c = fl ∧ in_use_list c = ul.
Proof.
  intros Hinv. pose proof (inv_shape _ _ _ Hinv) as Hs. split.
  - by eapply Shape_free_entries.
  - by eapply Shape_use_entries.
Qed.

(** C4, as the code has it: at every point between calls, the two lists
    are rings on their anchors, no anchor is an entry of a list or the lazy
    candidate, and every other ThreadState is in exactly one of three
    places: the free list, the in-use list, or the lazy-archive slot. *)
Theorem thread_state_in_one_place c p :
  DEBUG = true →
  reachable c →
  (p < length (thread_states c))%nat →
  ring (thread_states c) (free_anchor_ (thread_manager_data_ c)) (free_list c) ∧
  ring (thread_states c) (in_use_anchor_ (thread_manager_data_ c)) (in_use_list c) ∧
  (in_both_lists c p + Nat.b2n (is_lazy_candidate c p))%nat =
  (if is_anchor c p then 0 else 1)%nat.
Proof.
  intros Hdebug Hreach Hp.
  destruct (reachable_Inv c Hdebug Hreach) as (fl & ul & Hinv).
  destruct (Inv_lists _ _ _ Hinv) as [Hfl Hul].
  destruct (inv_shape _ _ _ Hinv) as [Hnd Hf Hu Hall].
  split; [by rewrite Hfl|]. split; [by rewrite Hul|].
  apply Hall in Hp.
  unfold in_both_lists, is_lazy_candidate, is_anchor. rewrite Hfl, Hul.
  unfold lazy_list in *.
  apply list.NoDup_cons in Hnd as [Hfa Hnd]. apply list.NoDup_cons in Hnd as [Hia Hnd].
  apply NoDup_app in Hnd as (_ & Hd1 & Hnd). apply NoDup_app in Hnd as (_ & Hd2 & _).
  rewrite !elem_of_cons, !elem_of_app in Hp.
  rewrite !not_elem_of_cons, !not_elem_of_app in Hfa.
  rewrite !not_elem_of_app in Hia.
  specialize (Hd1 p). specialize (Hd2 p). rewrite not_elem_of_app in Hd1.
  destruct (lazily_archived_thread_state_ _) as [lz|].
  - rewrite !list_elem_of_singleton in *.
    repeat case_bool_decide; simpl; simplify_eq; naive_solver.
  - rewrite !elem_of_nil in *.
    repeat case_bool_decide; simpl; simplify_eq; naive_solver.
Qed.

End Places.

Lemma sample_lazy_after :
  after [CallLock 1%nat; CallAssignId 1%nat; CallArchiveThread 1%nat]
    new_V8Context = Ok sample_lazy.
Proof. vm_compute. reflexivity. Qed.

Lemma thread_state_in_one_place_witness :
  (in_both_lists sample_lazy 2 + Nat.b2n (is_lazy_candidate sample_lazy 2))%nat
  = 1%nat.
Proof.
  refine (proj2 (proj2 (thread_state_in_one_place sample_lazy 2 eq_refl
            (after_reachable _ _ sample_lazy_after) _))).
  vm_compute. lia.
Defined.

(** C4 as stated fails: between [ArchiveThread] and the call that resolves
    it, the state that was obtained is in neither list. *)
Lemma thread_state_in_neither_list :
  reachable sample_lazy ∧
  (2 < length (thread_states sample_lazy))%nat ∧
  is_anchor sample_lazy 2 = false ∧
  in_both_lists sample_lazy 2 = 0%nat ∧
  ¬ (∀ (c : @V8Context (sample_build true)) p,
       reachable c → (p < length (thread_states c))%nat →
       is_anchor c p = false → in_both_lists c p = 1%nat).
Proof.
  assert (Hr : reachable sample_lazy) by exact (after_reachable _ _ sample_lazy_after).
  split; [done|]. split; [vm_compute; lia|]. split; [by vm_compute|].
  split; [by vm_compute|].
  intros Hall. specialize (Hall sample_lazy 2%nat Hr).
  assert (Hlt : (2 < length (thread_states sample_lazy))%nat) by (vm_compute; lia).
  specialize (Hall Hlt eq_refl). vm_compute in Hall. discriminate.
Qed.

(** ** The lock, and the ids handed out under it *)

Section Lock_and_ids.
Context `{B : Build}.
Implicit Types (c : V8Context).

Lemma Lock_run self c :
  mutex_ (thread_manager_data_ c) = None →
  ThreadManager_Lock self c =
  Ok (tt, with_tmd (set_mutex_owner (Identity self))
            (with_tmd (set_mutex (Some self)) c)).
Proof.
  intros Hm. unfold ThreadManager_Lock, Mutex_Lock. run_unfold.
  rewrite Hm. rewrite ASSERT_true; [done|].
  simpl. unfold IsSelf. by rewrite bool_decide_true.
Qed.

Lemma Lock_blocked self c t :
  mutex_ (thread_manager_data_ c) = Some t →
  ThreadManager_Lock self c = Blocked.
Proof.
  intros Hm. unfold ThreadManager_Lock, Mutex_Lock. run_unfold. by rewrite Hm.
Qed.

Lemma Unlock_run self c :
  mutex_ (thread_manager_data_ c) = Some self →
  ThreadManager_Unlock self c =
  Ok (tt, with_tmd (set_mutex None)
            (with_tmd (set_mutex_owner INVALID) c)).
Proof.
  intros Hm. unfold ThreadManager_Unlock, Mutex_Unlock. run_unfold. simpl.
  by rewrite Hm, bool_decide_true.
Qed.

Lemma after_app ks1 ks2 c c1 :
  after ks1 c = Ok c1 → after (ks1 ++ ks2) c = after ks2 c1.
Proof.
  revert c. induction ks1 as [|k ks1 IH]; intros c Hrun; simpl in *.
  - by simplify_eq.
  - destruct (call k c) as [[[] c0]| | |]; try done. by apply IH.
Qed.

(** A thread takes the lock, is given an id, and leaves the lock. *)
Lemma AssignId_round self c :
  mutex_ (thread_manager_data_ c) = None →
  id_of c self = 0 →
  0 ≤ last_id_ (thread_manager_data_ c) < 2 ^ 31 - 1 →
  ∃ c', after [CallLock self; CallAssignId self; CallUnlock self] c = Ok c' ∧
        mutex_ (thread_manager_data_ c') = None ∧
        id_of c' self = last_id_ (thread_manager_data_ c) + 1 ∧
        last_id_ (thread_manager_data_ c') = last_id_ (thread_manager_data_ c) + 1 ∧
        (∀ t, t ≠ self → id_of c' t = id_of c t).
Proof.
  intros Hm Hid Hlast. simpl. rewrite (Lock_run self c Hm).
  set (c1 := with_tmd _ (with_tmd _ c)).
  destruct (AssignId_fresh c1 self) as (c2 & Hrun & Hid2 & Hlast2 & Hoth & _ & Hown & Hmut);
    [done|by apply bool_decide_eq_true|done|].
  rewrite Hrun. rewrite (Unlock_run self c2) by (by rewrite Hmut).
  eexists. split; [done|]. simpl. split_and!; try done.
Qed.

(** C6: [AssignId] leaves a thread that has an id alone; a thread without
    one, holding the lock, is given the id after [last_id_]; and on a fresh
    context three threads that call it in turn are given 1, 2 and 3. *)
Theorem AssignId_sequential :
  (∀ c self, id_of c self ≠ 0 → ThreadManager_AssignId self c = Ok (tt, c)) ∧
  (∀ c self,
     id_of c self = 0 →
     observes_locked self c = true →
     0 ≤ last_id_ (thread_manager_data_ c) < 2 ^ 31 - 1 →
     ∃ c', ThreadManager_AssignId self c = Ok (tt, c') ∧
           id_of c' self = last_id_ (thread_manager_data_ c) + 1 ∧
           last_id_ (thread_manager_data_ c') =
             last_id_ (thread_manager_data_ c) + 1 ∧
           (∀ t, t ≠ self → id_of c' t = id_of c t)) ∧
  (∀ t1 t2 t3, t1 ≠ t2 → t1 ≠ t3 → t2 ≠ t3 →
     ∃ c, after [CallLock t1; CallAssignId t1; CallUnlock t1;
                 CallLock t2; CallAssignId t2; CallUnlock t2;
                 CallLock t3; CallAssignId t3; CallUnlock t3] new_V8Context
          = Ok c ∧
          id_of c t1 = 1 ∧ id_of c t2 = 2 ∧ id_of c t3 = 3).
Proof.
  split; [apply AssignId_has_id|]. split.
  - intros c self Hid Hlock Hlast.
    destruct (AssignId_fresh c self Hid Hlock Hlast) as (c' & ? & ? & ? & ? & _).
    eauto 10.
  - intros t1 t2 t3 H12 H13 H23.
    destruct (AssignId_round t1 new_V8Context) as (c1 & Hr1 & Hm1 & Hi1 & Hl1 & Ho1);
      [done|done|simpl; lia|].
    simpl last_id_ in Hi1, Hl1.
    destruct (AssignId_round t2 c1) as (c2 & Hr2 & Hm2 & Hi2 & Hl2 & Ho2);
      [done| |lia|].
    { rewrite Ho1 by done. done. }
    destruct (AssignId_round t3 c2) as (c3 & Hr3 & Hm3 & Hi3 & Hl3 & Ho3);
      [done| |lia|].
    { rewrite Ho2, Ho1 by done. done. }
    exists c3. split.
    + change [CallLock t1; CallAssignId t1; CallUnlock t1;
              CallLock t2; CallAssignId t2; CallUnlock t2;
              CallLock t3; CallAssignId t3; CallUnlock t3]
        with ([CallLock t1; CallAssignId t1; CallUnlock t1] ++
              [CallLock t2; CallAssignId t2; CallUnlock t2] ++
              [CallLock t3; CallAssignId t3; CallUnlock t3]).
      rewrite (after_app _ _ _ _ Hr1), (after_app _ _ _ _ Hr2).
      exact Hr3.
    + rewrite Ho3, Ho2 by done. rewrite Ho3 by done. rewrite Hi1, Hi2, Hi3.
      rewrite Hl2, Hl1. lia.
Qed.

End Lock_and_ids.

Lemma AssignId_sequential_witness :
  ∃ c : @V8Context (sample_build true),
    after [CallLock 5%nat; CallAssignId 5%nat; CallUnlock 5%nat;
           CallLock 7%nat; CallAssignId 7%nat; CallUnlock 7%nat;
           CallLock 6%nat; CallAssignId 6%nat; CallUnlock 6%nat] new_V8Context
    = Ok c ∧
    id_of c 5%nat = 1 ∧ id_of c 7%nat = 2 ∧ id_of c 6%nat = 3.
Proof.
  refine (proj2 (proj2 (@AssignId_sequential (sample_build true))) 5%nat 7%nat 6%nat _ _ _);
    lia.
Defined.

(** ** The guards *)

Section Guards.
Context `{B : Build}.
Implicit Types (c : V8Context).

Lemma AssignId_frame self c r c' :
  ThreadManager_AssignId self c = Ok (r, c') →
  trace c' = trace c ∧ thread_states c' = thread_states c ∧
  archive_view (thread_manager_data_ c') = archive_view (thread_manager_data_ c) ∧
  mutex_owner_ (thread_manager_data_ c') = mutex_owner_ (thread_manager_data_ c) ∧
  mutex_ (thread_manager_data_ c') = mutex_ (thread_manager_data_ c) ∧
  active_ c' = active_ c.
Proof.
  unfold ThreadManager_AssignId. intros Hrun. run_inv Hrun.
  destruct (negb _); by run_inv Hrun.
Qed.

End Guards.

Lemma sample_locked_after :
  after [CallLocker 1%nat] new_V8Context = Ok sample_locked.
Proof. vm_compute. reflexivity. Qed.

(** C5 as stated fails: the nested [Locker] is not marked non-top-level. *)
Lemma nested_Locker_stays_top_level :
  observes_locked 1%nat sample_locked = true ∧
  ∃ this c', Locker_Locker 1%nat sample_locked = Ok (this, c') ∧
             has_lock_ this = false ∧ top_level_ this ≠ false.
Proof.
  split; [by vm_compute|]. eexists _, _. split; [vm_compute; reflexivity|].
  by split.
Qed.

(** ** Lazy archiving, forwards *)

Section Lazy_archive.
Context `{B : Build}.
Implicit Types (h : list ThreadState) (p q : nat) (c : V8Context).

(** [ArchiveThread] returns when its asserted preconditions hold. *)
Lemma ArchiveThread_run c self fl ul :
  Inv c fl ul →
  lazily_archived_thread_ (thread_manager_data_ c) = INVALID →
  thread_state_key_ (thread_manager_data_ c) !! self = None →
  id_of c self ≠ 0 →
  ∃ c', ThreadManager_ArchiveThread self c = Ok (tt, c').
Proof.
  intros Hinv Hlz Hself Hid.
  destruct Hinv as [Hs Hl Htls Hinj Hfm Hum Hlm Hids Hidj].
  unfold lazy_slot_ok in Hl. rewrite Hlz in Hl.
  destruct (lazily_archived_thread_state_ (thread_manager_data_ c)) eqn:Hls; [done|].
  unfold lazy_list in Hs. rewrite Hls in Hs.
  destruct (GetFree_Unlink c fl ul Hs)
    as (p & cg & h' & fl' & Hget & Hun & Hs' & Hfl & Hpay).
  assert (Hmp : meta <$> h' !! p = Some (kInvalidId, false, ArchiveSpacePerThread_)).
  { destruct Hfl as [[-> _]|(_ & _ & _ & _ & Hnew)]; [|done].
    assert (p < length (thread_states c))%nat as Hlt.
    { destruct Hs as [_ _ _ Hall]. apply Hall. set_solver. }
    rewrite (payload_meta _ _ _ (Hpay p Hlt)). apply Hfm. set_solver. }
  destruct (h' !! p) as [sp|] eqn:Hsp; [|done].
  simpl in Hmp. injection Hmp as Hmid Hmf Hml.
  unfold ThreadManager_ArchiveThread. run_unfold.
  rewrite Hlz. rewrite ASSERT_true by done.
  rewrite Hself. rewrite ASSERT_true by done.
  rewrite Hget, Hun.
  erewrite load_run by (simpl; exact Hsp).
  rewrite ASSERT_true by (by apply bool_decide_eq_true).
  erewrite store_run by (simpl; exact Hsp).
  erewrite load_run
    by (simpl; apply list_lookup_insert_eq; by eapply lookup_lt_Some).
  rewrite ASSERT_true; [by eexists|].
  apply bool_decide_eq_true. simpl. exact Hid.
Qed.

(** [RestoreThread] by the lazy candidate itself: the state goes back to
    the head of the free list, with its id reset and nothing else changed. *)
Lemma RestoreThread_lazy_run c self fl ul :
  Inv c fl ul →
  lazily_archived_thread_ (thread_manager_data_ c) = Identity self →
  ∃ p sp h',
    lazily_archived_thread_state_ (thread_manager_data_ c) = Some p ∧
    thread_states c !! p = Some sp ∧
    ThreadManager_RestoreThread self c =
      Ok (true,
          with_tmd (λ d, set_thread_state_key (delete self (thread_state_key_ d)) d)
            (with_tmd (set_lazily_archived_thread_state None)
               (with_thread_states (λ _, h')
                  (with_tmd (set_lazily_archived_thread INVALID) c)))) ∧
    Shape h' (free_anchor_ (thread_manager_data_ c))
      (in_use_anchor_ (thread_manager_data_ c)) (p :: fl) ul [] ∧
    payload <$> h' !! p = Some (payload (set_id kInvalidId sp)) ∧
    (∀ q, q ≠ p → payload <$> h' !! q = payload <$> thread_states c !! q).
Proof.
  intros Hinv Hlz.
  destruct Hinv as [Hs Hl Htls Hinj Hfm Hum Hlm Hids Hidj].
  unfold lazy_slot_ok in Hl. rewrite Hlz in Hl.
  destruct (lazily_archived_thread_state_ (thread_manager_data_ c)) as [p|] eqn:Hls;
    [|done].
  unfold lazy_list in Hs. rewrite Hls in Hs.
  assert (Hlt : (p < length (thread_states c))%nat).
  { destruct Hs as [_ _ _ Hall]. apply Hall. set_solver. }
  destruct (lookup_lt_is_Some_2 _ _ Hlt) as [sp Hsp].
  set (c1 := with_thread_states
               (λ _, <[p := set_id kInvalidId sp]> (thread_states c))
               (with_tmd (set_lazily_archived_thread INVALID) c)).
  destruct (LinkInto_Shape c1 FREE_LIST fl ul p [])
    as (h' & Hlink & Hlen & Hpay & Hs').
  { simpl. eapply Shape_ext; [| | |exact Hs].
    - apply length_insert.
    - intros q. by eapply nxt_insert_same.
    - intros q. by eapply prv_insert_same. }
  exists p, sp, h'. split; [done|]. split; [done|]. split; [|split; [|split]].
  - unfold ThreadManager_RestoreThread. run_unfold.
    rewrite Hlz. unfold IsSelf. rewrite bool_decide_true by done.
    simpl. rewrite Hls, Hl.
    rewrite ASSERT_true by (by apply bool_decide_eq_true).
    erewrite store_run by (simpl; exact Hsp).
    simpl. fold c1. rewrite Hlink. done.
  - exact Hs'.
  - rewrite Hpay. simpl. rewrite list_lookup_insert_eq by done. done.
  - intros q Hq. rewrite Hpay. simpl. by rewrite list_lookup_insert_ne.
Qed.

(** C2: [ArchiveThread] and then [RestoreThread] by the same thread, with
    nothing in between: no subsystem is called, the live state is as it was,
    [RestoreThread] returns true, and the state that was obtained is the
    head of the free list again, its id invalid and its buffer untouched. *)
Theorem lazy_archive_elision c self c1 :
  DEBUG = true →
  reachable c →
  ThreadManager_ArchiveThread self c = Ok (tt, c1) →
  ∃ p c2,
    lazily_archived_thread_state_ (thread_manager_data_ c1) = Some p ∧
    ThreadManager_RestoreThread self c1 = Ok (true, c2) ∧
    trace c2 = trace c ∧ live c2 = live c ∧
    free_list c2 = p :: free_list c1 ∧
    in_use_list c2 = in_use_list c1 ∧
    id_ <$> thread_states c2 !! p = Some kInvalidId ∧
    data_ <$> thread_states c2 !! p = data_ <$> thread_states c1 !! p ∧
    lazily_archived_thread_ (thread_manager_data_ c2) = INVALID ∧
    lazily_archived_thread_state_ (thread_manager_data_ c2) = None.
Proof.
  intros Hdebug Hreach Hrun.
  destruct (reachable_Inv c Hdebug Hreach) as (fl & ul & Hinv).
  destruct (ArchiveThread_Inv _ _ _ _ _ Hdebug Hinv Hrun)
    as (p & fl' & Hinv1 & _ & Hls & Hlz & Htr & Hlive).
  destruct (RestoreThread_lazy_run c1 self fl' ul Hinv1 Hlz)
    as (p' & sp & h' & Hls' & Hsp & Hrest & Hs' & Hpp & Hpq).
  rewrite Hls in Hls'. injection Hls' as <-.
  destruct (Inv_lists _ _ _ Hinv1) as [Hfl Hul].
  eexists p, _. split; [done|]. split; [exact Hrest|]. simpl.
  split_and!; try done.
  - rewrite Hfl. unfold free_list. simpl. by eapply Shape_free_entries.
  - rewrite Hul. unfold in_use_list. simpl. by eapply Shape_use_entries.
  - destruct (h' !! p) as [s'|]; [|done]. simpl in *. by injection Hpp as -> _ _.
  - rewrite Hsp. destruct (h' !! p) as [s'|]; [|done]. simpl in *.
    by injection Hpp as _ _ ->.
Qed.

End Lazy_archive.

Lemma lazy_archive_elision_witness :
  ∃ p c2,
    lazily_archived_thread_state_ (thread_manager_data_ sample_lazy) = Some p ∧
    ThreadManager_RestoreThread 1%nat sample_lazy = Ok (true, c2) ∧
    trace c2 = trace (sample_after true [CallLock 1%nat; CallAssignId 1%nat]) ∧
    free_list c2 = p :: free_list sample_lazy.
Proof.
  destruct (lazy_archive_elision
              (sample_after true [CallLock 1%nat; CallAssignId 1%nat]) 1%nat
              sample_lazy eq_refl)
    as (p & c2 & H1 & H2 & H3 & _ & H5 & _).
  - apply (after_reachable [CallLock 1%nat; CallAssignId 1%nat]).
    vm_compute. reflexivity.
  - vm_compute. reflexivity.
  - by exists p, c2.
Defined.

Section Unlocker_.
Context `{B : Build}.
Implicit Types (c : V8Context).

Lemma ArchiveThread_mutex c self fl ul c' :
  Inv c fl ul →
  lazily_archived_thread_state_ (thread_manager_data_ c) = None →
  ThreadManager_ArchiveThread self c = Ok (tt, c') →
  mutex_ (thread_manager_data_ c') = mutex_ (thread_manager_data_ c) ∧
  mutex_owner_ (thread_manager_data_ c') = mutex_owner_ (thread_manager_data_ c) ∧
  active_ c' = active_ c ∧ is_running c' = is_running c ∧
  id_view (thread_manager_data_ c') = id_view (thread_manager_data_ c).
Proof.
  intros Hinv Hls Hrun. pose proof (inv_shape _ _ _ Hinv) as Hs.
  unfold lazy_list in Hs. rewrite Hls in Hs.
  unfold ThreadManager_ArchiveThread in Hrun. run_inv Hrun.
  match goal with H : ThreadState_GetFree _ = Ok _ |- _ => rename H into Hg end.
  match goal with H : ThreadState_Unlink _ _ = Ok _ |- _ => rename H into Hu end.
  destruct (GetFree_Unlink c fl ul Hs)
    as (p0 & cg & h' & fl' & Hget & Hun & _).
  rewrite Hget in Hg. simplify_eq. rewrite Hun in Hu. simplify_eq.
  match goal with H : store _ _ _ = Ok _ |- _ =>
    apply store_Ok in H as (sp & Hsp & ?); subst end.
  done.
Qed.

End Unlocker_.

(** C3 as stated fails: when the constructor of an [Unlocker] returns, no
    subsystem's [Archive] has run. *)
Lemma Unlocker_runs_no_Archive :
  observes_locked 1%nat sample_locked = true ∧
  ∃ c', Unlocker_Unlocker 1%nat sample_locked = Ok (tt, c') ∧
        (∀ s, EvArchive s ∉ trace c') ∧
        mutex_ (thread_manager_data_ c') = None.
Proof.
  split; [by vm_compute|]. eexists. split; [vm_compute; reflexivity|].
  split; [|done]. intros s Hin.
  repeat (apply elem_of_cons in Hin as [Hin|Hin]; [discriminate|]).
  by apply elem_of_nil in Hin.
Qed.

(** ** The archive sequence, forwards *)
Section Archive_runs.
Context `{B : Build}.
Implicit Types (c : V8Context) (l : Live) (s : Subsystem).

Lemma EagerlyArchiveThread_sequence self c :
  ThreadManager_EagerlyArchiveThread self c =
  (state ← tmd lazily_archived_thread_state_;
   state ← deref state;
   ThreadState_LinkInto state IN_USE_LIST;;
   Archive_all subsystem_order (state, 0%nat) (λ _,
     modify (with_tmd (set_lazily_archived_thread INVALID));;
     modify (with_tmd (set_lazily_archived_thread_state None)))) c.
Proof.
  unfold ThreadManager_EagerlyArchiveThread, subsystem_order.
  destruct ENABLE_DEBUGGER_SUPPORT; reflexivity.
Qed.

Lemma total_footprint_order : total_footprint subsystem_order = ArchiveSpacePerThread_.
Proof.
  unfold total_footprint, subsystem_order, ArchiveSpacePerThread_.
  destruct ENABLE_DEBUGGER_SUPPORT; simpl; lia.
Qed.

Lemma memcpy_to_run c p off st bytes :
  thread_states c !! p = Some st →
  (off + length bytes ≤ length (data_ st))%nat →
  memcpy_to (p, off) bytes c =
  Ok (tt, with_thread_states (λ _,
        <[p := set_data (take off (data_ st) ++ bytes ++
                         drop (off + length bytes) (data_ st)) st]>
          (thread_states c)) c).
Proof.
  intros Hp Hroom. unfold memcpy_to. simpl.
  rewrite (bind_run _ _ _ _ _ (load_run c p st data_ Hp)).
  rewrite decide_True by done. by apply store_run.
Qed.

Lemma memcpy_from_run c p off st n :
  thread_states c !! p = Some st →
  (off + n ≤ length (data_ st))%nat →
  memcpy_from (p, off) n c = Ok (take n (drop off (data_ st)), c).
Proof.
  intros Hp Hroom. unfold memcpy_from. simpl.
  rewrite (bind_run _ _ _ _ _ (load_run c p st data_ Hp)).
  by rewrite decide_True by done.
Qed.

Lemma Archive_at_run s c p off st :
  thread_states c !! p = Some st →
  length (Archive_bytes s (live c)) = footprint s →
  (off + footprint s ≤ length (data_ st))%nat →
  Archive_at s (p, off) c =
  Ok ((p, (off + footprint s)%nat),
      mkV8Context (thread_manager_data_ c)
        (<[p := set_data (take off (data_ st) ++ Archive_bytes s (live c) ++
                          drop (off + footprint s) (data_ st)) st]>
           (thread_states c))
        (active_ c) (is_running c) (Archive_live s (live c))
        (trace c ++ [EvArchive s])).
Proof.
  intros Hp Hlen Hroom.
  assert (Hext : s ≠ RegExpStack →
    ext_Archive s (p, off) c =
    Ok ((p, (off + ArchiveSpacePerThread (ext s))%nat),
      mkV8Context (thread_manager_data_ c)
        (<[p := set_data (take off (data_ st) ++
                          (Archive (ext s) (ext_live (live c) s)).1 ++
                          drop (off + ArchiveSpacePerThread (ext s)) (data_ st)) st]>
           (thread_states c))
        (active_ c) (is_running c)
        (with_ext s (λ _, (Archive (ext s) (ext_live (live c) s)).2) (live c))
        (trace c ++ [EvArchive s]))).
  { intros Hs.
    assert (Hl : length (Archive (ext s) (ext_live (live c) s)).1 =
                 ArchiveSpacePerThread (ext s)) by by destruct s.
    assert (Hr : (off + ArchiveSpacePerThread (ext s) ≤ length (data_ st))%nat)
      by by destruct s.
    unfold ext_Archive. run_unfold.
    destruct (Archive (ext s) (ext_live (live c) s)) as [bytes rest] eqn:Ha.
    simpl in Hl. rewrite (memcpy_to_run c p off st bytes Hp) by lia.
    simpl. unfold advance. simpl. by rewrite Hl. }
  destruct s; try (apply Hext; done).
  simpl in *. unfold RegExpStack_ArchiveStack. run_unfold.
  rewrite (memcpy_to_run c p off st _ Hp) by lia. simpl.
  unfold advance. simpl. by rewrite Hlen.
Qed.

Lemma Restore_at_run s c p off st :
  thread_states c !! p = Some st →
  (off + footprint s ≤ length (data_ st))%nat →
  Restore_at s (p, off) c =
  Ok ((p, (off + footprint s)%nat),
      mkV8Context (thread_manager_data_ c) (thread_states c)
        (active_ c) (is_running c)
        (Restore_live s (take (footprint s) (drop off (data_ st))) (live c))
        (trace c ++ [EvRestore s])).
Proof.
  intros Hp Hroom.
  destruct s; simpl in *;
    unfold ext_Restore, RegExpStack_RestoreStack; simpl;
    rewrite (bind_run _ _ _ _ _ (memcpy_from_run c p off st _ Hp Hroom));
    reflexivity.
Qed.


Lemma set_data_set_data a b (st : ThreadState) :
  set_data a (set_data b st) = set_data a st.
Proof. done. Qed.

Lemma total_footprint_cons s order :
  total_footprint (s :: order) = (footprint s + total_footprint order)%nat.
Proof. done. Qed.

Lemma Archive_all_run {A} order : ∀ c p off st (k : Cursor → M A),
  thread_states c !! p = Some st →
  (∀ s l, s ∈ order → length (Archive_bytes s l) = footprint s) →
  (off + total_footprint order ≤ length (data_ st))%nat →
  Archive_all order (p, off) k c =
  k (p, (off + total_footprint order)%nat) (archived order p off st c).
Proof.
  induction order as [|s order IH]; intros c p off st k Hp Hlen Hroom.
  - simpl. unfold archived, total_footprint. simpl.
    rewrite Nat.add_0_r, take_drop, app_nil_r.
    replace (set_data (data_ st) st) with st by by destruct st.
    rewrite list_insert_id by done. by destruct c.
  - rewrite total_footprint_cons in *. cbn [Archive_all].
    assert (Hp1 : (p < length (thread_states c))%nat)
      by (by eapply lookup_lt_Some).
    rewrite (bind_run _ _ _ _ _
      (Archive_at_run s c p off st Hp (Hlen s _ ltac:(left)) ltac:(lia))).
    erewrite IH; cycle 1.
    { simpl. by apply list_lookup_insert_eq. }
    { intros s' l Hs'. apply Hlen. by right. }
    { simpl. rewrite !length_app, length_take, length_drop.
      rewrite (Hlen s _ ltac:(left)). lia. }
    f_equal; [f_equal; lia|].
    unfold archived. simpl. f_equal.
    + rewrite list_insert_insert_eq. f_equal. rewrite set_data_set_data. f_equal.
      set (bs := Archive_bytes s (live c)).
      assert (Hbs : length bs = footprint s) by (apply Hlen; left).
      set (d := data_ st) in *.
      rewrite take_app_ge; rewrite length_take; [|lia].
      replace (off + footprint s - off `min` length d)%nat with (footprint s) by lia.
      rewrite take_app_ge by lia. rewrite Hbs, Nat.sub_diag. simpl.
      rewrite app_nil_r.
      rewrite drop_app_ge; rewrite length_take; [|lia].
      rewrite drop_app_ge by lia. rewrite Hbs, drop_drop.
      rewrite <- !app_assoc. do 4 f_equal. rewrite total_footprint_cons. lia.
    + by rewrite <- app_assoc.
Qed.

Lemma Restore_all_run {A} order : ∀ c p off st (k : Cursor → M A),
  thread_states c !! p = Some st →
  (off + total_footprint order ≤ length (data_ st))%nat →
  Restore_all order (p, off) k c =
  k (p, (off + total_footprint order)%nat)
    (restored order (drop off (data_ st)) c).
Proof.
  induction order as [|s order IH]; intros c p off st k Hp Hroom.
  - simpl. unfold restored, total_footprint. simpl.
    rewrite Nat.add_0_r, app_nil_r. by destruct c.
  - rewrite total_footprint_cons in *. cbn [Restore_all].
    rewrite (bind_run _ _ _ _ _ (Restore_at_run s c p off st Hp ltac:(lia))).
    erewrite IH; [|done|lia].
    f_equal; [f_equal; lia|].
    unfold restored. simpl. f_equal.
    + by rewrite drop_drop.
    + by rewrite <- app_assoc.
Qed.

End Archive_runs.

(** ** Restoring what was archived *)
Section Round_trip.
Context `{B : Build}.
Implicit Types (c : V8Context) (l : Live) (s : Subsystem).

Lemma same_live_at_refl s l : same_live_at s l l.
Proof. by destruct s. Qed.

Lemma same_live_at_trans s l1 l2 l3 :
  same_live_at s l1 l2 → same_live_at s l2 l3 → same_live_at s l1 l3.
Proof. destruct s; simpl; congruence. Qed.

Lemma Archive_live_other s s' l : s' ≠ s → same_live_at s' l (Archive_live s l).
Proof.
  intros Hne. destruct s, s'; try done; simpl; by rewrite ?fn_lookup_insert_ne.
Qed.

Lemma Restore_live_other s s' bytes l :
  s' ≠ s → same_live_at s' l (Restore_live s bytes l).
Proof.
  intros Hne. destruct s, s'; try done; simpl; by rewrite ?fn_lookup_insert_ne.
Qed.

Lemma Archive_bytes_same s l l' :
  same_live_at s l l' → Archive_bytes s l' = Archive_bytes s l.
Proof. destruct s; simpl; by intros ->. Qed.

Lemma length_object_representation x :
  length (object_representation x) = sizeof_ThreadLocal.
Proof.
  unfold object_representation, sizeof_ThreadLocal.
  rewrite !length_app, !length_le_split. lia.
Qed.

Lemma object_of_representation_inverts x rest :
  ThreadLocal_fits x →
  object_of_representation
    (take sizeof_ThreadLocal (object_representation x ++ rest)) = x.
Proof.
  intros (Hm & Hs & Hl).
  rewrite take_app_length' by (symmetry; apply length_object_representation).
  unfold object_of_representation, object_representation.
  rewrite take_app_length' by (symmetry; apply length_le_split).
  rewrite drop_app_length' by (symmetry; apply length_le_split).
  rewrite take_app_length' by (symmetry; apply length_le_split).
  replace (2 * kPointerSize)%nat with (kPointerSize + kPointerSize)%nat by lia.
  rewrite <- drop_drop.
  rewrite drop_app_length' by (symmetry; apply length_le_split).
  rewrite drop_app_length' by (symmetry; apply length_le_split).
  rewrite take_ge by (rewrite length_le_split; lia).
  rewrite !le_combine_split.
  unfold fits_word in *. rewrite !Z.mod_small by done. by destruct x.
Qed.

Lemma length_Archive_bytes s l :
  (s ≠ RegExpStack → Archive_fills s) →
  length (Archive_bytes s l) = footprint s.
Proof.
  intros Hf. destruct s; simpl; try (by apply Hf).
  apply length_object_representation.
Qed.

Lemma Restore_live_inverts s l l0 rest :
  (s ≠ RegExpStack → Archive_fills s ∧ Restore_inverts s) →
  (s = RegExpStack → ThreadLocal_fits (thread_local_ l)) →
  same_live_at s l
    (Restore_live s (take (footprint s) (Archive_bytes s l ++ rest)) l0).
Proof.
  intros Hc Hfit.
  destruct s; simpl;
    try (destruct Hc as [Hf Hr]; [done|];
         rewrite fn_lookup_insert, take_app_length' by (symmetry; apply Hf); by apply Hr).
  by apply object_of_representation_inverts, Hfit.
Qed.

Lemma restore_archive_seq order : NoDup order → ∀ l l0 rest,
  (∀ s, s ∈ order → s ≠ RegExpStack → Archive_fills s ∧ Restore_inverts s) →
  (RegExpStack ∈ order → ThreadLocal_fits (thread_local_ l)) →
  (∀ s, s ∈ order →
     same_live_at s l
       (restore_seq order ((archive_seq order l).1 ++ rest) l0)) ∧
  (∀ s, s ∉ order →
     same_live_at s l0
       (restore_seq order ((archive_seq order l).1 ++ rest) l0)).
Proof.
  induction 1 as [|s order Hs Hnd IH]; intros l l0 rest Hc Hfit.
  - split; intros s Hin; [by apply elem_of_nil in Hin|apply same_live_at_refl].
  - cbn [archive_seq restore_seq fst snd].
    assert (Hlen : length (Archive_bytes s l) = footprint s).
    { apply length_Archive_bytes. intros Hne. apply Hc; [by left|done]. }
    rewrite <- app_assoc.
    rewrite drop_app_length' by done.
    set (l1 := Archive_live s l).
    set (l0' := Restore_live s _ l0).
    destruct (IH l1 l0' rest) as [IH1 IH2].
    { intros s' Hin. apply Hc. by right. }
    { intros Hin. assert (s ≠ RegExpStack) by (by intros ->).
      destruct s; try done; apply Hfit; by right. }
    split.
    + intros s' [->|Hin]%elem_of_cons.
      * eapply same_live_at_trans; [|by apply IH2].
        apply Restore_live_inverts.
        -- intros Hne. apply Hc; [by left|done].
        -- intros ->. apply Hfit. by left.
      * assert (s' ≠ s) by (by intros ->).
        eapply same_live_at_trans; [|by apply IH1].
        by apply Archive_live_other.
    + intros s' Hnin. apply not_elem_of_cons in Hnin as [Hne Hnin].
      eapply same_live_at_trans; [|by apply IH2].
      by apply Restore_live_other.
Qed.

Lemma NoDup_subsystem_order : NoDup subsystem_order.
Proof.
  unfold subsystem_order. destruct ENABLE_DEBUGGER_SUPPORT; simpl;
    repeat (apply list.NoDup_cons; split; [set_solver|]); apply NoDup_nil_2.
Qed.

End Round_trip.

(** ** Eager archiving and restoring, forwards *)
Section Eager_runs.
Context `{B : Build}.
Implicit Types (c : V8Context) (l : Live) (s : Subsystem).

Lemma payload_lookup (h h' : list ThreadState) q st :
  payload <$> h' !! q = payload <$> h !! q → h !! q = Some st →
  ∃ st', h' !! q = Some st' ∧ payload st' = payload st.
Proof.
  intros Hp Hq. rewrite Hq in Hp. simpl in Hp.
  destruct (h' !! q) as [st'|]; [|done]. exists st'. split; [done|].
  simpl in Hp. unfold payload in *. congruence.
Qed.

Lemma EagerlyArchiveThread_run c self fl ul p :
  Inv c fl ul →
  lazily_archived_thread_state_ (thread_manager_data_ c) = Some p →
  (∀ s, s ∈ subsystem_order → s ≠ RegExpStack → Archive_fills s) →
  ∃ h' st st',
    thread_states c !! p = Some st ∧
    h' !! p = Some st' ∧ payload st' = payload st ∧
    length (data_ st) = ArchiveSpacePerThread_ ∧
    length h' = length (thread_states c) ∧
    (∀ q, payload <$> h' !! q = payload <$> thread_states c !! q) ∧
    ThreadManager_EagerlyArchiveThread self c =
    Ok (tt, with_tmd (set_lazily_archived_thread_state None)
              (with_tmd (set_lazily_archived_thread INVALID)
                 (archived subsystem_order p 0 st'
                    (with_thread_states (λ _, h') c)))).
Proof.
  intros Hinv Hls Hfill.
  pose proof (inv_shape _ _ _ Hinv) as Hs.
  unfold lazy_list in Hs. rewrite Hls in Hs.
  pose proof (inv_lazy _ _ _ Hinv) as Hl. unfold lazy_slot_ok in Hl.
  rewrite Hls in Hl.
  destruct (lazily_archived_thread_ (thread_manager_data_ c)) as [|t] eqn:Hlz;
    [done|].
  destruct (inv_lazy_meta _ _ _ Hinv t p Hlz Hls) as [Hmeta _].
  destruct (thread_states c !! p) as [st|] eqn:Hp; [|done].
  simpl in Hmeta. injection Hmeta as Hid Hflag Hlen.
  destruct (LinkInto_Shape c IN_USE_LIST fl ul p [] Hs)
    as (h' & Hlink & Hlenh & Hpay & Hs').
  destruct (payload_lookup _ _ _ _ (Hpay p) Hp) as (st' & Hp' & Hst').
  exists h', st, st'. split_and!; try done.
  rewrite EagerlyArchiveThread_sequence. run_unfold. rewrite Hls, Hlink.
  erewrite Archive_all_run; [done|exact Hp'| |].
  - intros s l Hin. apply length_Archive_bytes. intros Hne. by apply Hfill.
  - rewrite total_footprint_order. simpl.
    assert (data_ st' = data_ st) as ->; [|lia].
    unfold payload in Hst'. by injection Hst' as _ _ ->.
Qed.


Lemma RestoreThread_sequence self c :
  ThreadManager_RestoreThread self c =
  (lazy ← tmd lazily_archived_thread_;
   if IsSelf self lazy then
     modify (with_tmd (set_lazily_archived_thread INVALID));;
     tls ← Thread_GetThreadLocal self;
     lazy_state ← tmd lazily_archived_thread_state_;
     ASSERT (bool_decide (tls = lazy_state));;
     state ← deref lazy_state;
     store state (set_id kInvalidId);;
     ThreadState_LinkInto state FREE_LIST;;
     modify (with_tmd (set_lazily_archived_thread_state None));;
     Thread_SetThreadLocal self None;;
     mret true
   else
     lazy ← tmd lazily_archived_thread_;
     (if IsValid lazy then ThreadManager_EagerlyArchiveThread self else mret tt);;
     state ← Thread_GetThreadLocal self;
     match state with
     | None => StackGuard_call InitThread;; mret false
     | Some state =>
         Restore_all subsystem_order (state, 0%nat) (λ _,
           Thread_SetThreadLocal self None;;
           terminate ← load state terminate_on_restore_;
           (if terminate : bool then
              StackGuard_call TerminateExecution;;
              store state (set_terminate_on_restore false)
            else mret tt);;
           store state (set_id kInvalidId);;
           ThreadState_Unlink state;;
           ThreadState_LinkInto state FREE_LIST;;
           mret true)
     end) c.
Proof.
  unfold ThreadManager_RestoreThread, subsystem_order.
  destruct ENABLE_DEBUGGER_SUPPORT; reflexivity.
Qed.

(** [RestoreThread] by a thread other than the lazy candidate starts with
    [EagerlyArchiveThread] and goes on as on the context that leaves. *)
Lemma RestoreThread_forces_eager c self t c1 :
  lazily_archived_thread_ (thread_manager_data_ c) = Identity t →
  t ≠ self →
  ThreadManager_EagerlyArchiveThread self c = Ok (tt, c1) →
  lazily_archived_thread_ (thread_manager_data_ c1) = INVALID →
  ThreadManager_RestoreThread self c = ThreadManager_RestoreThread self c1.
Proof.
  intros Hlz Hne Hrun Hlz1.
  unfold ThreadManager_RestoreThread. run_unfold. rewrite Hlz, Hlz1.
  unfold IsSelf, IsValid.
  rewrite (bool_decide_false (Identity t = Identity self)) by congruence.
  rewrite (bool_decide_false (INVALID = Identity self)) by done.
  rewrite Hlz, Hlz1.
  rewrite (bool_decide_true (Identity t ≠ INVALID)) by done.
  rewrite (bool_decide_false (INVALID ≠ INVALID)) by (by intros []).
  by rewrite Hrun.
Qed.

End Eager_runs.

Ltac run_unfold_in H :=
  cbv [mbind M_bind mret M_ret gets tmd modify emit fatal blocked out_of_fuel
       deref Thread_GetThreadLocal Thread_SetThreadLocal
       Thread_GetThreadLocalInt Thread_SetThreadLocalInt
       ThreadManager_HasId ThreadManager_IsArchived ThreadManager_CurrentId
       ThreadManager_IsLockedByCurrentThread Locker_IsLocked] in H.

Section Restore_runs.
Context `{B : Build}.
Implicit Types (c : V8Context) (s : Subsystem).

Lemma RestoreThread_relink c fl l1 p l2 st :
  thread_states c !! p = Some st →
  Shape (thread_states c) (free_anchor_ (thread_manager_data_ c))
    (in_use_anchor_ (thread_manager_data_ c)) fl (l1 ++ p :: l2) [] →
  ∃ h',
    (store p (set_id kInvalidId);;
     ThreadState_Unlink p;;
     ThreadState_LinkInto p FREE_LIST;;
     mret true) c = Ok (true, with_thread_states (λ _, h') c) ∧
    Shape h' (free_anchor_ (thread_manager_data_ c))
      (in_use_anchor_ (thread_manager_data_ c)) (p :: fl) (l1 ++ l2) [] ∧
    payload <$> h' !! p = Some (payload (set_id kInvalidId st)) ∧
    (∀ q, q ≠ p → payload <$> h' !! q = payload <$> thread_states c !! q).
Proof.
  intros Hp Hs.
  assert (Hlt : (p < length (thread_states c))%nat) by (by eapply lookup_lt_Some).
  set (c1 := with_thread_states
               (λ _, <[p := set_id kInvalidId st]> (thread_states c)) c).
  destruct (Unlink_Shape_use c1 (free_anchor_ (thread_manager_data_ c))
              (in_use_anchor_ (thread_manager_data_ c)) fl l1 p l2 [])
    as (h2 & Hun & Hlen2 & Hpay2 & Hs2).
  { simpl. eapply Shape_ext; [| | |exact Hs].
    - apply length_insert.
    - intros q. by eapply nxt_insert_same.
    - intros q. by eapply prv_insert_same. }
  set (c2 := with_thread_states (λ _, h2) c1).
  destruct (LinkInto_Shape c2 FREE_LIST fl (l1 ++ l2) p [] Hs2)
    as (h3 & Hlink & Hlen3 & Hpay3 & Hs3).
  exists h3. split_and!.
  - run_unfold. erewrite store_run by exact Hp. fold c1.
    rewrite Hun. fold c2. by rewrite Hlink.
  - exact Hs3.
  - rewrite Hpay3, Hpay2. simpl. by rewrite list_lookup_insert_eq.
  - intros q Hq. rewrite Hpay3, Hpay2. simpl. by rewrite list_lookup_insert_ne.
Qed.

Lemma RestoreThread_archived_run c self fl l1 p l2 st :
  Inv c fl (l1 ++ p :: l2) →
  lazily_archived_thread_ (thread_manager_data_ c) = INVALID →
  thread_state_key_ (thread_manager_data_ c) !! self = Some p →
  thread_states c !! p = Some st →
  ∃ c2,
    ThreadManager_RestoreThread self c = Ok (true, c2) ∧
    trace c2 =
      trace c ++ (EvRestore <$> subsystem_order) ++
      (if terminate_on_restore_ st
       then [EvStackGuard TerminateExecution] else []) ∧
    live c2 =
      (if terminate_on_restore_ st
       then with_ext StackGuard (StackGuard_effect TerminateExecution)
       else λ l, l) (restore_seq subsystem_order (data_ st) (live c)) ∧
    thread_manager_data_ c2 =
      set_thread_state_key
        (delete self (thread_state_key_ (thread_manager_data_ c)))
        (thread_manager_data_ c) ∧
    Shape (thread_states c2) (free_anchor_ (thread_manager_data_ c))
      (in_use_anchor_ (thread_manager_data_ c)) (p :: fl) (l1 ++ l2) [] ∧
    payload <$> thread_states c2 !! p = Some (kInvalidId, false, data_ st) ∧
    (∀ q, q ≠ p →
       payload <$> thread_states c2 !! q = payload <$> thread_states c !! q).
Proof.
  intros Hinv Hlz Htls Hp.
  pose proof (inv_shape _ _ _ Hinv) as Hs.
  pose proof (inv_lazy _ _ _ Hinv) as Hl. unfold lazy_slot_ok in Hl.
  rewrite Hlz in Hl.
  destruct (lazily_archived_thread_state_ (thread_manager_data_ c)) eqn:Hls;
    [done|].
  unfold lazy_list in Hs. rewrite Hls in Hs.
  destruct (inv_use_meta _ _ _ Hinv p) as (t & f & _ & Hmeta & _);
    [set_solver|].
  rewrite Hp in Hmeta. simpl in Hmeta. injection Hmeta as _ _ Hlen.
  assert (Hlt : (p < length (thread_states c))%nat) by (by eapply lookup_lt_Some).
  rewrite RestoreThread_sequence. run_unfold. rewrite Hlz.
  unfold IsSelf, IsValid.
  rewrite (bool_decide_false (INVALID = Identity self)) by done.
  rewrite Hlz.
  rewrite (bool_decide_false (INVALID ≠ INVALID)) by (by intros []).
  rewrite Htls.
  erewrite Restore_all_run; [|exact Hp|rewrite total_footprint_order; lia].
  rewrite drop_0.
  erewrite load_run by (simpl; exact Hp).
  set (cA := with_tmd _ (restored subsystem_order (data_ st) c)).
  destruct (terminate_on_restore_ st) eqn:Hflag.
  - unfold StackGuard_call. run_unfold.
    erewrite store_run by (simpl; exact Hp). simpl thread_states.
    match goal with |- context [store p (set_id kInvalidId) ?cc] =>
      set (cB := cc) end.
    destruct (RestoreThread_relink cB fl l1 p l2
                (set_terminate_on_restore false st)) as (h' & Hrun & Hs' & Hpp & Hpq).
    { simpl. by apply list_lookup_insert_eq. }
    { simpl. eapply Shape_ext; [| | |exact Hs].
      - apply length_insert.
      - intros q. by eapply nxt_insert_same.
      - intros q. by eapply prv_insert_same. }
    run_unfold_in Hrun. rewrite Hrun.
    eexists. split; [done|]. simpl. split_and!; try done.
    + by rewrite <- app_assoc.
    + intros q Hq. rewrite Hpq by done. simpl. by rewrite list_lookup_insert_ne.
  - destruct (RestoreThread_relink cA fl l1 p l2 st Hp Hs)
      as (h' & Hrun & Hs' & Hpp & Hpq).
    run_unfold_in Hrun. rewrite Hrun.
    eexists. split; [done|]. simpl. split_and!; try done.
    + by rewrite app_nil_r.
    + rewrite Hpp. unfold payload. simpl. by rewrite Hflag.
Qed.

End Restore_runs.

Section Round_trip_runs.
Context `{B : Build}.
Implicit Types (c : V8Context) (s : Subsystem).

Lemma length_archive_seq order : ∀ l,
  (∀ s, s ∈ order → s ≠ RegExpStack → Archive_fills s) →
  length (archive_seq order l).1 = total_footprint order.
Proof.
  induction order as [|s order IH]; intros l Hfill; [done|].
  rewrite total_footprint_cons. cbn [archive_seq fst].
  rewrite length_app, IH.
  - rewrite length_Archive_bytes; [done|]. intros Hne. apply Hfill; [by left|done].
  - intros s' Hin. apply Hfill. by right.
Qed.

Lemma EagerlyArchiveThread_result c self fl ul p :
  Inv c fl ul →
  lazily_archived_thread_state_ (thread_manager_data_ c) = Some p →
  (∀ s, s ∈ subsystem_order → s ≠ RegExpStack → Archive_fills s) →
  ∃ c1,
    ThreadManager_EagerlyArchiveThread self c = Ok (tt, c1) ∧
    Inv c1 fl (p :: ul) ∧
    trace c1 = trace c ++ (EvArchive <$> subsystem_order) ∧
    live c1 = (archive_seq subsystem_order (live c)).2 ∧
    data_ <$> thread_states c1 !! p =
      Some (archive_seq subsystem_order (live c)).1 ∧
    terminate_on_restore_ <$> thread_states c1 !! p = Some false ∧
    (∀ q, q ≠ p →
       payload <$> thread_states c1 !! q = payload <$> thread_states c !! q) ∧
    thread_state_key_ (thread_manager_data_ c1) =
      thread_state_key_ (thread_manager_data_ c) ∧
    lazily_archived_thread_ (thread_manager_data_ c1) = INVALID ∧
    lazily_archived_thread_state_ (thread_manager_data_ c1) = None.
Proof.
  intros Hinv Hls Hfill.
  destruct (EagerlyArchiveThread_run c self fl ul p Hinv Hls Hfill)
    as (h' & st & st' & Hp & Hp' & Hst & Hlen & Hlenh & Hpay & Hrun).
  destruct (EagerlyArchiveThread_Inv _ _ _ _ _ Hinv Hrun)
    as (p' & Hls' & Hlz1 & Hinv1).
  rewrite Hls in Hls'. injection Hls' as <-.
  pose proof (inv_lazy _ _ _ Hinv) as Hl. unfold lazy_slot_ok in Hl.
  rewrite Hls in Hl.
  destruct (lazily_archived_thread_ (thread_manager_data_ c)) as [|t] eqn:Hlz;
    [done|].
  destruct (inv_lazy_meta _ _ _ Hinv t p Hlz Hls) as [Hmeta _].
  rewrite Hp in Hmeta. simpl in Hmeta. injection Hmeta as _ Hflag _.
  assert (Hlt : (p < length h')%nat) by (by eapply lookup_lt_Some).
  unfold payload in Hst. injection Hst as Hid' Hflag' Hdata'.
  eexists. split; [exact Hrun|]. split; [exact Hinv1|]. simpl.
  split_and!; try done.
  - rewrite list_lookup_insert_eq by done. simpl. f_equal.
    rewrite drop_ge, app_nil_r; [done|].
    rewrite total_footprint_order, Hdata'. lia.
  - rewrite list_lookup_insert_eq by done. simpl. by rewrite Hflag', Hflag.
  - intros q Hq. by rewrite list_lookup_insert_ne.
Qed.

End Round_trip_runs.

Section Round_trip_claim.
Context `{B : Build}.
Implicit Types (c : V8Context) (s : Subsystem).

(** C8: archive, then restore.  [RegExpStack::ArchiveStack] and
    [RegExpStack::RestoreStack] at the same cursor both return the cursor
    moved on by [sizeof(ThreadLocal)], and the second, run on whatever live
    state has come in between, brings back the [ThreadLocal] record the
    first one saved.  [EagerlyArchiveThread] calls the archive functions of
    the subsystems in the order in which [RestoreThread] calls their restore
    functions; the archive calls fill the buffer of the ThreadState, each
    with as many bytes as the restore call reads back at the same place;
    and where the collaborators keep the contract ([Restore] undoes
    [Archive]), the thread that restores finds the live state of every
    subsystem as it was archived. *)
Theorem archive_restore_round_trip :
  (∀ c (to : Cursor) st l,
     thread_states c !! to.1 = Some st →
     (to.2 + sizeof_ThreadLocal ≤ length (data_ st))%nat →
     ThreadLocal_fits (thread_local_ (live c)) →
     ∃ c1 c2,
       RegExpStack_ArchiveStack to c = Ok (advance to sizeof_ThreadLocal, c1) ∧
       thread_local_ (live c1) = ThreadLocal_new ∧
       RegExpStack_RestoreStack to (with_live (λ _, l) c1) =
         Ok (advance to sizeof_ThreadLocal, c2) ∧
       thread_local_ (live c2) = thread_local_ (live c)) ∧
  (∀ c fl ul p self t l,
     Inv c fl ul →
     lazily_archived_thread_ (thread_manager_data_ c) = Identity t →
     lazily_archived_thread_state_ (thread_manager_data_ c) = Some p →
     (∀ s, s ∈ subsystem_order → s ≠ RegExpStack →
        Archive_fills s ∧ Restore_inverts s) →
     ThreadLocal_fits (thread_local_ (live c)) →
     ∃ c1 c2 bytes,
       ThreadManager_EagerlyArchiveThread self c = Ok (tt, c1) ∧
       trace c1 = trace c ++ (EvArchive <$> subsystem_order) ∧
       data_ <$> thread_states c1 !! p = Some bytes ∧
       bytes = (archive_seq subsystem_order (live c)).1 ∧
       length bytes = total_footprint subsystem_order ∧
       ThreadManager_RestoreThread t (with_live (λ _, l) c1) = Ok (true, c2) ∧
       trace c2 = trace c1 ++ (EvRestore <$> subsystem_order) ∧
       live c2 = restore_seq subsystem_order bytes l ∧
       (∀ s, s ∈ subsystem_order → same_live_at s (live c) (live c2)) ∧
       (∀ s, s ∉ subsystem_order → same_live_at s l (live c2))).
Proof.
  split.
  - intros c [p off] st l Hp Hroom Hfit. simpl in Hp, Hroom.
    pose proof (Archive_at_run RegExpStack c p off st Hp
                  (length_object_representation _) Hroom) as Ha.
    assert (Hlt : (p < length (thread_states c))%nat) by (by eapply lookup_lt_Some).
    eexists _, _. split; [exact Ha|]. split; [done|]. split.
    + apply (Restore_at_run RegExpStack).
      * simpl. by apply list_lookup_insert_eq.
      * simpl. rewrite !length_app, length_take, length_drop.
        rewrite length_object_representation. simpl in *. lia.
    + cbn [live thread_local_ Restore_live set_thread_local data_ set_data
           footprint Archive_bytes fst snd].
      rewrite drop_app_length' by (rewrite length_take; lia).
      by apply object_of_representation_inverts.
  - intros c fl ul p self t l Hinv Hlz Hls Hc Hfit.
    assert (Hfill : ∀ s, s ∈ subsystem_order → s ≠ RegExpStack → Archive_fills s)
      by (intros s Hin Hne; by apply Hc).
    destruct (EagerlyArchiveThread_result c self fl ul p Hinv Hls Hfill)
      as (c1 & Hrun & Hinv1 & Htr & Hlive & Hdata & Hflag & _ & Hkey & Hlz1 & Hls1).
    pose proof (inv_lazy _ _ _ Hinv) as Hl. unfold lazy_slot_ok in Hl.
    rewrite Hlz, Hls in Hl.
    assert (Hlen : length (archive_seq subsystem_order (live c)).1 =
                   total_footprint subsystem_order)
      by apply length_archive_seq, Hfill.
    destruct (restore_archive_seq subsystem_order NoDup_subsystem_order
                (live c) l []) as [Hin Hout]; [done|done|].
    rewrite app_nil_r in Hin, Hout.
    remember (archive_seq subsystem_order (live c)).1 as bytes eqn:Hbytes.
    destruct (thread_states c1 !! p) as [st1|] eqn:Hp1; [|done].
    cbv [fmap option_fmap option_map] in Hdata, Hflag.
    injection Hdata as Hdata. injection Hflag as Hflag.
    destruct (RestoreThread_archived_run (with_live (λ _, l) c1) t fl [] p ul st1)
      as (c2 & Hrest & Htr2 & Hlive2 & _); try done.
    { eapply Inv_same_links; [apply same_links_live|exact Hinv1]. }
    { simpl. by rewrite Hkey. }
    rewrite Hflag, app_nil_r in Htr2. rewrite Hflag, Hdata in Hlive2.
    simpl in Htr2, Hlive2.
    exists c1, c2, bytes. split_and!; try done.
    + rewrite Hp1. simpl. by rewrite Hdata.
    + intros s Hs. rewrite Hlive2. by apply Hin.
    + intros s Hs. rewrite Hlive2. by apply Hout.
Qed.

End Round_trip_claim.

Lemma sample_contract debug s :
  @Archive_fills (sample_build debug) s ∧ @Restore_inverts (sample_build debug) s.
Proof. split; intros x; [|intros y]; by destruct s. Qed.

Lemma archive_restore_round_trip_witness :
  ∃ c1 c2 : @V8Context (sample_build true),
    ThreadManager_EagerlyArchiveThread 2%nat sample_lazy = Ok (tt, c1) ∧
    ThreadManager_RestoreThread 1%nat
      (with_live (λ _, @mkLive (sample_build true) (λ _, Byte.xff)
                         (mkThreadLocal 7 7 7)) c1) =
      Ok (true, c2) ∧
    thread_local_ (live c2) = thread_local_ (live sample_lazy) ∧
    ext_live (live c2) Top = ext_live (live sample_lazy) Top.
Proof.
  destruct (reachable_Inv sample_lazy eq_refl
              (after_reachable _ _ sample_lazy_after)) as (fl & ul & Hinv).
  destruct (proj2 archive_restore_round_trip sample_lazy fl ul 2%nat 2%nat 1%nat
              (@mkLive (sample_build true) (λ _, Byte.xff) (mkThreadLocal 7 7 7)) Hinv)
    as (c1 & c2 & bytes & H1 & _ & _ & _ & _ & H6 & _ & _ & H9 & _).
  - vm_compute. reflexivity.
  - vm_compute. reflexivity.
  - intros s _ _. apply sample_contract.
  - repeat split; vm_compute; try reflexivity; try discriminate.
  - exists c1, c2. split; [exact H1|]. split; [exact H6|]. split.
    + apply (H9 RegExpStack). vm_compute. repeat constructor.
    + apply (H9 Top). vm_compute. repeat constructor.
Defined.

Section Forced_archive.
Context `{B : Build}.
Implicit Types (c : V8Context) (s : Subsystem).

Lemma ASSERT_false c : DEBUG = true → ASSERT false c = Fatal.
Proof. unfold ASSERT. by intros ->. Qed.

(** With no lazy candidate pending, [RestoreThread] returns: true when the
    thread had archived state, false when it had none. *)
Lemma RestoreThread_invalid_run c self fl ul :
  Inv c fl ul →
  lazily_archived_thread_ (thread_manager_data_ c) = INVALID →
  ∃ c2,
    ThreadManager_RestoreThread self c =
    Ok (bool_decide (thread_state_key_ (thread_manager_data_ c) !! self ≠ None),
        c2).
Proof.
  intros Hinv Hlz.
  destruct (thread_state_key_ (thread_manager_data_ c) !! self) as [q|] eqn:Htls.
  - destruct (inv_tls _ _ _ Hinv self q Htls) as [Hin|[Hc _]]; [|congruence].
    destruct (inv_use_meta _ _ _ Hinv q Hin) as (t & f & _ & Hmeta & _).
    destruct (thread_states c !! q) as [st|] eqn:Hq; [|done].
    apply list_elem_of_split in Hin as (l1 & l2 & ->).
    destruct (RestoreThread_archived_run c self fl l1 q l2 st Hinv Hlz Htls Hq)
      as (c2 & Hrun & _).
    exists c2. by rewrite bool_decide_true.
  - rewrite bool_decide_false by (by intros []).
    rewrite RestoreThread_sequence. run_unfold. rewrite Hlz.
    unfold IsSelf, IsValid.
    rewrite (bool_decide_false (INVALID = Identity self)) by done.
    rewrite Hlz.
    rewrite (bool_decide_false (INVALID ≠ INVALID)) by (by intros []).
    rewrite Htls. unfold StackGuard_call. run_unfold. by eexists.
Qed.

End Forced_archive.

Section Terminate.
Context `{B : Build}.
Implicit Types (c : V8Context) (s : Subsystem).

Lemma RestoreThread_in_use_run c self fl ul p st :
  Inv c fl ul →
  thread_state_key_ (thread_manager_data_ c) !! self = Some p →
  p ∈ ul →
  thread_states c !! p = Some st →
  (∀ s, s ∈ subsystem_order → s ≠ RegExpStack → Archive_fills s) →
  ∃ c2 evs,
    ThreadManager_RestoreThread self c = Ok (true, c2) ∧
    trace c2 =
      trace c ++ evs ++
      (if terminate_on_restore_ st
       then [EvStackGuard TerminateExecution] else []) ∧
    EvStackGuard TerminateExecution ∉ evs ∧
    payload <$> thread_states c2 !! p = Some (kInvalidId, false, data_ st) ∧
    free_list c2 = p :: fl ∧
    (∀ q, q ≠ p →
       terminate_on_restore_ <$> thread_states c2 !! q =
       terminate_on_restore_ <$> thread_states c !! q).
Proof.
  intros Hinv Htls Hin Hp Hfill.
  assert (Hflagof : ∀ (h h' : list ThreadState) q,
            payload <$> h' !! q = payload <$> h !! q →
            terminate_on_restore_ <$> h' !! q = terminate_on_restore_ <$> h !! q).
  { intros h h' q Hq. destruct (h' !! q) as [x|], (h !! q) as [y|]; try done.
    simpl in *. unfold payload in Hq. congruence. }
  destruct (lazily_archived_thread_ (thread_manager_data_ c)) as [|t] eqn:Hlz.
  - apply list_elem_of_split in Hin as (l1 & l2 & ->).
    destruct (RestoreThread_archived_run c self fl l1 p l2 st Hinv Hlz Htls Hp)
      as (c2 & Hrun & Htr & _ & Htmd & Hs & Hpp & Hpq).
    exists c2, (EvRestore <$> subsystem_order). split_and!; try done.
    + intros (s & Hs' & _)%list_elem_of_fmap. done.
    + unfold free_list. rewrite Htmd. simpl. by eapply Shape_free_entries.
    + intros q Hq. by apply Hflagof, Hpq.
  - pose proof (inv_lazy _ _ _ Hinv) as Hl. unfold lazy_slot_ok in Hl.
    rewrite Hlz in Hl.
    destruct (lazily_archived_thread_state_ (thread_manager_data_ c))
      as [pl|] eqn:Hls; [|done].
    assert (Hpl : p ≠ pl).
    { intros ->. pose proof (inv_shape _ _ _ Hinv) as [Hnd _ _ _].
      unfold lazy_list in Hnd. rewrite Hls in Hnd.
      apply list.NoDup_cons in Hnd as [_ Hnd].
      apply list.NoDup_cons in Hnd as [_ Hnd].
      apply NoDup_app in Hnd as (_ & _ & Hnd).
      apply NoDup_app in Hnd as (_ & Hd & _). apply (Hd pl Hin). set_solver. }
    assert (Hne : t ≠ self) by (intros ->; congruence).
    destruct (EagerlyArchiveThread_result c self fl ul pl Hinv Hls Hfill)
      as (c1 & Hrun1 & Hinv1 & Htr1 & _ & _ & Hflag1 & Hpay1 & Hkey & Hlz1 & _).
    destruct (inv_lazy_meta _ _ _ Hinv t pl Hlz Hls) as [Hmeta _].
    destruct (payload_lookup _ _ p st (Hpay1 p Hpl) Hp) as (st1 & Hp1 & Hst1).
    unfold payload in Hst1. injection Hst1 as Hid1 Hfl1 Hdata1.
    apply list_elem_of_split in Hin as (l1 & l2 & ->).
    destruct (RestoreThread_archived_run c1 self fl (pl :: l1) p l2 st1)
      as (c2 & Hrun & Htr & _ & Htmd & Hs & Hpp & Hpq); try done.
    { by rewrite Hkey. }
    exists c2, ((EvArchive <$> subsystem_order) ++ (EvRestore <$> subsystem_order)).
    split_and!.
    + by rewrite (RestoreThread_forces_eager c self t c1).
    + rewrite Htr, Htr1, Hfl1. by rewrite <- !app_assoc.
    + intros [Hin|Hin]%elem_of_app;
        apply list_elem_of_fmap in Hin as (s & Hs' & _); done.
    + by rewrite Hpp, Hdata1.
    + unfold free_list. rewrite Htmd. simpl.
      replace (free_anchor_ (thread_manager_data_ c))
        with (free_anchor_ (thread_manager_data_ c1)).
      * by eapply Shape_free_entries.
      * pose proof (EagerlyArchiveThread_run c self fl (l1 ++ p :: l2) pl Hinv Hls Hfill)
          as (h' & x & x' & _ & _ & _ & _ & _ & _ & Hrun').
        rewrite Hrun1 in Hrun'. by injection Hrun' as ->.
    + intros q Hq. rewrite (Hflagof _ _ _ (Hpq q Hq)).
      destruct (decide (q = pl)) as [->|Hql].
      * rewrite Hflag1. destruct (thread_states c !! pl) as [y|]; [|done].
        simpl in *. by injection Hmeta as _ -> _.
      * by apply Hflagof, Hpay1.
Qed.


(** C10: the terminate-on-restore flag is one-shot.  [TerminateExecution]
    returns, calls nothing, and sets the flag on the states of the in-use
    list that carry the id, of which there is at most one; when no state of
    the in-use list carries the id it leaves the context as it was.
    [RestoreThread] by a thread whose state is archived requests termination
    once if the flag of that state is set and not at all if it is not,
    leaves the state at the head of the free list with the flag reset and the
    id invalid, and leaves every other flag as it was. *)
Theorem terminate_on_restore_one_shot c :
  DEBUG = true →
  reachable c →
  (∀ s, s ∈ subsystem_order → s ≠ RegExpStack → Archive_fills s) →
  (∀ thread_id,
     (∃ c',
        ThreadManager_TerminateExecution thread_id c = Ok (tt, c') ∧
        trace c' = trace c ∧ live c' = live c ∧
        thread_manager_data_ c' = thread_manager_data_ c ∧
        (∀ q, thread_states c' !! q =
              if decide (q ∈ in_use_list c)
              then mark_terminate thread_id <$> thread_states c !! q
              else thread_states c !! q)) ∧
     (∀ p q sp sq,
        p ∈ in_use_list c → q ∈ in_use_list c →
        thread_states c !! p = Some sp → thread_states c !! q = Some sq →
        id_ sp = thread_id → id_ sq = thread_id → p = q) ∧
     ((∀ q sq, q ∈ in_use_list c → thread_states c !! q = Some sq →
               id_ sq ≠ thread_id) →
      ThreadManager_TerminateExecution thread_id c = Ok (tt, c))) ∧
  (∀ self p st,
     thread_state_key_ (thread_manager_data_ c) !! self = Some p →
     p ∈ in_use_list c →
     thread_states c !! p = Some st →
     ∃ c2 evs,
       ThreadManager_RestoreThread self c = Ok (true, c2) ∧
       trace c2 =
         trace c ++ evs ++
         (if terminate_on_restore_ st
          then [EvStackGuard TerminateExecution] else []) ∧
       EvStackGuard TerminateExecution ∉ evs ∧
       terminate_on_restore_ <$> thread_states c2 !! p = Some false ∧
       id_ <$> thread_states c2 !! p = Some kInvalidId ∧
       free_list c2 = p :: free_list c ∧
       (∀ q, q ≠ p →
          terminate_on_restore_ <$> thread_states c2 !! q =
          terminate_on_restore_ <$> thread_states c !! q)).
Proof.
  intros Hdebug Hreach Hfill.
  destruct (reachable_Inv c Hdebug Hreach) as (fl & ul & Hinv).
  destruct (Inv_lists _ _ _ Hinv) as [Hfl Hul]. rewrite Hfl, Hul.
  split.
  - intros thread_id.
    destruct (TerminateExecution_run thread_id c fl ul _ (inv_shape _ _ _ Hinv))
      as (h' & Hrun & Hlen & Hh').
    split_and!.
    + eexists. split; [exact Hrun|]. by split_and!.
    + intros p q sp sq Hp Hq Hsp Hsq Hidp Hidq.
      destruct (inv_use_meta _ _ _ Hinv p Hp) as (tp & fp & Htp & Hmp & Hnp).
      destruct (inv_use_meta _ _ _ Hinv q Hq) as (tq & fq & Htq & Hmq & Hnq).
      rewrite Hsp in Hmp. rewrite Hsq in Hmq. simpl in Hmp, Hmq.
      injection Hmp as Hmp _ _. injection Hmq as Hmq _ _.
      assert (tp = tq) as ->; [|congruence].
      apply (inv_ids_inj _ _ _ Hinv); [congruence|done].
    + intros Hno. rewrite Hrun. do 2 f_equal.
      assert (h' = thread_states c) as ->; [|by destruct c].
      apply list_eq. intros q. rewrite Hh'. case_decide as Hq; [|done].
      destruct (thread_states c !! q) as [sq|] eqn:Hsq; [|done]. simpl.
      unfold mark_terminate. rewrite bool_decide_false; [done|].
      intros ->. by eapply Hno.
  - intros self p st Htls Hin Hp.
    destruct (RestoreThread_in_use_run c self fl ul p st Hinv Htls Hin Hp Hfill)
      as (c2 & evs & Hrun & Htr & Hevs & Hpp & Hfree & Hq).
    exists c2, evs. split_and!; try done.
    + destruct (thread_states c2 !! p) as [x|]; [|done]. simpl in *.
      by injection Hpp as _ -> _.
    + destruct (thread_states c2 !! p) as [x|]; [|done]. simpl in *.
      by injection Hpp as -> _ _.
Qed.

End Terminate.

Lemma terminate_on_restore_one_shot_witness :
  let c : @V8Context (sample_build true) :=
    sample_after true [CallLocker 1%nat; CallUnlocker 1%nat; CallLocker 2%nat;
                       CallTerminateExecution 1] in
  ThreadManager_TerminateExecution 7 c = Ok (tt, c) ∧
  ∃ c2 evs,
    ThreadManager_RestoreThread 1%nat c = Ok (true, c2) ∧
    trace c2 = trace c ++ evs ++ [EvStackGuard TerminateExecution] ∧
    EvStackGuard TerminateExecution ∉ evs ∧
    terminate_on_restore_ <$> thread_states c2 !! 2%nat = Some false.
Proof.
  intros c.
  destruct (terminate_on_restore_one_shot c eq_refl) as [Hterm Hrest].
  - apply (after_reachable [CallLocker 1%nat; CallUnlocker 1%nat; CallLocker 2%nat;
                            CallTerminateExecution 1]).
    vm_compute. reflexivity.
  - intros s _ _. apply sample_contract.
  - split.
    + apply (Hterm 7). intros q sq Hq Hsq.
      assert (q = 2%nat) as ->.
      { vm_compute in Hq. apply list_elem_of_singleton in Hq. exact Hq. }
      vm_compute in Hsq. injection Hsq as <-. vm_compute. discriminate.
    + destruct (Hrest 1%nat 2%nat
                  (mkThreadState 1 true (data_ (default (mkThreadState 0 false [] 0 0)
                     (thread_states c !! 2%nat))) 1 1))
        as (c2 & evs & H1 & H2 & H3 & H4 & _).
      * vm_compute. reflexivity.
      * vm_compute. repeat constructor.
      * vm_compute. reflexivity.
      * exists c2, evs. split_and!; assumption.
Defined.

(** ** The lock record is left alone by everything but Lock and Unlock *)
Section Lock_frame.
Context `{B : Build}.
Implicit Types (c : V8Context) (s : Subsystem).

Lemma same_lock_refl c : same_lock c c.
Proof. done. Qed.

Lemma same_lock_trans c1 c2 c3 :
  same_lock c1 c2 → same_lock c2 c3 → same_lock c1 c3.
Proof. unfold same_lock. intros [-> ->] [-> ->]. done. Qed.

Lemma store_same_lock p upd c r c' :
  store p upd c = Ok (r, c') → same_lock c c'.
Proof. intros Hrun. apply store_Ok in Hrun as (s & Hs & ->). done. Qed.

Lemma new_ThreadState_same_lock c r c' :
  new_ThreadState c = Ok (r, c') → same_lock c c'.
Proof. unfold new_ThreadState. intros Hrun. by simplify_eq. Qed.

Lemma memcpy_to_same_lock c to bytes r c' :
  memcpy_to to bytes c = Ok (r, c') → same_lock c c'.
Proof.
  unfold memcpy_to. intros Hrun. run_inv Hrun.
  case_decide; [|by unfold fatal in Hrun]. by apply store_same_lock in Hrun.
Qed.

End Lock_frame.

Ltac to_lock :=
  repeat match goal with
  | H : store _ _ _ = Ok _ |- _ => apply store_same_lock in H
  | H : new_ThreadState _ = Ok _ |- _ => apply new_ThreadState_same_lock in H
  | H : memcpy_to _ _ _ = Ok _ |- _ => apply memcpy_to_same_lock in H
  | H : memcpy_from _ _ _ = Ok _ |- _ => apply memcpy_from_same in H; subst
  end.

Ltac solve_lock :=
  to_lock; unfold same_lock in *; simpl in *; intuition congruence.

Section Lock_frame_operations.
Context `{B : Build}.
Implicit Types (c : V8Context) (s : Subsystem).

Lemma Unlink_same_lock p c r c' :
  ThreadState_Unlink p c = Ok (r, c') → same_lock c c'.
Proof. unfold ThreadState_Unlink. intros Hrun. run_inv Hrun. solve_lock. Qed.

Lemma LinkInto_same_lock p list c r c' :
  ThreadState_LinkInto p list c = Ok (r, c') → same_lock c c'.
Proof. unfold ThreadState_LinkInto. intros Hrun. run_inv Hrun. solve_lock. Qed.

Lemma GetFree_same_lock c r c' :
  ThreadState_GetFree c = Ok (r, c') → same_lock c c'.
Proof.
  unfold ThreadState_GetFree, ThreadState_AllocateSpace. intros Hrun.
  run_inv Hrun. case_bool_decide; run_inv Hrun; solve_lock.
Qed.

Lemma ThreadState_Next_same p c r c' :
  ThreadState_Next p c = Ok (r, c') → c' = c.
Proof.
  unfold ThreadState_Next. intros Hrun. run_inv Hrun.
  case_bool_decide; by run_inv Hrun.
Qed.

Lemma Archive_at_same_lock s to c r c' :
  Archive_at s to c = Ok (r, c') → same_lock c c'.
Proof.
  intros Hrun.
  assert (Hext : ∀ s', ext_Archive s' to c = Ok (r, c') → same_lock c c').
  { intros s' H. unfold ext_Archive in H. run_inv H.
    destruct (Archive _ _) as [bytes rest]. run_inv H. solve_lock. }
  destruct s; try (by eapply Hext).
  simpl in Hrun. unfold RegExpStack_ArchiveStack in Hrun. run_inv Hrun. solve_lock.
Qed.

Lemma Restore_at_same_lock s from c r c' :
  Restore_at s from c = Ok (r, c') → same_lock c c'.
Proof.
  intros Hrun.
  assert (Hext : ∀ s', ext_Restore s' from c = Ok (r, c') → same_lock c c').
  { intros s' H. unfold ext_Restore in H. run_inv H. solve_lock. }
  destruct s; try (by eapply Hext).
  simpl in Hrun. unfold RegExpStack_RestoreStack in Hrun. run_inv Hrun. solve_lock.
Qed.

Lemma Archive_all_same_lock {A} order : ∀ to (k : Cursor → M A) c r c',
  Archive_all order to k c = Ok (r, c') →
  ∃ to' c1, same_lock c c1 ∧ k to' c1 = Ok (r, c').
Proof.
  induction order as [|s order IH]; intros to k c r c' Hrun.
  - by exists to, c.
  - cbn [Archive_all] in Hrun. apply bind_Ok in Hrun as (to1 & c1 & H1 & Hrun).
    apply Archive_at_same_lock in H1.
    destruct (IH _ _ _ _ _ Hrun) as (to' & c2 & H2 & Hk).
    exists to', c2. split; [by eapply same_lock_trans|done].
Qed.

Lemma Restore_all_same_lock {A} order : ∀ from (k : Cursor → M A) c r c',
  Restore_all order from k c = Ok (r, c') →
  ∃ from' c1, same_lock c c1 ∧ k from' c1 = Ok (r, c').
Proof.
  induction order as [|s order IH]; intros from k c r c' Hrun.
  - by exists from, c.
  - cbn [Restore_all] in Hrun. apply bind_Ok in Hrun as (f1 & c1 & H1 & Hrun).
    apply Restore_at_same_lock in H1.
    destruct (IH _ _ _ _ _ Hrun) as (from' & c2 & H2 & Hk).
    exists from', c2. split; [by eapply same_lock_trans|done].
Qed.

Lemma StackGuard_call_same_lock k c r c' :
  StackGuard_call k c = Ok (r, c') → same_lock c c'.
Proof. unfold StackGuard_call. intros Hrun. by run_inv Hrun. Qed.

Lemma V8_Initialize_same_lock c r c' :
  V8_Initialize c = Ok (r, c') → same_lock c c'.
Proof. unfold V8_Initialize. intros Hrun. by run_inv Hrun. Qed.

Lemma AssignId_same_lock self c r c' :
  ThreadManager_AssignId self c = Ok (r, c') → same_lock c c'.
Proof.
  intros Hrun. apply AssignId_frame in Hrun as (_ & _ & _ & Ho & Hm & _).
  by split.
Qed.

Lemma ArchiveThread_same_lock self c r c' :
  ThreadManager_ArchiveThread self c = Ok (r, c') → same_lock c c'.
Proof.
  unfold ThreadManager_ArchiveThread. intros Hrun. run_inv Hrun.
  repeat match goal with
  | H : ThreadState_GetFree _ = Ok _ |- _ => apply GetFree_same_lock in H
  | H : ThreadState_Unlink _ _ = Ok _ |- _ => apply Unlink_same_lock in H
  end.
  solve_lock.
Qed.

Lemma EagerlyArchiveThread_same_lock self c r c' :
  ThreadManager_EagerlyArchiveThread self c = Ok (r, c') → same_lock c c'.
Proof.
  rewrite EagerlyArchiveThread_sequence. intros Hrun.
  apply bind_Ok in Hrun as (st & c1 & H1 & Hrun). run_inv H1.
  apply bind_Ok in Hrun as (p & c2 & H2 & Hrun). run_inv H2.
  apply bind_Ok in Hrun as (u & c3 & H3 & Hrun).
  apply LinkInto_same_lock in H3.
  apply Archive_all_same_lock in Hrun as (to' & c4 & H4 & Hrun).
  run_inv Hrun. solve_lock.
Qed.


Lemma RestoreThread_reset_same_lock p (terminate : bool) c r c' :
  (if terminate
   then (StackGuard_call TerminateExecution;;
         store p (set_terminate_on_restore false))
   else mret tt) c = Ok (r, c') →
  same_lock c c'.
Proof.
  intros Hrun. destruct terminate; run_inv Hrun; [|done].
  match goal with H : StackGuard_call _ _ = Ok _ |- _ =>
    apply StackGuard_call_same_lock in H end.
  solve_lock.
Qed.

Lemma RestoreThread_same_lock self c r c' :
  ThreadManager_RestoreThread self c = Ok (r, c') → same_lock c c'.
Proof.
  rewrite RestoreThread_sequence. intros Hrun.
  apply bind_Ok in Hrun as (lazy & c1 & H1 & Hrun). run_inv H1.
  destruct (IsSelf self _).
  - run_inv Hrun.
    match goal with H : ThreadState_LinkInto _ _ _ = Ok _ |- _ =>
      apply LinkInto_same_lock in H end.
    solve_lock.
  - apply bind_Ok in Hrun as (lazy' & c2 & H2 & Hrun). run_inv H2.
    apply bind_Ok in Hrun as (u & c3 & H3 & Hrun).
    assert (same_lock c3 c').
    { apply bind_Ok in Hrun as (st & c4 & H4 & Hrun). run_inv H4.
      destruct (_ !! self) as [p|].
      - apply Restore_all_same_lock in Hrun as (from' & c5 & H5 & Hrun).
        eapply same_lock_trans; [exact H5|].
        run_inv Hrun.
        repeat match goal with
        | H : ThreadState_LinkInto _ _ _ = Ok _ |- _ => apply LinkInto_same_lock in H
        | H : ThreadState_Unlink _ _ = Ok _ |- _ => apply Unlink_same_lock in H
        | H : (if _ then _ else _) _ = Ok _ |- _ =>
            apply RestoreThread_reset_same_lock in H
        end.
        solve_lock.
      - run_inv Hrun.
        match goal with H : StackGuard_call _ _ = Ok _ |- _ =>
          by apply StackGuard_call_same_lock in H end. }
    eapply same_lock_trans; [|done].
    destruct (IsValid _); [|by run_inv H3].
    by eapply EagerlyArchiveThread_same_lock.
Qed.

Lemma FreeThreadResources_same_lock c r c' :
  ThreadManager_FreeThreadResources c = Ok (r, c') → same_lock c c'.
Proof.
  unfold ThreadManager_FreeThreadResources, ext_FreeThreadResources,
    RegExpStack_FreeThreadResources, ThreadLocal_Free.
  intros Hrun. destruct ENABLE_DEBUGGER_SUPPORT; run_inv Hrun;
    repeat match goal with
    | H : (if _ then _ else _) _ = Ok _ |- _ => case_bool_decide; run_inv H
    end; done.
Qed.

Lemma TerminateExecution_from_same_lock thread_id fuel : ∀ st c r c',
  TerminateExecution_from fuel thread_id st c = Ok (r, c') → same_lock c c'.
Proof.
  induction fuel as [|fuel IH]; intros [p|] c r c' Hrun; simpl in Hrun;
    try (by run_inv Hrun); try done.
  run_inv Hrun.
  match goal with H : ThreadState_Next _ _ = Ok _ |- _ =>
    apply ThreadState_Next_same in H; subst end.
  apply IH in Hrun. eapply same_lock_trans; [|exact Hrun].
  case_bool_decide; run_inv Hrun0; solve_lock.
Qed.

Lemma TerminateExecution_same_lock thread_id c r c' :
  ThreadManager_TerminateExecution thread_id c = Ok (r, c') → same_lock c c'.
Proof.
  unfold ThreadManager_TerminateExecution, ThreadState_FirstInUse.
  intros Hrun. run_inv Hrun.
  match goal with H : ThreadState_Next _ _ = Ok _ |- _ =>
    apply ThreadState_Next_same in H; subst end.
  by eapply TerminateExecution_from_same_lock.
Qed.

End Lock_frame_operations.

(** ** The big lock under interleaving *)
Section Interleaving_lemmas.
Context `{B : Build}.
Implicit Types (c : V8Context) (pcs : Thread → LockPc) (w : LockWorld).

Lemma lock_step_inv w w' : lock_step w w' → lock_inv w → lock_inv w'.
Proof.
  intros Hstep [Hown Hin]. unfold lock_inv in *.
  destruct Hstep as [pcs c t c' Hpc Hrun|pcs c t Hpc|pcs c t Hpc
                    |pcs c t c' Hpc Hrun|pcs c c' [Hm Ho]]; simpl in *.
  - apply Mutex_Lock_Ok in Hrun as [Hnone ->]. simpl. split.
    + intros u Hu. destruct (Hown u Hu) as [Hmu _]. congruence.
    + intros t' Ht'. destruct (decide (t' = t)) as [->|Hne]; [done|].
      rewrite fn_lookup_insert_ne in Ht' by done.
      specialize (Hin t' Ht'). congruence.
  - split.
    + intros u Hu. injection Hu as <-. split; [by apply Hin|].
      by rewrite fn_lookup_insert.
    + intros t' Ht'. destruct (decide (t' = t)) as [->|Hne].
      * by rewrite fn_lookup_insert in Ht'.
      * rewrite fn_lookup_insert_ne in Ht' by done. by apply Hin.
  - split; [done|].
    intros t' Ht'. destruct (decide (t' = t)) as [->|Hne].
    + by rewrite fn_lookup_insert in Ht'.
    + rewrite fn_lookup_insert_ne in Ht' by done. by apply Hin.
  - apply Mutex_Unlock_Ok in Hrun as [Hsome ->]. simpl. split.
    + intros u Hu. destruct (Hown u Hu) as [Hmu Hpu].
      assert (u = t) as -> by congruence. congruence.
    + intros t' Ht'. destruct (decide (t' = t)) as [->|Hne].
      * by rewrite fn_lookup_insert in Ht'.
      * rewrite fn_lookup_insert_ne in Ht' by done.
        specialize (Hin t' Ht'). congruence.
  - rewrite Hm, Ho. by split.
Qed.

Lemma lock_reachable_inv w : lock_reachable w → lock_inv w.
Proof.
  unfold lock_reachable. intros Hr.
  apply rtc_nsteps in Hr as [n Hr]. revert w Hr.
  induction n as [|n IH]; intros w Hr.
  - inversion Hr; subst. by split.
  - apply nsteps_inv_r in Hr as (w1 & Hr & Hstep).
    eapply lock_step_inv; [exact Hstep|by apply IH].
Qed.


Lemma lock_run_refl pcs c : lock_run pcs c c.
Proof. by exists pcs. Qed.

Lemma lock_run_other pcs c c' : same_lock c c' → lock_run pcs c c'.
Proof. intros Hs. exists pcs. split; [done|]. by apply rtc_once, step_other. Qed.

Lemma lock_run_trans pcs c c1 c2 :
  lock_run pcs c c1 →
  (∀ pcs1, (∀ u, pcs1 u = pcs u) → lock_run pcs1 c1 c2) →
  lock_run pcs c c2.
Proof.
  intros (pcs1 & Heq1 & Hr1) Hnext.
  destruct (Hnext pcs1 Heq1) as (pcs2 & Heq2 & Hr2).
  exists pcs2. split; [|by etrans].
  intros u. by rewrite Heq2.
Qed.

Lemma Lock_lock_run pcs self c r c' :
  pcs self = Outside →
  ThreadManager_Lock self c = Ok (r, c') → lock_run pcs c c'.
Proof.
  intros Hpc Hrun. unfold ThreadManager_Lock in Hrun.
  apply bind_Ok in Hrun as ([] & c1 & H1 & Hrun). run_inv Hrun.
  exists (<[self := Outside]> (<[self := InLock]> pcs)). split.
  - intros u. destruct (decide (u = self)) as [->|Hne].
    + by rewrite fn_lookup_insert.
    + by rewrite !fn_lookup_insert_ne.
  - eapply rtc_l; [by apply step_Lock_mutex|].
    apply rtc_once. apply (step_Lock_owner (<[self := InLock]> pcs) c1 self).
    by rewrite fn_lookup_insert.
Qed.

Lemma Unlock_lock_run pcs self c r c' :
  pcs self = Outside →
  ThreadManager_Unlock self c = Ok (r, c') → lock_run pcs c c'.
Proof.
  intros Hpc Hrun. unfold ThreadManager_Unlock in Hrun.
  apply bind_Ok in Hrun as ([] & c1 & H1 & Hrun). run_inv H1. destruct r.
  exists (<[self := Outside]> (<[self := InUnlock]> pcs)). split.
  - intros u. destruct (decide (u = self)) as [->|Hne].
    + by rewrite fn_lookup_insert.
    + by rewrite !fn_lookup_insert_ne.
  - eapply rtc_l; [by apply (step_Unlock_owner pcs c self)|].
    apply rtc_once. apply step_Unlock_mutex; [|exact Hrun].
    by rewrite fn_lookup_insert.
Qed.

Lemma Locker_Locker_lock_run pcs self c this c' :
  pcs self = Outside →
  Locker_Locker self c = Ok (this, c') → lock_run pcs c c'.
Proof.
  intros Hpc Hrun. unfold Locker_Locker in Hrun.
  apply bind_Ok in Hrun as ([] & cA & H1 & Hrun). run_inv H1.
  apply bind_Ok in Hrun as (locked & cB & H2 & Hrun). run_inv H2.
  apply bind_Ok in Hrun as (this' & cC & H3 & Hrun).
  eapply (lock_run_trans _ _ (set_active true c)); [by apply lock_run_other|].
  intros pcs1 Heq1. eapply (lock_run_trans _ _ cC).
  - destruct (negb _); [|run_inv H3; apply lock_run_refl].
    apply bind_Ok in H3 as ([] & cD & H4 & H3).
    eapply lock_run_trans; [eapply Lock_lock_run; [|exact H4]; by rewrite Heq1|].
    intros pcs2 Heq2. apply lock_run_other.
    apply bind_Ok in H3 as (running & cE & H5 & H3).
    unfold V8_IsRunning in H5. run_inv H5.
    apply bind_Ok in H3 as ([] & cF & H6 & H3).
    assert (same_lock cD cF).
    { destruct (negb _); run_inv H6; [|done].
      by eapply V8_Initialize_same_lock. }
    apply bind_Ok in H3 as (restored & cG & H7 & H3).
    apply RestoreThread_same_lock in H7.
    destruct restored; run_inv H3;
      repeat match goal with
      | H : StackGuard_call _ _ = Ok _ |- _ => apply StackGuard_call_same_lock in H
      end; solve_lock.
  - intros pcs2 Heq2. apply lock_run_other. run_inv Hrun.
    match goal with H : ThreadManager_AssignId _ _ = Ok _ |- _ =>
      by apply AssignId_same_lock in H end.
Qed.

Lemma Locker_destroy_lock_run pcs self this c r c' :
  pcs self = Outside →
  Locker_destroy self this c = Ok (r, c') → lock_run pcs c c'.
Proof.
  intros Hpc Hrun. unfold Locker_destroy in Hrun. run_inv Hrun.
  destruct (has_lock_ this); [|run_inv Hrun; apply lock_run_refl].
  apply bind_Ok in Hrun as ([] & c1 & H1 & Hrun).
  eapply (lock_run_trans _ _ c1).
  - apply lock_run_other. destruct (top_level_ this).
    + by eapply FreeThreadResources_same_lock.
    + by eapply ArchiveThread_same_lock.
  - intros pcs1 Heq1. eapply Unlock_lock_run; [|exact Hrun]. by rewrite Heq1.
Qed.

Lemma Unlocker_Unlocker_lock_run pcs self c r c' :
  pcs self = Outside →
  Unlocker_Unlocker self c = Ok (r, c') → lock_run pcs c c'.
Proof.
  intros Hpc Hrun. unfold Unlocker_Unlocker in Hrun. run_inv Hrun.
  match goal with H : ThreadManager_ArchiveThread _ _ = Ok _ |- _ =>
    apply ArchiveThread_same_lock in H; rename H into Ha end.
  eapply lock_run_trans; [apply lock_run_other; exact Ha|].
  intros pcs1 Heq1. eapply Unlock_lock_run; [|exact Hrun]. by rewrite Heq1.
Qed.

Lemma Unlocker_destroy_lock_run pcs self c r c' :
  pcs self = Outside →
  Unlocker_destroy self c = Ok (r, c') → lock_run pcs c c'.
Proof.
  intros Hpc Hrun. unfold Unlocker_destroy in Hrun. run_inv Hrun.
  match goal with H : ThreadManager_Lock _ _ = Ok _ |- _ => rename H into Hl end.
  match goal with H : ThreadManager_RestoreThread _ _ = Ok _ |- _ =>
    apply RestoreThread_same_lock in H; rename H into Hr end.
  eapply lock_run_trans; [by eapply Lock_lock_run|].
  intros pcs1 Heq1. by apply lock_run_other.
Qed.

Lemma call_lock_run k pcs c c' :
  (∀ self, caller k = Some self → pcs self = Outside) →
  call k c = Ok (tt, c') → lock_run pcs c c'.
Proof.
  intros Hpc Hrun. destruct k; simpl in *.
  - eapply Lock_lock_run; [by apply Hpc|done].
  - eapply Unlock_lock_run; [by apply Hpc|done].
  - apply lock_run_other. by eapply AssignId_same_lock.
  - apply lock_run_other. by eapply ArchiveThread_same_lock.
  - apply lock_run_other. by eapply EagerlyArchiveThread_same_lock.
  - apply lock_run_other. run_inv Hrun.
    match goal with H : ThreadManager_RestoreThread _ _ = Ok _ |- _ =>
      by apply RestoreThread_same_lock in H end.
  - apply lock_run_other. by eapply FreeThreadResources_same_lock.
  - apply lock_run_other. by eapply TerminateExecution_same_lock.
  - run_inv Hrun. eapply Locker_Locker_lock_run; [by apply Hpc|done].
  - eapply Locker_destroy_lock_run; [by apply Hpc|done].
  - eapply Unlocker_Unlocker_lock_run; [by apply Hpc|done].
  - eapply Unlocker_destroy_lock_run; [by apply Hpc|done].
Qed.


(** C1: in every world the interleaving of [Lock], [Unlock] and the rest of
    the guards reaches, a thread that reads [IsLockedByCurrentThread()] as
    true is the one thread inside the mutex, and it is outside [Lock] and
    [Unlock]; so at most one thread reads true.  [Lock] leaves the owner
    record naming its caller and [Unlock] leaves it invalid; [Lock] returns
    when nobody is inside the mutex and waits otherwise.  Every call of the
    thread manager and of the guards that returns, made by a thread outside
    [Lock] and [Unlock], is a run of the interleaving. *)
Theorem at_most_one_lock_holder pcs c :
  lock_reachable (pcs, c) →
  (∀ t, observes_locked t c = true →
        mutex_ (thread_manager_data_ c) = Some t ∧ pcs t = Outside) ∧
  (∀ t1 t2, observes_locked t1 c = true → observes_locked t2 c = true →
            t1 = t2) ∧
  (∀ t r c', ThreadManager_Lock t c = Ok (r, c') →
             ∀ u, observes_locked u c' = bool_decide (u = t)) ∧
  (∀ t r c', ThreadManager_Unlock t c = Ok (r, c') →
             ∀ u, observes_locked u c' = false) ∧
  (∀ t, ThreadManager_Lock t c =
        match mutex_ (thread_manager_data_ c) with
        | None => Ok (tt, with_tmd (set_mutex_owner (Identity t))
                            (with_tmd (set_mutex (Some t)) c))
        | Some _ => Blocked
        end) ∧
  (∀ k c', (∀ self, caller k = Some self → pcs self = Outside) →
           call k c = Ok (tt, c') →
           ∃ pcs', (∀ u, pcs' u = pcs u) ∧ lock_reachable (pcs', c')).
Proof.
  intros Hreach. destruct (lock_reachable_inv _ Hreach) as [Hown Hin].
  simpl in Hown, Hin. unfold observes_locked, IsSelf. split_and!.
  - intros t Ht. apply bool_decide_eq_true in Ht. by apply Hown.
  - intros t1 t2 H1 H2. apply bool_decide_eq_true in H1, H2. congruence.
  - intros t r c' Hrun u. unfold ThreadManager_Lock in Hrun. run_inv Hrun.
    simpl. apply bool_decide_ext. split; [by intros [= ->]|by intros ->].
  - intros t r c' Hrun u. unfold ThreadManager_Unlock in Hrun.
    apply bind_Ok in Hrun as ([] & c1 & H1 & Hrun). run_inv H1.
    apply Mutex_Unlock_Ok in Hrun as [_ ->]. done.
  - intros t. destruct (mutex_ (thread_manager_data_ c)) as [u|] eqn:Hm.
    + by eapply Lock_blocked.
    + by apply Lock_run.
  - intros k c' Hpc Hrun.
    destruct (call_lock_run k pcs c c' Hpc Hrun) as (pcs' & Heq & Hsteps).
    exists pcs'. split; [done|]. unfold lock_reachable. by etrans.
Qed.

End Interleaving_lemmas.

Lemma at_most_one_lock_holder_witness :
  let c : @V8Context (sample_build true) :=
    with_tmd (set_mutex_owner (Identity 1%nat))
      (with_tmd (set_mutex (Some 1%nat)) new_V8Context) in
  observes_locked 1%nat c = true ∧
  (∀ t, observes_locked t c = true → t = 1%nat) ∧
  ThreadManager_Lock 2%nat c = Blocked.
Proof.
  intros c.
  destruct (at_most_one_lock_holder
              (<[1%nat := Outside]> (<[1%nat := InLock]> (λ _, Outside))) c)
    as (_ & Hone & _ & _ & Hlock & _).
  - eapply rtc_l.
    + apply (step_Lock_mutex (λ _, Outside) new_V8Context 1%nat); reflexivity.
    + apply rtc_once.
      apply (step_Lock_owner (<[1%nat := InLock]> (λ _, Outside))
               (with_tmd (set_mutex (Some 1%nat)) new_V8Context) 1%nat).
      reflexivity.
  - split; [reflexivity|]. split.
    + intros t Ht. apply (Hone t 1%nat Ht). reflexivity.
    + apply (Hlock 2%nat).
Defined.

(** ** The ContextSwitcher *)

Lemma lookup_snoc_inv {A} (l : list A) (x y : A) i :
  (l ++ [x]) !! i = Some y → l !! i = Some y ∨ (i = length l ∧ y = x).
Proof.
  intros H. apply lookup_app_Some in H as [H|[Hle H]]; [by left|right].
  destruct (i - length l)%nat as [|n] eqn:Hn; simpl in H; [|done].
  split; [lia|congruence].
Qed.

Lemma switch_step_inv s s' : switch_step s s' → switch_inv s → switch_inv s'.
Proof.
  intros Hstep (Hsing & Hmade & Hstopped & Hjoin & Horder).
  destruct Hstep as [s ms Hj|s Hj|s w x Hj Hw|s w x Hw].
  - unfold ContextSwitcher_StartPreemption.
    destruct (singleton_ s) as [w|] eqn:Hs0; split_and!; simpl; try done.
    + intros w'. rewrite lookup_alter_is_Some. apply Hsing.
    + intros w'. by rewrite Hj.
    + intros w'. destruct (decide (w' = made s)) as [->|Hne].
      * rewrite lookup_insert_eq. split; [done|by eexists].
      * rewrite lookup_insert_ne by done. rewrite Hsing.
        split; [done|congruence].
    + intros w' [= <-]. lia.
    + intros w' Hin. destruct (Hstopped w' Hin) as [Hlt _].
      split; [lia|]. intros [= Heq]. lia.
    + intros w'. by rewrite Hj.
  - unfold ContextSwitcher_StopPreemption_enter.
    destruct (singleton_ s) as [w|] eqn:Hs0; split_and!; simpl; try done.
    + intros w'. rewrite lookup_alter_is_Some. apply Hsing.
    + intros w' [= <-]. split; [done|].
      intros x. rewrite lookup_alter_eq.
      destruct (switchers s !! w); simpl; [|done]. by intros [= <-].
    + intros w' [Hin|Hin]%elem_of_app; [by apply Hstopped|].
      by apply list_elem_of_singleton in Hin.
    + intros w' i j Hi Hk.
      apply lookup_snoc_inv in Hi as [Hi|[_ Hi]]; [|done].
      apply lookup_snoc_inv in Hk as [Hk|[_ Hk]]; [|done].
      by eapply Horder.
  - unfold ContextSwitcher_StopPreemption_leave.
    destruct (Hjoin w Hj) as [Hs0 Hkeep].
    split_and!; simpl.
    + intros w'. split; [|done]. intros Hsome.
      destruct (decide (w' = w)) as [->|Hne].
      * rewrite lookup_delete_eq in Hsome. by destruct Hsome.
      * rewrite lookup_delete_ne in Hsome by done.
        apply Hsing in Hsome. congruence.
    + done.
    + intros w' [Hin|Hin]%elem_of_app.
      * split; [by apply Hstopped|done].
      * apply list_elem_of_singleton in Hin. injection Hin as ->.
        split; [by apply Hmade|done].
    + done.
    + intros w' i j Hi Hk.
      apply lookup_snoc_inv in Hk as [Hk|[_ Hk]]; [|done].
      apply lookup_snoc_inv in Hi as [Hi|[-> _]].
      * by eapply Horder.
      * by eapply lookup_lt_Some.
  - unfold ContextSwitcher_Run_step.
    assert (Hsw : singleton_ s = Some w) by (apply Hsing; by eexists).
    assert (Hins : ∀ y w', is_Some (<[w := y]> (switchers s) !! w') ↔
                           singleton_ s = Some w').
    { intros y w'. destruct (decide (w' = w)) as [->|Hne].
      - rewrite lookup_insert_eq. split; [done|by eexists].
      - rewrite lookup_insert_ne by done. apply Hsing. }
    assert (Hkeep : ∀ pc w', joining s = Some w' →
              singleton_ s = Some w' ∧
              ∀ y, <[w := (x.1, pc)]> (switchers s) !! w' = Some y →
                   keep_going_ y.1 = false).
    { intros pc w' Hj. destruct (Hjoin w' Hj) as [Hs' Hk]. split; [done|].
      intros y. destruct (decide (w' = w)) as [->|Hne].
      - rewrite lookup_insert_eq. intros [= <-]. simpl. by apply Hk.
      - rewrite lookup_insert_ne by done. apply Hk. }
    destruct (x.2); split_and!; simpl; try done; try apply Hins; try apply Hkeep.
    + intros w' Hin. apply Hstopped.
      apply elem_of_app in Hin as [Hin|Hin]; [done|].
      by apply list_elem_of_singleton in Hin.
    + intros w' i j Hi Hk.
      apply lookup_snoc_inv in Hi as [Hi|[_ Hi]]; [|done].
      apply lookup_snoc_inv in Hk as [Hk|[_ Hk]]; [by eapply Horder|].
      injection Hk as ->.
      destruct (Hstopped w) as [_ Hne]; [|done].
      by eapply list_elem_of_lookup_2.
Qed.

Lemma switch_reachable_inv s : switch_reachable s → switch_inv s.
Proof.
  unfold switch_reachable. intros Hr.
  apply rtc_nsteps in Hr as [n Hr]. revert s Hr.
  induction n as [|n IH]; intros s Hr.
  - inversion Hr; subst. split_and!; simpl; try done.
    + intros w. rewrite lookup_empty. split; [by intros []|done].
    + intros w Hin. by apply elem_of_nil in Hin.
  - apply nsteps_inv_r in Hr as (s1 & Hr & Hstep).
    eapply switch_step_inv; [exact Hstep|by apply IH].
Qed.

Lemma StopPreemption_returns s w :
  switch_inv s → joining s = Some w →
  ∃ x pc s',
    switchers s !! w = Some (x, pc) ∧ keep_going_ x = false ∧
    rtc switch_step s s' ∧
    singleton_ s' = None ∧ joining s' = None ∧
    List.last (switch_trace s') (EvStopReturns None) = EvStopReturns (Some w).
Proof.
  intros (Hsing & _ & _ & Hjoin & _) Hj.
  destruct (Hjoin w Hj) as [Hs Hkeep].
  destruct (proj2 (Hsing w) Hs) as [[x pc] Hw].
  specialize (Hkeep _ Hw). simpl in Hkeep.
  exists x, pc.
  assert (Hleave : ∀ s1, joining s1 = Some w →
            switchers s1 !! w = Some (x, Returned) →
            ∃ s', rtc switch_step s1 s' ∧ singleton_ s' = None ∧
                  joining s' = None ∧
                  List.last (switch_trace s') (EvStopReturns None) =
                    EvStopReturns (Some w)).
  { intros s1 Hj1 Hw1. eexists. split; [by eapply rtc_once, step_Stop_leave|].
    simpl. split; [done|]. split; [done|]. by rewrite last_last. }
  assert (Htest : ∀ s1, joining s1 = Some w →
            switchers s1 !! w = Some (x, AtLoopTest) →
            ∃ s', rtc switch_step s1 s' ∧ singleton_ s' = None ∧
                  joining s' = None ∧
                  List.last (switch_trace s') (EvStopReturns None) =
                    EvStopReturns (Some w)).
  { intros s1 Hj1 Hw1.
    destruct (Hleave (ContextSwitcher_Run_step w (x, AtLoopTest) s1))
      as (s' & Hr & Hrest); [done| |].
    - simpl. by rewrite lookup_insert_eq, Hkeep.
    - exists s'. split; [|done].
      eapply rtc_l; [by apply (step_Run s1 w (x, AtLoopTest))|done]. }
  destruct pc.
  - destruct (Htest s Hj Hw) as (s' & Hrest). by exists s'.
  - destruct (Htest (ContextSwitcher_Run_step w (x, AfterSleep) s))
      as (s' & Hr & Hrest); [done| |].
    + simpl. by rewrite lookup_insert_eq.
    + exists s'. split; [done|]. split; [done|]. split; [|done].
      eapply rtc_l; [by apply (step_Run s w (x, AfterSleep))|done].
  - destruct (Hleave s Hj Hw) as (s' & Hrest). by exists s'.
Qed.

(** C9: whatever the calls of [StartPreemption] and [StopPreemption] and
    the moves of the workers, every [StackGuard::Preempt()] of a worker
    comes before the return of the [StopPreemption] that stopped it; there
    is at most one switcher at a time, and none whose [StopPreemption] has
    returned; and while the lock holder waits in [Join], the worker has been
    told to stop, and its own moves bring it to the end of [Run], so that
    [StopPreemption] returns. *)
Theorem no_preemption_after_stop s :
  switch_reachable s →
  (∀ w i j, switch_trace s !! i = Some (EvStopReturns (Some w)) →
            switch_trace s !! j = Some (EvPreempt w) → (j < i)%nat) ∧
  (∀ w1 w2, is_Some (switchers s !! w1) → is_Some (switchers s !! w2) →
            w1 = w2) ∧
  (∀ w, EvStopReturns (Some w) ∈ switch_trace s → switchers s !! w = None) ∧
  (∀ w, joining s = Some w →
        ∃ x pc s',
          switchers s !! w = Some (x, pc) ∧ keep_going_ x = false ∧
          rtc switch_step s s' ∧
          singleton_ s' = None ∧ joining s' = None ∧
          List.last (switch_trace s') (EvStopReturns None) =
            EvStopReturns (Some w)).
Proof.
  intros Hreach. pose proof (switch_reachable_inv s Hreach) as Hinv.
  pose proof Hinv as (Hsing & Hmade & Hstopped & Hjoin & Horder).
  split_and!.
  - exact Horder.
  - intros w1 w2 H1%Hsing H2%Hsing. congruence.
  - intros w Hin. destruct (Hstopped w Hin) as [_ Hne].
    apply eq_None_not_Some. by intros Hs%Hsing.
  - intros w Hj. by apply StopPreemption_returns.
Qed.

Lemma no_preemption_after_stop_witness :
  let cs := ContextSwitcher_ContextSwitcher 10 in
  let s1 := ContextSwitcher_StartPreemption 10 new_Preemption in
  let s2 := ContextSwitcher_Run_step 0 (cs, AtLoopTest) s1 in
  let s3 := ContextSwitcher_Run_step 0 (cs, AfterSleep) s2 in
  let s4 := ContextSwitcher_StopPreemption_enter s3 in
  let s5 := ContextSwitcher_Run_step 0 (mkContextSwitcher false 10, AtLoopTest) s4 in
  let s6 := ContextSwitcher_StopPreemption_leave 0 s5 in
  switch_trace s6 = [EvPreempt 0; EvStopReturns (Some 0%nat)] ∧
  ∀ j, switch_trace s6 !! j = Some (EvPreempt 0) → (j < 1)%nat.
Proof.
  intros cs s1 s2 s3 s4 s5 s6. split; [reflexivity|].
  intros j. apply (proj1 (no_preemption_after_stop s6
    ltac:(
      eapply rtc_l; [apply (step_Start new_Preemption 10); reflexivity|];
      eapply rtc_l; [apply (step_Run s1 0%nat (cs, AtLoopTest)); reflexivity|];
      eapply rtc_l; [apply (step_Run s2 0%nat (cs, AfterSleep)); reflexivity|];
      eapply rtc_l; [apply (step_Stop_enter s3); reflexivity|];
      eapply rtc_l; [apply (step_Run s4 0%nat
                              (mkContextSwitcher false 10, AtLoopTest));
                     reflexivity|];
      eapply rtc_l; [apply (step_Stop_leave s5 0%nat (mkContextSwitcher false 10));
                     reflexivity|];
      apply rtc_refl)) 0%nat 1%nat j).
  reflexivity.
Defined.

(** ** The lock, the ids and the flags are left alone by archiving *)
Section Control_frame.
Context `{B : Build}.
Implicit Types (c : V8Context) (s : Subsystem).

Lemma store_same_control p upd c r c' :
  store p upd c = Ok (r, c') → control_view c' = control_view c.
Proof. intros Hrun. apply store_Ok in Hrun as (s & Hs & ->). done. Qed.

Lemma new_ThreadState_same_control c r c' :
  new_ThreadState c = Ok (r, c') → control_view c' = control_view c.
Proof. unfold new_ThreadState. intros Hrun. by simplify_eq. Qed.

Lemma memcpy_to_same_control c to bytes r c' :
  memcpy_to to bytes c = Ok (r, c') → control_view c' = control_view c.
Proof.
  unfold memcpy_to. intros Hrun. run_inv Hrun.
  case_decide; [|by unfold fatal in Hrun]. by apply store_same_control in Hrun.
Qed.

End Control_frame.

Ltac to_control :=
  repeat match goal with
  | H : store _ _ _ = Ok _ |- _ => apply store_same_control in H
  | H : new_ThreadState _ = Ok _ |- _ => apply new_ThreadState_same_control in H
  | H : memcpy_to _ _ _ = Ok _ |- _ => apply memcpy_to_same_control in H
  | H : memcpy_from _ _ _ = Ok _ |- _ => apply memcpy_from_same in H; subst
  end.

Ltac solve_control :=
  to_control; unfold control_view in *; simpl in *; congruence.

Section Control_frame_operations.
Context `{B : Build}.
Implicit Types (c : V8Context) (s : Subsystem).

Lemma Unlink_same_control p c r c' :
  ThreadState_Unlink p c = Ok (r, c') → control_view c' = control_view c.
Proof. unfold ThreadState_Unlink. intros Hrun. run_inv Hrun. solve_control. Qed.

Lemma LinkInto_same_control p list c r c' :
  ThreadState_LinkInto p list c = Ok (r, c') → control_view c' = control_view c.
Proof. unfold ThreadState_LinkInto. intros Hrun. run_inv Hrun. solve_control. Qed.

Lemma GetFree_same_control c r c' :
  ThreadState_GetFree c = Ok (r, c') → control_view c' = control_view c.
Proof.
  unfold ThreadState_GetFree, ThreadState_AllocateSpace. intros Hrun.
  run_inv Hrun. case_bool_decide; run_inv Hrun; solve_control.
Qed.

Lemma Archive_at_same_control s to c r c' :
  Archive_at s to c = Ok (r, c') → control_view c' = control_view c.
Proof.
  intros Hrun.
  assert (Hext : ∀ s', ext_Archive s' to c = Ok (r, c') →
                       control_view c' = control_view c).
  { intros s' H. unfold ext_Archive in H. run_inv H.
    destruct (Archive _ _) as [bytes rest]. run_inv H. solve_control. }
  destruct s; try (by eapply Hext).
  simpl in Hrun. unfold RegExpStack_ArchiveStack in Hrun. run_inv Hrun.
  solve_control.
Qed.

Lemma Restore_at_same_control s from c r c' :
  Restore_at s from c = Ok (r, c') → control_view c' = control_view c.
Proof.
  intros Hrun.
  assert (Hext : ∀ s', ext_Restore s' from c = Ok (r, c') →
                       control_view c' = control_view c).
  { intros s' H. unfold ext_Restore in H. run_inv H. solve_control. }
  destruct s; try (by eapply Hext).
  simpl in Hrun. unfold RegExpStack_RestoreStack in Hrun. run_inv Hrun.
  solve_control.
Qed.

Lemma Archive_all_same_control {A} order : ∀ to (k : Cursor → M A) c r c',
  Archive_all order to k c = Ok (r, c') →
  ∃ to' c1, control_view c1 = control_view c ∧ k to' c1 = Ok (r, c').
Proof.
  induction order as [|s order IH]; intros to k c r c' Hrun.
  - by exists to, c.
  - cbn [Archive_all] in Hrun. apply bind_Ok in Hrun as (to1 & c1 & H1 & Hrun).
    apply Archive_at_same_control in H1.
    destruct (IH _ _ _ _ _ Hrun) as (to' & c2 & H2 & Hk).
    exists to', c2. split; [congruence|done].
Qed.

Lemma Restore_all_same_control {A} order : ∀ from (k : Cursor → M A) c r c',
  Restore_all order from k c = Ok (r, c') →
  ∃ from' c1, control_view c1 = control_view c ∧ k from' c1 = Ok (r, c').
Proof.
  induction order as [|s order IH]; intros from k c r c' Hrun.
  - by exists from, c.
  - cbn [Restore_all] in Hrun. apply bind_Ok in Hrun as (f1 & c1 & H1 & Hrun).
    apply Restore_at_same_control in H1.
    destruct (IH _ _ _ _ _ Hrun) as (from' & c2 & H2 & Hk).
    exists from', c2. split; [congruence|done].
Qed.

Lemma StackGuard_call_same_control k c r c' :
  StackGuard_call k c = Ok (r, c') → control_view c' = control_view c.
Proof. unfold StackGuard_call. intros Hrun. by run_inv Hrun. Qed.

Lemma ArchiveThread_same_control self c r c' :
  ThreadManager_ArchiveThread self c = Ok (r, c') →
  control_view c' = control_view c.
Proof.
  unfold ThreadManager_ArchiveThread. intros Hrun. run_inv Hrun.
  repeat match goal with
  | H : ThreadState_GetFree _ = Ok _ |- _ => apply GetFree_same_control in H
  | H : ThreadState_Unlink _ _ = Ok _ |- _ => apply Unlink_same_control in H
  end.
  solve_control.
Qed.

Lemma EagerlyArchiveThread_same_control self c r c' :
  ThreadManager_EagerlyArchiveThread self c = Ok (r, c') →
  control_view c' = control_view c.
Proof.
  rewrite EagerlyArchiveThread_sequence. intros Hrun.
  apply bind_Ok in Hrun as (st & c1 & H1 & Hrun). run_inv H1.
  apply bind_Ok in Hrun as (p & c2 & H2 & Hrun). run_inv H2.
  apply bind_Ok in Hrun as (u & c3 & H3 & Hrun).
  apply LinkInto_same_control in H3.
  apply Archive_all_same_control in Hrun as (to' & c4 & H4 & Hrun).
  run_inv Hrun. solve_control.
Qed.

Lemma RestoreThread_reset_same_control p (terminate : bool) c r c' :
  (if terminate
   then (StackGuard_call TerminateExecution;;
         store p (set_terminate_on_restore false))
   else mret tt) c = Ok (r, c') →
  control_view c' = control_view c.
Proof.
  intros Hrun. destruct terminate; run_inv Hrun; [|done].
  match goal with H : StackGuard_call _ _ = Ok _ |- _ =>
    apply StackGuard_call_same_control in H end.
  solve_control.
Qed.

Lemma RestoreThread_same_control self c r c' :
  ThreadManager_RestoreThread self c = Ok (r, c') →
  control_view c' = control_view c.
Proof.
  rewrite RestoreThread_sequence. intros Hrun.
  apply bind_Ok in Hrun as (lazy & c1 & H1 & Hrun). run_inv H1.
  destruct (IsSelf self _).
  - run_inv Hrun.
    match goal with H : ThreadState_LinkInto _ _ _ = Ok _ |- _ =>
      apply LinkInto_same_control in H end.
    solve_control.
  - apply bind_Ok in Hrun as (lazy' & c2 & H2 & Hrun). run_inv H2.
    apply bind_Ok in Hrun as (u & c3 & H3 & Hrun).
    assert (control_view c' = control_view c3).
    { apply bind_Ok in Hrun as (st & c4 & H4 & Hrun). run_inv H4.
      destruct (_ !! self) as [p|].
      - apply Restore_all_same_control in Hrun as (from' & c5 & H5 & Hrun).
        rewrite <- H5.
        run_inv Hrun.
        repeat match goal with
        | H : ThreadState_LinkInto _ _ _ = Ok _ |- _ =>
            apply LinkInto_same_control in H
        | H : ThreadState_Unlink _ _ = Ok _ |- _ => apply Unlink_same_control in H
        | H : (if _ then _ else _) _ = Ok _ |- _ =>
            apply RestoreThread_reset_same_control in H
        end.
        solve_control.
      - run_inv Hrun.
        match goal with H : StackGuard_call _ _ = Ok _ |- _ =>
          by apply StackGuard_call_same_control in H end. }
    etrans; [done|].
    destruct (IsValid _); [|by run_inv H3].
    by eapply EagerlyArchiveThread_same_control.
Qed.

Lemma FreeThreadResources_same_control c r c' :
  ThreadManager_FreeThreadResources c = Ok (r, c') →
  control_view c' = control_view c.
Proof.
  unfold ThreadManager_FreeThreadResources, ext_FreeThreadResources,
    RegExpStack_FreeThreadResources, ThreadLocal_Free.
  intros Hrun. destruct ENABLE_DEBUGGER_SUPPORT; run_inv Hrun;
    repeat match goal with
    | H : (if _ then _ else _) _ = Ok _ |- _ => case_bool_decide; run_inv H
    end; done.
Qed.

Lemma TerminateExecution_from_same_control thread_id fuel : ∀ st c r c',
  TerminateExecution_from fuel thread_id st c = Ok (r, c') →
  control_view c' = control_view c.
Proof.
  induction fuel as [|fuel IH]; intros [p|] c r c' Hrun; simpl in Hrun;
    try (by run_inv Hrun); try done.
  apply bind_Ok in Hrun as (id & c1 & H1 & Hrun). run_inv H1.
  apply bind_Ok in Hrun as (u & c2 & H2 & Hrun).
  apply bind_Ok in Hrun as (n & c3 & H3 & Hrun).
  apply ThreadState_Next_same in H3 as ->.
  apply IH in Hrun. rewrite Hrun.
  case_bool_decide; run_inv H2; solve_control.
Qed.

Lemma TerminateExecution_same_control thread_id c r c' :
  ThreadManager_TerminateExecution thread_id c = Ok (r, c') →
  control_view c' = control_view c.
Proof.
  unfold ThreadManager_TerminateExecution, ThreadState_FirstInUse.
  intros Hrun. run_inv Hrun.
  match goal with H : ThreadState_Next _ _ = Ok _ |- _ =>
    apply ThreadState_Next_same in H; subst end.
  by eapply TerminateExecution_from_same_control.
Qed.

(** None of [ArchiveThread], [EagerlyArchiveThread], [RestoreThread],
    [FreeThreadResources] and [TerminateExecution] touches the lock, the
    owner record, the id counter, the id of any thread, or the active and
    running flags. *)
Theorem archiving_leaves_control c c' :
  (∀ self, ThreadManager_ArchiveThread self c = Ok (tt, c') →
           control_view c' = control_view c) ∧
  (∀ self, ThreadManager_EagerlyArchiveThread self c = Ok (tt, c') →
           control_view c' = control_view c) ∧
  (∀ self r, ThreadManager_RestoreThread self c = Ok (r, c') →
             control_view c' = control_view c) ∧
  (ThreadManager_FreeThreadResources c = Ok (tt, c') →
   control_view c' = control_view c) ∧
  (∀ thread_id, ThreadManager_TerminateExecution thread_id c = Ok (tt, c') →
                control_view c' = control_view c).
Proof.
  split_and!; intros.
  - by eapply ArchiveThread_same_control.
  - by eapply EagerlyArchiveThread_same_control.
  - by eapply RestoreThread_same_control.
  - by eapply FreeThreadResources_same_control.
  - by eapply TerminateExecution_same_control.
Qed.

End Control_frame_operations.

Lemma archiving_leaves_control_witness :
  control_view sample_lazy =
  control_view (sample_after true [CallLock 1%nat; CallAssignId 1%nat]).
Proof.
  apply (proj1 (archiving_leaves_control
                  (sample_after true [CallLock 1%nat; CallAssignId 1%nat])
                  sample_lazy) 1%nat).
  vm_compute. reflexivity.
Defined.

(** ** What a reachable context looks like *)
Section Reachable_facts.
Context `{B : Build}.
Implicit Types (c : V8Context).

(** The ids of a debug build: no id is negative or above the counter, the
    counter stays below 2^31, and no two threads share an id. *)
Theorem thread_ids_unique c :
  DEBUG = true →
  reachable c →
  (∀ t, 0 ≤ id_of c t ≤ last_id_ (thread_manager_data_ c)) ∧
  last_id_ (thread_manager_data_ c) < 2 ^ 31 ∧
  (∀ t1 t2, id_of c t1 ≠ 0 → id_of c t1 = id_of c t2 → t1 = t2) ∧
  (∀ t, ThreadManager_HasId t c = Ok (bool_decide (id_of c t ≠ 0), c) ∧
        ThreadManager_CurrentId t c = Ok (id_of c t, c)).
Proof.
  intros Hdebug Hreach.
  destruct (reachable_Inv c Hdebug Hreach) as (fl & ul & Hinv).
  split_and!.
  - intros t. by apply (inv_ids _ _ _ Hinv t).
  - by apply (inv_ids _ _ _ Hinv 0%nat).
  - intros t1 t2 Hne Heq. by apply (inv_ids_inj _ _ _ Hinv).
  - done.
Qed.

(** What the ThreadStates of a debug build carry: a state of the free list
    has no id and no pending termination; a state of the in-use list
    carries the id of the one thread whose thread-local slot points to it;
    the lazy candidate carries the id of the candidate thread and no pending
    termination; and each of them has a buffer of [ArchiveSpacePerThread()]
    bytes. *)
Theorem thread_states_carry c :
  DEBUG = true →
  reachable c →
  (∀ p st, p ∈ free_list c → thread_states c !! p = Some st →
     id_ st = kInvalidId ∧ terminate_on_restore_ st = false ∧
     length (data_ st) = ArchiveSpacePerThread_) ∧
  (∀ p st, p ∈ in_use_list c → thread_states c !! p = Some st →
     length (data_ st) = ArchiveSpacePerThread_ ∧
     ∃ t, thread_state_key_ (thread_manager_data_ c) !! t = Some p ∧
          id_ st = id_of c t ∧ id_ st ≠ kInvalidId ∧
          ∀ t', thread_state_key_ (thread_manager_data_ c) !! t' = Some p →
                t' = t) ∧
  (∀ t p st,
     lazily_archived_thread_ (thread_manager_data_ c) = Identity t →
     lazily_archived_thread_state_ (thread_manager_data_ c) = Some p →
     thread_states c !! p = Some st →
     thread_state_key_ (thread_manager_data_ c) !! t = Some p ∧
     id_ st = id_of c t ∧ id_ st ≠ kInvalidId ∧
     terminate_on_restore_ st = false ∧
     length (data_ st) = ArchiveSpacePerThread_).
Proof.
  intros Hdebug Hreach.
  destruct (reachable_Inv c Hdebug Hreach) as (fl & ul & Hinv).
  destruct (Inv_lists _ _ _ Hinv) as [-> ->].
  split_and!.
  - intros p st Hin Hp. pose proof (inv_free_meta _ _ _ Hinv p Hin) as Hm.
    rewrite Hp in Hm. simpl in Hm. by injection Hm as -> -> ->.
  - intros p st Hin Hp.
    destruct (inv_use_meta _ _ _ Hinv p Hin) as (t & f & Ht & Hm & Hne).
    rewrite Hp in Hm. simpl in Hm. injection Hm as Hid Hf Hlen.
    split; [done|]. exists t. split_and!; try done.
    + by rewrite Hid.
    + intros t' Ht'. by eapply (inv_tls_inj _ _ _ Hinv).
  - intros t p st Hlz Hls Hp.
    destruct (inv_lazy_meta _ _ _ Hinv t p Hlz Hls) as [Hm Hne].
    rewrite Hp in Hm. simpl in Hm. injection Hm as Hid Hf Hlen.
    pose proof (inv_lazy _ _ _ Hinv) as Hl. unfold lazy_slot_ok in Hl.
    rewrite Hlz, Hls in Hl. split_and!; try done. by rewrite Hid.
Qed.

End Reachable_facts.

Lemma thread_ids_unique_witness :
  0 ≤ id_of sample_lazy 1%nat ≤ last_id_ (thread_manager_data_ sample_lazy) ∧
  ThreadManager_CurrentId 1%nat sample_lazy = Ok (1, sample_lazy).
Proof.
  destruct (thread_ids_unique sample_lazy eq_refl
              (after_reachable _ _ sample_lazy_after)) as (Hb & _ & _ & Hcur).
  split; [exact (Hb 1%nat)|]. exact (proj2 (Hcur 1%nat)).
Defined.

Lemma thread_states_carry_witness :
  ∃ st, thread_states sample_lazy !! 2%nat = Some st ∧
        id_ st = 1 ∧ terminate_on_restore_ st = false.
Proof.
  destruct (thread_states sample_lazy !! 2%nat) as [st|] eqn:Hst;
    [|vm_compute in Hst; discriminate].
  destruct (thread_states_carry sample_lazy eq_refl
              (after_reachable _ _ sample_lazy_after)) as (_ & _ & Hlazy).
  destruct (Hlazy 1%nat 2%nat st) as (_ & Hid & _ & Hf & _);
    [vm_compute; reflexivity|vm_compute; reflexivity|exact Hst|].
  exists st. split; [reflexivity|]. split; [|exact Hf].
  rewrite Hid. vm_compute. reflexivity.
Defined.

(** ** The big lock between calls *)
Section Atomic_lemmas.
Context `{B : Build}.
Implicit Types (c : V8Context).

Lemma atomic_archiving_run c c' :
  control_view c' = control_view c → rtc atomic_step c c'.
Proof. intros H. by apply rtc_once, atomic_archiving. Qed.

Lemma Locker_Locker_atomic self c this c' :
  Locker_Locker self c = Ok (this, c') → rtc atomic_step c c'.
Proof.
  intros Hrun. unfold Locker_Locker in Hrun.
  apply bind_Ok in Hrun as ([] & cA & H1 & Hrun). run_inv H1.
  apply bind_Ok in Hrun as (locked & cB & H2 & Hrun). run_inv H2.
  apply bind_Ok in Hrun as (this' & cC & H3 & Hrun).
  eapply rtc_l; [apply atomic_active|].
  etrans; [|run_inv Hrun;
            match goal with H : ThreadManager_AssignId _ _ = Ok _ |- _ =>
              by eapply rtc_once, atomic_AssignId end].
  destruct (negb _); [|by run_inv H3].
  apply bind_Ok in H3 as ([] & cD & H4 & H3).
  eapply rtc_l; [by eapply atomic_Lock|].
  apply bind_Ok in H3 as (running & cE & H5 & H3).
  unfold V8_IsRunning in H5. run_inv H5.
  apply bind_Ok in H3 as ([] & cF & H6 & H3).
  etrans; [destruct (negb _); [by eapply rtc_once, atomic_Initialize|by run_inv H6]|].
  apply bind_Ok in H3 as (restored & cG & H7 & H3).
  apply RestoreThread_same_control in H7.
  apply atomic_archiving_run.
  destruct restored; run_inv H3;
    repeat match goal with
    | H : StackGuard_call _ _ = Ok _ |- _ =>
        apply StackGuard_call_same_control in H
    end; solve_control.
Qed.

Lemma Locker_destroy_atomic self this c r c' :
  Locker_destroy self this c = Ok (r, c') → rtc atomic_step c c'.
Proof.
  intros Hrun. unfold Locker_destroy in Hrun. run_inv Hrun.
  destruct (has_lock_ this); [|by run_inv Hrun].
  apply bind_Ok in Hrun as ([] & c1 & H1 & Hrun).
  eapply rtc_l; [|by eapply rtc_once, atomic_Unlock].
  apply atomic_archiving. destruct (top_level_ this).
  - by eapply FreeThreadResources_same_control.
  - by eapply ArchiveThread_same_control.
Qed.

Lemma Unlocker_Unlocker_atomic self c r c' :
  Unlocker_Unlocker self c = Ok (r, c') → rtc atomic_step c c'.
Proof.
  intros Hrun. unfold Unlocker_Unlocker in Hrun.
  apply bind_Ok in Hrun as (locked & c1 & H1 & Hrun). run_inv H1.
  apply bind_Ok in Hrun as ([] & c2 & H2 & Hrun). run_inv H2.
  apply bind_Ok in Hrun as ([] & c3 & H3 & Hrun).
  eapply rtc_l; [|by eapply rtc_once, atomic_Unlock].
  apply atomic_archiving. by eapply ArchiveThread_same_control.
Qed.

Lemma Unlocker_destroy_atomic self c r c' :
  Unlocker_destroy self c = Ok (r, c') → rtc atomic_step c c'.
Proof.
  intros Hrun. unfold Unlocker_destroy in Hrun.
  apply bind_Ok in Hrun as (locked & c1 & H1 & Hrun). run_inv H1.
  apply bind_Ok in Hrun as ([] & c2 & H2 & Hrun). run_inv H2.
  apply bind_Ok in Hrun as ([] & c3 & H3 & Hrun).
  eapply rtc_l; [by eapply atomic_Lock|].
  apply atomic_archiving_run. run_inv Hrun.
  match goal with H : ThreadManager_RestoreThread _ _ = Ok _ |- _ =>
    by apply RestoreThread_same_control in H end.
Qed.

Lemma call_atomic k c c' : call k c = Ok (tt, c') → rtc atomic_step c c'.
Proof.
  intros Hrun. destruct k; simpl in *.
  - by eapply rtc_once, atomic_Lock.
  - by eapply rtc_once, atomic_Unlock.
  - by eapply rtc_once, atomic_AssignId.
  - apply atomic_archiving_run. by eapply ArchiveThread_same_control.
  - apply atomic_archiving_run. by eapply EagerlyArchiveThread_same_control.
  - apply atomic_archiving_run. run_inv Hrun.
    match goal with H : ThreadManager_RestoreThread _ _ = Ok _ |- _ =>
      by apply RestoreThread_same_control in H end.
  - apply atomic_archiving_run. by eapply FreeThreadResources_same_control.
  - apply atomic_archiving_run. by eapply TerminateExecution_same_control.
  - run_inv Hrun. by eapply Locker_Locker_atomic.
  - by eapply Locker_destroy_atomic.
  - by eapply Unlocker_Unlocker_atomic.
  - by eapply Unlocker_destroy_atomic.
Qed.

Lemma reachable_atomic c : reachable c → rtc atomic_step new_V8Context c.
Proof.
  unfold reachable. intros Hr.
  apply rtc_nsteps in Hr as [n Hr]. revert c Hr.
  induction n as [|n IH]; intros c Hr.
  - by inversion Hr; subst.
  - apply nsteps_inv_r in Hr as (c1 & Hr & k & Hstep).
    etrans; [by apply IH|]. by eapply call_atomic.
Qed.

Lemma rtc_returns_atomic c c' : rtc returns c c' → rtc atomic_step c c'.
Proof.
  induction 1 as [|x y z [k Hk] _ IH]; [done|].
  etrans; [by eapply call_atomic|done].
Qed.

Lemma control_view_same_lock c c' :
  control_view c' = control_view c → same_lock c c'.
Proof. unfold control_view, same_lock. intros [= -> -> _ _ _ _]. done. Qed.

Lemma atomic_step_consistent c c' :
  atomic_step c c' → lock_consistent c → lock_consistent c'.
Proof.
  unfold lock_consistent.
  intros [self c0 r c1 Hrun|self c0 r c1 Hrun|self c0 r c1 Hrun|c0
         |c0 r c1 Hrun|c0 c1 Hv] Hc.
  - unfold ThreadManager_Lock in Hrun.
    apply bind_Ok in Hrun as ([] & c2 & H1 & Hrun).
    apply Mutex_Lock_Ok in H1 as [_ ->]. by run_inv Hrun.
  - unfold ThreadManager_Unlock in Hrun.
    apply bind_Ok in Hrun as ([] & c2 & H1 & Hrun). run_inv H1.
    by apply Mutex_Unlock_Ok in Hrun as [_ ->].
  - apply AssignId_same_lock in Hrun as [Hm Ho]. by rewrite Hm, Ho.
  - done.
  - apply V8_Initialize_same_lock in Hrun as [Hm Ho]. by rewrite Hm, Ho.
  - apply control_view_same_lock in Hv as [Hm Ho]. by rewrite Hm, Ho.
Qed.

Lemma reachable_consistent c : reachable c → lock_consistent c.
Proof.
  intros Hr%reachable_atomic.
  apply rtc_nsteps in Hr as [n Hr]. revert c Hr.
  induction n as [|n IH]; intros c Hr.
  - by inversion Hr; subst.
  - apply nsteps_inv_r in Hr as (c1 & Hr & Hstep).
    eapply atomic_step_consistent; [exact Hstep|by apply IH].
Qed.


End Atomic_lemmas.


Section Permanent.
Context `{B : Build}.
Implicit Types (c : V8Context).

Lemma atomic_step_permanent c c' :
  atomic_step c c' →
  (∀ t, id_of c t ≠ 0 → id_of c' t = id_of c t) ∧
  (active_ c = true → active_ c' = true) ∧
  (is_running c = true → is_running c' = true).
Proof.
  intros [self c0 r c1 Hrun|self c0 r c1 Hrun|self c0 r c1 Hrun|c0
         |c0 r c1 Hrun|c0 c1 Hv].
  - unfold ThreadManager_Lock in Hrun.
    apply bind_Ok in Hrun as ([] & c2 & H1 & Hrun).
    apply Mutex_Lock_Ok in H1 as [_ ->]. by run_inv Hrun.
  - unfold ThreadManager_Unlock in Hrun.
    apply bind_Ok in Hrun as ([] & c2 & H1 & Hrun). run_inv H1.
    by apply Mutex_Unlock_Ok in Hrun as [_ ->].
  - unfold ThreadManager_AssignId in Hrun. run_inv Hrun.
    destruct (negb _) eqn:Hhas; run_inv Hrun; [|done].
    apply negb_true_iff, bool_decide_eq_false in Hhas.
    split; [|done]. intros t Ht. unfold id_of. simpl.
    destruct (decide (t = self)) as [->|Hne].
    + exfalso. by apply Hhas.
    + by rewrite lookup_insert_ne.
  - done.
  - unfold V8_Initialize in Hrun. by run_inv Hrun.
  - unfold control_view in Hv. injection Hv as _ _ _ Hk Ha Hr.
    unfold id_of. by rewrite Hk, Ha, Hr.
Qed.

Lemma rtc_atomic_permanent c c' :
  rtc atomic_step c c' →
  (∀ t, id_of c t ≠ 0 → id_of c' t = id_of c t) ∧
  (active_ c = true → active_ c' = true) ∧
  (is_running c = true → is_running c' = true).
Proof.
  induction 1 as [|x y z Hxy Hyz IH]; [done|].
  destruct (atomic_step_permanent _ _ Hxy) as (Hid & Ha & Hrn).
  destruct IH as (Hid' & Ha' & Hrn'). split_and!; [|auto|auto].
  intros t Ht. rewrite Hid' by (by rewrite Hid). by apply Hid.
Qed.

(** Nothing is taken back: whatever calls follow, a thread keeps the id it
    has been given, [Locker::IsActive()] stays true once a [Locker] has been
    constructed, and the runtime stays initialized. *)
Theorem ids_and_flags_are_permanent c c' :
  rtc returns c c' →
  (∀ t, id_of c t ≠ 0 → id_of c' t = id_of c t) ∧
  (active_ c = true → active_ c' = true) ∧
  (is_running c = true → is_running c' = true) ∧
  (∀ self this c1, Locker_Locker self c = Ok (this, c1) →
     Locker_IsActive c1 = Ok (true, c1)).
Proof.
  intros Hr%rtc_returns_atomic.
  destruct (rtc_atomic_permanent _ _ Hr) as (Hid & Ha & Hrn).
  split_and!; try done.
  intros self this c1 Hrun. unfold Locker_Locker in Hrun.
  apply bind_Ok in Hrun as ([] & cA & H1 & Hrun). run_inv H1.
  apply bind_Ok in Hrun as (locked & cB & H2 & Hrun). run_inv H2.
  apply bind_Ok in Hrun as (this' & cC & H3 & Hrun).
  assert (HaC : active_ cC = true).
  { destruct (negb _); [|by run_inv H3].
    assert (Hat : rtc atomic_step (set_active true c) cC).
    { apply bind_Ok in H3 as ([] & cD & H4 & H3).
      eapply rtc_l; [by eapply atomic_Lock|].
      apply bind_Ok in H3 as (running & cE & H5 & H3).
      unfold V8_IsRunning in H5. run_inv H5.
      apply bind_Ok in H3 as ([] & cF & H6 & H3).
      etrans; [destruct (negb _);
               [by eapply rtc_once, atomic_Initialize|by run_inv H6]|].
      apply bind_Ok in H3 as (restored & cG & H7 & H3).
      apply RestoreThread_same_control in H7.
      apply atomic_archiving_run.
      destruct restored; run_inv H3;
        repeat match goal with
        | H : StackGuard_call _ _ = Ok _ |- _ =>
            apply StackGuard_call_same_control in H
        end; solve_control. }
    by apply (rtc_atomic_permanent _ _ Hat). }
  run_inv Hrun.
  match goal with H : ThreadManager_AssignId _ _ = Ok _ |- _ =>
    rename H into Hassign end.
  apply AssignId_frame in Hassign as (_ & _ & _ & _ & _ & Hact).
  unfold Locker_IsActive, gets. do 2 f_equal. congruence.
Qed.

End Permanent.

Lemma ids_and_flags_are_permanent_witness :
  id_of sample_lazy 1%nat = 1 ∧
  Locker_IsActive sample_locked = Ok (true, sample_locked).
Proof.
  split.
  - refine (proj1 (ids_and_flags_are_permanent
              (sample_after true [CallLock 1%nat; CallAssignId 1%nat])
              sample_lazy _) 1%nat _).
    + apply rtc_once. exists (CallArchiveThread 1%nat). vm_compute. reflexivity.
    + vm_compute. discriminate.
  - refine (proj2 (proj2 (proj2 (ids_and_flags_are_permanent
               (@new_V8Context (sample_build true)) new_V8Context
               (rtc_refl _ _)))) 1%nat (mkLocker true true) sample_locked _).
    vm_compute. reflexivity.
Defined.

(** ** A thread steps out and back in *)
Section Handoff.
Context `{B : Build}.
Implicit Types (c : V8Context) (s : Subsystem).

Lemma AssignId_run self c :
  observes_locked self c = true →
  0 ≤ last_id_ (thread_manager_data_ c) < 2 ^ 31 - 1 →
  ∃ c', ThreadManager_AssignId self c = Ok (tt, c').
Proof.
  intros Hlock Hlast. destruct (decide (id_of c self = 0)) as [Hid|Hid].
  - destruct (AssignId_fresh c self Hid Hlock Hlast) as (c' & Hrun & _).
    by exists c'.
  - exists c. by apply AssignId_has_id.
Qed.

Lemma FreeThreadResources_run c :
  ∃ l tr,
    ThreadManager_FreeThreadResources c =
    Ok (tt, with_trace (λ _, tr) (with_live (λ _, l) c)).
Proof.
  unfold ThreadManager_FreeThreadResources, ext_FreeThreadResources,
    RegExpStack_FreeThreadResources, ThreadLocal_Free.
  run_unfold. destruct ENABLE_DEBUGGER_SUPPORT; simpl;
    case_bool_decide; simpl; by eexists _, _.
Qed.

Lemma store_tmd p upd c r c' :
  store p upd c = Ok (r, c') → thread_manager_data_ c' = thread_manager_data_ c.
Proof. intros Hrun. apply store_Ok in Hrun as (s & Hs & ->). done. Qed.

Lemma Unlink_tmd p c r c' :
  ThreadState_Unlink p c = Ok (r, c') →
  thread_manager_data_ c' = thread_manager_data_ c.
Proof.
  unfold ThreadState_Unlink. intros Hrun. run_inv Hrun.
  repeat match goal with
  | H : store _ _ _ = Ok _ |- _ => apply store_tmd in H
  end. congruence.
Qed.

Lemma GetFree_tmd c r c' :
  ThreadState_GetFree c = Ok (r, c') →
  thread_manager_data_ c' = thread_manager_data_ c.
Proof.
  unfold ThreadState_GetFree, ThreadState_AllocateSpace. intros Hrun.
  run_inv Hrun. case_bool_decide; run_inv Hrun; [|done].
  repeat match goal with
  | H : store _ _ _ = Ok _ |- _ => apply store_tmd in H
  | H : new_ThreadState _ = Ok _ |- _ =>
      unfold new_ThreadState in H; simplify_eq
  end. done.
Qed.

Lemma ArchiveThread_key self c r c' :
  ThreadManager_ArchiveThread self c = Ok (r, c') →
  ∃ p, lazily_archived_thread_state_ (thread_manager_data_ c') = Some p ∧
       thread_state_key_ (thread_manager_data_ c') =
         <[self := p]> (thread_state_key_ (thread_manager_data_ c)).
Proof.
  unfold ThreadManager_ArchiveThread. intros Hrun. run_inv Hrun.
  repeat match goal with
  | H : ThreadState_GetFree _ = Ok _ |- _ => apply GetFree_tmd in H
  | H : ThreadState_Unlink _ _ = Ok _ |- _ => apply Unlink_tmd in H
  | H : store _ _ _ = Ok _ |- _ => apply store_tmd in H
  end.
  rewrite Hrun2. simpl. rewrite Hrun1, Hrun0. by eexists.
Qed.

Lemma Unlocker_Unlocker_run c self fl ul :
  DEBUG = true →
  Inv c fl ul →
  mutex_ (thread_manager_data_ c) = Some self →
  mutex_owner_ (thread_manager_data_ c) = Identity self →
  lazily_archived_thread_ (thread_manager_data_ c) = INVALID →
  thread_state_key_ (thread_manager_data_ c) !! self = None →
  id_of c self ≠ 0 →
  ∃ p fl' c1,
    Unlocker_Unlocker self c = Ok (tt, c1) ∧
    Inv c1 fl' ul ∧
    lazily_archived_thread_ (thread_manager_data_ c1) = Identity self ∧
    lazily_archived_thread_state_ (thread_manager_data_ c1) = Some p ∧
    mutex_ (thread_manager_data_ c1) = None ∧
    mutex_owner_ (thread_manager_data_ c1) = INVALID ∧
    id_view (thread_manager_data_ c1) = id_view (thread_manager_data_ c) ∧
    thread_state_key_ (thread_manager_data_ c1) =
      <[self := p]> (thread_state_key_ (thread_manager_data_ c)) ∧
    trace c1 = trace c ∧ live c1 = live c.
Proof.
  intros Hdebug Hinv Hmutex Howner Hlz Hself Hid.
  destruct (ArchiveThread_run c self fl ul Hinv Hlz Hself Hid) as (cA & Hrun).
  destruct (ArchiveThread_Inv _ _ _ _ _ Hdebug Hinv Hrun)
    as (p & fl' & Hinv1 & _ & Hls & Hlz1 & Htr & Hlive).
  pose proof (ArchiveThread_same_control _ _ _ _ Hrun) as Hcv.
  unfold control_view in Hcv. injection Hcv as Hm1 Ho1 Hlast1 Hkey1 _ _.
  assert (HmA : mutex_ (thread_manager_data_ cA) = Some self) by congruence.
  pose proof (Unlock_run self cA HmA) as Hun.
  eexists p, fl', _. split.
  - unfold Unlocker_Unlocker. run_unfold. unfold IsSelf.
    rewrite Howner, bool_decide_true by done.
    rewrite ASSERT_true by done. rewrite Hrun. exact Hun.
  - simpl. split_and!; try done.
    + eapply Inv_same_links; [|exact Hinv1]. done.
    + unfold id_view. simpl. by rewrite Hlast1, Hkey1.
    + destruct (ArchiveThread_key _ _ _ _ Hrun) as (p' & Hp' & Hk').
      rewrite Hls in Hp'. by injection Hp' as <-.
Qed.


Lemma control_view_fields c c' :
  control_view c' = control_view c →
  mutex_ (thread_manager_data_ c') = mutex_ (thread_manager_data_ c) ∧
  mutex_owner_ (thread_manager_data_ c') = mutex_owner_ (thread_manager_data_ c) ∧
  last_id_ (thread_manager_data_ c') = last_id_ (thread_manager_data_ c) ∧
  thread_id_key_ (thread_manager_data_ c') = thread_id_key_ (thread_manager_data_ c) ∧
  active_ c' = active_ c ∧ is_running c' = is_running c.
Proof. unfold control_view. by intros [= -> -> -> -> -> ->]. Qed.

Lemma RestoreThread_none_run c self :
  lazily_archived_thread_ (thread_manager_data_ c) = INVALID →
  thread_state_key_ (thread_manager_data_ c) !! self = None →
  ThreadManager_RestoreThread self c =
  Ok (false, with_trace (λ t, t ++ [EvStackGuard InitThread])
               (with_live (with_ext StackGuard (StackGuard_effect InitThread)) c)).
Proof.
  intros Hlz Htls.
  rewrite RestoreThread_sequence. run_unfold. rewrite Hlz.
  unfold IsSelf, IsValid.
  rewrite (bool_decide_false (INVALID = Identity self)) by done.
  rewrite Hlz.
  rewrite (bool_decide_false (INVALID ≠ INVALID)) by (by intros []).
  rewrite Htls. unfold StackGuard_call. run_unfold. done.
Qed.

Lemma Locker_Locker_fresh_run c self t p fl ul :
  DEBUG = true →
  Inv c fl ul →
  mutex_ (thread_manager_data_ c) = None →
  mutex_owner_ (thread_manager_data_ c) = INVALID →
  lazily_archived_thread_ (thread_manager_data_ c) = Identity t →
  lazily_archived_thread_state_ (thread_manager_data_ c) = Some p →
  self ≠ t →
  thread_state_key_ (thread_manager_data_ c) !! self = None →
  (∀ s, s ∈ subsystem_order → s ≠ RegExpStack → Archive_fills s) →
  0 ≤ last_id_ (thread_manager_data_ c) < 2 ^ 31 - 1 →
  ∃ c2,
    Locker_Locker self c = Ok (mkLocker true true, c2) ∧
    Inv c2 fl (p :: ul) ∧
    mutex_ (thread_manager_data_ c2) = Some self ∧
    mutex_owner_ (thread_manager_data_ c2) = Identity self ∧
    lazily_archived_thread_ (thread_manager_data_ c2) = INVALID ∧
    thread_state_key_ (thread_manager_data_ c2) =
      thread_state_key_ (thread_manager_data_ c) ∧
    data_ <$> thread_states c2 !! p =
      Some (archive_seq subsystem_order (live c)).1 ∧
    terminate_on_restore_ <$> thread_states c2 !! p = Some false.
Proof.
  intros Hdebug Hinv Hmutex Howner Hlz Hls Hne Htls Hfill Hlast.
  set (cL := with_tmd (set_mutex_owner (Identity self))
               (with_tmd (set_mutex (Some self)) (set_active true c))).
  set (cI := if is_running c then cL
             else with_trace (λ t, t ++ [EvV8Initialize]) (set_is_running true cL)).
  assert (HinvI : Inv cI fl ul).
  { eapply Inv_same_links; [|exact Hinv]. unfold cI. by destruct (is_running c). }
  assert (HlzI : lazily_archived_thread_ (thread_manager_data_ cI) = Identity t)
    by (unfold cI; by destruct (is_running c)).
  assert (HlsI : lazily_archived_thread_state_ (thread_manager_data_ cI) = Some p)
    by (unfold cI; by destruct (is_running c)).
  assert (HliveI : live cI = live c) by (unfold cI; by destruct (is_running c)).
  destruct (EagerlyArchiveThread_result cI self fl ul p HinvI HlsI Hfill)
    as (cE & HrunE & HinvE & HtrE & HliveE & HdataE & HflagE & _ & HkeyE & HlzE & HlsE).
  pose proof (EagerlyArchiveThread_same_control _ _ _ _ HrunE) as HcvE.
  assert (HtlsE : thread_state_key_ (thread_manager_data_ cE) !! self = None).
  { rewrite HkeyE. unfold cI. by destruct (is_running c). }
  pose proof (RestoreThread_forces_eager cI self t cE HlzI (not_eq_sym Hne) HrunE HlzE)
    as Hforce.
  rewrite (RestoreThread_none_run cE self HlzE HtlsE) in Hforce.
  set (cF := with_trace (λ t, t ++ [EvStackGuard InitThread])
               (with_live (with_ext StackGuard (StackGuard_effect InitThread))
                  (with_trace (λ t, t ++ [EvStackGuard ClearThread])
                     (with_live (with_ext StackGuard (StackGuard_effect ClearThread))
                        (with_trace (λ t, t ++ [EvStackGuard InitThread])
                           (with_live (with_ext StackGuard
                                         (StackGuard_effect InitThread)) cE)))))).
  assert (HcvF : control_view cF = control_view cI) by exact HcvE.
  apply control_view_fields in HcvF as (HmF & HoF & HlF & _).
  assert (HownF : mutex_owner_ (thread_manager_data_ cF) = Identity self).
  { rewrite HoF. unfold cI. by destruct (is_running c). }
  assert (HlastF : last_id_ (thread_manager_data_ cF) =
                   last_id_ (thread_manager_data_ c)).
  { rewrite HlF. unfold cI. by destruct (is_running c). }
  destruct (AssignId_run self cF) as (c2 & Hassign).
  { unfold observes_locked, IsSelf. by rewrite HownF, bool_decide_true. }
  { by rewrite HlastF. }
  exists c2. split.
  - unfold Locker_Locker. run_unfold. simpl. unfold IsSelf.
    rewrite Howner. rewrite (bool_decide_false (INVALID = Identity self)) by done.
    simpl. rewrite (Lock_run self (set_active true c)) by done.
    fold cL. unfold V8_IsRunning, V8_Initialize. run_unfold.
    change (is_running cL) with (is_running c).
    revert Hforce. subst cI. destruct (is_running c); simpl; intros Hforce;
      rewrite Hforce.
    all: unfold StackGuard_call; run_unfold; fold cF.
    all: rewrite HownF, bool_decide_true by done.
    all: rewrite ASSERT_true by done; by rewrite Hassign.
  - assert (HinvF : Inv cF fl (p :: ul)).
    { eapply Inv_same_links; [|exact HinvE]. done. }
    pose proof (AssignId_Inv _ _ _ _ _ _ Hdebug HinvF Hassign) as Hinv2.
    apply AssignId_frame in Hassign as (_ & Hst & Hav & Hown & Hmut & _).
    unfold archive_view in Hav. injection Hav as _ _ Hlz2 _ Hkey2.
    split; [done|]. rewrite Hmut, Hown, Hlz2, Hkey2, Hst.
    split_and!; try done.
    + rewrite HmF. unfold cI. by destruct (is_running c).
    + simpl. rewrite HkeyE. unfold cI. by destruct (is_running c).
    + simpl. by rewrite HdataE, HliveI.
Qed.


Lemma Locker_destroy_top_run c self :
  mutex_ (thread_manager_data_ c) = Some self →
  mutex_owner_ (thread_manager_data_ c) = Identity self →
  ∃ l tr,
    Locker_destroy self (mkLocker true true) c =
    Ok (tt, with_tmd (set_mutex None)
              (with_tmd (set_mutex_owner INVALID)
                 (with_trace (λ _, tr) (with_live (λ _, l) c)))).
Proof.
  intros Hm Ho. destruct (FreeThreadResources_run c) as (l & tr & Hfree).
  exists l, tr. unfold Locker_destroy. run_unfold. unfold IsSelf.
  rewrite Ho, bool_decide_true by done. rewrite ASSERT_true by done.
  simpl. rewrite Hfree. by apply Unlock_run.
Qed.

Lemma Unlocker_destroy_run c self fl p ul st :
  Inv c fl (p :: ul) →
  mutex_ (thread_manager_data_ c) = None →
  mutex_owner_ (thread_manager_data_ c) = INVALID →
  lazily_archived_thread_ (thread_manager_data_ c) = INVALID →
  thread_state_key_ (thread_manager_data_ c) !! self = Some p →
  thread_states c !! p = Some st →
  terminate_on_restore_ st = false →
  ∃ c4,
    Unlocker_destroy self c = Ok (tt, c4) ∧
    observes_locked self c4 = true ∧
    trace c4 = trace c ++ (EvRestore <$> subsystem_order) ∧
    live c4 = restore_seq subsystem_order (data_ st) (live c) ∧
    in_use_list c4 = ul ∧
    free_list c4 = p :: fl ∧
    lazily_archived_thread_ (thread_manager_data_ c4) = INVALID ∧
    thread_state_key_ (thread_manager_data_ c4) =
      delete self (thread_state_key_ (thread_manager_data_ c)).
Proof.
  intros Hinv Hm Ho Hlz Htls Hp Hflag.
  set (cL := with_tmd (set_mutex_owner (Identity self))
               (with_tmd (set_mutex (Some self)) c)).
  destruct (RestoreThread_archived_run cL self fl [] p ul st)
    as (c4 & Hrun & Htr & Hlive & Htmd & Hs & _); try done.
  { eapply Inv_same_links; [|exact Hinv]. done. }
  rewrite Hflag in Htr, Hlive. rewrite app_nil_r in Htr. simpl in Hs.
  exists c4. split.
  - unfold Unlocker_destroy. run_unfold. unfold IsSelf.
    rewrite Ho. rewrite (bool_decide_false (INVALID = Identity self)) by done.
    rewrite ASSERT_true by done. rewrite (Lock_run self c Hm). fold cL.
    by rewrite Hrun.
  - unfold observes_locked, IsSelf, in_use_list, free_list. rewrite Htmd. simpl.
    split_and!; try done.
    + by rewrite bool_decide_true.
    + by eapply Shape_use_entries.
    + by eapply Shape_free_entries.
Qed.

(** A thread steps out of the runtime and back in without losing its
    state.  Thread [t] holds the lock and constructs an [Unlocker]; another
    thread [u], new to the runtime, constructs a [Locker], leaves live state
    [l] of its own behind and destroys the [Locker]; [t] destroys the
    [Unlocker].  Every one of these returns; at the end [t] holds the lock
    again, the live state of every subsystem is what [t] left when it
    stepped out, the ThreadState that carried it is back at the head of the
    free list, and the in-use list is as it was. *)
Theorem handoff_preserves_state c t u l :
  DEBUG = true →
  reachable c →
  (∀ s, s ∈ subsystem_order → s ≠ RegExpStack →
        Archive_fills s ∧ Restore_inverts s) →
  ThreadLocal_fits (thread_local_ (live c)) →
  observes_locked t c = true →
  lazily_archived_thread_ (thread_manager_data_ c) = INVALID →
  thread_state_key_ (thread_manager_data_ c) !! t = None →
  id_of c t ≠ 0 →
  u ≠ t →
  thread_state_key_ (thread_manager_data_ c) !! u = None →
  last_id_ (thread_manager_data_ c) < 2 ^ 31 - 1 →
  ∃ p c1 c2 c3 c4,
    Unlocker_Unlocker t c = Ok (tt, c1) ∧
    Locker_Locker u c1 = Ok (mkLocker true true, c2) ∧
    Locker_destroy u (mkLocker true true) (with_live (λ _, l) c2) = Ok (tt, c3) ∧
    Unlocker_destroy t c3 = Ok (tt, c4) ∧
    observes_locked t c4 = true ∧
    (∀ s, s ∈ subsystem_order → same_live_at s (live c) (live c4)) ∧
    in_use_list c4 = in_use_list c ∧
    free_list c4 = p :: free_list c1 ∧
    lazily_archived_thread_ (thread_manager_data_ c4) = INVALID ∧
    thread_state_key_ (thread_manager_data_ c4) !! t = None.
Proof.
  intros Hdebug Hreach Hc Hfit Hlock Hlz Htls Hid Hne Htlsu Hlast.
  assert (Hfill : ∀ s, s ∈ subsystem_order → s ≠ RegExpStack → Archive_fills s)
    by (intros s Hin Hs; by apply Hc).
  destruct (reachable_Inv c Hdebug Hreach) as (fl & ul & Hinv).
  pose proof (reachable_consistent c Hreach) as Hcons.
  unfold observes_locked, IsSelf in Hlock. apply bool_decide_eq_true in Hlock.
  unfold lock_consistent in Hcons. rewrite Hlock in Hcons.
  assert (Hm : mutex_ (thread_manager_data_ c) = Some t).
  { destruct (mutex_ _); congruence. }
  destruct (Unlocker_Unlocker_run c t fl ul Hdebug Hinv Hm Hlock Hlz Htls Hid)
    as (p & fl' & c1 & Hrun1 & Hinv1 & Hlz1 & Hls1 & Hm1 & Ho1 & Hid1 & Hkey1
        & Htr1 & Hlive1).
  unfold id_view in Hid1. injection Hid1 as Hlast1 _.
  assert (Htlsu1 : thread_state_key_ (thread_manager_data_ c1) !! u = None).
  { by rewrite Hkey1, lookup_insert_ne. }
  destruct (Locker_Locker_fresh_run c1 u t p fl' ul Hdebug Hinv1 Hm1 Ho1 Hlz1 Hls1
              Hne Htlsu1 Hfill)
    as (c2 & Hrun2 & Hinv2 & Hm2 & Ho2 & Hlz2 & Hkey2 & Hdata2 & Hflag2).
  { rewrite Hlast1. split; [|done].
    pose proof (inv_ids _ _ _ Hinv 0%nat). lia. }
  destruct (Locker_destroy_top_run (with_live (λ _, l) c2) u Hm2 Ho2)
    as (l3 & tr3 & Hrun3).
  set (c3 := with_tmd (set_mutex None) _) in Hrun3.
  destruct (thread_states c2 !! p) as [st|] eqn:Hp2; [|done].
  cbv [fmap option_fmap option_map] in Hdata2, Hflag2.
  injection Hdata2 as Hdata2. injection Hflag2 as Hflag2.
  destruct (Unlocker_destroy_run c3 t fl' p ul st)
    as (c4 & Hrun4 & Hlock4 & Htr4 & Hlive4 & Huse4 & Hfree4 & Hlz4 & Hkey4);
    try done.
  { eapply Inv_same_links; [|exact Hinv2]. done. }
  { simpl. by rewrite Hkey2, Hkey1, lookup_insert_eq. }
  destruct (restore_archive_seq subsystem_order NoDup_subsystem_order
              (live c) l3 []) as [Hin _]; [done|done|].
  rewrite app_nil_r in Hin.
  destruct (Inv_lists _ _ _ Hinv) as [_ Hul].
  destruct (Inv_lists _ _ _ Hinv1) as [Hfl1 _].
  exists p, c1, c2, c3, c4. split_and!; try done.
  - intros s Hs. rewrite Hlive4, Hdata2, Hlive1. by apply Hin.
  - by rewrite Huse4, Hul.
  - by rewrite Hfree4, Hfl1.
  - rewrite Hkey4. by rewrite lookup_delete_eq.
Qed.

End Handoff.

Lemma handoff_preserves_state_witness :
  ∃ c1 c2 c3 c4 : @V8Context (sample_build true),
    Unlocker_Unlocker 1%nat sample_locked = Ok (tt, c1) ∧
    Locker_Locker 2%nat c1 = Ok (mkLocker true true, c2) ∧
    Locker_destroy 2%nat (mkLocker true true)
      (with_live (λ _, @mkLive (sample_build true) (λ _, Byte.xff)
                         (mkThreadLocal 7 7 7)) c2) = Ok (tt, c3) ∧
    Unlocker_destroy 1%nat c3 = Ok (tt, c4) ∧
    ext_live (live c4) Top = ext_live (live sample_locked) Top ∧
    thread_local_ (live c4) = thread_local_ (live sample_locked).
Proof.
  destruct (handoff_preserves_state sample_locked 1%nat 2%nat
              (@mkLive (sample_build true) (λ _, Byte.xff) (mkThreadLocal 7 7 7))
              eq_refl (after_reachable _ _ sample_locked_after))
    as (p & c1 & c2 & c3 & c4 & H1 & H2 & H3 & H4 & _ & H6 & _).
  - intros s _ _. apply sample_contract.
  - repeat split; vm_compute; try reflexivity; try discriminate.
  - vm_compute. reflexivity.
  - vm_compute. reflexivity.
  - vm_compute. reflexivity.
  - vm_compute. discriminate.
  - lia.
  - vm_compute. reflexivity.
  - vm_compute. reflexivity.
  - exists c1, c2, c3, c4. split_and!; try assumption.
    + apply (H6 Top). vm_compute. repeat constructor.
    + apply (H6 RegExpStack). vm_compute. repeat constructor.
Defined.

(** ** Where ThreadStates come from *)
Section Allocation.
Context `{B : Build}.
Implicit Types (c : V8Context) (s : Subsystem).

Lemma ArchiveThread_run_exact c self fl ul :
  Inv c fl ul →
  lazily_archived_thread_ (thread_manager_data_ c) = INVALID →
  thread_state_key_ (thread_manager_data_ c) !! self = None →
  id_of c self ≠ 0 →
  ∃ p h' sp fl' c',
    ThreadManager_ArchiveThread self c = Ok (tt, c') ∧
    thread_states c' = <[p := set_id (id_of c self) sp]> h' ∧
    h' !! p = Some sp ∧
    payload sp = (kInvalidId, false, data_ sp) ∧
    length (data_ sp) = ArchiveSpacePerThread_ ∧
    (fl = p :: fl' ∧ length h' = length (thread_states c) ∨
     fl = [] ∧ fl' = [] ∧ p = length (thread_states c) ∧
     length h' = S (length (thread_states c)) ∧
     data_ sp = replicate ArchiveSpacePerThread_ Byte.x00) ∧
    (∀ q, (q < length (thread_states c))%nat →
          payload <$> h' !! q = payload <$> thread_states c !! q) ∧
    lazily_archived_thread_state_ (thread_manager_data_ c') = Some p.
Proof.
  intros Hinv Hlz Hself Hid.
  destruct Hinv as [Hs Hl Htls Hinj Hfm Hum Hlm Hids Hidj].
  unfold lazy_slot_ok in Hl. rewrite Hlz in Hl.
  destruct (lazily_archived_thread_state_ (thread_manager_data_ c)) eqn:Hls; [done|].
  unfold lazy_list in Hs. rewrite Hls in Hs.
  destruct fl as [|g fl0].
  - (* a new object *)
    pose proof Hs as [Hnd Hf Hu Hall].
    assert (Hfa : nxt (thread_states c) (free_anchor_ (thread_manager_data_ c)) =
                  Some (free_anchor_ (thread_manager_data_ c)))
      by by apply linked_nxt_first in Hf.
    pose proof (GetFree_run_new c Hfa) as Hget.
    set (this := length (thread_states c)) in *.
    set (sp := mkThreadState kInvalidId false
                 (replicate ArchiveSpacePerThread_ Byte.x00) this this) in *.
    set (c1 := with_thread_states _ c) in Hget.
    destruct (Unlink_self c1 this) as (h' & Hun & Hlen & Hpay & Hn & Hp).
    { unfold nxt. simpl. by rewrite list_lookup_middle. }
    { unfold prv. simpl. by rewrite list_lookup_middle. }
    simpl in Hlen, Hpay. rewrite length_app in Hlen. simpl in Hlen.
    assert (Hpl : payload <$> h' !! this = Some (payload sp)).
    { rewrite Hpay. by rewrite list_lookup_middle. }
    destruct (h' !! this) as [sp'|] eqn:Hsp'; [|done].
    assert (Hpl' : payload sp' = payload sp) by (simpl in Hpl; congruence).
    unfold payload in Hpl'. simpl in Hpl'. injection Hpl' as Hi Hf' Hd.
    eexists this, h', sp', [], _. split_and!.
    + unfold ThreadManager_ArchiveThread. run_unfold.
      rewrite Hlz. rewrite ASSERT_true by done.
      rewrite Hself. rewrite ASSERT_true by done.
      rewrite Hget. simpl in Hun. rewrite Hun.
      erewrite load_run by (simpl; exact Hsp').
      rewrite ASSERT_true by (by apply bool_decide_eq_true).
      erewrite store_run by (simpl; exact Hsp').
      erewrite load_run
        by (simpl; apply list_lookup_insert_eq; by eapply lookup_lt_Some).
      rewrite ASSERT_true; [done|].
      apply bool_decide_eq_true. simpl. exact Hid.
    + done.
    + done.
    + unfold payload. by rewrite Hi, Hf'.
    + rewrite Hd. simpl. by rewrite length_replicate.
    + right. split_and!; try done. lia.
    + intros q Hq. rewrite Hpay. by rewrite lookup_app_l.
    + done.
  - (* the head of the free list *)
    destruct (GetFree_Unlink c (g :: fl0) ul Hs)
      as (p & cg & h' & fl' & Hget & Hun & Hs' & Hfl & Hpay).
    destruct Hfl as [[Heq Hlen]|(Hc & _)]; [|done]. injection Heq as <- <-.
    assert (Hlt : (g < length (thread_states c))%nat).
    { destruct Hs as [_ _ _ Hall]. apply Hall. set_solver. }
    pose proof (Hfm g ltac:(left)) as Hmg.
    destruct (thread_states c !! g) as [sg|] eqn:Hsg; [|done].
    simpl in Hmg. injection Hmg as Hgi Hgf Hgl.
    destruct (payload_lookup _ _ g sg (Hpay g Hlt) Hsg) as (sp & Hsp & Hpp).
    unfold payload in Hpp. injection Hpp as Hi Hf' Hd.
    eexists g, h', sp, fl0, _. split_and!.
    + unfold ThreadManager_ArchiveThread. run_unfold.
      rewrite Hlz. rewrite ASSERT_true by done.
      rewrite Hself. rewrite ASSERT_true by done.
      rewrite Hget, Hun.
      erewrite load_run by (simpl; exact Hsp).
      rewrite ASSERT_true by (apply bool_decide_eq_true; congruence).
      erewrite store_run by (simpl; exact Hsp).
      erewrite load_run
        by (simpl; apply list_lookup_insert_eq; by eapply lookup_lt_Some).
      rewrite ASSERT_true; [done|].
      apply bool_decide_eq_true. simpl. exact Hid.
    + done.
    + done.
    + unfold payload. by rewrite Hi, Hf', Hgi, Hgf.
    + by rewrite Hd.
    + by left.
    + done.
    + done.
Qed.

(** [ArchiveThread] takes the head of the free list when there is one, and
    then no object is made; only when the free list is empty does it make a
    ThreadState, the one new object of the store, with a zeroed buffer of
    [ArchiveSpacePerThread()] bytes.  Either way the state leaves with the
    id of the caller, and the objects that were there keep what they
    carry. *)
Theorem ArchiveThread_reuses_free_state c self :
  DEBUG = true →
  reachable c →
  lazily_archived_thread_ (thread_manager_data_ c) = INVALID →
  thread_state_key_ (thread_manager_data_ c) !! self = None →
  id_of c self ≠ 0 →
  ∃ p st c',
    ThreadManager_ArchiveThread self c = Ok (tt, c') ∧
    lazily_archived_thread_state_ (thread_manager_data_ c') = Some p ∧
    thread_states c' !! p = Some st ∧
    id_ st = id_of c self ∧
    terminate_on_restore_ st = false ∧
    length (data_ st) = ArchiveSpacePerThread_ ∧
    match free_list c with
    | g :: fl' =>
        p = g ∧ free_list c' = fl' ∧
        length (thread_states c') = length (thread_states c) ∧
        data_ <$> thread_states c !! g = Some (data_ st)
    | [] =>
        p = length (thread_states c) ∧ free_list c' = [] ∧
        length (thread_states c') = S (length (thread_states c)) ∧
        data_ st = replicate ArchiveSpacePerThread_ Byte.x00
    end ∧
    in_use_list c' = in_use_list c ∧
    (∀ q, (q < length (thread_states c))%nat → q ≠ p →
          payload <$> thread_states c' !! q = payload <$> thread_states c !! q).
Proof.
  intros Hdebug Hreach Hlz Hself Hid.
  destruct (reachable_Inv c Hdebug Hreach) as (fl & ul & Hinv).
  destruct (ArchiveThread_run_exact c self fl ul Hinv Hlz Hself Hid)
    as (p & h' & sp & fl' & c' & Hrun & Hst & Hsp & Hpay & Hlen & Hcase & Hold & Hls).
  destruct (ArchiveThread_Inv _ _ _ _ _ Hdebug Hinv Hrun)
    as (p' & fl'' & Hinv' & Hcase' & Hls' & _).
  rewrite Hls in Hls'. injection Hls' as <-.
  destruct (Inv_lists _ _ _ Hinv) as [Hfl Hul].
  destruct (Inv_lists _ _ _ Hinv') as [Hfl' Hul'].
  assert (Hlt : (p < length h')%nat) by (by eapply lookup_lt_Some).
  unfold payload in Hpay. injection Hpay as Hi Hf.
  exists p, (set_id (id_of c self) sp), c'. rewrite Hst.
  split_and!; try done.
  - by apply list_lookup_insert_eq.
  - rewrite Hfl, Hfl'. rewrite length_insert.
    destruct Hcase as [[-> Hl]|(-> & -> & Hp & Hl & Hd)].
    + destruct Hcase' as [[= <-]|(? & _)]; [|done]. split_and!; try done.
      assert (Hpl : (p < length (thread_states c))%nat) by lia.
      specialize (Hold p Hpl). rewrite Hsp in Hold.
      destruct (thread_states c !! p) as [y|]; [|done]. simpl in *.
      unfold payload in Hold. by injection Hold as _ _ ->.
    + destruct Hcase' as [[=]|(_ & -> & _)]. done.
  - by rewrite Hul, Hul'.
  - intros q Hq Hqp. rewrite list_lookup_insert_ne by done. by apply Hold.
Qed.

End Allocation.

Lemma ArchiveThread_reuses_free_state_witness :
  ∃ c' : @V8Context (sample_build true),
    ThreadManager_ArchiveThread 1%nat sample_locked = Ok (tt, c') ∧
    lazily_archived_thread_state_ (thread_manager_data_ c') = Some 2%nat ∧
    length (thread_states c') = 3%nat.
Proof.
  destruct (ArchiveThread_reuses_free_state sample_locked 1%nat eq_refl
              (after_reachable _ _ sample_locked_after))
    as (p & st & c' & H1 & H2 & _ & _ & _ & _ & H7 & _).
  - vm_compute. reflexivity.
  - vm_compute. reflexivity.
  - vm_compute. discriminate.
  - assert (Hfl : free_list sample_locked = []) by (vm_compute; reflexivity).
    rewrite Hfl in H7. destruct H7 as (-> & _ & Hlen & _).
    exists c'. split; [exact H1|]. split; [exact H2|]. exact Hlen.
Defined.

Section Unlocker_scope.
Context `{B : Build}.
Implicit Types (c : V8Context) (s : Subsystem).

Lemma ArchiveThread_tmd self c r c' :
  ThreadManager_ArchiveThread self c = Ok (r, c') →
  ∃ p, thread_manager_data_ c' =
       set_lazily_archived_thread_state (Some p)
         (set_lazily_archived_thread (Identity self)
            (set_thread_state_key
               (<[self := p]> (thread_state_key_ (thread_manager_data_ c)))
               (thread_manager_data_ c))).
Proof.
  unfold ThreadManager_ArchiveThread. intros Hrun. run_inv Hrun.
  repeat match goal with
  | H : ThreadState_GetFree _ = Ok _ |- _ => apply GetFree_tmd in H
  | H : ThreadState_Unlink _ _ = Ok _ |- _ => apply Unlink_tmd in H
  | H : store _ _ _ = Ok _ |- _ => apply store_tmd in H
  end.
  rewrite Hrun2. simpl. rewrite Hrun1, Hrun0. by eexists.
Qed.

Lemma same_bound (n m : nat) : (∀ q, (q < n)%nat ↔ (q < m)%nat) → n = m.
Proof.
  intros H. destruct (Nat.lt_trichotomy n m) as [Hlt|[->|Hlt]]; [|done|].
  - apply H in Hlt. lia.
  - apply H in Hlt. lia.
Qed.

(** An [Unlocker] that nobody made use of costs nothing: constructed and
    destroyed by the thread that holds the lock, with no other thread in
    between, it calls no subsystem, and leaves the live state, the lock, the
    ids, the thread-local slots and the in-use list as they were; the one
    ThreadState it needed is at the head of the free list, taken from there
    when there was one. *)
Theorem Unlocker_scope_is_free c t :
  DEBUG = true →
  reachable c →
  observes_locked t c = true →
  lazily_archived_thread_ (thread_manager_data_ c) = INVALID →
  thread_state_key_ (thread_manager_data_ c) !! t = None →
  id_of c t ≠ 0 →
  ∃ p c1 c2,
    Unlocker_Unlocker t c = Ok (tt, c1) ∧
    Unlocker_destroy t c1 = Ok (tt, c2) ∧
    trace c2 = trace c ∧ live c2 = live c ∧
    control_view c2 = control_view c ∧
    archive_view (thread_manager_data_ c2) =
      archive_view (thread_manager_data_ c) ∧
    in_use_list c2 = in_use_list c ∧
    free_list c2 = p :: tail (free_list c) ∧
    (free_list c ≠ [] →
       free_list c2 = free_list c ∧
       length (thread_states c2) = length (thread_states c)).
Proof.
  intros Hdebug Hreach Hlock Hlz Htls Hid.
  destruct (reachable_Inv c Hdebug Hreach) as (fl & ul & Hinv).
  pose proof (reachable_consistent c Hreach) as Hcons.
  unfold observes_locked, IsSelf in Hlock. apply bool_decide_eq_true in Hlock.
  unfold lock_consistent in Hcons. rewrite Hlock in Hcons.
  assert (Hm : mutex_ (thread_manager_data_ c) = Some t).
  { destruct (mutex_ _); congruence. }
  destruct (ArchiveThread_run_exact c t fl ul Hinv Hlz Htls Hid)
    as (p & h' & sp & fl' & cA & HrunA & HstA & Hsp & Hpay & Hlen & Hcase & Hold & HlsA).
  destruct (ArchiveThread_Inv _ _ _ _ _ Hdebug Hinv HrunA)
    as (p' & fl'' & HinvA & Hcase' & HlsA' & HlzA & HtrA & HliveA).
  rewrite HlsA in HlsA'. injection HlsA' as <-.
  assert (fl'' = fl') as ->.
  { destruct Hcase as [[-> _]|(-> & -> & _)], Hcase' as [Hc|(Hc & -> & _)];
      congruence. }
  destruct (ArchiveThread_key _ _ _ _ HrunA) as (p' & Hp' & HkeyA).
  rewrite HlsA in Hp'. injection Hp' as <-.
  pose proof (ArchiveThread_same_control _ _ _ _ HrunA) as HcvA.
  apply control_view_fields in HcvA as (HmA & HoA & HlastA & HidkA & HactA & HrunningA).
  set (c1 := with_tmd (set_mutex None) (with_tmd (set_mutex_owner INVALID) cA)).
  set (cL := with_tmd (set_mutex_owner (Identity t))
               (with_tmd (set_mutex (Some t)) c1)).
  assert (HinvL : Inv cL fl' ul).
  { eapply Inv_same_links; [|exact HinvA]. done. }
  destruct (RestoreThread_lazy_run cL t fl' ul HinvL HlzA)
    as (q & sq & h2 & Hq & Hsq & Hrest & Hs2 & Hpq & Hpo).
  simpl in Hq. rewrite HlsA in Hq. injection Hq as <-.
  destruct (Inv_lists _ _ _ Hinv) as [Hfl Hul].
  destruct (ArchiveThread_tmd _ _ _ _ HrunA) as (p' & HtmdA).
  assert (p' = p) as ->.
  { rewrite HtmdA in HlsA. simpl in HlsA. congruence. }
  assert (Hfa : free_anchor_ (thread_manager_data_ cA) =
                free_anchor_ (thread_manager_data_ c)) by (by rewrite HtmdA).
  assert (Hia : in_use_anchor_ (thread_manager_data_ cA) =
                in_use_anchor_ (thread_manager_data_ c)) by (by rewrite HtmdA).
  eexists p, c1, _. split_and!.
  - unfold Unlocker_Unlocker. run_unfold. unfold IsSelf.
    rewrite Hlock, bool_decide_true by done. rewrite ASSERT_true by done.
    rewrite HrunA. apply Unlock_run. congruence.
  - unfold Unlocker_destroy. run_unfold. unfold IsSelf.
    change (mutex_owner_ (thread_manager_data_ c1)) with INVALID.
    rewrite (bool_decide_false (INVALID = Identity t)) by done.
    rewrite ASSERT_true by done. rewrite (Lock_run t c1) by done. fold cL.
    by rewrite Hrest.
  - simpl. done.
  - simpl. done.
  - unfold control_view. simpl. by rewrite HlastA, HidkA, HactA, HrunningA, Hm, Hlock.
  - unfold archive_view. simpl. rewrite HkeyA, Hfa, Hia, Hlz.
    rewrite delete_insert_id by done.
    pose proof (inv_lazy _ _ _ Hinv) as Hl. unfold lazy_slot_ok in Hl.
    rewrite Hlz in Hl.
    by destruct (lazily_archived_thread_state_ (thread_manager_data_ c)).
  - rewrite Hul. unfold in_use_list. simpl. rewrite Hia.
    eapply Shape_use_entries. simpl in Hs2. rewrite Hfa, Hia in Hs2. exact Hs2.
  - rewrite Hfl. unfold free_list. simpl. rewrite Hfa.
    simpl in Hs2. rewrite Hfa, Hia in Hs2.
    rewrite (Shape_free_entries _ _ _ _ _ _ Hs2).
    by destruct Hcase as [[-> _]|(-> & -> & _)].
  - intros Hne. rewrite Hfl in Hne.
    destruct Hcase as [[-> Hl]|(-> & _)]; [|done]. split.
    + rewrite Hfl. unfold free_list. simpl. rewrite Hfa.
      simpl in Hs2. rewrite Hfa, Hia in Hs2.
      by rewrite (Shape_free_entries _ _ _ _ _ _ Hs2).
    + simpl. apply same_bound. intros q.
      destruct Hs2 as [_ _ _ Hall2]. rewrite Hall2.
      pose proof (inv_shape _ _ _ Hinv) as [_ _ _ Hall]. rewrite Hall.
      unfold lazy_list.
      pose proof (inv_lazy _ _ _ Hinv) as Hl0. unfold lazy_slot_ok in Hl0.
      rewrite Hlz in Hl0.
      destruct (lazily_archived_thread_state_ (thread_manager_data_ c)); [done|].
      simpl. by rewrite Hfa, Hia.
Qed.

End Unlocker_scope.

Lemma Unlocker_scope_is_free_witness :
  ∃ c1 c2 : @V8Context (sample_build true),
    Unlocker_Unlocker 1%nat sample_locked = Ok (tt, c1) ∧
    Unlocker_destroy 1%nat c1 = Ok (tt, c2) ∧
    trace c2 = trace sample_locked ∧ live c2 = live sample_locked.
Proof.
  destruct (Unlocker_scope_is_free sample_locked 1%nat eq_refl
              (after_reachable _ _ sample_locked_after))
    as (p & c1 & c2 & H1 & H2 & H3 & H4 & _).
  - vm_compute. reflexivity.
  - vm_compute. reflexivity.
  - vm_compute. reflexivity.
  - vm_compute. discriminate.
  - exists c1, c2. split_and!; assumption.
Defined.


Section Top_level_scope.
Context `{B : Build}.
Implicit Types (c : V8Context) (s : Subsystem).

(** [FreeThreadResources] always returns.  It has every subsystem of the
    archive order but [Relocatable] release its live state, in that order,
    and touches nothing else: not the live state of [Relocatable], not a
    ThreadState, not the thread manager's record.  The regexp stack gives
    up its memory only if it has some. *)
Theorem FreeThreadResources_releases c :
  ∃ c',
    ThreadManager_FreeThreadResources c = Ok (tt, c') ∧
    trace c' =
      trace c ++
      (EvFreeThreadResources <$>
         filter (λ s, s ≠ Relocatable) subsystem_order) ∧
    thread_manager_data_ c' = thread_manager_data_ c ∧
    thread_states c' = thread_states c ∧
    active_ c' = active_ c ∧ is_running c' = is_running c ∧
    (∀ s, s ∈ subsystem_order → s ≠ Relocatable → s ≠ RegExpStack →
          ext_live (live c') s =
          FreeThreadResources (ext s) (ext_live (live c) s)) ∧
    (∀ s, s ∉ filter (λ s, s ≠ Relocatable) subsystem_order →
          ext_live (live c') s = ext_live (live c) s) ∧
    thread_local_ (live c') =
      (if bool_decide (memory_size_ (thread_local_ (live c)) > 0)
       then ThreadLocal_new else thread_local_ (live c)).
Proof.
  unfold ThreadManager_FreeThreadResources, ext_FreeThreadResources,
    RegExpStack_FreeThreadResources, ThreadLocal_Free, subsystem_order.
  run_unfold.
  destruct ENABLE_DEBUGGER_SUPPORT; simpl; case_bool_decide; simpl;
    (eexists; split; [reflexivity|]; simpl;
     split_and!; try done;
     [ by rewrite <- !app_assoc
     | intros s Hs Hr Hx;
       repeat (apply elem_of_cons in Hs as [->|Hs]; [done|]);
       by apply elem_of_nil in Hs
     | intros s Hs;
       repeat (apply not_elem_of_cons in Hs as [? Hs]);
       by rewrite !fn_lookup_insert_ne by done ]).
Qed.

End Top_level_scope.

(** ** The walks over the archived states *)
Section Walk_runs.
Context `{B : Build}.
Implicit Types (c : V8Context) (p q : ptr) (s : Subsystem).

Lemma for_each_in_use_None fuel body c :
  for_each_in_use fuel body None c = Ok ([], c).
Proof. by destruct fuel. Qed.

Lemma for_each_in_use_run body l : ∀ st c fuel,
  linked (thread_states c) st l (in_use_anchor_ (thread_manager_data_ c)) →
  in_use_anchor_ (thread_manager_data_ c) ∉ l →
  (length l < fuel)%nat →
  for_each_in_use fuel body (Some st) c = Ok (concat (body <$> st :: l), c).
Proof.
  induction l as [|n l IH]; intros st c fuel Hl Hia Hfuel;
    (destruct fuel as [|fuel]; [simpl in Hfuel; lia|]).
  - simpl in Hl. fold (nxt (thread_states c) st) in Hl. destruct Hl as [Hn _].
    apply nxt_Some in Hn as (s & Hs & Hsn). cbn [for_each_in_use].
    rewrite (bind_run _ _ _ _ _ (ThreadState_Next_run c st s Hs)), Hsn.
    rewrite bool_decide_true by done.
    by rewrite (bind_run _ _ _ _ _ (for_each_in_use_None fuel body c)).
  - simpl in Hl. fold (nxt (thread_states c) st) in Hl.
    destruct Hl as (Hn & _ & Hl).
    apply nxt_Some in Hn as (s & Hs & Hsn). cbn [for_each_in_use].
    rewrite (bind_run _ _ _ _ _ (ThreadState_Next_run c st s Hs)), Hsn.
    rewrite bool_decide_false by set_solver.
    rewrite (bind_run _ _ _ _ _ (IH n c fuel Hl ltac:(set_solver)
                                   ltac:(simpl in Hfuel; lia))).
    done.
Qed.

(** A walk on a well-shaped store returns: it has run its body on the
    states of the in-use list, first to last, and changed nothing. *)
Lemma walk_run body c fl ul :
  Inv c fl ul →
  (first ← ThreadState_FirstInUse;
   fuel ← gets (λ c, length (thread_states c));
   for_each_in_use fuel body first) c = Ok (concat (body <$> ul), c).
Proof.
  intros Hinv. pose proof (inv_shape _ _ _ Hinv) as Hs.
  pose proof Hs as [Hnd Hf Hu Hall].
  set (ia := in_use_anchor_ (thread_manager_data_ c)) in *.
  set (h := thread_states c) in *.
  assert (Hia : ia ∉ ul).
  { apply list.NoDup_cons in Hnd as [_ Hnd].
    apply list.NoDup_cons in Hnd as [Hia _]. set_solver. }
  assert (Hbound : (length ul < length h)%nat).
  { assert (length (free_anchor_ (thread_manager_data_ c) :: ia ::
                    fl ++ ul ++ lazy_list (thread_manager_data_ c))
              ≤ length h)%nat as Hb.
    { apply NoDup_bounded_length; [done|]. intros x. by rewrite Hall. }
    simpl in Hb. rewrite !length_app in Hb. lia. }
  unfold ThreadState_FirstInUse.
  assert (Ht : tmd in_use_anchor_ c = Ok (ia, c)) by done.
  pose proof (linked_nxt_first _ _ _ _ Hu) as Hfirst.
  apply nxt_Some in Hfirst as (sa & Hsa & Hsan).
  assert (Hfst : (in_use_anchor ← tmd in_use_anchor_; ThreadState_Next in_use_anchor) c
     = Ok (if bool_decide (hd ia ul = ia) then None else Some (hd ia ul), c)).
  { rewrite (bind_run _ _ _ _ _ Ht).
    by rewrite (ThreadState_Next_run c ia sa Hsa), Hsan. }
  rewrite (bind_run _ _ _ _ _ Hfst).
  assert (Hg : gets (λ c0 : V8Context, length (thread_states c0)) c =
               Ok (length h, c)) by done.
  rewrite (bind_run _ _ _ _ _ Hg).
  destruct ul as [|st l]; simpl hd.
  - rewrite bool_decide_true by done. apply for_each_in_use_None.
  - rewrite bool_decide_false by set_solver.
    apply for_each_in_use_run.
    + unfold ring in Hu. simpl in Hu. tauto.
    + set_solver.
    + simpl in Hbound. lia.
Qed.

(** The three walks return, change nothing, and call on the states of the
    in-use list and on no other, first to last: the mark-compact walks hand
    [Top] the buffer past the footprint of [HandleScopeImplementer];
    [Iterate] hands [HandleScopeImplementer] the start of the buffer, [Top]
    what that call returned and [Relocatable] what the call on [Top]
    returned.  A free state and the lazy candidate are not called on. *)
Theorem walks_visit_the_in_use_list c :
  DEBUG = true →
  reachable c →
  let off := ArchiveSpacePerThread (ext HandleScopeImplementer) in
  (∀ b,
     ThreadManager_MarkCompactPrologue b c =
       Ok ((λ p, VisitMarkCompactPrologue b (p, off)) <$> in_use_list c, c) ∧
     ThreadManager_MarkCompactEpilogue b c =
       Ok ((λ p, VisitMarkCompactEpilogue b (p, off)) <$> in_use_list c, c)) ∧
  (∀ Iterate_,
     ThreadManager_Iterate Iterate_ c =
       Ok (concat
             ((λ p, [VisitIterate HandleScopeImplementer (p, 0%nat);
                     VisitIterate Top
                       (Iterate_ HandleScopeImplementer (p, 0%nat));
                     VisitIterate Relocatable
                       (Iterate_ Top
                          (Iterate_ HandleScopeImplementer (p, 0%nat)))])
                <$> in_use_list c), c)) ∧
  (∀ p, p ∈ in_use_list c →
        p ∉ free_list c ∧ is_lazy_candidate c p = false ∧
        is_anchor c p = false).
Proof.
  intros Hdebug Hreach off.
  destruct (reachable_Inv c Hdebug Hreach) as (fl & ul & Hinv).
  destruct (Inv_lists c fl ul Hinv) as [Hfl Hul]. rewrite Hfl, Hul.
  assert (Hsingle : ∀ (f : ptr → Visit) (l : list ptr),
            concat ((λ p, [f p]) <$> l) = f <$> l).
  { intros f l. induction l as [|x l IH]; [done|]. rewrite !fmap_cons. simpl. by f_equal. }
  split_and!.
  - intros b. split.
    + unfold ThreadManager_MarkCompactPrologue.
      rewrite (walk_run _ c fl ul Hinv). simpl. by rewrite Hsingle.
    + unfold ThreadManager_MarkCompactEpilogue.
      rewrite (walk_run _ c fl ul Hinv). simpl. by rewrite Hsingle.
  - intros It. unfold ThreadManager_Iterate.
    by rewrite (walk_run _ c fl ul Hinv).
  - intros p Hp. pose proof (shape_nodup _ _ _ _ _ _ (inv_shape _ _ _ Hinv)) as Hnd.
    apply list.NoDup_cons in Hnd as [Hfa Hnd].
    apply list.NoDup_cons in Hnd as [Hia Hnd].
    apply NoDup_app in Hnd as (_ & Hd1 & Hnd).
    apply NoDup_app in Hnd as (_ & Hd2 & _).
    split_and!.
    + intros Hin. apply (Hd1 p Hin). set_solver.
    + unfold is_lazy_candidate. apply bool_decide_eq_false. intros Hlz.
      apply (Hd2 p Hp). unfold lazy_list. rewrite Hlz. set_solver.
    + unfold is_anchor. apply orb_false_iff.
      split; apply bool_decide_eq_false; intros ->; set_solver.
Qed.

End Walk_runs.

Lemma walks_visit_the_in_use_list_witness :
  let c := sample_after true
             [CallLock 1%nat; CallAssignId 1%nat; CallArchiveThread 1%nat;
              CallEagerlyArchiveThread 1%nat] in
  in_use_list c = [2%nat] ∧
  ThreadManager_MarkCompactPrologue true c =
    Ok ((λ p, VisitMarkCompactPrologue true
                (p, ArchiveSpacePerThread
                      (@ext (sample_build true) HandleScopeImplementer)))
          <$> in_use_list c, c).
Proof.
  intros c. split; [vm_compute; reflexivity|].
  assert (Hafter : after
            [CallLock 1%nat; CallAssignId 1%nat; CallArchiveThread 1%nat;
             CallEagerlyArchiveThread 1%nat] new_V8Context = Ok c)
    by (vm_compute; reflexivity).
  destruct (walks_visit_the_in_use_list c eq_refl (after_reachable _ _ Hafter))
    as (Hmc & _ & _).
  exact (proj1 (Hmc true)).
Defined.

Section Walk_blocks.
Context `{B : Build}.
Implicit Types (c : V8Context) (p q : ptr) (s : Subsystem).

(** The buffer of an archived state begins with the blocks of
    [HandleScopeImplementer], [Top] and [Relocatable] on the live state
    that was archived. *)
Lemma archive_seq_first_blocks (l : Live) :
  ∃ rest,
    (archive_seq subsystem_order l).1 =
    Archive_bytes HandleScopeImplementer l ++ Archive_bytes Top l ++
    Archive_bytes Relocatable l ++ rest.
Proof.
  unfold subsystem_order. cbn [app archive_seq fst].
  eexists.
  rewrite (Archive_bytes_same Top l (Archive_live HandleScopeImplementer l))
    by (by apply Archive_live_other).
  rewrite (Archive_bytes_same Relocatable l
             (Archive_live Top (Archive_live HandleScopeImplementer l)))
    by (eapply same_live_at_trans; by apply Archive_live_other).
  reflexivity.
Qed.

(** The walks read the blocks where the archive calls wrote them.  When the
    [Iterate] of a collaborator returns the buffer past its footprint, as
    its archive call does, then on the state [EagerlyArchiveThread] has just
    filled each of the three calls of [Iterate] is handed the block its
    subsystem archived, and so is [Top] by the mark-compact walks. *)
Theorem walks_read_archived_blocks c self p Iterate_ :
  DEBUG = true →
  reachable c →
  (∀ s, s ∈ subsystem_order → s ≠ RegExpStack → Archive_fills s) →
  lazily_archived_thread_state_ (thread_manager_data_ c) = Some p →
  (∀ s data, Iterate_ s data = (data.1, (data.2 + footprint s)%nat)) →
  ∃ c1 st,
    ThreadManager_EagerlyArchiveThread self c = Ok (tt, c1) ∧
    thread_states c1 !! p = Some st ∧
    (∃ vs, ThreadManager_Iterate Iterate_ c1 = Ok (vs, c1) ∧
       ∀ s, s ∈ [HandleScopeImplementer; Top; Relocatable] →
         ∃ off, VisitIterate s (p, off) ∈ vs ∧
                block_at s off st = Archive_bytes s (live c)) ∧
    (∀ b, ∃ vs off,
       ThreadManager_MarkCompactPrologue b c1 = Ok (vs, c1) ∧
       VisitMarkCompactPrologue b (p, off) ∈ vs ∧
       block_at Top off st = Archive_bytes Top (live c)) ∧
    (∀ b, ∃ vs off,
       ThreadManager_MarkCompactEpilogue b c1 = Ok (vs, c1) ∧
       VisitMarkCompactEpilogue b (p, off) ∈ vs ∧
       block_at Top off st = Archive_bytes Top (live c)).
Proof.
  intros Hdebug Hreach Hfill Hlz HIt.
  destruct (reachable_Inv c Hdebug Hreach) as (fl & ul & Hinv).
  destruct (EagerlyArchiveThread_result c self fl ul p Hinv Hlz Hfill)
    as (c1 & Hrun & Hinv1 & _ & _ & Hdata & _).
  destruct (archive_seq_first_blocks (live c)) as (rest & Hblocks).
  rewrite Hblocks in Hdata.
  destruct (thread_states c1 !! p) as [st|] eqn:Hst; [|done].
  cbv [fmap option_fmap option_map] in Hdata. injection Hdata as Hdata.
  assert (Hlen : ∀ s, s ∈ [HandleScopeImplementer; Top; Relocatable] →
                      length (Archive_bytes s (live c)) = footprint s).
  { intros s Hs. apply length_Archive_bytes. intros Hne. apply Hfill; [|done].
    unfold subsystem_order. set_solver. }
  assert (Hh : block_at HandleScopeImplementer 0 st =
               Archive_bytes HandleScopeImplementer (live c)).
  { unfold block_at. rewrite Hdata, drop_0.
    apply take_app_length'. symmetry.
    apply (Hlen HandleScopeImplementer). set_solver. }
  assert (Ht : block_at Top (footprint HandleScopeImplementer) st =
               Archive_bytes Top (live c)).
  { unfold block_at. rewrite Hdata.
    rewrite drop_app_length'
      by (symmetry; apply (Hlen HandleScopeImplementer); set_solver).
    apply take_app_length'. symmetry. apply (Hlen Top). set_solver. }
  assert (Hr : block_at Relocatable
                 (footprint HandleScopeImplementer + footprint Top) st =
               Archive_bytes Relocatable (live c)).
  { unfold block_at. rewrite Hdata, <- drop_drop.
    rewrite drop_app_length'
      by (symmetry; apply (Hlen HandleScopeImplementer); set_solver).
    rewrite drop_app_length' by (symmetry; apply (Hlen Top); set_solver).
    apply take_app_length'. symmetry. apply (Hlen Relocatable). set_solver. }
  exists c1, st. split_and!; [done|done| | |].
  - eexists. split.
    + unfold ThreadManager_Iterate. apply (walk_run _ c1 fl (p :: ul) Hinv1).
    + intros s Hs. rewrite fmap_cons. cbn [concat]. rewrite !HIt. simpl.
      apply elem_of_cons in Hs as [->|Hs]; [|apply elem_of_cons in Hs as [->|Hs];
        [|apply list_elem_of_singleton in Hs as ->]].
      * exists 0%nat. split; [set_solver|done].
      * exists (footprint HandleScopeImplementer). split; [set_solver|done].
      * exists (footprint HandleScopeImplementer + footprint Top)%nat.
        split; [set_solver|done].
  - intros b. eexists _, (footprint HandleScopeImplementer). split_and!.
    + unfold ThreadManager_MarkCompactPrologue.
      apply (walk_run _ c1 fl (p :: ul) Hinv1).
    + rewrite fmap_cons. cbn [concat]. simpl. set_solver.
    + done.
  - intros b. eexists _, (footprint HandleScopeImplementer). split_and!.
    + unfold ThreadManager_MarkCompactEpilogue.
      apply (walk_run _ c1 fl (p :: ul) Hinv1).
    + rewrite fmap_cons. cbn [concat]. simpl. set_solver.
    + done.
Qed.

End Walk_blocks.

Lemma walks_read_archived_blocks_witness :
  ∃ (c1 : @V8Context (sample_build true)) st vs,
    ThreadManager_EagerlyArchiveThread 1%nat sample_lazy = Ok (tt, c1) ∧
    thread_states c1 !! 2%nat = Some st ∧
    ThreadManager_MarkCompactPrologue true c1 = Ok (vs, c1) ∧
    ∃ off, VisitMarkCompactPrologue true (2%nat, off) ∈ vs ∧
           @block_at (sample_build true) Top off st =
           Archive_bytes Top (live sample_lazy).
Proof.
  destruct (walks_read_archived_blocks sample_lazy 1%nat 2%nat
              (λ s data,
                 (data.1, (data.2 + @footprint (sample_build true) s)%nat))
              eq_refl
              (after_reachable _ _ sample_lazy_after))
    as (c1 & st & Hrun & Hst & _ & Hmc & _).
  - intros s _ _. apply (sample_contract true s).
  - vm_compute. reflexivity.
  - reflexivity.
  - destruct (Hmc true) as (vs & off & Hvs & Hin & Hb).
    exists c1, st, vs. split_and!; try assumption. exists off. split; assumption.
Defined.

Section Termination_reach.
Context `{B : Build}.
Implicit Types (c : V8Context) (p q : ptr) (t : Thread).

(** [TerminateExecution] reaches eagerly archived threads only.  Called with
    the id of a thread that holds no archived state, the running thread
    among them, or with the id of the thread whose state is the lazy
    candidate, it returns and leaves the context as it was: no flag is set,
    and the thread is not asked to terminate when it next restores. *)
Theorem TerminateExecution_misses_unarchived c t :
  DEBUG = true →
  reachable c →
  thread_state_key_ (thread_manager_data_ c) !! t = None ∨
  lazily_archived_thread_ (thread_manager_data_ c) = Identity t →
  ThreadManager_TerminateExecution (id_of c t) c = Ok (tt, c).
Proof.
  intros Hdebug Hreach Hcase.
  destruct (reachable_Inv c Hdebug Hreach) as (fl & ul & Hinv).
  pose proof Hinv as [Hs Hl Htls Hinj Hfm Hum Hlm Hids Hidj].
  destruct (TerminateExecution_run (id_of c t) c _ _ _ Hs)
    as (h' & Hrun & Hlen & Hh').
  rewrite Hrun. do 2 f_equal.
  assert (Heq : h' = thread_states c).
  { apply list_eq. intros q. rewrite Hh'. case_decide as Hq; [|done].
    destruct (Hum q Hq) as (t' & f & Ht' & Hmeta & Hne).
    destruct (thread_states c !! q) as [st|]; [|done]. simpl in *.
    injection Hmeta as Hid _ _. unfold mark_terminate.
    case_bool_decide as Hsame; [|done]. exfalso.
    assert (t' = t) as ->.
    { apply Hidj; [congruence|done]. }
    destruct Hcase as [Hnone|Hlazy]; [congruence|].
    unfold lazy_slot_ok in Hl. rewrite Hlazy in Hl.
    destruct (lazily_archived_thread_state_ (thread_manager_data_ c))
      as [pl|] eqn:Hpl; [|done].
    assert (q = pl) as -> by congruence.
    assert (Hnd := shape_nodup _ _ _ _ _ _ Hs).
    apply list.NoDup_cons in Hnd as [_ Hnd].
    apply list.NoDup_cons in Hnd as [_ Hnd].
    apply NoDup_app in Hnd as (_ & _ & Hnd).
    apply NoDup_app in Hnd as (_ & Hd & _).
    apply (Hd pl Hq). unfold lazy_list. rewrite Hpl. set_solver. }
  rewrite Heq. by destruct c.
Qed.

End Termination_reach.

Lemma TerminateExecution_misses_unarchived_witness :
  ThreadManager_TerminateExecution 1 sample_lazy = Ok (tt, sample_lazy).
Proof.
  apply (TerminateExecution_misses_unarchived sample_lazy 1%nat eq_refl
           (after_reachable _ _ sample_lazy_after)).
  right. vm_compute. reflexivity.
Defined.

(** ** The binding of the execution context *)
Section Binding_runs.
Context `{B : Build}.
Variable ENABLE_DISASSEMBLER : bool.
Implicit Types (p : Process) (self t : Thread) (this : ContextPtr).

Lemma P_bind_run {A C} (m : P A) (k : A → P C) p x p1 :
  m p = Ok (x, p1) → (m ≫= k) p = k x p1.
Proof. unfold mbind, P_bind. by intros ->. Qed.

Lemma P_bind_fatal {A C} (m : P A) (k : A → P C) p :
  m p = Fatal → (m ≫= k) p = Fatal.
Proof. unfold mbind, P_bind. by intros ->. Qed.

(** [BindContext], forwards. *)
Lemma BindContext_slot_run self context p :
  (DEBUG = true → v8_context self p ≠ context) →
  BindContext self context false p =
  Ok (tt, with_context_key
            (match context with
             | Some v => <[self := v]>
             | None => delete self
             end) p).
Proof.
  intros Hne. unfold BindContext, P_ASSERT.
  rewrite (P_bind_run _ _ p (v8_context self p) p) by done.
  destruct DEBUG; [|done].
  by rewrite bool_decide_true by (by apply Hne).
Qed.

Lemma BindContext_slot_fatal self context p :
  DEBUG = true → v8_context self p = context →
  BindContext self context false p = Fatal.
Proof.
  intros Hd Heq. unfold BindContext, P_ASSERT.
  rewrite (P_bind_run _ _ p (v8_context self p) p) by done.
  rewrite Hd. by rewrite bool_decide_false by (by intros []).
Qed.

Lemma v8_context_slot self t context p :
  using_one_v8_instance p = false →
  v8_context t
    (with_context_key
       (match context with
        | Some v => <[self := v]>
        | None => delete self
        end) p) =
  if decide (t = self)
  then match context with Some v => Some v | None => default_context p end
  else v8_context t p.
Proof.
  intros Hu. unfold v8_context. simpl. rewrite Hu.
  destruct (decide (t = self)) as [->|Hne].
  - destruct context; by rewrite ?lookup_insert_eq, ?lookup_delete_eq.
  - destruct context; by rewrite ?lookup_insert_ne, ?lookup_delete_ne.
Qed.

Lemma hook_then self h (k : P unit) p :
  (hook self h;; k) p =
  k (with_effects (λ l, l ++ [EffHook h (v8_context self p)]) p).
Proof. done. Qed.

Lemma v8_context_with_effects self f p :
  v8_context self (with_effects f p) = v8_context self p.
Proof. done. Qed.

(** The construction of a context binds it for the functions it runs and
    binds again what the thread resolved before.  It returns unless
    [ASSERT] is checked, the mode is one slot per thread and the thread
    already resolves the context under construction.  Each function it runs
    finds the new context current; afterwards the thread resolves what it
    resolved before, the mode and the default context are as they were, and
    so is every slot in the single-instance mode.  In the other mode the
    slot of the thread holds what it resolved before, also where that was
    the default context found through an empty slot. *)
Theorem construction_binds_for_its_hooks self this p :
  (DEBUG = true → using_one_v8_instance p = false →
   v8_context self p ≠ Some this) →
  ∃ p',
    V8Context_new ENABLE_DISASSEMBLER self this p = Ok (tt, p') ∧
    effects p' =
      effects p ++
      ((λ h, EffHook h (Some this)) <$> PostConstruct_hooks ENABLE_DISASSEMBLER) ∧
    v8_context self p' = v8_context self p ∧
    using_one_v8_instance p' = using_one_v8_instance p ∧
    default_context p' = default_context p ∧
    (using_one_v8_instance p = true → context_key p' = context_key p) ∧
    (using_one_v8_instance p = false →
     context_key p' !! self = v8_context self p ∧
     ∀ t, t ≠ self → context_key p' !! t = context_key p !! t).
Proof.
  intros Hpre. destruct p as [d u tls e]. destruct u.
  - unfold PostConstruct_hooks.
    destruct ENABLE_DISASSEMBLER;
      (eexists; split;
       [unfold V8Context_new, BindContext_, hook; simpl; reflexivity|];
       simpl; rewrite <- ?app_assoc; split_and!; done).
  - simpl in Hpre.
    set (p := mkProcess d false tls e).
    set (p1 := with_context_key <[self := this]> p).
    assert (H1 : BindContext_ self (Some this) p = Ok (tt, p1)).
    { unfold BindContext_.
      rewrite (P_bind_run _ _ p false p) by done.
      apply (BindContext_slot_run self (Some this) p). intros Hd. by apply Hpre. }
    assert (Hcur : ∀ f, v8_context self (with_effects f p1) = Some this).
    { intros f. unfold v8_context. simpl. by rewrite lookup_insert_eq. }
    assert (H2 : ∀ f,
      BindContext_ self (v8_context self p) (with_effects f p1) =
      Ok (tt, with_context_key
                (match v8_context self p with
                 | Some v => <[self := v]>
                 | None => delete self
                 end) (with_effects f p1))).
    { intros f. unfold BindContext_.
      rewrite (P_bind_run _ _ (with_effects f p1) false (with_effects f p1)) by done.
      apply BindContext_slot_run. intros Hd. rewrite Hcur.
      intros Heq. by apply Hpre. }
    assert (Hrun : ∃ f,
      V8Context_new ENABLE_DISASSEMBLER self this p =
        BindContext_ self (v8_context self p) (with_effects f p1) ∧
      f e = e ++ ((λ h, EffHook h (Some this)) <$>
                    PostConstruct_hooks ENABLE_DISASSEMBLER)).
    { unfold V8Context_new, PostConstruct_hooks.
      rewrite (P_bind_run _ _ p (v8_context self p) p) by done.
      rewrite (P_bind_run _ _ _ _ _ H1).
      assert (Hcur0 : v8_context self p1 = Some this) by apply (Hcur id).
      destruct ENABLE_DISASSEMBLER; rewrite !hook_then;
        rewrite !v8_context_with_effects, !Hcur0.
      - exists (λ l, l ++ ((λ h, EffHook h (Some this)) <$>
                  [StackGuard_PostConstruct; Top_PostConstruct;
                   Runtime_PostConstruct; Assembler_PostConstruct;
                   Disassembler_PostConstruct])).
        split; [|done]. f_equal. unfold with_effects. simpl.
        by rewrite <- !app_assoc.
      - exists (λ l, l ++ ((λ h, EffHook h (Some this)) <$>
                  [StackGuard_PostConstruct; Top_PostConstruct;
                   Runtime_PostConstruct; Assembler_PostConstruct])).
        split; [|done]. f_equal. unfold with_effects. simpl.
        by rewrite <- !app_assoc. }
    destruct Hrun as (f & Hrun & Hf).
    eexists. split; [rewrite Hrun; apply H2|].
    split_and!.
      * exact Hf.
      * unfold v8_context. simpl.
        destruct (tls !! self) as [v|] eqn:Hv; simpl.
        -- by rewrite lookup_insert_eq.
        -- destruct d; by rewrite ?lookup_insert_eq, ?lookup_delete_eq.
      * done.
      * done.
      * done.
      * intros _. split.
        -- unfold v8_context. simpl.
           destruct (tls !! self) as [v|] eqn:Hv; simpl.
           ++ by rewrite lookup_insert_eq.
           ++ destruct d; by rewrite ?lookup_insert_eq, ?lookup_delete_eq.
        -- intros t Hne. simpl.
           destruct (v8_context self p);
             by rewrite ?lookup_insert_ne, ?lookup_delete_ne, ?lookup_insert_ne by done.
Qed.

(** The destruction of a context binds it for the functions it runs and
    then binds [NULL], not what was bound before.  Each function it runs
    finds the context current.  In the single-instance mode no thread
    resolves a context afterwards, whichever context was the default one; in
    the other mode the slot of the thread is empty afterwards and the thread
    resolves the default context. *)
Theorem destruction_unbinds self this p :
  (DEBUG = true → using_one_v8_instance p = false →
   v8_context self p ≠ Some this) →
  ∃ p',
    V8Context_destroy ENABLE_DISASSEMBLER self this p = Ok (tt, p') ∧
    effects p' =
      effects p ++
      ((λ h, EffHook h (Some this)) <$> PreDestroy_hooks ENABLE_DISASSEMBLER) ∧
    using_one_v8_instance p' = using_one_v8_instance p ∧
    (using_one_v8_instance p = true →
     default_context p' = None ∧ context_key p' = context_key p ∧
     ∀ t, v8_context t p' = None) ∧
    (using_one_v8_instance p = false →
     default_context p' = default_context p ∧
     context_key p' = delete self (context_key p) ∧
     v8_context self p' = default_context p).
Proof.
  intros Hpre. destruct p as [d u tls e]. destruct u.
  - unfold PreDestroy_hooks.
    destruct ENABLE_DISASSEMBLER;
      (eexists; split;
       [unfold V8Context_destroy, BindContext_, hook; simpl; reflexivity|];
       simpl; rewrite <- ?app_assoc; split_and!; done).
  - simpl in Hpre.
    set (p := mkProcess d false tls e).
    set (p1 := with_context_key <[self := this]> p).
    assert (H1 : BindContext_ self (Some this) p = Ok (tt, p1)).
    { unfold BindContext_.
      rewrite (P_bind_run _ _ p false p) by done.
      apply (BindContext_slot_run self (Some this) p). intros Hd. by apply Hpre. }
    assert (Hcur0 : v8_context self p1 = Some this).
    { unfold v8_context. simpl. by rewrite lookup_insert_eq. }
    assert (H2 : ∀ f,
      BindContext_ self None (with_effects f p1) =
      Ok (tt, with_context_key (delete self) (with_effects f p1))).
    { intros f. unfold BindContext_.
      rewrite (P_bind_run _ _ (with_effects f p1) false (with_effects f p1)) by done.
      apply (BindContext_slot_run self None). intros Hd.
      by rewrite v8_context_with_effects, Hcur0. }
    assert (Hrun : ∃ f,
      V8Context_destroy ENABLE_DISASSEMBLER self this p =
        BindContext_ self None (with_effects f p1) ∧
      f e = e ++ ((λ h, EffHook h (Some this)) <$>
                    PreDestroy_hooks ENABLE_DISASSEMBLER)).
    { unfold V8Context_destroy, PreDestroy_hooks.
      rewrite (P_bind_run _ _ _ _ _ H1).
      destruct ENABLE_DISASSEMBLER; rewrite !hook_then;
        rewrite !v8_context_with_effects, !Hcur0.
      - exists (λ l, l ++ ((λ h, EffHook h (Some this)) <$>
                  [ThreadManager_FreeThreadResources_; Top_PreDestroy;
                   StackGuard_PreDestroy; Runtime_PreDestroy;
                   Assembler_PreDestroy; Disassembler_PreDestroy])).
        split; [|done]. f_equal. unfold with_effects. simpl.
        by rewrite <- !app_assoc.
      - exists (λ l, l ++ ((λ h, EffHook h (Some this)) <$>
                  [ThreadManager_FreeThreadResources_; Top_PreDestroy;
                   StackGuard_PreDestroy; Runtime_PreDestroy;
                   Assembler_PreDestroy])).
        split; [|done]. f_equal. unfold with_effects. simpl.
        by rewrite <- !app_assoc. }
    destruct Hrun as (f & Hrun & Hf).
    eexists. split; [rewrite Hrun; apply H2|].
    split_and!; [exact Hf|done|done|].
    intros _. simpl. split_and!; [done| |].
    + by rewrite delete_insert_eq.
    + unfold v8_context. simpl. by rewrite lookup_delete_eq.
Qed.

(** [ASSERT] checked and one slot per thread, binding to a thread what it
    resolves already is fatal: so are the construction and the destruction
    of the context the thread resolves, a binder of it, and the end of a
    binder's scope on a thread that resolves no context. *)
Theorem binding_the_current_context_is_fatal self this p :
  DEBUG = true →
  using_one_v8_instance p = false →
  (v8_context self p = Some this →
   BindContext_ self (Some this) p = Fatal ∧
   V8ContextBinder_new self (Some this) false p = Fatal ∧
   V8Context_new ENABLE_DISASSEMBLER self this p = Fatal ∧
   V8Context_destroy ENABLE_DISASSEMBLER self this p = Fatal) ∧
  (v8_context self p = None →
   ∀ v, V8ContextBinder_destroy self (mkV8ContextBinder v false) p = Fatal).
Proof.
  intros Hd Hu. split.
  - intros Hcur.
    assert (Hb : BindContext self (Some this) false p = Fatal)
      by by apply BindContext_slot_fatal.
    assert (Hb' : BindContext_ self (Some this) p = Fatal).
    { unfold BindContext_.
      rewrite (P_bind_run _ _ p false p) by (by unfold P_gets; rewrite Hu).
      done. }
    split_and!; [done| | |].
    + unfold V8ContextBinder_new. cbv zeta. apply P_bind_fatal. exact Hb.
    + unfold V8Context_new.
      rewrite (P_bind_run _ _ p (v8_context self p) p) by done.
      apply P_bind_fatal. exact Hb'.
    + unfold V8Context_destroy. apply P_bind_fatal. exact Hb'.
  - intros Hcur v. unfold V8ContextBinder_destroy. simpl.
    by apply BindContext_slot_fatal.
Qed.

(** The scope of a binder ends on [NULL], not on what was bound when it
    began.  A binder of the default context leaves no default context,
    whichever there was.  With one slot per thread, when a binder of [b] is
    nested in a binder of [a], the thread resolves the default context once
    the inner scope has ended, as if [a] had not been bound; the end of the
    outer scope then changes nothing, and is fatal if [ASSERT] is checked
    and there is no default context. *)
Theorem binder_scope_forgets_prior_binding self (a b : ContextPtr) p :
  using_one_v8_instance p = false →
  (DEBUG = true → v8_context self p ≠ Some a) →
  a ≠ b →
  (∀ v, ∃ p1,
     V8ContextBinder_new self v true p = Ok (mkV8ContextBinder v true, p1) ∧
     default_context p1 = v ∧
     V8ContextBinder_destroy self (mkV8ContextBinder v true) p1 =
       Ok (tt, set_default_context None p)) ∧
  ∃ outer inner p1 p2 p3,
    V8ContextBinder_new self (Some a) false p = Ok (outer, p1) ∧
    v8_context self p1 = Some a ∧
    V8ContextBinder_new self (Some b) false p1 = Ok (inner, p2) ∧
    v8_context self p2 = Some b ∧
    V8ContextBinder_destroy self inner p2 = Ok (tt, p3) ∧
    context_key p3 = delete self (context_key p) ∧
    v8_context self p3 = default_context p ∧
    V8ContextBinder_destroy self outer p3 =
      (if DEBUG && bool_decide (default_context p = None)
       then Fatal else Ok (tt, p3)).
Proof.
  intros Hu Ha Hab. split.
  - intros v. eexists. split_and!; [reflexivity|done|]. by destruct p.
  - set (p1 := with_context_key <[self := a]> p).
    set (p2 := with_context_key <[self := b]> p1).
    set (p3 := with_context_key (delete self) p2).
    assert (H1 : BindContext self (Some a) false p = Ok (tt, p1))
      by by apply (BindContext_slot_run self (Some a)).
    assert (Hc1 : v8_context self p1 = Some a).
    { unfold v8_context. simpl. by rewrite Hu, lookup_insert_eq. }
    assert (H2 : BindContext self (Some b) false p1 = Ok (tt, p2)).
    { apply (BindContext_slot_run self (Some b)). rewrite Hc1. congruence. }
    assert (Hc2 : v8_context self p2 = Some b).
    { unfold v8_context. simpl. by rewrite Hu, lookup_insert_eq. }
    assert (H3 : BindContext self None false p2 = Ok (tt, p3)).
    { apply (BindContext_slot_run self None). by rewrite Hc2. }
    assert (Hk3 : context_key p3 = delete self (context_key p)).
    { simpl. by rewrite !delete_insert_eq. }
    assert (Hc3 : v8_context self p3 = default_context p).
    { unfold v8_context. rewrite Hk3. simpl. by rewrite Hu, lookup_delete_eq. }
    exists (mkV8ContextBinder (Some a) false), (mkV8ContextBinder (Some b) false),
      p1, p2, p3.
    split_and!; try done.
    + unfold V8ContextBinder_new. cbv zeta.
      by rewrite (P_bind_run _ _ _ _ _ H1).
    + unfold V8ContextBinder_new. cbv zeta.
      by rewrite (P_bind_run _ _ _ _ _ H2).
    + unfold V8ContextBinder_destroy. cbn [bound_default_].
      destruct DEBUG eqn:Hd; cbn [andb]; [case_bool_decide as Hnone|].
      * apply BindContext_slot_fatal; [done|]. by rewrite Hc3.
      * rewrite (BindContext_slot_run self None p3) by (by rewrite Hc3).
        do 2 f_equal. destruct p as [d u tls e]. unfold p3, p2, p1.
        unfold with_context_key. simpl. f_equal.
        by rewrite !delete_insert_eq, delete_delete_eq.
      * rewrite (BindContext_slot_run self None p3) by (intros; congruence).
        do 2 f_equal. destruct p as [d u tls e]. unfold p3, p2, p1.
        unfold with_context_key. simpl. f_equal.
        by rewrite !delete_insert_eq, delete_delete_eq.
Qed.

Lemma P_bind_Ok {A C} (m : P A) (k : A → P C) p r p' :
  (m ≫= k) p = Ok (r, p') → ∃ x p1, m p = Ok (x, p1) ∧ k x p1 = Ok (r, p').
Proof.
  unfold mbind, P_bind. destruct (m p) as [[x p1]| | |]; [|done..].
  intros Hk. by exists x, p1.
Qed.

Lemma BindContext_mode self context bind_default p r p' :
  BindContext self context bind_default p = Ok (r, p') →
  using_one_v8_instance p' = using_one_v8_instance p.
Proof.
  unfold BindContext. destruct bind_default.
  - intros [= _ <-]. done.
  - intros H. apply P_bind_Ok in H as (cur & p1 & [= <- <-] & H).
    apply P_bind_Ok in H as ([] & p2 & Ha & [= _ <-]).
    unfold P_ASSERT, mret, P_ret in Ha.
    destruct DEBUG; [case_bool_decide|]; by simplify_eq.
Qed.

Lemma BindContext__mode self context p r p' :
  BindContext_ self context p = Ok (r, p') →
  using_one_v8_instance p' = using_one_v8_instance p.
Proof.
  unfold BindContext_. intros H.
  apply P_bind_Ok in H as (bd & p1 & [= <- <-] & H).
  by eapply BindContext_mode.
Qed.

Lemma hook_mode self h p r p' :
  hook self h p = Ok (r, p') →
  using_one_v8_instance p' = using_one_v8_instance p.
Proof. by intros [= _ <-]. Qed.

Lemma optional_hook_mode self (b : bool) h p r p' :
  (if b then hook self h else mret tt) p = Ok (r, p') →
  using_one_v8_instance p' = using_one_v8_instance p.
Proof. destruct b; [apply hook_mode|by intros [= _ <-]]. Qed.

Lemma binding_call_mode self k p p' :
  binding_call ENABLE_DISASSEMBLER self k p = Ok (tt, p') →
  using_one_v8_instance p' =
  match k with
  | CallAllowSeveralV8InstancesInProcess => false
  | _ => using_one_v8_instance p
  end.
Proof.
  destruct k; simpl; intros H.
  - by injection H as <-.
  - by eapply BindContext__mode.
  - apply P_bind_Ok in H as (x & p1 & H & [= <-]).
    unfold V8ContextBinder_new in H. cbv zeta in H.
    apply P_bind_Ok in H as (y & p2 & H & [= _ <-]).
    by eapply BindContext_mode.
  - by eapply BindContext_mode.
  - unfold V8Context_new in H.
    apply P_bind_Ok in H as (prev & p0 & [= <- <-] & H).
    repeat (apply P_bind_Ok in H as ([] & ? & ?%BindContext__mode & H)
            || apply P_bind_Ok in H as ([] & ? & ?%hook_mode & H)
            || apply P_bind_Ok in H as ([] & ? & ?%optional_hook_mode & H)).
    apply BindContext__mode in H. congruence.
  - unfold V8Context_destroy in H.
    repeat (apply P_bind_Ok in H as ([] & ? & ?%BindContext__mode & H)
            || apply P_bind_Ok in H as ([] & ? & ?%hook_mode & H)
            || apply P_bind_Ok in H as ([] & ? & ?%optional_hook_mode & H)).
    apply BindContext__mode in H. congruence.
  - apply P_bind_Ok in H as (x & p1 & H & [= <-]).
    unfold V8ResourceLocker_new in H.
    apply P_bind_Ok in H as (one & p2 & [= <- <-] & H).
    destruct (negb (using_one_v8_instance p)).
    + apply P_bind_Ok in H as ([] & p3 & [= <-] & [= _ <-]). done.
    + by injection H as _ <-.
  - unfold V8ResourceLocker_destroy in H.
    destruct (locked_ this); by injection H as <-.
Qed.

(** The binding mode changes once at most.  No call that returns brings the
    single-instance mode back, and the only call that leaves it is the
    construction of [AllowSeveralV8InstancesInProcess], at whatever point
    of the run it is made. *)
Theorem binding_mode_is_never_reset p p' :
  rtc (binding_step ENABLE_DISASSEMBLER) p p' →
  using_one_v8_instance p = false →
  using_one_v8_instance p' = false ∧
  (∀ q self k q',
     binding_call ENABLE_DISASSEMBLER self k q = Ok (tt, q') →
     using_one_v8_instance q = true → using_one_v8_instance q' = false →
     k = CallAllowSeveralV8InstancesInProcess) ∧
  (∀ q, ∃ q',
     binding_call ENABLE_DISASSEMBLER 0%nat
       CallAllowSeveralV8InstancesInProcess q = Ok (tt, q') ∧
     using_one_v8_instance q' = false).
Proof.
  intros Hsteps Hu. split_and!.
  - induction Hsteps as [|p p1 p2 (self & k & Hk) _ IH]; [done|].
    apply IH. apply binding_call_mode in Hk. rewrite Hk. by destruct k.
  - intros q self k q' Hk Hq Hq'. apply binding_call_mode in Hk.
    destruct k; [done|congruence..].
  - intros q. by eexists.
Qed.

(** A [V8ResourceLocker] takes its lock in the mode of one slot per thread
    only, and its destruction releases the lock exactly when the
    construction took it: the mode at the construction decides, whatever
    the mode and the bindings are at the end of the scope.  Neither call
    touches the bindings. *)
Theorem resource_locker_is_balanced lock p :
  ∃ (locker : V8ResourceLocker) p1,
    V8ResourceLocker_new lock p = Ok (locker, p1) ∧
    effects p1 =
      effects p ++ (if using_one_v8_instance p then [] else [EffLock lock]) ∧
    default_context p1 = default_context p ∧
    using_one_v8_instance p1 = using_one_v8_instance p ∧
    context_key p1 = context_key p ∧
    ∀ p2, ∃ p3,
      V8ResourceLocker_destroy locker p2 = Ok (tt, p3) ∧
      effects p3 =
        effects p2 ++
        (if using_one_v8_instance p then [] else [EffUnlock lock]) ∧
      default_context p3 = default_context p2 ∧
      using_one_v8_instance p3 = using_one_v8_instance p2 ∧
      context_key p3 = context_key p2.
Proof.
  destruct p as [d [] tls e]; (eexists _, _; split; [reflexivity|]); simpl.
  - rewrite app_nil_r. split_and!; [done..|].
    intros p2. exists p2. simpl. by rewrite app_nil_r.
  - split_and!; [done..|]. intros p2. by eexists.
Qed.

End Binding_runs.

(** The process the witnesses run on: the static context at address 0 is
    the default one, and the mode is one slot per thread. *)
Lemma construction_binds_for_its_hooks_witness :
  ∃ p',
    @V8Context_new (sample_build true) true 1%nat 7%nat
      (mkProcess (Some 0%nat) false ∅ []) = Ok (tt, p') ∧
    v8_context 1%nat p' = Some 0%nat ∧
    context_key p' !! 1%nat = Some 0%nat.
Proof.
  destruct (@construction_binds_for_its_hooks (sample_build true) true
              1%nat 7%nat (mkProcess (Some 0%nat) false ∅ []))
    as (p' & Hrun & _ & Hcur & _ & _ & _ & Hslot).
  - intros _ _. vm_compute. discriminate.
  - exists p'. split_and!; [exact Hrun|exact Hcur|].
    apply (proj1 (Hslot eq_refl)).
Defined.

Lemma destruction_unbinds_witness :
  ∃ p',
    @V8Context_destroy (sample_build true) true 1%nat 7%nat
      (mkProcess (Some 0%nat) false {[1%nat := 3%nat]} []) = Ok (tt, p') ∧
    v8_context 1%nat p' = Some 0%nat.
Proof.
  destruct (@destruction_unbinds (sample_build true) true
              1%nat 7%nat (mkProcess (Some 0%nat) false {[1%nat := 3%nat]} []))
    as (p' & Hrun & _ & _ & _ & Hslot).
  - intros _ _. vm_compute. discriminate.
  - exists p'. split; [exact Hrun|].
    apply (proj2 (proj2 (Hslot eq_refl))).
Defined.

Lemma binding_the_current_context_is_fatal_witness :
  @V8Context_destroy (sample_build true) true 1%nat 3%nat
    (mkProcess (Some 0%nat) false {[1%nat := 3%nat]} []) = Fatal.
Proof.
  destruct (@binding_the_current_context_is_fatal (sample_build true) true
              1%nat 3%nat (mkProcess (Some 0%nat) false {[1%nat := 3%nat]} [])
              eq_refl eq_refl) as [Hcur _].
  destruct Hcur as (_ & _ & _ & H); [vm_compute; reflexivity|exact H].
Defined.

Lemma binder_scope_forgets_prior_binding_witness :
  ∃ outer inner p1 p2 p3,
    @V8ContextBinder_new (sample_build true) 1%nat (Some 3%nat) false
      (mkProcess (Some 0%nat) false ∅ []) = Ok (outer, p1) ∧
    @V8ContextBinder_new (sample_build true) 1%nat (Some 4%nat) false p1 =
      Ok (inner, p2) ∧
    @V8ContextBinder_destroy (sample_build true) 1%nat inner p2 = Ok (tt, p3) ∧
    v8_context 1%nat p3 = Some 0%nat.
Proof.
  destruct (@binder_scope_forgets_prior_binding (sample_build true)
              1%nat 3%nat 4%nat (mkProcess (Some 0%nat) false ∅ []) eq_refl)
    as (_ & outer & inner & p1 & p2 & p3 & H1 & _ & H2 & _ & H3 & _ & H4 & _).
  - intros _. vm_compute. discriminate.
  - lia.
  - exists outer, inner, p1, p2, p3. split_and!; assumption.
Defined.

Lemma binding_mode_is_never_reset_witness :
  ∃ p',
    @binding_call (sample_build true) true 1%nat (CallV8Context 7%nat)
      (mkProcess (Some 0%nat) false ∅ []) = Ok (tt, p') ∧
    using_one_v8_instance p' = false.
Proof.
  eexists. split; [vm_compute; reflexivity|].
  apply (@binding_mode_is_never_reset (sample_build true) true
           (mkProcess (Some 0%nat) false ∅ [])); [|reflexivity].
  apply rtc_once. exists 1%nat, (CallV8Context 7%nat).
  vm_compute. reflexivity.
Defined.

(** ** The lock taken over from a lazy candidate *)
Section Forced_archive_paths.
Context `{B : Build}.
Implicit Types (c : V8Context) (p q : ptr) (t u : Thread).

Lemma AssignId_assigns self c :
  observes_locked self c = true →
  0 ≤ last_id_ (thread_manager_data_ c) < 2 ^ 31 - 1 →
  ∃ c', ThreadManager_AssignId self c = Ok (tt, c') ∧
        id_of c' self ≠ 0.
Proof.
  intros Hlock Hlast. destruct (decide (id_of c self = 0)) as [Hid|Hid].
  - destruct (AssignId_fresh c self Hid Hlock Hlast) as (c' & Hrun & Hnew & _).
    exists c'. split; [done|]. rewrite Hnew. lia.
  - exists c. split; [by apply AssignId_has_id|done].
Qed.

(** [RestoreThread] called by [u] while another thread is the lazy
    candidate: the state of the candidate is committed, and then [u] is
    restored or found to be new. *)
Lemma RestoreThread_commits c u t p fl ul :
  Inv c fl ul →
  lazily_archived_thread_ (thread_manager_data_ c) = Identity t →
  lazily_archived_thread_state_ (thread_manager_data_ c) = Some p →
  u ≠ t →
  (∀ s, s ∈ subsystem_order → s ≠ RegExpStack → Archive_fills s) →
  ∃ c2 fl2 ul2 post,
    ThreadManager_RestoreThread u c =
      Ok (bool_decide (thread_state_key_ (thread_manager_data_ c) !! u ≠ None),
          c2) ∧
    Inv c2 fl2 ul2 ∧ p ∈ ul2 ∧
    data_ <$> thread_states c2 !! p =
      Some (archive_seq subsystem_order (live c)).1 ∧
    lazily_archived_thread_ (thread_manager_data_ c2) = INVALID ∧
    thread_state_key_ (thread_manager_data_ c2) !! u = None ∧
    control_view c2 = control_view c ∧
    trace c2 = trace c ++ (EvArchive <$> subsystem_order) ++ post ∧
    (∀ s, EvArchive s ∉ post).
Proof.
  intros Hinv Hlz Hls Hne Hfill.
  destruct (EagerlyArchiveThread_result c u fl ul p Hinv Hls Hfill)
    as (cE & HrunE & HinvE & HtrE & HliveE & HdataE & HflagE & HpayE & HkeyE
        & HlzE & HlsE).
  pose proof (RestoreThread_forces_eager c u t cE Hlz (not_eq_sym Hne) HrunE HlzE)
    as Hforce.
  destruct (thread_state_key_ (thread_manager_data_ c) !! u) as [q|] eqn:Htls.
  - rewrite bool_decide_true by done.
    destruct (inv_tls _ _ _ Hinv u q Htls) as [Hin|[Hc _]]; [|congruence].
    assert (Hqp : q ≠ p).
    { intros ->. pose proof (shape_nodup _ _ _ _ _ _ (inv_shape _ _ _ HinvE)) as Hnd.
      apply list.NoDup_cons in Hnd as [_ Hnd].
      apply list.NoDup_cons in Hnd as [_ Hnd].
      apply NoDup_app in Hnd as (_ & _ & Hnd).
      apply NoDup_app in Hnd as (Hnd & _ & _).
      apply list.NoDup_cons in Hnd as [Hnd _]. done. }
    destruct (inv_use_meta _ _ _ HinvE q ltac:(by right)) as (t' & f & _ & Hmeta & _).
    destruct (thread_states cE !! q) as [st|] eqn:Hq; [|done].
    apply list_elem_of_split in Hin as (l1 & l2 & ->).
    assert (HtlsE : thread_state_key_ (thread_manager_data_ cE) !! u = Some q)
      by (by rewrite HkeyE).
    destruct (RestoreThread_archived_run cE u fl (p :: l1) q l2 st HinvE HlzE HtlsE Hq)
      as (c2 & Hrun & Htr & _ & Htmd & Hshape & _ & Hpay).
    assert (Hrun' : ThreadManager_RestoreThread u c = Ok (true, c2))
      by (by rewrite Hforce).
    destruct (RestoreThread_Inv _ _ _ _ _ _ HinvE Hrun) as (fl2 & ul2 & Hinv2).
    destruct (Inv_lists _ _ _ Hinv2) as [_ Hul2].
    assert (Hul : ul2 = (p :: l1) ++ l2).
    { rewrite <- Hul2. unfold in_use_list. rewrite Htmd. simpl.
      by eapply Shape_use_entries. }
    exists c2, fl2, ul2,
      ((EvRestore <$> subsystem_order) ++
       (if terminate_on_restore_ st
        then [EvStackGuard TerminateExecution] else [])).
    split_and!; try done.
    + rewrite Hul. by left.
    + specialize (Hpay p (not_eq_sym Hqp)). rewrite <- HdataE.
      destruct (thread_states c2 !! p) as [x|], (thread_states cE !! p) as [y|];
        simpl in *; try done. unfold payload in Hpay. congruence.
    + by rewrite Htmd.
    + rewrite Htmd. simpl. apply lookup_delete_eq.
    + by eapply RestoreThread_same_control.
    + by rewrite Htr, HtrE, <- app_assoc.
    + intros s Hin. apply elem_of_app in Hin as [Hin|Hin].
      * apply list_elem_of_fmap in Hin as (s' & Hs' & _). done.
      * destruct (terminate_on_restore_ st); set_solver.
  - rewrite bool_decide_false by (by intros []).
    assert (HtlsE : thread_state_key_ (thread_manager_data_ cE) !! u = None)
      by (by rewrite HkeyE).
    pose proof (RestoreThread_none_run cE u HlzE HtlsE) as Hrun.
    rewrite <- Hforce in Hrun.
    eexists _, fl, (p :: ul), [EvStackGuard InitThread].
    split; [exact Hrun|]. split_and!.
    + eapply Inv_same_links; [|exact HinvE]. done.
    + by left.
    + simpl. exact HdataE.
    + done.
    + done.
    + by eapply RestoreThread_same_control.
    + simpl. by rewrite HtrE, <- app_assoc.
    + set_solver.
Qed.

(** [ArchiveThread] called by [u] once the slot is empty leaves the
    committed states as they are. *)
Lemma ArchiveThread_keeps c u p fl ul :
  DEBUG = true →
  Inv c fl ul →
  p ∈ ul →
  lazily_archived_thread_ (thread_manager_data_ c) = INVALID →
  thread_state_key_ (thread_manager_data_ c) !! u = None →
  id_of c u ≠ 0 →
  ∃ c4 p' fl',
    ThreadManager_ArchiveThread u c = Ok (tt, c4) ∧
    Inv c4 fl' ul ∧
    lazily_archived_thread_ (thread_manager_data_ c4) = Identity u ∧
    lazily_archived_thread_state_ (thread_manager_data_ c4) = Some p' ∧
    p' ≠ p ∧
    data_ <$> thread_states c4 !! p = data_ <$> thread_states c !! p ∧
    trace c4 = trace c ∧ live c4 = live c ∧
    mutex_ (thread_manager_data_ c4) = mutex_ (thread_manager_data_ c) ∧
    mutex_owner_ (thread_manager_data_ c4) =
      mutex_owner_ (thread_manager_data_ c).
Proof.
  intros Hdebug Hinv Hp Hlz Htls Hid.
  destruct (ArchiveThread_run_exact c u fl ul Hinv Hlz Htls Hid)
    as (p' & h' & sp & fl' & c4 & Hrun & Hts & _ & _ & _ & _ & Hpay & Hls4).
  destruct (ArchiveThread_Inv _ _ _ _ _ Hdebug Hinv Hrun)
    as (p'' & fl'' & Hinv4 & _ & Hls4' & Hlz4 & Htr & Hlive).
  assert (p'' = p') as -> by congruence.
  assert (Hls0 : lazily_archived_thread_state_ (thread_manager_data_ c) = None).
  { pose proof (inv_lazy _ _ _ Hinv) as Hl. unfold lazy_slot_ok in Hl.
    rewrite Hlz in Hl.
    by destruct (lazily_archived_thread_state_ (thread_manager_data_ c)). }
  destruct (ArchiveThread_mutex c u fl ul c4 Hinv Hls0 Hrun) as (Hm & Ho & _).
  assert (Hne : p' ≠ p).
  { intros ->. pose proof (shape_nodup _ _ _ _ _ _ (inv_shape _ _ _ Hinv4)) as Hnd.
    unfold lazy_list in Hnd. rewrite Hls4 in Hnd.
    apply list.NoDup_cons in Hnd as [_ Hnd].
    apply list.NoDup_cons in Hnd as [_ Hnd].
    apply NoDup_app in Hnd as (_ & _ & Hnd).
    apply NoDup_app in Hnd as (_ & Hd & _).
    apply (Hd p Hp). set_solver. }
  assert (Hlt : (p < length (thread_states c))%nat).
  { apply (shape_all _ _ _ _ _ _ (inv_shape _ _ _ Hinv)). set_solver. }
  exists c4, p', fl''. split_and!; try done.
  rewrite Hts, list_lookup_insert_ne by done.
  specialize (Hpay p Hlt).
  destruct (h' !! p) as [x|], (thread_states c !! p) as [y|];
    simpl in *; try done. unfold payload in Hpay. congruence.
Qed.

(** The constructor of a [Locker] of [u] while another thread is the lazy
    candidate and the lock is free. *)
Lemma Locker_commits c u t p fl ul :
  DEBUG = true →
  Inv c fl ul →
  mutex_ (thread_manager_data_ c) = None →
  mutex_owner_ (thread_manager_data_ c) = INVALID →
  lazily_archived_thread_ (thread_manager_data_ c) = Identity t →
  lazily_archived_thread_state_ (thread_manager_data_ c) = Some p →
  u ≠ t →
  (∀ s, s ∈ subsystem_order → s ≠ RegExpStack → Archive_fills s) →
  0 ≤ last_id_ (thread_manager_data_ c) < 2 ^ 31 - 1 →
  ∃ c3 fl3 ul3 post,
    Locker_Locker u c =
      Ok (mkLocker true
            (bool_decide
               (thread_state_key_ (thread_manager_data_ c) !! u = None)),
          c3) ∧
    Inv c3 fl3 ul3 ∧ p ∈ ul3 ∧
    data_ <$> thread_states c3 !! p =
      Some (archive_seq subsystem_order (live c)).1 ∧
    lazily_archived_thread_ (thread_manager_data_ c3) = INVALID ∧
    thread_state_key_ (thread_manager_data_ c3) !! u = None ∧
    mutex_ (thread_manager_data_ c3) = Some u ∧
    mutex_owner_ (thread_manager_data_ c3) = Identity u ∧
    id_of c3 u ≠ 0 ∧
    trace c3 =
      trace c ++ (if is_running c then [] else [EvV8Initialize]) ++
      (EvArchive <$> subsystem_order) ++ post ∧
    (∀ s, EvArchive s ∉ post).
Proof.
  intros Hdebug Hinv Hmutex Howner Hlz Hls Hne Hfill Hlast.
  set (cL := with_tmd (set_mutex_owner (Identity u))
               (with_tmd (set_mutex (Some u)) (set_active true c))).
  set (cI := if is_running c then cL
             else with_trace (λ tr, tr ++ [EvV8Initialize]) (set_is_running true cL)).
  assert (HinvI : Inv cI fl ul).
  { eapply Inv_same_links; [|exact Hinv]. unfold cI. by destruct (is_running c). }
  assert (HlzI : lazily_archived_thread_ (thread_manager_data_ cI) = Identity t)
    by (unfold cI; by destruct (is_running c)).
  assert (HlsI : lazily_archived_thread_state_ (thread_manager_data_ cI) = Some p)
    by (unfold cI; by destruct (is_running c)).
  assert (HliveI : live cI = live c) by (unfold cI; by destruct (is_running c)).
  assert (HkeyI : thread_state_key_ (thread_manager_data_ cI) =
                  thread_state_key_ (thread_manager_data_ c))
    by (unfold cI; by destruct (is_running c)).
  assert (HtrI : trace cI =
                 trace c ++ (if is_running c then [] else [EvV8Initialize])).
  { unfold cI. destruct (is_running c); simpl; by rewrite ?app_nil_r. }
  destruct (RestoreThread_commits cI u t p fl ul HinvI HlzI HlsI Hne Hfill)
    as (cR & flR & ulR & post & HrunR & HinvR & HpR & HdataR & HlzR & HtlsR
        & HcvR & HtrR & Hpost).
  rewrite HkeyI in HrunR. rewrite HliveI in HdataR.
  apply control_view_fields in HcvR as (HmR & HoR & HlR & _).
  assert (HmutR : mutex_ (thread_manager_data_ cR) = Some u).
  { rewrite HmR. unfold cI. by destruct (is_running c). }
  assert (HownR : mutex_owner_ (thread_manager_data_ cR) = Identity u).
  { rewrite HoR. unfold cI. by destruct (is_running c). }
  assert (HlastR : last_id_ (thread_manager_data_ cR) =
                   last_id_ (thread_manager_data_ c)).
  { rewrite HlR. unfold cI. by destruct (is_running c). }
  assert (HrunL : ∀ (k : bool → M Locker),
    Locker_Locker u c =
    (restored ← ThreadManager_RestoreThread u;
     this ← (if restored : bool then mret (mkLocker true false)
             else StackGuard_call ClearThread;;
                  StackGuard_call InitThread;;
                  mret (mkLocker true true));
     locked ← ThreadManager_IsLockedByCurrentThread u;
     ASSERT locked;;
     ThreadManager_AssignId u;;
     mret this) cI).
  { intros _. unfold Locker_Locker. run_unfold. simpl. unfold IsSelf.
    rewrite Howner. rewrite (bool_decide_false (INVALID = Identity u)) by done.
    simpl. rewrite (Lock_run u (set_active true c)) by done.
    fold cL. unfold V8_IsRunning, V8_Initialize. run_unfold.
    change (is_running cL) with (is_running c).
    subst cI. clear. destruct (is_running c); simpl;
      by destruct (ThreadManager_RestoreThread _ _) as [[? ?]| | |]. }
  specialize (HrunL (λ _, mret (mkLocker true true))).
  rewrite HrunL. rewrite (bind_run _ _ _ _ _ HrunR).
  destruct (thread_state_key_ (thread_manager_data_ c) !! u) as [q|] eqn:Htls.
  - rewrite (bool_decide_true (Some q ≠ None)) by done.
    rewrite (bool_decide_false (Some q = None)) by done.
    destruct (AssignId_assigns u cR) as (c3 & Hassign & Hid3).
    { unfold observes_locked, IsSelf. by rewrite HownR, bool_decide_true. }
    { by rewrite HlastR. }
    exists c3, flR, ulR, post. split.
    + run_unfold. unfold IsSelf. rewrite HownR, bool_decide_true by done.
      rewrite ASSERT_true by done. by rewrite Hassign.
    + pose proof (AssignId_Inv _ _ _ _ _ _ Hdebug HinvR Hassign) as Hinv3.
      apply AssignId_frame in Hassign as (Htr3 & Hst & Hav & Hown & Hmut & _).
      unfold archive_view in Hav. injection Hav as _ _ Hlz3 _ Hkey3.
      split; [done|]. rewrite Hmut, Hown, Hlz3, Hkey3, Hst, Htr3.
      split_and!; try done.
      by rewrite HtrR, HtrI, <- app_assoc.
  - rewrite (bool_decide_false (None ≠ None)) by (by intros []).
    rewrite (bool_decide_true (None = None)) by done.
    set (cF := with_trace (λ tr, tr ++ [EvStackGuard InitThread])
                 (with_live (with_ext StackGuard (StackGuard_effect InitThread))
                    (with_trace (λ tr, tr ++ [EvStackGuard ClearThread])
                       (with_live (with_ext StackGuard
                                     (StackGuard_effect ClearThread)) cR)))).
    assert (HinvF : Inv cF flR ulR).
    { eapply Inv_same_links; [|exact HinvR]. done. }
    destruct (AssignId_assigns u cF) as (c3 & Hassign & Hid3).
    { unfold observes_locked, IsSelf. simpl. by rewrite HownR, bool_decide_true. }
    { simpl. by rewrite HlastR. }
    exists c3, flR, ulR,
      (post ++ [EvStackGuard ClearThread; EvStackGuard InitThread]).
    split.
    + unfold StackGuard_call. run_unfold. fold cF. unfold IsSelf.
      simpl. rewrite HownR, bool_decide_true by done.
      rewrite ASSERT_true by done. by rewrite Hassign.
    + pose proof (AssignId_Inv _ _ _ _ _ _ Hdebug HinvF Hassign) as Hinv3.
      apply AssignId_frame in Hassign as (Htr3 & Hst & Hav & Hown & Hmut & _).
      unfold archive_view in Hav. injection Hav as _ _ Hlz3 _ Hkey3.
      split; [done|]. rewrite Hmut, Hown, Hlz3, Hkey3, Hst, Htr3.
      split_and!; try done.
      * simpl. rewrite HtrR, HtrI. rewrite <- !app_assoc. done.
      * intros s Hin. apply elem_of_app in Hin as [Hin|Hin]; [by eapply Hpost|].
        set_solver.
Qed.

Lemma committed_Inv c p bytes fl ul :
  Inv c fl ul → p ∈ ul →
  data_ <$> thread_states c !! p = Some bytes →
  committed c p bytes.
Proof.
  intros Hinv Hp Hdata. split; [|done].
  destruct (Inv_lists _ _ _ Hinv) as [_ ->]. done.
Qed.

(** [ArchiveThread] and then [Unlock], as the constructor of an [Unlocker]
    and the destructor of a [Locker] that is not top-level run them. *)
Lemma ArchiveThread_Unlock_keeps c u p bytes fl ul :
  DEBUG = true →
  Inv c fl ul →
  p ∈ ul →
  data_ <$> thread_states c !! p = Some bytes →
  lazily_archived_thread_ (thread_manager_data_ c) = INVALID →
  thread_state_key_ (thread_manager_data_ c) !! u = None →
  id_of c u ≠ 0 →
  mutex_ (thread_manager_data_ c) = Some u →
  ∃ c4,
    (ThreadManager_ArchiveThread u;; ThreadManager_Unlock u) c = Ok (tt, c4) ∧
    lazily_archived_thread_ (thread_manager_data_ c4) = Identity u ∧
    lazily_archived_thread_state_ (thread_manager_data_ c4) ≠ Some p ∧
    committed c4 p bytes ∧
    trace c4 = trace c.
Proof.
  intros Hdebug Hinv Hp Hdata Hlz Htls Hid Hmutex.
  destruct (ArchiveThread_keeps c u p fl ul Hdebug Hinv Hp Hlz Htls Hid)
    as (cA & p' & fl' & Hrun & HinvA & HlzA & HlsA & Hne & HdataA & HtrA & _
        & HmA & _).
  rewrite Hmutex in HmA.
  pose proof (Unlock_run u cA HmA) as Hun.
  eexists. split; [by rewrite (bind_run _ _ _ _ _ Hrun)|].
  simpl. split_and!; try done.
  - rewrite HlsA. congruence.
  - apply (committed_Inv _ p bytes fl' ul).
    + eapply Inv_same_links; [|exact HinvA]. done.
    + done.
    + simpl. by rewrite HdataA.
Qed.

(** C7: forced eager archive.  While thread [t] is the lazy candidate,
    a [RestoreThread] of another thread [u] commits the state of [t] before
    it goes on: it runs [EagerlyArchiveThread], which puts the ThreadState of
    [t] at the head of the in-use list, has every subsystem write its data
    into the buffer, in order, and empties the lazy slot; what [RestoreThread]
    does then is what it does on a context with no candidate.  An
    [ArchiveThread] of [u] does not run with the candidate pending.  It is
    run by the constructor of an [Unlocker] and by the destructor of a
    [Locker], by a thread that holds the lock; [u] takes the lock in the
    constructor of a [Locker] or the destructor of an [Unlocker], which run
    [RestoreThread]: the state of [t] is committed when either returns, and
    stays so when the [ArchiveThread] of [u] has made [u] the candidate. *)
Theorem forced_eager_archive c t u :
  DEBUG = true →
  reachable c →
  lazily_archived_thread_ (thread_manager_data_ c) = Identity t →
  u ≠ t →
  (∀ s, s ∈ subsystem_order → s ≠ RegExpStack → Archive_fills s) →
  let bytes := (archive_seq subsystem_order (live c)).1 in
  ∃ p c1 c2,
    lazily_archived_thread_state_ (thread_manager_data_ c) = Some p ∧
    ThreadManager_EagerlyArchiveThread u c = Ok (tt, c1) ∧
    in_use_list c1 = p :: in_use_list c ∧
    free_list c1 = free_list c ∧
    trace c1 = trace c ++ (EvArchive <$> subsystem_order) ∧
    data_ <$> thread_states c1 !! p = Some bytes ∧
    lazily_archived_thread_ (thread_manager_data_ c1) = INVALID ∧
    lazily_archived_thread_state_ (thread_manager_data_ c1) = None ∧
    ThreadManager_RestoreThread u c = ThreadManager_RestoreThread u c1 ∧
    ThreadManager_RestoreThread u c1 =
      Ok (bool_decide
            (thread_state_key_ (thread_manager_data_ c) !! u ≠ None), c2) ∧
    ThreadManager_ArchiveThread u c = Fatal ∧
    (mutex_ (thread_manager_data_ c) = None →
     (∃ c6,
        Unlocker_destroy u c = Ok (tt, c6) ∧
        committed c6 p bytes ∧
        lazily_archived_thread_ (thread_manager_data_ c6) = INVALID ∧
        (id_of c u ≠ 0 →
         ∃ c7,
           Unlocker_Unlocker u c6 = Ok (tt, c7) ∧
           lazily_archived_thread_ (thread_manager_data_ c7) = Identity u ∧
           lazily_archived_thread_state_ (thread_manager_data_ c7) ≠ Some p ∧
           committed c7 p bytes)) ∧
     (last_id_ (thread_manager_data_ c) < 2 ^ 31 - 1 →
      ∃ this c3 post,
        Locker_Locker u c = Ok (this, c3) ∧
        has_lock_ this = true ∧
        top_level_ this =
          bool_decide
            (thread_state_key_ (thread_manager_data_ c) !! u = None) ∧
        trace c3 =
          trace c ++ (if is_running c then [] else [EvV8Initialize]) ++
          (EvArchive <$> subsystem_order) ++ post ∧
        (∀ s, EvArchive s ∉ post) ∧
        committed c3 p bytes ∧
        lazily_archived_thread_ (thread_manager_data_ c3) = INVALID ∧
        (∃ c4,
           Unlocker_Unlocker u c3 = Ok (tt, c4) ∧
           lazily_archived_thread_ (thread_manager_data_ c4) = Identity u ∧
           lazily_archived_thread_state_ (thread_manager_data_ c4) ≠ Some p ∧
           committed c4 p bytes ∧
           trace c4 = trace c3) ∧
        (∃ c5,
           Locker_destroy u this c3 = Ok (tt, c5) ∧
           committed c5 p bytes ∧
           lazily_archived_thread_ (thread_manager_data_ c5) =
             (if top_level_ this then INVALID else Identity u)))).
Proof.
  intros Hdebug Hreach Hlz Hne Hfill bytes.
  destruct (reachable_Inv c Hdebug Hreach) as (fl & ul & Hinv).
  pose proof (inv_lazy _ _ _ Hinv) as Hl. unfold lazy_slot_ok in Hl.
  rewrite Hlz in Hl.
  destruct (lazily_archived_thread_state_ (thread_manager_data_ c))
    as [p|] eqn:Hls; [|done].
  destruct (EagerlyArchiveThread_result c u fl ul p Hinv Hls Hfill)
    as (c1 & Hrun & Hinv1 & Htr & Hlive & Hdata & Hflag & _ & Hkey & Hlz1 & Hls1).
  destruct (RestoreThread_invalid_run c1 u fl (p :: ul) Hinv1 Hlz1) as (c2 & Hrest).
  destruct (Inv_lists _ _ _ Hinv) as [Hfl Hul].
  destruct (Inv_lists _ _ _ Hinv1) as [Hfl1 Hul1].
  exists p, c1, c2. split_and!; try done.
  - by rewrite Hul1, Hul.
  - by rewrite Hfl1, Hfl.
  - by eapply RestoreThread_forces_eager.
  - by rewrite <- Hkey.
  - unfold ThreadManager_ArchiveThread. run_unfold. rewrite Hlz.
    unfold IsValid. rewrite bool_decide_true by done. simpl.
    by rewrite ASSERT_false.
  - intros Hmutex.
    assert (Howner : mutex_owner_ (thread_manager_data_ c) = INVALID).
    { pose proof (reachable_consistent c Hreach) as Hc.
      unfold lock_consistent in Hc. by rewrite Hmutex in Hc. }
    split.
    + set (cL := with_tmd (set_mutex_owner (Identity u))
                   (with_tmd (set_mutex (Some u)) c)).
      assert (HinvL : Inv cL fl ul).
      { eapply Inv_same_links; [|exact Hinv]. done. }
      destruct (RestoreThread_commits cL u t p fl ul HinvL Hlz Hls Hne Hfill)
        as (c6 & fl6 & ul6 & post & Hrun6 & Hinv6 & Hp6 & Hdata6 & Hlz6 & Htls6
            & Hcv6 & _).
      apply control_view_fields in Hcv6 as (Hm6 & Ho6 & Hl6 & Hk6 & _).
      exists c6. split_and!.
      * unfold Unlocker_destroy. run_unfold. unfold IsSelf. rewrite Howner.
        rewrite (bool_decide_false (INVALID = Identity u)) by done. simpl.
        rewrite ASSERT_true by done.
        rewrite (Lock_run u c) by done. fold cL. by rewrite Hrun6.
      * by eapply committed_Inv.
      * done.
      * intros Hid.
        destruct (ArchiveThread_Unlock_keeps c6 u p bytes fl6 ul6)
          as (c7 & Hrun7 & Hlz7 & Hls7 & Hc7 & _); try done.
        { unfold id_of. by rewrite Hk6. }
        exists c7. split_and!; try done.
        unfold Unlocker_Unlocker. run_unfold. unfold IsSelf. rewrite Ho6.
        simpl. rewrite bool_decide_true by done.
        rewrite ASSERT_true by done. exact Hrun7.
    + intros Hlast.
      assert (Hlast' : 0 ≤ last_id_ (thread_manager_data_ c) < 2 ^ 31 - 1).
      { split; [|done]. pose proof (inv_ids _ _ _ Hinv u) as [[? ?] _]. lia. }
      destruct (Locker_commits c u t p fl ul Hdebug Hinv Hmutex Howner Hlz Hls
                  Hne Hfill Hlast')
        as (c3 & fl3 & ul3 & post & Hrun3 & Hinv3 & Hp3 & Hdata3 & Hlz3 & Htls3
            & Hm3 & Ho3 & Hid3 & Htr3 & Hpost).
      destruct (ArchiveThread_Unlock_keeps c3 u p bytes fl3 ul3)
        as (c4 & Hrun4 & Hlz4 & Hls4 & Hc4 & Htr4); try done.
      eexists _, c3, post. split; [exact Hrun3|]. simpl.
      split_and!; try done.
      * by eapply committed_Inv.
      * exists c4. split_and!; try done.
        unfold Unlocker_Unlocker. run_unfold. unfold IsSelf. rewrite Ho3.
        rewrite bool_decide_true by done.
        rewrite ASSERT_true by done. exact Hrun4.
      * destruct (thread_state_key_ (thread_manager_data_ c) !! u) as [q|] eqn:Htls.
        -- rewrite (bool_decide_false (Some q = None)) by done.
           exists c4. split_and!; try done.
           unfold Locker_destroy. run_unfold. unfold IsSelf. rewrite Ho3.
           rewrite bool_decide_true by done.
           rewrite ASSERT_true by done. simpl. exact Hrun4.
        -- rewrite (bool_decide_true (None = None)) by done.
           destruct (Locker_destroy_top_run c3 u Hm3 Ho3) as (l & tr & Hrun5).
           eexists. split; [exact Hrun5|]. split; [|done].
           apply (committed_Inv _ p bytes fl3 ul3); [|done|done].
           eapply Inv_same_links; [|exact Hinv3]. done.
Qed.

End Forced_archive_paths.

Lemma forced_eager_archive_witness :
  let c := sample_after true [CallLocker 1%nat; CallUnlocker 1%nat] in
  let bytes :=
    (@archive_seq (sample_build true)
       (@subsystem_order (sample_build true)) (live c)).1 in
  ∃ (c1 : @V8Context (sample_build true)) this c3 c4,
    ThreadManager_EagerlyArchiveThread 2%nat c = Ok (tt, c1) ∧
    in_use_list c1 = 2%nat :: in_use_list c ∧
    ThreadManager_RestoreThread 2%nat c = ThreadManager_RestoreThread 2%nat c1 ∧
    ThreadManager_ArchiveThread 2%nat c = Fatal ∧
    Locker_Locker 2%nat c = Ok (this, c3) ∧
    committed c3 2%nat bytes ∧
    Unlocker_Unlocker 2%nat c3 = Ok (tt, c4) ∧
    lazily_archived_thread_ (thread_manager_data_ c4) = Identity 2%nat ∧
    committed c4 2%nat bytes.
Proof.
  intros c bytes.
  assert (Hafter : after [CallLocker 1%nat; CallUnlocker 1%nat] new_V8Context
                   = Ok c) by (vm_compute; reflexivity).
  destruct (forced_eager_archive c 1%nat 2%nat eq_refl
              (after_reachable _ _ Hafter))
    as (p & c1 & c2 & H1 & H2 & H3 & _ & _ & _ & _ & _ & H9 & _ & H11 & Hguard).
  - vm_compute. reflexivity.
  - lia.
  - intros s _ _. apply (sample_contract true s).
  - assert (p = 2%nat) as -> by (vm_compute in H1; congruence).
    destruct Hguard as [_ Hlocker]; [vm_compute; reflexivity|].
    destruct Hlocker as (this & c3 & post & H12 & _ & _ & _ & _ & H13 & _
                         & (c4 & H14 & H15 & _ & H16 & _) & _);
      [vm_compute; reflexivity|].
    exists c1, this, c3, c4. split_and!; assumption.
Defined.

(** ** What a call adds to the trace *)
Section Trace_frame.
Context `{B : Build}.
Implicit Types (c : V8Context) (s : Subsystem) (P : Event → Prop).

Lemma appends_refl P c : appends P c c.
Proof. exists []. by rewrite app_nil_r. Qed.

Lemma appends_trans P c1 c2 c3 :
  appends P c1 c2 → appends P c2 c3 → appends P c1 c3.
Proof.
  intros (e1 & H1 & F1) (e2 & H2 & F2). exists (e1 ++ e2).
  split; [by rewrite H2, H1, app_assoc|by apply Forall_app].
Qed.

Lemma appends_mono P Q c c' :
  (∀ e, P e → Q e) → appends P c c' → appends Q c c'.
Proof.
  intros HPQ (evs & H & F). exists evs. split; [done|].
  eapply Forall_impl; [exact F|done].
Qed.

Lemma appends_same P c c' : trace c' = trace c → appends P c c'.
Proof. intros H. exists []. by rewrite app_nil_r. Qed.

Lemma appends_emit P e c c' :
  P e → trace c' = trace c ++ [e] → appends P c c'.
Proof. intros He H. exists [e]. split; [done|by constructor]. Qed.

Lemma store_trace p upd c r c' :
  store p upd c = Ok (r, c') → trace c' = trace c.
Proof. intros Hrun. apply store_Ok in Hrun as (s & Hs & ->). done. Qed.

Lemma new_ThreadState_trace c r c' :
  new_ThreadState c = Ok (r, c') → trace c' = trace c.
Proof. unfold new_ThreadState. intros Hrun. by simplify_eq. Qed.

Lemma memcpy_to_trace c to bytes r c' :
  memcpy_to to bytes c = Ok (r, c') → trace c' = trace c.
Proof.
  unfold memcpy_to. intros Hrun. run_inv Hrun.
  case_decide; [|by unfold fatal in Hrun]. by apply store_trace in Hrun.
Qed.

End Trace_frame.

Ltac to_trace :=
  repeat match goal with
  | H : store _ _ _ = Ok _ |- _ => apply store_trace in H
  | H : new_ThreadState _ = Ok _ |- _ => apply new_ThreadState_trace in H
  | H : memcpy_to _ _ _ = Ok _ |- _ => apply memcpy_to_trace in H
  | H : memcpy_from _ _ _ = Ok _ |- _ => apply memcpy_from_same in H; subst
  end.

Ltac solve_trace := to_trace; simpl in *; congruence.

Section Trace_frame_operations.
Context `{B : Build}.
Implicit Types (c : V8Context) (s : Subsystem) (P : Event → Prop).

Lemma Unlink_trace p c r c' :
  ThreadState_Unlink p c = Ok (r, c') → trace c' = trace c.
Proof. unfold ThreadState_Unlink. intros Hrun. run_inv Hrun. solve_trace. Qed.

Lemma LinkInto_trace p list c r c' :
  ThreadState_LinkInto p list c = Ok (r, c') → trace c' = trace c.
Proof. unfold ThreadState_LinkInto. intros Hrun. run_inv Hrun. solve_trace. Qed.

Lemma GetFree_trace c r c' :
  ThreadState_GetFree c = Ok (r, c') → trace c' = trace c.
Proof.
  unfold ThreadState_GetFree, ThreadState_AllocateSpace. intros Hrun.
  run_inv Hrun. case_bool_decide; run_inv Hrun; solve_trace.
Qed.

Lemma Lock_trace self c r c' :
  ThreadManager_Lock self c = Ok (r, c') → trace c' = trace c.
Proof.
  unfold ThreadManager_Lock. intros Hrun. run_inv Hrun.
  match goal with H : Mutex_Lock _ _ = Ok _ |- _ =>
    apply Mutex_Lock_Ok in H as [_ ->] end.
  done.
Qed.

Lemma Unlock_trace self c r c' :
  ThreadManager_Unlock self c = Ok (r, c') → trace c' = trace c.
Proof.
  unfold ThreadManager_Unlock. intros Hrun. run_inv Hrun.
  apply Mutex_Unlock_Ok in Hrun as [_ ->]. done.
Qed.

Lemma AssignId_trace self c r c' :
  ThreadManager_AssignId self c = Ok (r, c') → trace c' = trace c.
Proof. intros Hrun. by apply AssignId_frame in Hrun as (? & _). Qed.

Lemma ArchiveThread_trace self c r c' :
  ThreadManager_ArchiveThread self c = Ok (r, c') → trace c' = trace c.
Proof.
  unfold ThreadManager_ArchiveThread. intros Hrun. run_inv Hrun.
  repeat match goal with
  | H : ThreadState_GetFree _ = Ok _ |- _ => apply GetFree_trace in H
  | H : ThreadState_Unlink _ _ = Ok _ |- _ => apply Unlink_trace in H
  end.
  solve_trace.
Qed.

Lemma StackGuard_call_quiet k c r c' :
  StackGuard_call k c = Ok (r, c') → appends not_Archive c c'.
Proof.
  unfold StackGuard_call. intros Hrun. run_inv Hrun.
  by apply (appends_emit _ (EvStackGuard k)).
Qed.

Lemma V8_Initialize_quiet c r c' :
  V8_Initialize c = Ok (r, c') → appends not_Archive c c'.
Proof.
  unfold V8_Initialize. intros Hrun. run_inv Hrun.
  by apply (appends_emit _ EvV8Initialize).
Qed.

Lemma Restore_at_quiet s from c r c' :
  Restore_at s from c = Ok (r, c') → appends not_Archive c c'.
Proof.
  intros Hrun.
  assert (Hext : ∀ s', ext_Restore s' from c = Ok (r, c') →
                       appends not_Archive c c').
  { intros s' H. unfold ext_Restore in H. run_inv H. to_trace.
    by apply (appends_emit _ (EvRestore s')). }
  destruct s; try (by eapply Hext).
  simpl in Hrun. unfold RegExpStack_RestoreStack in Hrun. run_inv Hrun.
  to_trace. by apply (appends_emit _ (EvRestore RegExpStack)).
Qed.

Lemma Restore_all_quiet {A} order : ∀ from (k : Cursor → M A) c r c',
  Restore_all order from k c = Ok (r, c') →
  ∃ from' c1, appends not_Archive c c1 ∧ k from' c1 = Ok (r, c').
Proof.
  induction order as [|s order IH]; intros from k c r c' Hrun.
  - exists from, c. split; [apply appends_refl|done].
  - cbn [Restore_all] in Hrun. apply bind_Ok in Hrun as (f1 & c1 & H1 & Hrun).
    apply Restore_at_quiet in H1.
    destruct (IH _ _ _ _ _ Hrun) as (from' & c2 & H2 & Hk).
    exists from', c2. split; [by eapply appends_trans|done].
Qed.

Lemma Archive_at_grows s to c r c' :
  Archive_at s to c = Ok (r, c') → appends (λ _, True) c c'.
Proof.
  intros Hrun.
  assert (Hext : ∀ s', ext_Archive s' to c = Ok (r, c') →
                       appends (λ _, True) c c').
  { intros s' H. unfold ext_Archive in H. run_inv H.
    destruct (Archive _ _) as [bytes rest]. run_inv H.
    match goal with H : memcpy_to _ _ _ = Ok _ |- _ =>
      apply memcpy_to_trace in H end.
    apply (appends_emit _ (EvArchive s')); [done|]. simpl. congruence. }
  destruct s; try (by eapply Hext).
  simpl in Hrun. unfold RegExpStack_ArchiveStack in Hrun. run_inv Hrun.
  match goal with H : memcpy_to _ _ _ = Ok _ |- _ =>
    apply memcpy_to_trace in H end.
  apply (appends_emit _ (EvArchive RegExpStack)); [done|]. simpl. congruence.
Qed.

Lemma Archive_all_grows {A} order : ∀ to (k : Cursor → M A) c r c',
  Archive_all order to k c = Ok (r, c') →
  ∃ to' c1, appends (λ _, True) c c1 ∧ k to' c1 = Ok (r, c').
Proof.
  induction order as [|s order IH]; intros to k c r c' Hrun.
  - exists to, c. split; [apply appends_refl|done].
  - cbn [Archive_all] in Hrun. apply bind_Ok in Hrun as (to1 & c1 & H1 & Hrun).
    apply Archive_at_grows in H1.
    destruct (IH _ _ _ _ _ Hrun) as (to' & c2 & H2 & Hk).
    exists to', c2. split; [by eapply appends_trans|done].
Qed.

Lemma EagerlyArchiveThread_grows self c r c' :
  ThreadManager_EagerlyArchiveThread self c = Ok (r, c') →
  appends (λ _, True) c c'.
Proof.
  rewrite EagerlyArchiveThread_sequence. intros Hrun.
  apply bind_Ok in Hrun as (st & c1 & H1 & Hrun). run_inv H1.
  apply bind_Ok in Hrun as (p & c2 & H2 & Hrun). run_inv H2.
  apply bind_Ok in Hrun as (u & c3 & H3 & Hrun).
  apply LinkInto_trace in H3.
  apply Archive_all_grows in Hrun as (to' & c4 & H4 & Hrun).
  run_inv Hrun.
  eapply appends_trans; [by apply appends_same|].
  eapply appends_trans; [exact H4|]. by apply appends_same.
Qed.

Lemma RestoreThread_reset_quiet p (terminate : bool) c r c' :
  (if terminate
   then (StackGuard_call TerminateExecution;;
         store p (set_terminate_on_restore false))
   else mret tt) c = Ok (r, c') →
  appends not_Archive c c'.
Proof.
  intros Hrun. destruct terminate; run_inv Hrun; [|apply appends_refl].
  match goal with H : StackGuard_call _ _ = Ok _ |- _ =>
    apply StackGuard_call_quiet in H end.
  eapply appends_trans; [done|]. apply appends_same. solve_trace.
Qed.

(** [RestoreThread] runs an [Archive] only if there is a lazy candidate and
    the caller is not it. *)
Lemma RestoreThread_quiet self c r c' :
  ThreadManager_RestoreThread self c = Ok (r, c') →
  appends (λ _, True) c c' ∧
  (IsValid (lazily_archived_thread_ (thread_manager_data_ c)) = false ∨
   IsSelf self (lazily_archived_thread_ (thread_manager_data_ c)) = true →
   appends not_Archive c c').
Proof.
  rewrite RestoreThread_sequence. intros Hrun.
  apply bind_Ok in Hrun as (lazy & c1 & H1 & Hrun). run_inv H1.
  destruct (IsSelf self _) eqn:Hself.
  - assert (appends not_Archive c c') as Hq.
    { run_inv Hrun.
      match goal with H : ThreadState_LinkInto _ _ _ = Ok _ |- _ =>
        apply LinkInto_trace in H end.
      apply appends_same. solve_trace. }
    split; [|done]. eapply appends_mono; [|exact Hq]. done.
  - apply bind_Ok in Hrun as (lazy' & c2 & H2 & Hrun). run_inv H2.
    apply bind_Ok in Hrun as (u & c3 & H3 & Hrun).
    assert (appends not_Archive c3 c') as Hrest.
    { apply bind_Ok in Hrun as (st & c4 & H4 & Hrun). run_inv H4.
      destruct (_ !! self) as [p|].
      - apply Restore_all_quiet in Hrun as (from' & c5 & H5 & Hrun).
        eapply appends_trans; [exact H5|].
        run_inv Hrun.
        repeat match goal with
        | H : ThreadState_LinkInto _ _ _ = Ok _ |- _ => apply LinkInto_trace in H
        | H : ThreadState_Unlink _ _ = Ok _ |- _ => apply Unlink_trace in H
        | H : (if _ then _ else _) _ = Ok _ |- _ =>
            apply RestoreThread_reset_quiet in H
        end.
        to_trace.
        match goal with H : appends _ _ _ |- _ =>
          eapply appends_trans; [|eapply appends_trans; [exact H|]] end;
          apply appends_same; simpl in *; congruence.
      - run_inv Hrun.
        match goal with H : StackGuard_call _ _ = Ok _ |- _ =>
          by apply StackGuard_call_quiet in H end. }
    destruct (IsValid _) eqn:Hvalid.
    + split.
      * eapply appends_trans; [by eapply EagerlyArchiveThread_grows|].
        eapply appends_mono; [|exact Hrest]. done.
      * intros [?|?]; done.
    + run_inv H3. split; [eapply appends_mono; [|exact Hrest]; done|done].
Qed.

Lemma FreeThreadResources_quiet c r c' :
  ThreadManager_FreeThreadResources c = Ok (r, c') → appends not_Archive c c'.
Proof.
  intros Hrun.
  unfold ThreadManager_FreeThreadResources, ext_FreeThreadResources,
    RegExpStack_FreeThreadResources, ThreadLocal_Free in Hrun.
  destruct ENABLE_DEBUGGER_SUPPORT; run_inv Hrun;
    repeat match goal with
    | H : (if _ then _ else _) _ = Ok _ |- _ => case_bool_decide; run_inv H
    end;
    (eexists; split; [simpl; rewrite <- ?app_assoc; reflexivity|];
     repeat constructor; done).
Qed.

Lemma TerminateExecution_from_trace thread_id fuel : ∀ st c r c',
  TerminateExecution_from fuel thread_id st c = Ok (r, c') →
  trace c' = trace c.
Proof.
  induction fuel as [|fuel IH]; intros [p|] c r c' Hrun; simpl in Hrun;
    try (by run_inv Hrun); try done.
  run_inv Hrun.
  match goal with H : ThreadState_Next _ _ = Ok _ |- _ =>
    apply ThreadState_Next_same in H; subst end.
  apply IH in Hrun. rewrite Hrun.
  case_bool_decide; run_inv Hrun0; solve_trace.
Qed.

Lemma TerminateExecution_trace thread_id c r c' :
  ThreadManager_TerminateExecution thread_id c = Ok (r, c') →
  trace c' = trace c.
Proof.
  unfold ThreadManager_TerminateExecution, ThreadState_FirstInUse.
  intros Hrun. run_inv Hrun.
  match goal with H : ThreadState_Next _ _ = Ok _ |- _ =>
    apply ThreadState_Next_same in H; subst end.
  by eapply TerminateExecution_from_trace.
Qed.

(** The lazy slot as a [Lock] leaves it. *)
Lemma Lock_lazy self c r c' :
  ThreadManager_Lock self c = Ok (r, c') →
  lazily_archived_thread_ (thread_manager_data_ c') =
  lazily_archived_thread_ (thread_manager_data_ c).
Proof.
  unfold ThreadManager_Lock. intros Hrun. run_inv Hrun.
  match goal with H : Mutex_Lock _ _ = Ok _ |- _ =>
    apply Mutex_Lock_Ok in H as [_ ->] end.
  done.
Qed.

Lemma Locker_Locker_quiet self c r c' :
  Locker_Locker self c = Ok (r, c') →
  appends (λ _, True) c c' ∧
  (IsValid (lazily_archived_thread_ (thread_manager_data_ c)) = false ∨
   IsSelf self (lazily_archived_thread_ (thread_manager_data_ c)) = true →
   appends not_Archive c c').
Proof.
  unfold Locker_Locker. intros Hrun.
  apply bind_Ok in Hrun as ([] & cA & H1 & Hrun). run_inv H1.
  apply bind_Ok in Hrun as (locked & cB & H2 & Hrun). run_inv H2.
  apply bind_Ok in Hrun as (this & cC & H3 & Hrun).
  assert (Htail : trace c' = trace cC).
  { run_inv Hrun.
    match goal with H : ThreadManager_AssignId _ _ = Ok _ |- _ =>
      by apply AssignId_trace in H end. }
  assert (Hbody :
    appends (λ _, True) (set_active true c) cC ∧
    (IsValid (lazily_archived_thread_ (thread_manager_data_ c)) = false ∨
     IsSelf self (lazily_archived_thread_ (thread_manager_data_ c)) = true →
     appends not_Archive (set_active true c) cC)).
  { destruct (negb _).
    - apply bind_Ok in H3 as ([] & cL & HL & H3).
      pose proof (Lock_lazy _ _ _ _ HL) as HlzL. apply Lock_trace in HL.
      apply bind_Ok in H3 as (running & cR & HR & H3).
      unfold V8_IsRunning in HR. run_inv HR.
      apply bind_Ok in H3 as ([] & cI & HI & H3).
      assert (HqI : appends not_Archive cL cI ∧
                    lazily_archived_thread_ (thread_manager_data_ cI) =
                    lazily_archived_thread_ (thread_manager_data_ cL)).
      { destruct (negb _).
        - split; [by eapply V8_Initialize_quiet|].
          unfold V8_Initialize in HI. by run_inv HI.
        - run_inv HI. split; [apply appends_refl|done]. }
      destruct HqI as [HqI HlzI].
      apply bind_Ok in H3 as (restored & cT & HT & H3).
      apply RestoreThread_quiet in HT as [HgT HqT].
      rewrite HlzI, HlzL in HqT. simpl in HqT.
      assert (HqF : appends not_Archive cT cC).
      { destruct restored; run_inv H3; [apply appends_refl|].
        repeat match goal with H : StackGuard_call _ _ = Ok _ |- _ =>
          apply StackGuard_call_quiet in H end.
        by eapply appends_trans. }
      split.
      + eapply appends_trans; [by apply appends_same|].
        eapply appends_trans; [eapply appends_mono; [|exact HqI]; done|].
        eapply appends_trans; [exact HgT|].
        eapply appends_mono; [|exact HqF]. done.
      + intros Hc. eapply appends_trans; [by apply appends_same|].
        eapply appends_trans; [exact HqI|].
        eapply appends_trans; [by apply HqT|]. exact HqF.
    - run_inv H3. split; [apply appends_refl|intros _; apply appends_refl]. }
  destruct Hbody as [Hg Hq]. split.
  - eapply appends_trans; [by apply (appends_same _ c (set_active true c))|].
    eapply appends_trans; [exact Hg|]. by apply appends_same.
  - intros Hc.
    eapply appends_trans; [by apply (appends_same _ c (set_active true c))|].
    eapply appends_trans; [by apply Hq|]. by apply appends_same.
Qed.

Lemma Locker_destroy_quiet self this c r c' :
  Locker_destroy self this c = Ok (r, c') → appends not_Archive c c'.
Proof.
  unfold Locker_destroy. intros Hrun. run_inv Hrun.
  destruct (has_lock_ this); [|run_inv Hrun; apply appends_refl].
  apply bind_Ok in Hrun as ([] & c1 & H1 & Hrun).
  apply Unlock_trace in Hrun.
  eapply appends_trans; [|by apply appends_same].
  destruct (top_level_ this).
  - by eapply FreeThreadResources_quiet.
  - apply appends_same. by eapply ArchiveThread_trace.
Qed.

Lemma Unlocker_Unlocker_trace self c r c' :
  Unlocker_Unlocker self c = Ok (r, c') → trace c' = trace c.
Proof.
  unfold Unlocker_Unlocker. intros Hrun. run_inv Hrun.
  match goal with H : ThreadManager_ArchiveThread _ _ = Ok _ |- _ =>
    apply ArchiveThread_trace in H end.
  apply Unlock_trace in Hrun. congruence.
Qed.

Lemma Unlocker_destroy_quiet self c r c' :
  Unlocker_destroy self c = Ok (r, c') →
  appends (λ _, True) c c' ∧
  (IsValid (lazily_archived_thread_ (thread_manager_data_ c)) = false ∨
   IsSelf self (lazily_archived_thread_ (thread_manager_data_ c)) = true →
   appends not_Archive c c').
Proof.
  unfold Unlocker_destroy. intros Hrun. run_inv Hrun.
  match goal with H : ThreadManager_Lock _ _ = Ok _ |- _ =>
    pose proof (Lock_lazy _ _ _ _ H) as HlzL; apply Lock_trace in H;
    rename H into HL end.
  match goal with H : ThreadManager_RestoreThread _ _ = Ok _ |- _ =>
    apply RestoreThread_quiet in H as [Hg Hq] end.
  rewrite HlzL in Hq. split.
  - eapply appends_trans; [by apply appends_same|exact Hg].
  - intros Hc. eapply appends_trans; [by apply appends_same|by apply Hq].
Qed.

(** The calls that can run an [Archive]: [EagerlyArchiveThread] itself, and
    the three that run [RestoreThread], when a thread other than the caller
    is the lazy candidate. *)
Lemma call_quiet k c c' :
  call k c = Ok (tt, c') →
  appends (λ _, True) c c' ∧
  ((∀ self, k ≠ CallEagerlyArchiveThread self) →
   (∀ u, k = CallRestoreThread u ∨ k = CallLocker u ∨
         k = CallUnlockerDestroy u →
         IsValid (lazily_archived_thread_ (thread_manager_data_ c)) = false ∨
         IsSelf u (lazily_archived_thread_ (thread_manager_data_ c)) = true) →
   appends not_Archive c c').
Proof.
  assert (Hw : ∀ c c', appends not_Archive c c' → appends (λ _, True) c c').
  { intros ? ?. by apply appends_mono. }
  destruct k; simpl; intros Hrun.
  - apply Lock_trace in Hrun. split; intros; by apply appends_same.
  - apply Unlock_trace in Hrun. split; intros; by apply appends_same.
  - apply AssignId_trace in Hrun. split; intros; by apply appends_same.
  - apply ArchiveThread_trace in Hrun. split; intros; by apply appends_same.
  - split; [by eapply EagerlyArchiveThread_grows|]. intros Hk. by destruct (Hk self).
  - apply bind_Ok in Hrun as (r & c1 & Hrun & Hret). run_inv Hret.
    apply RestoreThread_quiet in Hrun as [Hg Hq]. split; [done|].
    intros _ Hc. apply Hq. apply (Hc self). by left.
  - apply FreeThreadResources_quiet in Hrun. split; [by apply Hw|done].
  - apply TerminateExecution_trace in Hrun. split; intros; by apply appends_same.
  - apply bind_Ok in Hrun as (r & c1 & Hrun & Hret). run_inv Hret.
    apply Locker_Locker_quiet in Hrun as [Hg Hq]. split; [done|].
    intros _ Hc. apply Hq. apply (Hc self). by right; left.
  - apply Locker_destroy_quiet in Hrun. split; [by apply Hw|done].
  - apply Unlocker_Unlocker_trace in Hrun. split; intros; by apply appends_same.
  - apply Unlocker_destroy_quiet in Hrun as [Hg Hq]. split; [done|].
    intros _ Hc. apply Hq. apply (Hc self). by right; right.
Qed.

End Trace_frame_operations.

(** ** The constructor of an [Unlocker] *)
Section Unlocker_claim.
Context `{B : Build}.
Implicit Types (c d : V8Context) (p q : ptr) (u : Thread).

(** While [self] is the lazy candidate, a call that returns runs an
    [Archive] only if it is [EagerlyArchiveThread], or the [RestoreThread],
    the constructor of a [Locker] or the destructor of an [Unlocker] of
    another thread. *)
Lemma Archive_only_for_another self d k d' :
  lazily_archived_thread_ (thread_manager_data_ d) = Identity self →
  call k d = Ok (tt, d') →
  ∃ evs,
    trace d' = trace d ++ evs ∧
    ((∃ s, EvArchive s ∈ evs) →
     (∃ v, k = CallEagerlyArchiveThread v) ∨
     ∃ u, u ≠ self ∧
          (k = CallRestoreThread u ∨ k = CallLocker u ∨
           k = CallUnlockerDestroy u)).
Proof.
  intros Hlz Hcall. destruct (call_quiet _ _ _ Hcall) as [(evs & Htr & _) Hq].
  exists evs. split; [done|]. intros (s & Hin).
  assert (Hno : appends not_Archive d d' → False).
  { intros (evs' & Htr' & Hall). rewrite Htr in Htr'.
    apply app_inv_head in Htr' as ->.
    rewrite Forall_forall in Hall. by apply (Hall _ Hin s). }
  assert (Hself : ∀ u, u = self →
    IsValid (lazily_archived_thread_ (thread_manager_data_ d)) = false ∨
    IsSelf u (lazily_archived_thread_ (thread_manager_data_ d)) = true).
  { intros u ->. right. rewrite Hlz. unfold IsSelf. by apply bool_decide_eq_true. }
  destruct k as [t|t|t|t|t|t| |id|t|t this|t|t];
    try (exfalso; apply Hno, Hq; [intros ?; discriminate|];
         intros u [?|[?|?]]; discriminate).
  - left. by exists t.
  - destruct (decide (t = self)) as [Heq|Hne].
    + exfalso. apply Hno, Hq; [intros ?; discriminate|].
      intros u [[= <-]|[?|?]]; try discriminate. by apply Hself.
    + right. exists t. split; [done|]. by left.
  - destruct (decide (t = self)) as [Heq|Hne].
    + exfalso. apply Hno, Hq; [intros ?; discriminate|].
      intros u [?|[[= <-]|?]]; try discriminate. by apply Hself.
    + right. exists t. split; [done|]. by right; left.
  - destruct (decide (t = self)) as [Heq|Hne].
    + exfalso. apply Hno, Hq; [intros ?; discriminate|].
      intros u [?|[?|[= <-]]]; try discriminate. by apply Hself.
    + right. exists t. split; [done|]. by right; right.
Qed.

(** C3, as the code has it: constructing an [Unlocker] archives the
    thread lazily and releases the lock.  A ThreadState is taken off the
    head of the free list, or allocated when the list is empty, and is left
    outside both lists; it is recorded as the lazy candidate under the
    thread's key, with the thread's id written into it and its buffer as it
    was.  No subsystem is called and the live state stays.  The owner record
    and the mutex are released.  The [Archive] functions run later if at
    all: when another thread calls [RestoreThread], which runs
    [EagerlyArchiveThread] on this state before anything else; not when the
    thread itself calls [RestoreThread]; and, as long as the thread is the
    candidate, in no call but [EagerlyArchiveThread] and the calls of another
    thread that run [RestoreThread]. *)
Theorem Unlocker_archives_lazily c self :
  DEBUG = true →
  reachable c →
  observes_locked self c = true →
  mutex_ (thread_manager_data_ c) = Some self →
  lazily_archived_thread_ (thread_manager_data_ c) = INVALID →
  thread_state_key_ (thread_manager_data_ c) !! self = None →
  id_of c self ≠ 0 →
  ∃ p c',
    Unlocker_Unlocker self c = Ok (tt, c') ∧
    (free_list c = p :: free_list c' ∧
     length (thread_states c') = length (thread_states c) ∧
     data_ <$> thread_states c' !! p = data_ <$> thread_states c !! p
     ∨
     free_list c = [] ∧ free_list c' = [] ∧
     p = length (thread_states c) ∧
     length (thread_states c') = S (length (thread_states c)) ∧
     data_ <$> thread_states c' !! p =
       Some (replicate ArchiveSpacePerThread_ Byte.x00)) ∧
    lazily_archived_thread_ (thread_manager_data_ c') = Identity self ∧
    lazily_archived_thread_state_ (thread_manager_data_ c') = Some p ∧
    thread_state_key_ (thread_manager_data_ c') !! self = Some p ∧
    id_ <$> thread_states c' !! p = Some (id_of c self) ∧
    in_both_lists c' p = 0%nat ∧
    in_use_list c' = in_use_list c ∧
    trace c' = trace c ∧ live c' = live c ∧
    mutex_owner_ (thread_manager_data_ c') = INVALID ∧
    mutex_ (thread_manager_data_ c') = None ∧
    (∀ u, u ≠ self →
       (∀ s, s ∈ subsystem_order → s ≠ RegExpStack → Archive_fills s) →
       ∃ c1 r c2,
         ThreadManager_EagerlyArchiveThread u c' = Ok (tt, c1) ∧
         trace c1 = trace c' ++ (EvArchive <$> subsystem_order) ∧
         data_ <$> thread_states c1 !! p =
           Some (archive_seq subsystem_order (live c)).1 ∧
         in_use_list c1 = p :: in_use_list c ∧
         ThreadManager_RestoreThread u c' = ThreadManager_RestoreThread u c1 ∧
         ThreadManager_RestoreThread u c1 = Ok (r, c2)) ∧
    (∃ c2, ThreadManager_RestoreThread self c' = Ok (true, c2) ∧
           trace c2 = trace c') ∧
    (∀ d k d',
       lazily_archived_thread_ (thread_manager_data_ d) = Identity self →
       call k d = Ok (tt, d') →
       ∃ evs,
         trace d' = trace d ++ evs ∧
         ((∃ s, EvArchive s ∈ evs) →
          (∃ v, k = CallEagerlyArchiveThread v) ∨
          ∃ u, u ≠ self ∧
               (k = CallRestoreThread u ∨ k = CallLocker u ∨
                k = CallUnlockerDestroy u))).
Proof.
  intros Hdebug Hreach Hlock Hmutex Hlz Hself Hid.
  destruct (reachable_Inv c Hdebug Hreach) as (fl & ul & Hinv).
  destruct (ArchiveThread_run_exact c self fl ul Hinv Hlz Hself Hid)
    as (p & h' & sp & fl0 & c1 & Hrun & Hts & Hsp & Hpay & Hlen & Hcase
        & Hold & Hls).
  destruct (ArchiveThread_Inv _ _ _ _ _ Hdebug Hinv Hrun)
    as (p' & fl' & Hinv1 & Hcase' & Hls' & Hlz1 & Htr & Hlive).
  rewrite Hls in Hls'. injection Hls' as <-.
  assert (Hls0 : lazily_archived_thread_state_ (thread_manager_data_ c) = None).
  { pose proof (inv_lazy _ _ _ Hinv) as Hl. unfold lazy_slot_ok in Hl.
    rewrite Hlz in Hl.
    by destruct (lazily_archived_thread_state_ (thread_manager_data_ c)). }
  destruct (ArchiveThread_mutex c self fl ul c1 Hinv Hls0 Hrun) as (Hm & _).
  assert (Hm1 : mutex_ (thread_manager_data_ c1) = Some self)
    by (by rewrite Hm).
  destruct (ArchiveThread_key _ _ _ _ Hrun) as (p' & Hls' & Hkey).
  rewrite Hls in Hls'. injection Hls' as <-.
  pose proof (Unlock_run self c1 Hm1) as Hun.
  set (c' := with_tmd (set_mutex None)
               (with_tmd (set_mutex_owner INVALID) c1)) in *.
  assert (Hinv' : Inv c' fl' ul).
  { eapply Inv_same_links; [|exact Hinv1]. done. }
  destruct (Inv_lists _ _ _ Hinv) as [Hfl Hul].
  destruct (Inv_lists _ _ _ Hinv') as [Hfl' Hul'].
  assert (Hlt : (p < length h')%nat) by (by eapply lookup_lt_Some).
  assert (Hlz' : lazily_archived_thread_ (thread_manager_data_ c') = Identity self)
    by done.
  assert (Hls' : lazily_archived_thread_state_ (thread_manager_data_ c') = Some p)
    by done.
  exists p, c'. split.
  { unfold Unlocker_Unlocker. run_unfold. fold (observes_locked self c).
    rewrite Hlock, ASSERT_true by done. rewrite Hrun. exact Hun. }
  split.
  { rewrite Hfl, Hfl'. change (thread_states c') with (thread_states c1).
    rewrite Hts, length_insert, list_lookup_insert_eq by done. simpl.
    unfold payload in Hpay. injection Hpay as _ _.
    destruct Hcase as [[-> Hl]|(-> & -> & Hp & Hl & Hd)].
    - destruct Hcase' as [[= <-]|(? & _)]; [|done]. left. split_and!; try done.
      assert (Hpl : (p < length (thread_states c))%nat) by lia.
      specialize (Hold p Hpl). rewrite Hsp in Hold.
      destruct (thread_states c !! p) as [y|]; [|done]. simpl in *.
      unfold payload in Hold. by injection Hold as _ _ ->.
    - destruct Hcase' as [[=]|(_ & -> & _)]. right. split_and!; try done.
      by rewrite Hd. }
  split_and!; try done.
  - change (thread_state_key_ (thread_manager_data_ c'))
      with (thread_state_key_ (thread_manager_data_ c1)).
    rewrite Hkey. apply lookup_insert_eq.
  - change (thread_states c') with (thread_states c1).
    by rewrite Hts, list_lookup_insert_eq.
  - pose proof (inv_shape _ _ _ Hinv') as Hs.
    unfold in_both_lists. rewrite Hfl', Hul'.
    unfold lazy_list in Hs. rewrite Hls' in Hs.
    destruct Hs as [Hnd _ _ _].
    apply list.NoDup_cons in Hnd as [_ Hnd]. apply list.NoDup_cons in Hnd as [_ Hnd].
    apply NoDup_app in Hnd as (_ & Hd1 & Hnd). apply NoDup_app in Hnd as (_ & Hd2 & _).
    rewrite !bool_decide_false; [done| |].
    + intros Hin. apply (Hd2 p Hin). set_solver.
    + intros Hin. apply (Hd1 p Hin). set_solver.
  - by rewrite Hul, Hul'.
  - intros u Hne Hfill.
    destruct (EagerlyArchiveThread_result c' u fl' ul p Hinv' Hls' Hfill)
      as (cE & HrunE & HinvE & HtrE & _ & HdataE & _ & _ & _ & HlzE & _).
    destruct (RestoreThread_invalid_run cE u fl' (p :: ul) HinvE HlzE)
      as (c2 & Hrest).
    destruct (Inv_lists _ _ _ HinvE) as [_ HulE].
    pose proof (RestoreThread_forces_eager c' u self cE Hlz' (not_eq_sym Hne)
                  HrunE HlzE) as Hforce.
    eexists cE, _, c2.
    split; [exact HrunE|]. split; [exact HtrE|].
    split; [rewrite HdataE; change (live c') with (live c1); by rewrite Hlive|].
    split; [by rewrite HulE, Hul|]. split; [exact Hforce|exact Hrest].
  - destruct (RestoreThread_lazy_run c' self fl' ul Hinv' Hlz')
      as (p0 & sp0 & h0 & _ & _ & Hrest & _).
    eexists. split; [exact Hrest|done].
  - intros d k d'. apply Archive_only_for_another.
Qed.

End Unlocker_claim.

Lemma Unlocker_archives_lazily_witness :
  ∃ (c' c1 : @V8Context (sample_build true)),
    Unlocker_Unlocker 1%nat sample_locked = Ok (tt, c') ∧
    trace c' = trace sample_locked ∧
    lazily_archived_thread_ (thread_manager_data_ c') = Identity 1%nat ∧
    mutex_ (thread_manager_data_ c') = None ∧
    ThreadManager_EagerlyArchiveThread 2%nat c' = Ok (tt, c1) ∧
    trace c1 =
      trace c' ++ (EvArchive <$> @subsystem_order (sample_build true)) ∧
    ThreadManager_RestoreThread 2%nat c' = ThreadManager_RestoreThread 2%nat c1.
Proof.
  destruct (Unlocker_archives_lazily sample_locked 1%nat eq_refl
              (after_reachable _ _ sample_locked_after))
    as (p & c' & H1 & _ & H2 & _ & _ & _ & _ & _ & H8 & _ & _ & H11
        & Hlater & _).
  - vm_compute. reflexivity.
  - vm_compute. reflexivity.
  - vm_compute. reflexivity.
  - vm_compute. reflexivity.
  - vm_compute. discriminate.
  - destruct (Hlater 2%nat) as (c1 & r & c2 & H12 & H13 & _ & _ & H14 & _);
      [lia|intros s _ _; apply (sample_contract true s)|].
    exists c', c1. split_and!; assumption.
Defined.

(** ** The constructor of a [Locker] *)
Section Locker_claim.
Context `{B : Build}.
Implicit Types (c d : V8Context).

(** What the constructor of a [Locker] returns: the initial record when the
    thread held the lock; otherwise the lock was taken, [RestoreThread] was
    called in the context that taking the lock and initializing V8 left,
    [top_level_] is false exactly if it returned true, and the stack guard
    was initialized exactly if it returned false. *)
Lemma Locker_Locker_returns self d this d' :
  Locker_Locker self d = Ok (this, d') →
  if observes_locked self d then this = mkLocker false true
  else
    ∃ dI restored d2,
      (modify (set_active true);;
       ThreadManager_Lock self;;
       running ← V8_IsRunning;
       (if negb running then V8_Initialize else mret tt)) d = Ok (tt, dI) ∧
      ThreadManager_RestoreThread self dI = Ok (restored, d2) ∧
      this = mkLocker true (negb restored) ∧
      trace d' =
        trace d2 ++
        (if restored then []
         else [EvStackGuard ClearThread; EvStackGuard InitThread]).
Proof.
  unfold Locker_Locker. intros Hrun.
  apply bind_Ok in Hrun as ([] & cA & H1 & Hrun). run_inv H1.
  apply bind_Ok in Hrun as (locked & cB & H2 & Hrun). run_inv H2.
  apply bind_Ok in Hrun as (this' & cC & H3 & Hrun).
  assert (Htail : this = this' ∧ trace d' = trace cC).
  { run_inv Hrun.
    match goal with H : ThreadManager_AssignId _ _ = Ok _ |- _ =>
      by apply AssignId_trace in H end. }
  destruct Htail as [-> Htail].
  change (IsSelf self (mutex_owner_ (thread_manager_data_ (set_active true d))))
    with (observes_locked self d) in H3.
  destruct (observes_locked self d); simpl in H3.
  - by run_inv H3.
  - apply bind_Ok in H3 as ([] & cL & HL & H3).
    apply bind_Ok in H3 as (running & cR & HR & H3).
    apply bind_Ok in H3 as ([] & cI & HI & H3).
    apply bind_Ok in H3 as (restored & cT & HT & H3).
    exists cI, restored, cT. split_and!.
    + rewrite (bind_run _ _ d tt (set_active true d)) by done.
      rewrite (bind_run _ _ _ _ _ HL). rewrite (bind_run _ _ _ _ _ HR).
      exact HI.
    + done.
    + destruct restored; by run_inv H3.
    + rewrite Htail. destruct restored; run_inv H3; [by rewrite app_nil_r|].
      repeat match goal with H : StackGuard_call _ _ = Ok _ |- _ =>
        unfold StackGuard_call in H; run_inv H end.
      simpl. by rewrite <- app_assoc.
Qed.

(** C5, as the code has it: a [Locker] constructed by the thread that
    holds the lock has [has_lock_] false and keeps [top_level_] at its
    initial value, true; nothing is restored, no stack guard is initialized,
    no list is touched; and its destructor does nothing.  [top_level_] is
    false only in a [Locker] that took the lock and whose [RestoreThread]
    returned true: the constructor of a [Locker], on any context, leaves the
    initial record if the thread held the lock, and otherwise takes the lock,
    calls [RestoreThread] and sets [top_level_] to false if that returned
    true and leaves it true if not. *)
Theorem nested_Locker c self :
  observes_locked self c = true →
  (∀ this c', Locker_Locker self c = Ok (this, c') →
     has_lock_ this = false ∧ top_level_ this = true ∧
     trace c' = trace c ∧ thread_states c' = thread_states c ∧
     archive_view (thread_manager_data_ c') =
       archive_view (thread_manager_data_ c) ∧
     Locker_destroy self this c' = Ok (tt, c')) ∧
  (id_of c self ≠ 0 →
     Locker_Locker self c = Ok (mkLocker false true, set_active true c)) ∧
  (∀ d this d', Locker_Locker self d = Ok (this, d') →
     (top_level_ this = false →
      has_lock_ this = true ∧ observes_locked self d = false) ∧
     if observes_locked self d then this = mkLocker false true
     else
       ∃ dI restored d2,
         (modify (set_active true);;
          ThreadManager_Lock self;;
          running ← V8_IsRunning;
          (if negb running then V8_Initialize else mret tt)) d = Ok (tt, dI) ∧
         ThreadManager_RestoreThread self dI = Ok (restored, d2) ∧
         this = mkLocker true (negb restored) ∧
         trace d' =
           trace d2 ++
           (if restored then []
            else [EvStackGuard ClearThread; EvStackGuard InitThread])).
Proof.
  intros Hlock. unfold observes_locked in Hlock. split_and!.
  - intros this c' Hrun. unfold Locker_Locker in Hrun.
    apply bind_Ok in Hrun as ([] & cA & H1 & Hrun). run_inv H1.
    apply bind_Ok in Hrun as (locked & cB & H2 & Hrun). run_inv H2.
    simpl in Hrun. rewrite Hlock in Hrun. simpl in Hrun.
    run_inv Hrun.
    match goal with H : ThreadManager_AssignId _ _ = Ok _ |- _ =>
      apply AssignId_frame in H as (Ht & Hs & Hv & Ho & Hm & Ha) end.
    simpl in *. split_and!; try done.
    unfold Locker_destroy. run_unfold. simpl. rewrite Ho, Hlock.
    by rewrite ASSERT_true.
  - intros Hid. unfold Locker_Locker. run_unfold. simpl. rewrite Hlock. simpl.
    rewrite ASSERT_true by done.
    rewrite (AssignId_has_id (set_active true c) self) by done. done.
  - intros d this d' Hrun. pose proof (Locker_Locker_returns _ _ _ _ Hrun) as Hret.
    split; [|exact Hret].
    destruct (observes_locked self d); [by subst|].
    destruct Hret as (dI & restored & d2 & _ & _ & -> & _). done.
Qed.

End Locker_claim.

Lemma nested_Locker_witness :
  let d := sample_after true [CallLocker 1%nat; CallUnlocker 1%nat] in
  Locker_Locker 1%nat sample_locked =
    Ok (mkLocker false true, set_active true sample_locked) ∧
  ∃ (d' dI d2 : @V8Context (sample_build true)),
    Locker_Locker 1%nat d = Ok (mkLocker true false, d') ∧
    ThreadManager_RestoreThread 1%nat dI = Ok (true, d2) ∧
    trace d' = trace d2.
Proof.
  intros d.
  destruct (nested_Locker sample_locked 1%nat) as (_ & Hnested & Hany).
  - vm_compute. reflexivity.
  - split; [apply Hnested; vm_compute; discriminate|].
    destruct (Locker_Locker 1%nat d) as [[this d']| | |] eqn:Hrun;
      try (vm_compute in Hrun; discriminate).
    destruct (Hany d this d' Hrun) as [_ Hret].
    assert (Hd : observes_locked 1%nat d = false) by (vm_compute; reflexivity).
    rewrite Hd in Hret.
    destruct Hret as (dI & restored & d2 & _ & Hrest & -> & Htr).
    assert (restored = true) as ->.
    { destruct restored; [done|]. vm_compute in Hrun. discriminate. }
    exists d', dI, d2. split_and!; [done|done|by rewrite Htr, app_nil_r].
Defined.
